(* ===== verification/_CoqProject ===== *)
-Q . S2P
Prelude.v
GoStrings.v
Netip.v
Environment.v
Filesystem.v
FilesystemLaws.v
FilesystemContract.v
Coordinator.v
Locking.v
Traffic.v
OnDemandPolicy.v
Hub.v
TimeText.v
TimeParse.v
Alerts.v
Database.v
OnDemandStore.v
OnDemandLaws.v
AutoUpdateStore.v
AutoUpdateLaws.v
OperationStore.v
Reading.v
DatabaseLaws.v
Redaction.v
Operation.v
OperationLaws.v
Tracked.v
ContainerStates.v
Monitoring.v
MonitoringSources.v
MonitoringLaws.v
SourceLaws.v
Auth.v
AuthLaws.v
Repository.v
RepositoryLaws.v
Compose.v
Lifecycle.v
ComposeLaws.v
LifecycleLaws.v
Stacks.v
StackLaws.v
Controller.v
ControllerLaws.v
Scheduler.v
SchedulerLaws.v
OnDemandService.v
OnDemandServiceLaws.v
DisableLaws.v
SelfGuard.v
Updates.v
UpdateImages.v
UpdateVerify.v
OperationAlerts.v
AutoUpdate.v
ControlPlane.v
UpdateExample.v
UpdateRunLaws.v
ControlLaws.v
SelfGuardLaws.v
UpdateLaws.v
UpdateVerifyLaws.v
UpdateImagesLaws.v
OnDemandRuntime.v
