(* ===== verification/Prelude.v ===== *)
(** * Porty: a verification library for the server

    Porty (src/internal, src/cmd) administers Docker Compose stacks: it keeps
    stacks, operations, deployments, alerts and automation policies in one
    SQLite database, runs operations in the background, streams events to
    browsers, updates images on a schedule, and puts groups of containers to
    sleep until traffic arrives.  This library models the parts that decide:
    the state each part keeps, what its operations do to it, and when they
    refuse.

    ** How the program is modelled

    - A pure Go function is a Gallina function; a Go error is a value of
      [Prelude.error] and a fallible function returns [Prelude.result].
      [error] has a constructor per sentinel error, [ErrWrap] for [%w], and
      [ErrText] for a message without a sentinel; operands that are merely
      formatted into a message are left out.
    - A method that talks to the database is a computation of the monad
      [Prelude.M]: it passes the tables and a counter of ticks.  Every
      statement, reading of the clock and draw of randomness consumes a tick;
      the world ([World]) says at every tick what the clock shows, what is
      drawn and whether the statement fails.  So each theorem holds for every
      schedule of failures; those that need the calls to succeed say
      [Faultless], those that need unguessable randomness say [Unpredictable]
      (both are satisfied by the world [calm]).
    - A transaction is [atomically] or [transact]: it restores the tables when
      its body fails or its commit does.  The pool has a single connection, so
      that transactions do not overlap; statements outside a transaction are
      calls of their own, but two calls of one operation are not interleaved
      with those of another operation.
    - Concurrency inside a component is an inductive [step] relation over the
      component's state and the ghost history the theorems speak of; its
      interleavings are the reachable states of [star step].
    - Machine integers are [Z] with [wrap64], [wrapU64], [wrapU32] where the
      code relies on their width; revisions and counters of the database are
      unbounded.  A time is the number of nanoseconds since the year 1 (the
      zero [time.Time] is 0).  Channels are bounded queues with a closed flag,
      and each operation says whether it blocked or panicked.
    - Strings are byte strings; [GoStrings] and [Netip] define the functions of
      the packages strings, utf8 and netip that the program calls.

    ** The parts and their files

    - [Coordinator]: operation/deployment.go, the lock on stacks.
    - [Traffic]: traffic/listener.go, the listeners that wait for traffic.
    - [OnDemandPolicy]: ondemand/types.go and policy.go, the check of policies
      and the tracker that decides when a group sleeps or wakes.
    - [Hub]: websocket/hub.go, publication and replay of events.
    - [TimeText]: the text form of times in the database (encodeTime).
    - [Alerts]: alert/*.go and sqlite/alert_store.go.
    - [Database]: the tables of sqlite/migrations and the records shared by the
      stores; [OnDemandStore], [AutoUpdateStore], [OperationStore] are the
      stores over them (sqlite/*_store.go, on_demand_interlock.go,
      on_demand_completion.go, update_execution_store.go,
      autoupdate/schedule.go); [OnDemandLaws] and [AutoUpdateLaws] hold their
      invariants, and [DatabaseLaws] the theorems about all stores together:
      [DatabaseLaws.step] serves any call of any store.
    - [Redaction], [Operation], [OperationLaws]: operation/operation.go and
      deployment.go, the background operations and deployments.
    - [Auth], [AuthLaws]: auth/auth.go and sqlite/auth_store.go.
    - [Controller], [ControllerLaws]: ondemand/controller.go, a step for what is
      done under a worker's mutex ([loop_step] is runGroup, [call_step] the rest).
    - [OnDemandService], [OnDemandServiceLaws], [DisableLaws]:
      control/on_demand.go, between the store, the controller, the lock, the
      operations and the runtime, an interface that [OnDemandRuntime] implements
      with [Compose] and [Lifecycle].
    - [Tracked]: the common frame of the operations that the control plane
      starts under the lock: admission, start, execution, waiting, release.
      [Reading]: the operations of the store that change nothing.
    - [AutoUpdate], [OperationAlerts], [UpdateRunLaws]: control/auto_update.go,
      auto_update_policy.go, update_recovery.go and the alerts of their
      operations: a scheduled run from its first look at the stack to the end
      of its operation, and the recovery after a restart.
    - [ControlPlane], [ControlLaws]: control/control.go, containers.go,
      operation_alerts.go and deployment_review.go: the requests of users, from
      the lock to the end of their operations ([ControlPlane.Started] is an
      accepted operation with what its goroutine runs).  [ContainerStates]:
      state.go and on_demand_status.go, what containers say about a stack.
    - [Scheduler], [SchedulerLaws]: autoupdate/scheduler.go and policy.go.
    - [Environment]: filesystem/environment.go and the digest of
      compose/project.go.
    - [Filesystem], [FilesystemLaws], [FilesystemContract]: filesystem/manager.go
      over a file system of directories, files and links; the calls of os.Root
      look up paths in it ([Filesystem.resolve]).
    - [Stacks], [StackLaws]: stack/stack.go and workspace.go over the files,
      the stack store, the environment check and the lock.
    - [Compose], [ComposeLaws]: compose/on_demand.go, which services may sleep
      together, their order and their endpoints.
    - [Lifecycle], [LifecycleLaws]: compose/on_demand_lifecycle.go, starting and
      stopping them; every call that changes a container is recorded.
    - [Updates], [UpdateImages], [UpdateVerify]: compose/update_*.go, which
      updates of images a stack admits, their application and verification;
      [UpdateLaws], [UpdateImagesLaws], [UpdateVerifyLaws] their laws,
      [UpdateExample] a small registry and engine to evaluate them.
    - [SelfGuard], [SelfGuardLaws]: compose/self_guard.go and
      on_demand_host.go, which keep Porty away from its own containers.
    - [Locking]: what every operation under the coordinator's lock begins and
      ends with, and its laws for any state that contains a coordinator.
    - [Repository], [RepositoryLaws]: repository/*.go and
      sqlite/repository_store.go, the setup of the repository and its use.
    ** What the theorems show

    The invariants of the database hold whatever calls the stores served and
    whichever failed: on-demand groups are consistent with the operations that
    own them and never overlap; update runs only move forward; alerts match
    their history; sessions are bounded by their login.  Completion of an
    operation, the interlock with manual operations and the recovery after a
    restart are single steps with the stated effect on every branch.
    Operations terminate, report their result faithfully and never store a
    secret; admission excludes conflicting operations; the hub neither panics
    nor loses an event without telling; a wake is sent once and only after
    the threshold; a group is only put to sleep after real silence.  The order
    of the stored texts of times is determined exactly, which shows where the
    queries misorder moments of the same second.
    A worker holds ports only for the revision it has and never while it is
    suspended; a suspension lasts as long as the policy in the database does,
    unless the worker was just reading a policy in between, in which case it is
    lost; the workers follow the groups, four observe and two act at a time.
    A transition of a group always accounts for the group, its containers, its
    ports and the lock; a group can be switched off whatever Docker answers.
    The scheduler checks a run at most once, in the order of admission and
    only within its window.
    A request of a user is refused without a trace or accepted under the lock,
    which its operation gives back; the operation does what was asked, on the
    stack that was asked, and only where the stack allows it; a reviewed
    deployment deploys what was reviewed; sleep is shown of whole groups only.
    A run of automatic updates recreates nothing without the same evidence
    twice, the second time under the lock, and its intent in the database; it
    ends settled or blocks all further updates; a restart settles what was
    interrupted and never calls it updated.
    The services of a group are put in a topological order, which exists
    unless there is a cycle; a snapshot describes a closed and uniform group;
    starting and stopping it follow the order whatever the Docker engine
    answers, and starting ends.  Environments can be read back.
    The operations on files refine their abstract effect
    ([FilesystemLaws.Effect]): they follow no link, stay inside their stack and
    outside of its repository, replace files as a whole and refuse the writer
    who has not seen what a file holds; the walk of a tree ends early at a
    regular file named ".git", which the code does not mean to do.
    An update recreates the services whose images change and no other, with
    images by digest; what was prepared is never refused by the checks of its
    application; a verification without an error has seen the whole stack run
    with the images meant, and verifications end.
    The guard lets a project pass only if every running container was asked
    for Porty's secret file; it never forgets its own project.
    The calls of the workspace service have their effect on the records and on
    the directories both, or report an error and leave the records; a stack
    whose directory is gone cannot be deleted, though the code means it to be.
    The stored repository configuration is the one that is loaded; a setup
    stores before it switches, and the remote is reachable exactly when the
    stored configuration has one.
    ** Fuel

    The functions on strings recurse on the text and skip what a longer match
    has consumed.  Two definitions take fuel: [Netip.ipv6_groups], of which
    eight rounds fill the sixteen bytes of an address, and
    [TimeText.ndigits] with 20 digits for years that have at most 12.
    [Compose.visit] has as much as there are services, and two more;
    [Lifecycle.await] has four rounds a second of the timeout, and two more.
    That both suffice is proved ([order_cases], [starting_ends]).
    [UpdateVerify.poll] has a round a second for five minutes, and two more
    ([verification_ends]).
    [Filesystem.walk] has the depth that the limits allow, and one more, where
    the code refuses as well.
    ** Parameters

    SHA-256, base64 and tokens ([Auth.Crypto], [Auth.Tokens]), the password
    hash ([Auth.Hasher]), the parser of cron expressions
    ([AutoUpdateStore.Cron]), the compose runtime
    ([Operation.Deployments.ComposeRuntime]), [strings.ToLower], and the text
    of an error are arguments; the laws that a theorem needs of them are the
    classes [CryptoLaws] and [TokensLaws].  The work of an operation is an
    arbitrary function on the tables.
    [Compose.OnDemandDocker] is the Docker engine with arbitrary answers,
    [ComposeApi] the labels and ports of the Docker API, [Lifecycle.Waiting]
    contexts and timers ([LifecycleLaws.Timely] says that time passes),
    [Environment.Digests] the JSON form of a project and SHA-256.
    [OnDemandService.OnDemandRuntime] is the runtime of the on-demand service
    ([OnDemandServiceLaws.RuntimeLaws]: its observations start and stop
    nothing, which [OnDemandRuntime.client_laws] proves for the client),
    [OnDemandRuntime.Loader] is compose-go's project loader and
    [OnDemandRuntime.HostGuard] the proof that Porty is on the host's network.
    [ControlPlane.RuntimeController] is the compose runtime as users' requests
    see it, [ControlPlane.Loader] compose-go's loader, [Encoding] the JSON forms
    and [Signing] HMAC-SHA256 ([ControlLaws.ReviewLaws]: the JSON form keeps
    texts apart and the code does not collide).
    [AutoUpdate.UpdateRuntime] is the runtime of the automatic updates
    ([UpdateRunLaws.RuntimeLaws]: everything but [ApplyUpdate] recreates
    nothing), [Repository.GitRepository] the repository in use.
    [Scheduler.Executor] and [Scheduler.PolicyValidator] are the control plane
    as the scheduler and the policies see it.
    [Updates.Images] is the grammar of image references, platforms and digests,
    [UpdateDocker], [UpdateImages.ImageDocker] and [Updates.UpdateEngine] the
    Docker engine, the registry and Compose with arbitrary answers at every
    moment, [UpdateImages.Errdefs] the classification of errors;
    [UpdateLaws.ImagesLaws] says that the empty digest is invalid and
    that a reference with a digest is read back as one,
    [UpdateVerifyLaws.Ticking] that time passes while the verification waits.
    [SelfGuard.GuardDocker], [GuardFiles], [TarReader] and [NativeNetwork] are
    the engine, the marker file, the archive reader and the host's network.
    [Repository.Provisioner] and [Repository.GitRepository] are the interfaces
    that the Git client implements, with arbitrary answers at every moment;
    [RepositoryLaws.ProvisionerLaws] says what the setup relies on (remotes
    that it configures are managed and named, and removing one leaves none).
    [Filesystem.Links] says where a link leads if a call follows it, [Umask]
    and [FileHash] are the process's umask and SHA-256 in hexadecimal.
    [Stacks.StackShutdown] is the compose runtime that takes a stack down.
    [Repository.Mail] is net/mail's address parser.
    ** Not modelled

    JSON columns and NULLs are read back as they were written; a CHECK on the
    length of a column is implied by the validation before it; the aliasing of
    slices (alerts of a result are redacted in place) is not modelled; the
    context of a request only appears as an error of the work.
    The guard's creation of its marker file is left out, and nobody else uses
    the guard between the two critical sections of [CheckOnDemandHost].
    A service of a Compose project is named by its key, as the loader does.
    In the controller contexts end only by cancellation, and a probe or a
    transition may take any time.
    An operation of a user runs from its acceptance to its end without other
    operations of the server in between; [ContainerStates.ToLower] lowers ASCII
    letters; elements that are equal in all keys of a sort have no order.
    In a run of automatic updates nobody else acts between the first look at
    the stack and the end of the operation: what the two looks compare is the
    answers of the runtime and of Git, which are arbitrary at every moment.
    The caller may stop waiting ([gaveUp]), which is seen after the operation's
    end; the runs that ReconcileUpdates finishes are in one order.
    In the on-demand service an execution runs from its admission to its end
    without another operation of the server in between.
    In the file system a write and each other call happens as a whole or not
    at all, nobody else changes the files while an operation runs, and owners,
    times and the permissions of directories are left out.
    The HTTP routes decode and encode; generated queries are modelled in the
    stores; the collectors of monitoring read kernel files; the git client
    wraps a third-party library; the user interface is TypeScript. *)

From Stdlib Require Export ZArith Lia Ascii String.
From stdpp Require Export base tactics decidable gmap strings list option numbers sorting pretty.

#[export] Set Default Goal Selector "!".
#[export] Set Warnings "-clear-no-such-hyp".

(** ** Errors

    One constructor per sentinel error of the packages under src/internal that
    the components return, and three for failures that have no sentinel. *)
Inductive error :=
| ErrDriver                       (* a call of database/sql, crypto/rand or the context failed *)
| ErrNoRows                       (* sql.ErrNoRows *)
| ErrConstraint                   (* an SQL constraint was violated *)
| ErrText (s : string)            (* errors.New / fmt.Errorf without a sentinel *)
| ErrExternal (s : string)        (* an error value of another program, carried along *)
| ErrWrap (e : error) (s : string) (* fmt.Errorf("%w: %s", e, s) *)
| ErrJoin (e e' : error)          (* errors.Join *)
| Context_Canceled | Context_DeadlineExceeded
| Operation_ErrConflict | Operation_ErrShuttingDown
| OnDemand_ErrInvalid | OnDemand_ErrConflict | OnDemand_ErrUnavailable
| AutoUpdate_ErrConflict | AutoUpdate_ErrInvalid | AutoUpdate_ErrUnavailable
| Alert_ErrConflict | Alert_ErrNotFound | Alert_ErrInvalid | Alert_ErrManualResolutionUnavailable
| Auth_ErrAlreadyRegistered | Auth_ErrAuthenticationFailed | Auth_ErrRateLimited
| Auth_ErrInvalidPassword | Auth_ErrInvalidUsername
| Stack_ErrNotFound | Stack_ErrInvalidEnvironment | Stack_ErrEnvironmentSecretImmutable
| Os_ErrExist | Os_ErrNotExist | Os_ErrPermission
| Files_ErrInvalidPath | Files_ErrStaleFile | Files_ErrTooLarge | Files_ErrInvalidEnvironment
| Traffic_ErrClosed
| Monitoring_ErrInvalidCursor | Monitoring_errSnapshotTooLarge | Monitoring_errSourceLimit | Monitoring_errInvalidData
| Compose_ErrPublicImageUnavailable | Compose_ErrOnDemandHostUnavailable
| Compose_ErrOnDemandIneligible | Compose_ErrProtectionUnavailable | Compose_ErrSelfProtected | Compose_ErrUpdateIneligible
| Compose_ErrUpdateVerification | Compose_ErrImageCheckFailed | Compose_ErrUpdateApplyFailed
| Control_ErrContainerNotFound | Control_ErrContainerStateConflict | Control_ErrContainerArchived
| Control_ErrUnsupportedContainerAction | Control_ErrInvalidContainerSelection
| Control_ErrStackRuntimeActionUnavailable | Control_ErrDeploymentReviewChanged
| Repo_ErrInvalidRequest | Repo_ErrSetupRequired | Repo_ErrPathNotEmpty | Repo_ErrInvalidWorktree
| Repo_ErrDetachedHead | Repo_ErrRemoteAuthenticationFailed | Repo_ErrRemoteUnavailable
| Repo_ErrSSHMaterialUnavailable | Repo_ErrUnrelatedHistory | Repo_ErrRemoteConflict
| Repo_ErrRepositoryRemoteUnavailable | Repo_ErrSetupFailed | Repo_ErrPersistenceFailed.

#[export] Instance error_eq_dec : EqDecision error.
Proof. solve_decision. Defined.

(** [errors.Is] on the wrapping the program does. *)
Fixpoint Is (e target : error) : bool :=
  bool_decide (e = target) || match e with
  | ErrWrap e' _ => Is e' target
  | ErrJoin e1 e2 => Is e1 target || Is e2 target
  | _ => false
  end.

(** ** Results: a Go pair (value, error) of which exactly one is meaningful *)
Inductive result (A : Type) :=
| Ok (a : A)
| Err (e : error).
Arguments Ok {A} a.
Arguments Err {A} e.

#[export] Instance result_ret : MRet result := fun A a => Ok a.
#[export] Instance result_bind : MBind result := fun A B k m =>
  match m with Ok a => k a | Err e => Err e end.
#[export] Instance result_fmap : FMap result := fun A B f m =>
  match m with Ok a => Ok (f a) | Err e => Err e end.

Definition is_ok {A} (r : result A) : bool := match r with Ok _ => true | Err _ => false end.

(** Inversion of a chain of results that succeeded. *)
Lemma result_bind_ok {A B} (m : result A) (k : A → result B) b :
  (m ≫= k) = Ok b → ∃ a, m = Ok a ∧ k a = Ok b.
Proof. destruct m; simpl; [eauto|discriminate]. Qed.

(** A guard [if c { return e }]. *)
Definition reject_if (c : bool) (e : error) : result unit := if c then Err e else Ok tt.

Lemma reject_if_ok c e u : reject_if c e = Ok u ↔ c = false.
Proof. destruct c, u; simpl; split; congruence. Qed.

Lemma result_bind_err {A B} (m : result A) (k : A → result B) x :
  (m ≫= k) = Err x → m = Err x ∨ ∃ a, m = Ok a ∧ k a = Err x.
Proof. destruct m; simpl; [eauto|naive_solver]. Qed.
Lemma reject_if_err c e x : reject_if c e = Err x → x = e.
Proof. destruct c; simpl; congruence. Qed.

(** [guards H] takes a successful chain of such guards apart. *)
Ltac guards H :=
  repeat (let G := fresh "G" in apply result_bind_ok in H as (? & G & H);
          first [apply reject_if_ok in G | idtac]).

(** ** Time

    A [time.Time] is the number of nanoseconds since Go's zero instant
    (1 January of year 1, UTC); a [time.Duration] is a signed 64-bit count of
    nanoseconds. *)
Definition time := Z.
Definition duration := Z.

Definition wrap64 (z : Z) : Z := ((z + 2 ^ 63) mod 2 ^ 64 - 2 ^ 63)%Z.
Definition wrapU64 (z : Z) : Z := (z mod 2 ^ 64)%Z.
Definition wrapU32 (z : Z) : Z := (z mod 2 ^ 32)%Z.

Definition Nanosecond : duration := 1%Z.
Definition Millisecond : duration := 1000000%Z.
Definition Second : duration := 1000000000%Z.
Definition Hour : duration := (3600 * Second)%Z.
Definition Minute : duration := (60 * Second)%Z.

Definition IsZero (t : time) : bool := (t =? 0)%Z.
Definition zeroTime : time := 0%Z.
Definition Before (t u : time) : bool := (t <? u)%Z.
Definition After (t u : time) : bool := (u <? t)%Z.
(** [Time.Sub] saturates at the bounds of int64. *)
Definition Sub (t u : time) : duration := Z.max (- 2 ^ 63) (Z.min (2 ^ 63 - 1) (t - u)).
Definition Add (t : time) (d : duration) : time := (t + d)%Z.

Lemma Sub_ge t u d : (- 2 ^ 63 < d ≤ 2 ^ 63 - 1)%Z → (d ≤ Sub t u)%Z ↔ (d ≤ t - u)%Z.
Proof. unfold Sub. lia. Qed.
Lemma Sub_gt t u d : (- 2 ^ 63 ≤ d < 2 ^ 63 - 1)%Z → (d < Sub t u)%Z ↔ (d < t - u)%Z.
Proof. unfold Sub. lia. Qed.

Lemma wrap64_id z : (- 2 ^ 63 ≤ z < 2 ^ 63)%Z → wrap64 z = z.
Proof. intros. unfold wrap64. rewrite Z.mod_small by lia. lia. Qed.
Lemma wrapU64_id z : (0 ≤ z < 2 ^ 64)%Z → wrapU64 z = z.
Proof. intros. unfold wrapU64. by rewrite Z.mod_small. Qed.
Lemma wrapU32_id z : (0 ≤ z < 2 ^ 32)%Z → wrapU32 z = z.
Proof. intros. unfold wrapU32. by rewrite Z.mod_small. Qed.

(** ** The outside world of an effectful computation

    Every call that leaves the program (an SQL statement, a read of
    crypto/rand, time.Now, a runtime or file-system call) is one tick.  The
    [World] says, for every tick, whether that call fails, what a random read
    encodes to and what the clock shows.  Theorems quantify over all worlds,
    hence over all placements of failures. *)
Class World := {
  fault : nat → bool;
  random : nat → string;
  clock : nat → time;
}.

(** Random values of 96 bits and more do not repeat. *)
Class Unpredictable (W : World) := random_inj : ∀ n m, random n = random m → n = m.

(** A world in which no call fails. *)
Class Faultless (W : World) := no_fault : ∀ n, fault n = false.

(** A world for examples: nothing fails, nothing repeats, one second per call. *)
Definition calm : World :=
  {| fault := λ _, false; random := λ n, pretty n; clock := λ n, (Z.of_nat n * Second + 1)%Z |}.
#[export] Instance calm_faultless : Faultless calm.
Proof. done. Qed.
#[export] Instance calm_unpredictable : Unpredictable calm.
Proof. intros n m Hr. simpl in Hr. by apply (inj pretty) in Hr. Qed.

(** ** A state-and-error monad with ticks *)
Definition M (S A : Type) : Type := S → nat → result A * (S * nat).

#[export] Instance M_ret S : MRet (M S) := fun A a s n => (Ok a, (s, n)).
#[export] Instance M_bind S : MBind (M S) := fun A B k m s n =>
  match m s n with
  | (Ok a, (s', n')) => k a s' n'
  | (Err e, sn) => (Err e, sn)
  end.

Definition fail {S A} (e : error) : M S A := fun s n => (Err e, (s, n)).
Definition lift {S A} (r : result A) : M S A := fun s n => (r, (s, n)).
Definition guard_not {S} (c : bool) (e : error) : M S unit := lift (reject_if c e).
(** [if err == target { k } ] on the error of [m]. *)
Definition catch {S A} (m : M S A) (h : error → M S A) : M S A := fun s n =>
  match m s n with
  | (Ok a, sn) => (Ok a, sn)
  | (Err e, (s', n')) => h e s' n'
  end.

(** [r, err := m]: both outcomes are values. *)
Definition attempt {S A} (m : M S A) : M S (result A) := fun s n =>
  let '(r, sn) := m s n in (Ok r, sn).
(** [defer f()]: [f] runs last, whatever [m] did. *)
Definition deferred {S A} (f : S → S) (m : M S A) : M S A := fun s n =>
  let '(r, (s', n')) := m s n in (r, (f s', n')).
Section effects.
  Context `{World} {S : Type}.

  (** A call outside the program: it fails without effect, or runs [f]. *)
Definition call {A} (f : S → result (A * S)) : M S A := fun s n =>
    if fault n then (Err ErrDriver, (s, Datatypes.S n))
    else match f s with
         | Ok (a, s') => (Ok a, (s', Datatypes.S n))
         | Err e => (Err e, (s, Datatypes.S n))
         end.

  (** [time.Now()] and [rand.Text()]: they do not fail. *)
Definition now : M S time := fun s n => (Ok (clock n), (s, Datatypes.S n)).
Definition rand_text : M S string := fun s n => (Ok (random n), (s, Datatypes.S n)).
  (** [rand.Read] followed by an encoding of the bytes: it can fail. *)
Definition rand_read : M S string := fun s n =>
    if fault n then (Err ErrDriver, (s, Datatypes.S n)) else (Ok (random n), (s, Datatypes.S n)).

  (** [tx := BeginTx; defer tx.Rollback(); body; tx.Commit()].  Rollback
      restores the state; a Commit that fails leaves nothing behind. *)
Definition atomically {A} (m : M S A) : M S A := fun s n =>
    if fault n then (Err ErrDriver, (s, Datatypes.S n))
    else match m s (Datatypes.S n) with
         | (Ok a, (s', n')) =>
             if fault n' then (Err ErrDriver, (s, Datatypes.S n')) else (Ok a, (s', Datatypes.S n'))
         | (Err e, (_, n')) => (Err e, (s, n'))
         end.
  (** The same where the body may also return early without committing (the
      flag says whether it commits). *)
Definition transact {A} (m : M S (A * bool)) : M S A := fun s n =>
    if fault n then (Err ErrDriver, (s, Datatypes.S n))
    else match m s (Datatypes.S n) with
         | (Ok (a, true), (s', n')) =>
             if fault n' then (Err ErrDriver, (s, Datatypes.S n')) else (Ok a, (s', Datatypes.S n'))
         | (Ok (a, false), (_, n')) => (Ok a, (s, n'))
         | (Err e, (_, n')) => (Err e, (s, n'))
         end.
End effects.

Lemma bind_lift {S A B} (r : result A) (k : A → M S B) :
  (lift r ≫= k) = λ s n, match r with Ok a => k a s n | Err e => (Err e, (s, n)) end.
Proof. unfold mbind, M_bind, lift. destruct r; reflexivity. Qed.

(** ** Preservation of a state predicate

    The predicate may mention the tick (which bounds the random values used
    so far) as long as it survives the passing of time. *)
Definition maintains {S A} (P : S → nat → Prop) (m : M S A) : Prop :=
  ∀ s n, P s n → P (m s n).2.1 (m s n).2.2.
Class Timeless {S} (P : S → nat → Prop) := timeless_succ : ∀ s n, P s n → P s (Datatypes.S n).

#[export] Instance timeless_const {S} (P : S → Prop) : Timeless (λ s _, P s).
Proof. by intros s n Hs. Qed.

Section maintains.
  Context `{World} {S : Type} (P : S → nat → Prop) `{!Timeless P}.

Lemma timeless_le s n m : n ≤ m → P s n → P s m.
  Proof. induction 1; [done|]. intros. by apply timeless_succ, IHle. Qed.
Lemma maintains_ret {A} (a : A) : maintains P (mret a : M S A).
  Proof. by intros s n Hs. Qed.
Lemma maintains_fail {A} e : maintains P (@fail S A e).
  Proof. by intros s n Hs. Qed.
Lemma maintains_lift {A} (r : result A) : maintains P (lift r).
  Proof. by intros s n Hs. Qed.
Lemma maintains_bind {A B} (m : M S A) (k : A → M S B) :
    maintains P m → (∀ a, maintains P (k a)) → maintains P (m ≫= k).
  Proof.
    intros Hm Hk s n Hs. specialize (Hm s n Hs). unfold mbind, M_bind.
    destruct (m s n) as [[a|e] [s' n']]; simpl in *; [by apply Hk|done].
  Qed.
Lemma maintains_catch {A} (m : M S A) h :
    maintains P m → (∀ e, maintains P (h e)) → maintains P (catch m h).
  Proof.
    intros Hm Hh s n Hs. specialize (Hm s n Hs). unfold catch.
    destruct (m s n) as [[a|e] [s' n']]; simpl in *; [done|by apply Hh].
  Qed.
Lemma maintains_now : maintains P (now : M S time).
  Proof. intros s n Hs. by apply timeless_succ. Qed.
Lemma maintains_rand_text : maintains P (rand_text : M S string).
  Proof. intros s n Hs. by apply timeless_succ. Qed.
Lemma maintains_rand_read : maintains P (rand_read : M S string).
  Proof. intros s n Hs. unfold rand_read. destruct (fault n); by apply timeless_succ. Qed.
Lemma maintains_call {A} (f : S → result (A * S)) :
    (∀ s n a s', P s n → f s = Ok (a, s') → P s' n) → maintains P (call f).
  Proof.
    intros Hf s n Hs. unfold call. destruct (fault n); [by apply timeless_succ|].
    destruct (f s) as [[a s']|e] eqn:E; simpl; apply timeless_succ; eauto.
  Qed.
Lemma maintains_if {A} (b : bool) (m1 m2 : M S A) :
    maintains P m1 → maintains P m2 → maintains P (if b then m1 else m2).
  Proof. by destruct b. Qed.
End maintains.

(** A computation never turns the clock back. *)
Definition forward {S A} (m : M S A) : Prop := ∀ s n, n ≤ (m s n).2.2.

Lemma forward_maintains {S A} (m : M S A) :
  (∀ k, maintains (λ _ n, k ≤ n) m) → forward m.
Proof. intros Hm s n. by apply (Hm n s n). Qed.

#[export] Instance timeless_tick {S} k : Timeless (λ (_ : S) n, k ≤ n).
Proof. intros s n. simpl. lia. Qed.

Lemma maintains_atomically `{World} {S A} (P : S → nat → Prop) `{!Timeless P} (m : M S A) :
  forward m → maintains P m → maintains P (atomically m).
Proof.
  intros Hf Hm s n Hs. unfold atomically. destruct (fault n); [by apply timeless_succ|].
  assert (P s (Datatypes.S n)) as Hs1 by by apply timeless_succ.
  specialize (Hm s (Datatypes.S n) Hs1). specialize (Hf s (Datatypes.S n)).
  destruct (m s (Datatypes.S n)) as [[a|e] [s' n']] eqn:E; simpl in *.
  - destruct (fault n'); simpl; apply timeless_succ; [|done].
    by apply (timeless_le P s (Datatypes.S n)).
  - by apply (timeless_le P s (Datatypes.S n)).
Qed.

(** Under rollback only a successful body has to preserve the predicate. *)
Lemma maintains_atomically_ok `{World} {S A} (P : S → nat → Prop) `{!Timeless P} (m : M S A) :
  forward m →
  (∀ s n a s' n', P s n → m s n = (Ok a, (s', n')) → P s' n') → maintains P (atomically m).
Proof.
  intros Hf Hm s n Hs. unfold atomically. destruct (fault n); [by apply timeless_succ|].
  assert (P s (Datatypes.S n)) as Hs1 by by apply timeless_succ.
  specialize (Hf s (Datatypes.S n)). destruct (m s (Datatypes.S n)) as [[a|e] [s' n']] eqn:E; simpl in *.
  - destruct (fault n'); simpl; apply timeless_succ; [by apply (timeless_le P s (Datatypes.S n))|eauto].
  - by apply (timeless_le P s (Datatypes.S n)).
Qed.

(** A transaction has the effect of its successful body, or none. *)
Lemma atomically_cases `{World} {S A} (m : M S A) s n :
  (atomically m s n).2.1 = s ∨
  ∃ a s' n', m s (Datatypes.S n) = (Ok a, (s', n')) ∧ (atomically m s n).2.1 = s'.
Proof.
  unfold atomically. destruct (fault n); [by left|].
  destruct (m s (Datatypes.S n)) as [[a|e] [s' n']] eqn:E; [|by left].
  destruct (fault n'); [by left|]. right. eauto.
Qed.

Lemma transact_cases `{World} {S A} (m : M S (A * bool)) s n :
  (transact m s n).2.1 = s ∨
  ∃ a s' n', m s (Datatypes.S n) = (Ok (a, true), (s', n')) ∧ (transact m s n).2.1 = s'.
Proof.
  unfold transact. destruct (fault n); [by left|].
  destruct (m s (Datatypes.S n)) as [[[a []]|e] [s' n']] eqn:E; [|by left..].
  destruct (fault n'); [by left|]. right. eauto.
Qed.

Lemma maintains_tx `{World} {S A} (P : S → Prop) (m : M S A) :
  maintains (λ s _, P s) m → maintains (λ s _, P s) (atomically m).
Proof.
  intros Hm s n Hs. destruct (atomically_cases m s n) as [->|(a & s' & n' & E & ->)]; [done|].
  specialize (Hm s (Datatypes.S n) Hs). by rewrite E in Hm.
Qed.
Lemma maintains_transact `{World} {S A} (P : S → Prop) (m : M S (A * bool)) :
  maintains (λ s _, P s) m → maintains (λ s _, P s) (transact m).
Proof.
  intros Hm s n Hs. destruct (transact_cases m s n) as [->|(a & s' & n' & E & ->)]; [done|].
  specialize (Hm s (Datatypes.S n) Hs). by rewrite E in Hm.
Qed.

Create HintDb pres.
#[export] Hint Resolve maintains_ret maintains_fail maintains_lift maintains_now
  maintains_rand_text maintains_rand_read maintains_if : pres.

(** ** Focusing on a part of the state *)
Class Lens (S A : Type) := {
  view : S → A;
  put : A → S → S;
  view_put a s : view (put a s) = a;
  put_view s : put (view s) s = s;
  put_put a b s : put a (put b s) = put a s;
}.

Definition zoom {S A X} `{!Lens S A} (m : M A X) : M S X := fun s n =>
  let '(r, (a, n')) := m (view s) n in (r, (put a s, n')).

Lemma zoom_ok {S A X} `{!Lens S A} (m : M A X) s n x s' n' :
  zoom m s n = (Ok x, (s', n')) →
  ∃ a, m (view s) n = (Ok x, (a, n')) ∧ s' = put a s.
Proof. unfold zoom. destruct (m (view s) n) as [r [a k]]. naive_solver. Qed.

Lemma maintains_zoom {S A X} `{!Lens S A} (P : A → nat → Prop) (m : M A X) :
  maintains P m → maintains (λ s, P (view s)) (zoom m : M S X).
Proof.
  intros Hm s n Hs. specialize (Hm _ _ Hs). unfold zoom.
  destruct (m (view s) n) as [r [a k]]. simpl in *. by rewrite view_put.
Qed.

(** A part of the state that is independent of the focus is left alone. *)
Lemma maintains_zoom_other {S A X} `{!Lens S A} (P : S → nat → Prop) `{!Timeless P} (m : M A X) :
  forward m → (∀ a s n, P s n → P (put a s) n) → maintains P (zoom m : M S X).
Proof.
  intros Hf Hp s n Hs. specialize (Hf (view s) n). unfold zoom.
  destruct (m (view s) n) as [r [a k]]. simpl in *. apply Hp. by apply (timeless_le P s n).
Qed.

Lemma forward_bind {S A B} (m : M S A) (k : A → M S B) :
  forward m → (∀ a, forward (k a)) → forward (m ≫= k).
Proof.
  intros Hm Hk s n. specialize (Hm s n). unfold mbind, M_bind.
  destruct (m s n) as [[a|e] [s' n']]; simpl in *; [|done]. specialize (Hk a s' n'). lia.
Qed.
Lemma forward_ret {S A} (a : A) : forward (mret a : M S A).
Proof. by intros s n. Qed.
Lemma forward_lift {S A} (r : result A) : forward (lift r : M S A).
Proof. by intros s n. Qed.
Lemma forward_fail {S A} e : forward (@fail S A e).
Proof. by intros s n. Qed.
Lemma forward_call `{World} {S A} (f : S → result (A * S)) : forward (call f).
Proof. intros s n. unfold call. destruct (fault n), (f s) as [[]|]; simpl; lia. Qed.
Lemma forward_now `{World} {S} : forward (now : M S time).
Proof. intros s n. simpl. lia. Qed.
Lemma forward_rand_text `{World} {S} : forward (rand_text : M S string).
Proof. intros s n. simpl. lia. Qed.
Lemma forward_rand_read `{World} {S} : forward (rand_read : M S string).
Proof. intros s n. unfold rand_read. destruct (fault n); simpl; lia. Qed.
Lemma forward_zoom {S A X} `{!Lens S A} (m : M A X) : forward m → forward (zoom m : M S X).
Proof. intros Hm s n. specialize (Hm (view s) n). unfold zoom. by destruct (m (view s) n) as [r [a k]]. Qed.
Lemma forward_catch {S A} (m : M S A) h : forward m → (∀ e, forward (h e)) → forward (catch m h).
Proof.
  intros Hm Hh s n. specialize (Hm s n). unfold catch.
  destruct (m s n) as [[a|e] [s' n']]; simpl in *; [done|]. specialize (Hh e s' n'). lia.
Qed.
Lemma forward_atomically `{World} {S A} (m : M S A) : forward m → forward (atomically m).
Proof.
  intros Hm s n. specialize (Hm s (Datatypes.S n)). unfold atomically.
  destruct (fault n); simpl; [lia|].
  destruct (m s (Datatypes.S n)) as [[a|e] [s' n']]; simpl in *; [|lia].
  destruct (fault n'); simpl; lia.
Qed.
#[export] Hint Resolve forward_ret forward_lift forward_fail forward_call forward_now
  forward_rand_text forward_rand_read forward_zoom forward_atomically : pres.

Lemma forward_guard {S} c e : forward (guard_not c e : M S unit).
Proof. apply forward_lift. Qed.
#[export] Hint Resolve forward_guard : pres.
#[export] Hint Extern 3 (forward _) => apply forward_call : pres.
(** [fwd] shows that a computation moves the tick forward. *)
Ltac fwd :=
  lazymatch goal with
  | |- forward (mbind ?k ?m) => apply (forward_bind m k); [fwd|intros; fwd]
  | |- forward (match ?x with _ => _ end) => destruct x; fwd
  | |- forward (let '_ := ?x in _) => destruct x; fwd
  | |- forward (atomically _) => apply forward_atomically; fwd
  | |- forward (zoom _) => apply forward_zoom; fwd
  | |- _ => auto with pres
  end.

(** [walk leaf] splits a preservation goal along the structure of the
    computation and leaves the calls to [leaf]. *)
Ltac walk leaf :=
  lazymatch goal with
  | |- maintains _ (mbind _ _) => apply maintains_bind; [walk leaf|intros; walk leaf]
  | |- maintains _ (catch _ _) => apply maintains_catch; [walk leaf|intros; walk leaf]
  | |- maintains _ (atomically _) => apply maintains_tx; walk leaf
  | |- maintains _ (transact _) => apply maintains_transact; walk leaf
  | |- maintains _ (mret _) => apply maintains_ret
  | |- maintains _ (fail _) => apply maintains_fail
  | |- maintains _ (lift _) => apply maintains_lift
  | |- maintains _ (guard_not _ _) => apply maintains_lift
  | |- maintains _ now => apply maintains_now; apply _
  | |- maintains _ rand_text => apply maintains_rand_text; apply _
  | |- maintains _ rand_read => apply maintains_rand_read; apply _
  | |- maintains _ (match ?x with _ => _ end) => destruct x; walk leaf
  | |- _ => leaf
  end.

(** ** Computations that leave the state as it is

    [quietly leaf] splits the goal along the structure of the computation. *)
Definition still {S A} (m : M S A) : Prop := ∀ s n, (m s n).2.1 = s.

Section still.
  Context `{World} {S : Type}.

Lemma still_run {A} (m : M S A) s n r s' n' : still m → m s n = (r, (s', n')) → s' = s.
  Proof. intros Hm E. specialize (Hm s n). by rewrite E in Hm. Qed.
Lemma still_ret {A} (a : A) : still (mret a : M S A).
  Proof. by intros s n. Qed.
Lemma still_fail {A} e : still (fail e : M S A).
  Proof. by intros s n. Qed.
Lemma still_lift {A} (r : result A) : still (lift r : M S A).
  Proof. by intros s n. Qed.
Lemma still_now : still (now : M S time).
  Proof. by intros s n. Qed.
Lemma still_rand_text : still (rand_text : M S string).
  Proof. by intros s n. Qed.
Lemma still_bind {A B} (m : M S A) (k : A → M S B) : still m → (∀ a, still (k a)) → still (m ≫= k).
  Proof.
    intros Hm Hk s n. specialize (Hm s n). unfold mbind, M_bind.
    destruct (m s n) as [[a|e] [s' n']]; simpl in *; [subst; apply Hk|done].
  Qed.
Lemma still_catch {A} (m : M S A) h : still m → (∀ e, still (h e)) → still (catch m h).
  Proof.
    intros Hm Hh s n. specialize (Hm s n). unfold catch.
    destruct (m s n) as [[a|e] [s' n']]; simpl in *; [done|subst; apply Hh].
  Qed.
Lemma still_attempt {A} (m : M S A) : still m → still (attempt m).
  Proof. intros Hm s n. specialize (Hm s n). unfold attempt. by destruct (m s n) as [r [s' n']]. Qed.
Lemma still_call {A} (f : S → result (A * S)) : (∀ s a s', f s = Ok (a, s') → s' = s) → still (call f).
  Proof.
    intros Hf s n. unfold call. destruct (fault n); [done|]. destruct (f s) as [[a s']|] eqn:E; [by apply Hf in E as ->|done].
  Qed.
End still.
Lemma still_zoom {S A X} `{!Lens S A} (m : M A X) : still m → still (zoom m : M S X).
Proof.
  intros Hm s n. unfold zoom. specialize (Hm (view s) n). destruct (m (view s) n) as [r [a k]].
  simpl in *. subst. apply put_view.
Qed.
Lemma zoomed_still {E A X} {L : Lens E A} (m : M A X) (e : E) n x e' n' :
  still m → zoom m e n = (Ok x, (e', n')) → m (view e) n = (Ok x, (view e, n')) ∧ e' = e.
Proof.
  intros Hm Hz. apply zoom_ok in Hz as (a & Hz & ->). pose proof (still_run _ _ _ _ _ _ Hm Hz) as ->. by rewrite put_view.
Qed.
Create HintDb still.
Ltac quietly leaf :=
  lazymatch goal with
  | |- still (mbind _ _) => apply still_bind; [quietly leaf|intros; quietly leaf]
  | |- still (catch _ _) => apply still_catch; [quietly leaf|intros; quietly leaf]
  | |- still (attempt _) => apply still_attempt; quietly leaf
  | |- still (zoom _) => apply still_zoom; quietly leaf
  | |- still (mret _) => apply still_ret
  | |- still (fail _) => apply still_fail
  | |- still (lift _) => apply still_lift
  | |- still (guard_not _ _) => apply still_lift
  | |- still now => apply still_now
  | |- still rand_text => apply still_rand_text
  | |- still (match ?x with _ => _ end) => destruct x; quietly leaf
  | |- _ => first [solve [eauto with still] | leaf]
  end.

(** ** Preservation by the runs that succeed

    Inside a transaction only those matter. *)
Definition secures {S A} (P : S → nat → Prop) (m : M S A) : Prop :=
  ∀ s n a s' n', P s n → m s n = (Ok a, (s', n')) → P s' n'.

Section secures.
  Context `{World} {S : Type} (P : S → nat → Prop) `{!Timeless P}.

Lemma secures_maintains {A} (m : M S A) : maintains P m → secures P m.
  Proof. intros Hm s n a s' n' Hs E. specialize (Hm s n Hs). by rewrite E in Hm. Qed.
Lemma secures_ret {A} (a : A) : secures P (mret a : M S A).
  Proof. by apply secures_maintains, maintains_ret. Qed.
Lemma secures_fail {A} e : secures P (@fail S A e).
  Proof. by apply secures_maintains, maintains_fail. Qed.
Lemma secures_lift {A} (r : result A) : secures P (lift r).
  Proof. by apply secures_maintains, maintains_lift. Qed.
Lemma secures_bind {A B} (m : M S A) (k : A → M S B) :
    secures P m → (∀ a, secures P (k a)) → secures P (m ≫= k).
  Proof.
    intros Hm Hk s n b s' n' Hs E. unfold mbind, M_bind in E.
    destruct (m s n) as [[a|e] [s1 n1]] eqn:E1; [|discriminate]. eapply Hk; [|exact E]. by eapply Hm.
  Qed.
Lemma secures_call {A} (f : S → result (A * S)) :
    (∀ s n a s', P s n → f s = Ok (a, s') → P s' n) → secures P (call f).
  Proof. intros Hf. by apply secures_maintains, maintains_call. Qed.
Lemma secures_now : secures P (now : M S time).
  Proof. by apply secures_maintains, maintains_now. Qed.
Lemma secures_rand_read : secures P (rand_read : M S string).
  Proof. by apply secures_maintains, maintains_rand_read. Qed.
Lemma secures_rand_text : secures P (rand_text : M S string).
  Proof. by apply secures_maintains, maintains_rand_text. Qed.
Lemma maintains_atomically_secures {A} (m : M S A) : forward m → secures P m → maintains P (atomically m).
  Proof. intros Hf Hm. by apply maintains_atomically_ok. Qed.
Lemma maintains_transact_secures {A} (m : M S (A * bool)) : forward m → secures P m → maintains P (transact m).
  Proof.
    intros Hf Hm s n Hs. unfold transact. destruct (fault n); [by apply timeless_succ|].
    assert (P s (Datatypes.S n)) as Hs1 by by apply timeless_succ.
    specialize (Hf s (Datatypes.S n)). specialize (Hm s (Datatypes.S n)).
    destruct (m s (Datatypes.S n)) as [[[a []]|e] [s' n']] eqn:E; simpl in *;
      [|by apply (timeless_le P s (Datatypes.S n))..].
    destruct (fault n'); simpl; apply timeless_succ; [by apply (timeless_le P s (Datatypes.S n))|eauto].
  Qed.
End secures.

Lemma forward_transact `{World} {S A} (m : M S (A * bool)) : forward m → forward (transact m).
Proof.
  intros Hm s n. specialize (Hm s (Datatypes.S n)). unfold transact.
  destruct (fault n); simpl; [lia|].
  destruct (m s (Datatypes.S n)) as [[[a []]|e] [s' n']]; simpl in *; [|lia..].
  destruct (fault n'); simpl; lia.
Qed.
#[export] Hint Resolve forward_transact : pres.

(** [stride leaf] is [walk] for [secures]; [seal leaf] also opens the
    transactions of a [maintains] goal, which need [forward] as well. *)
Ltac stride leaf :=
  lazymatch goal with
  | |- secures _ (mbind _ _) => apply secures_bind; [stride leaf|intros; stride leaf]
  | |- secures _ (mret _) => apply secures_ret
  | |- secures _ (fail _) => apply secures_fail
  | |- secures _ (lift _) => apply secures_lift
  | |- secures _ (guard_not _ _) => apply secures_lift
  | |- secures _ now => apply secures_now; apply _
  | |- secures _ rand_read => apply secures_rand_read; apply _
  | |- secures _ rand_text => apply secures_rand_text; apply _
  | |- secures _ (match ?x with _ => _ end) => destruct x; stride leaf
  | |- _ => leaf
  end.
Ltac seal leaf :=
  lazymatch goal with
  | |- maintains _ (mbind _ _) => apply maintains_bind; [seal leaf|intros; seal leaf]
  | |- maintains _ (atomically _) => apply maintains_atomically_secures; [apply _|fwd|stride leaf]
  | |- maintains _ (transact _) => apply maintains_transact_secures; [apply _|fwd|stride leaf]
  | |- maintains _ (mret _) => apply maintains_ret
  | |- maintains _ (fail _) => apply maintains_fail
  | |- maintains _ (lift _) => apply maintains_lift
  | |- maintains _ (guard_not _ _) => apply maintains_lift
  | |- maintains _ now => apply maintains_now; apply _
  | |- maintains _ rand_text => apply maintains_rand_text; apply _
  | |- maintains _ rand_read => apply maintains_rand_read; apply _
  | |- maintains _ (match ?x with _ => _ end) => destruct x; seal leaf
  | |- _ => leaf
  end.

(** ** Hoare triples

    From [P], a value satisfies [Q] and an error [R]. *)
Definition triple {S A} (P : S → nat → Prop) (m : M S A) (Q : A → S → nat → Prop) (R : S → nat → Prop) : Prop :=
  ∀ s n, P s n → match m s n with (Ok a, (s', n')) => Q a s' n' | (Err _, (s', n')) => R s' n' end.

Section triple.
  Context `{World} {S : Type}.

Lemma triple_ret {A} (P : S → nat → Prop) (a : A) (Q : A → S → nat → Prop) R :
    (∀ s n, P s n → Q a s n) → triple P (mret a) Q R.
  Proof. intros HQ s n Hs. by apply HQ. Qed.
Lemma triple_fail {A} (P : S → nat → Prop) e (Q : A → S → nat → Prop) R :
    (∀ s n, P s n → R s n) → triple P (fail e) Q R.
  Proof. intros HR s n Hs. by apply HR. Qed.
Lemma triple_lift {A} (P : S → nat → Prop) (r : result A) (Q : A → S → nat → Prop) R :
    (∀ a s n, r = Ok a → P s n → Q a s n) → (∀ s n, P s n → R s n) → triple P (lift r) Q R.
  Proof. intros HQ HR s n Hs. unfold lift. destruct r; eauto. Qed.
Lemma triple_bind {A B} (P : S → nat → Prop) (m : M S A) (k : A → M S B) Q1 Q R :
    triple P m Q1 R → (∀ a, triple (Q1 a) (k a) Q R) → triple P (m ≫= k) Q R.
  Proof.
    intros Hm Hk s n Hs. specialize (Hm s n Hs). unfold mbind, M_bind.
    destruct (m s n) as [[a|e] [s' n']]; [by apply Hk|done].
  Qed.
Lemma triple_conseq {A} (P P' : S → nat → Prop) (m : M S A) (Q Q' : A → S → nat → Prop) (R R' : S → nat → Prop) :
    triple P' m Q' R' → (∀ s n, P s n → P' s n) → (∀ a s n, Q' a s n → Q a s n) → (∀ s n, R' s n → R s n) →
    triple P m Q R.
  Proof.
    intros Hm HP HQ HR s n Hs. specialize (Hm s n (HP _ _ Hs)). destruct (m s n) as [[a|e] [s' n']]; auto.
  Qed.
Lemma triple_maintains {A} (P : S → nat → Prop) (m : M S A) :
    maintains P m ↔ triple P m (λ _, P) P.
  Proof.
    split; intros Hm s n Hs; specialize (Hm s n Hs); by destruct (m s n) as [[a|e] [s' n']].
  Qed.
Lemma triple_atomically {A} (P : S → nat → Prop) `{!Timeless P} (m : M S A) (Q : A → S → nat → Prop) `{!∀ a, Timeless (Q a)} :
    forward m → (∀ s n a s' n', P s n → m s n = (Ok a, (s', n')) → Q a s' n') → triple P (atomically m) Q P.
  Proof.
    intros Hf Hm s n Hs. unfold atomically. destruct (fault n); [by apply timeless_succ|].
    assert (P s (Datatypes.S n)) as Hs1 by by apply timeless_succ.
    specialize (Hf s (Datatypes.S n)). destruct (m s (Datatypes.S n)) as [[a|e] [s' n']] eqn:E; simpl in *.
    - destruct (fault n'); [apply timeless_succ; by apply (timeless_le P s (Datatypes.S n))|].
      apply (timeless_succ (P := Q a)). eauto.
    - by apply (timeless_le P s (Datatypes.S n)).
  Qed.
Lemma triple_transact {A} (P : S → nat → Prop) `{!Timeless P} (m : M S (A * bool)) (Q : A → S → nat → Prop) `{!∀ a, Timeless (Q a)} :
    forward m → (∀ s n a b s' n', P s n → m s n = (Ok (a, b), (s', n')) → Q a (if b then s' else s) n') →
    triple P (transact m) Q P.
  Proof.
    intros Hf Hm s n Hs. unfold transact. destruct (fault n); [by apply timeless_succ|].
    assert (P s (Datatypes.S n)) as Hs1 by by apply timeless_succ.
    specialize (Hf s (Datatypes.S n)). specialize (Hm s (Datatypes.S n)).
    destruct (m s (Datatypes.S n)) as [[[a []]|e] [s' n']] eqn:E; simpl in *.
    - destruct (fault n'); [apply timeless_succ; by apply (timeless_le P s (Datatypes.S n))|].
      apply (timeless_succ (P := Q a)). by apply (Hm a true).
    - by apply (Hm a false s' n').
    - by apply (timeless_le P s (Datatypes.S n)).
  Qed.
End triple.

Lemma triple_zoom {S A X} `{!Lens S A} (P : A → nat → Prop) (m : M A X) (Q : X → A → nat → Prop) R :
  triple P m Q R → triple (λ s, P (view s)) (zoom m : M S X) (λ x s, Q x (view s)) (λ s, R (view s)).
Proof.
  intros Hm s n Hs. specialize (Hm _ _ Hs). unfold zoom.
  destruct (m (view s) n) as [[x|e] [a k]]; by rewrite view_put.
Qed.

(** ** Runs from a known state

    From the state [s], whatever the tick: a value satisfies [Q] with the state
    that follows, an error satisfies [R]. *)
Definition from {S A} (s : S) (m : M S A) (Q : A → S → Prop) (R : error → S → Prop) : Prop :=
  ∀ n, match m s n with (Ok a, (s', _)) => Q a s' | (Err e, (s', _)) => R e s' end.

Section from.
  Context `{World} {S : Type}.

Lemma from_conseq {A} (s : S) (m : M S A) (Q Q' : A → S → Prop) (R R' : error → S → Prop) :
    from s m Q' R' → (∀ a s', Q' a s' → Q a s') → (∀ e s', R' e s' → R e s') → from s m Q R.
  Proof. intros Hm HQ HR n. specialize (Hm n). destruct (m s n) as [[a|e] [s' n']]; auto. Qed.
Lemma from_ret {A} (s : S) (a : A) (Q : A → S → Prop) (R : error → S → Prop) : Q a s → from s (mret a) Q R.
  Proof. by intros HQ n. Qed.
Lemma from_fail {A} (s : S) e (Q : A → S → Prop) (R : error → S → Prop) : R e s → from s (fail e) Q R.
  Proof. by intros HR n. Qed.
Lemma from_bind {A B} (s : S) (m : M S A) (k : A → M S B) Q1 R1 (Q : B → S → Prop) (R : error → S → Prop) :
    from s m Q1 R1 → (∀ e s', R1 e s' → R e s') → (∀ a s', Q1 a s' → from s' (k a) Q R) → from s (m ≫= k) Q R.
  Proof.
    intros Hm HR Hk n. specialize (Hm n). unfold mbind, M_bind. destruct (m s n) as [[a|e] [s' n']]; [|auto].
    by apply (Hk a s' Hm n').
  Qed.
Lemma from_guard {B} (s : S) (c : bool) e (k : unit → M S B) (Q : B → S → Prop) (R : error → S → Prop) :
    (c = true → R e s) → (c = false → from s (k tt) Q R) → from s (guard_not c e ≫= k) Q R.
  Proof. intros HR Hk n. unfold mbind, M_bind, guard_not, lift, reject_if. destruct c; [by apply HR|by apply Hk]. Qed.
Lemma from_lift {A B} (s : S) (r : result A) (k : A → M S B) (Q : B → S → Prop) (R : error → S → Prop) :
    (∀ e, r = Err e → R e s) → (∀ a, r = Ok a → from s (k a) Q R) → from s (lift r ≫= k) Q R.
  Proof. intros HR Hk n. unfold mbind, M_bind, lift. destruct r as [a|e]; [by apply Hk|by apply HR]. Qed.
Lemma from_call {A} (s : S) (f : S → result (A * S)) (Q : A → S → Prop) (R : error → S → Prop) :
    R ErrDriver s → (∀ e, f s = Err e → R e s) → (∀ a s', f s = Ok (a, s') → Q a s') → from s (call f) Q R.
  Proof.
    intros Hd HR HQ n. unfold call. destruct (fault n); [done|]. destruct (f s) as [[a s']|e]; auto.
  Qed.
Lemma from_now {B} (s : S) (k : time → M S B) (Q : B → S → Prop) (R : error → S → Prop) :
    (∀ t, from s (k t) Q R) → from s (now ≫= k) Q R.
  Proof. intros Hk n. apply (Hk (clock n) (Datatypes.S n)). Qed.
Lemma from_rand_text {B} (s : S) (k : string → M S B) (Q : B → S → Prop) (R : error → S → Prop) :
    (∀ t, from s (k t) Q R) → from s (rand_text ≫= k) Q R.
  Proof. intros Hk n. apply (Hk (random n) (Datatypes.S n)). Qed.
Lemma from_catch {A} (s : S) (m : M S A) (h : error → M S A) (Q : A → S → Prop) R1 (R : error → S → Prop) :
    from s m Q R1 → (∀ e s', R1 e s' → from s' (h e) Q R) → from s (catch m h) Q R.
  Proof.
    intros Hm Hh n. specialize (Hm n). unfold catch. destruct (m s n) as [[a|e] [s' n']]; [done|]. by apply (Hh e s' Hm n').
  Qed.
Lemma from_attempt {A B} (s : S) (m : M S A) (k : result A → M S B) Q1 R1 (Q : B → S → Prop) (R : error → S → Prop) :
    from s m Q1 R1 → (∀ a s', Q1 a s' → from s' (k (Ok a)) Q R) → (∀ e s', R1 e s' → from s' (k (Err e)) Q R) →
    from s (attempt m ≫= k) Q R.
  Proof.
    intros Hm Hk He n. specialize (Hm n). unfold mbind, M_bind, attempt. destruct (m s n) as [[a|e] [s' n']].
    - by apply (Hk a s' Hm n').
    - by apply (He e s' Hm n').
  Qed.
Lemma from_atomically {A} (s : S) (m : M S A) (Q : A → S → Prop) (R1 R : error → S → Prop) :
    R ErrDriver s → from s m Q R1 → (∀ e s', R1 e s' → R e s) → from s (atomically m) Q R.
  Proof.
    intros Hd Hm HR n. unfold atomically. destruct (fault n); [done|]. specialize (Hm (Datatypes.S n)).
    destruct (m s (Datatypes.S n)) as [[a|e] [s' n']]; [|by eapply HR]. by destruct (fault n').
  Qed.
End from.
Lemma from_zoom {S A X} `{!Lens S A} (s : S) (m : M A X) (Q : X → S → Prop) (R : error → S → Prop) :
  from (view s) m (λ x a, Q x (put a s)) (λ e a, R e (put a s)) → from s (zoom m : M S X) Q R.
Proof. intros Hm n. specialize (Hm n). unfold zoom. by destruct (m (view s) n) as [[x|e] [a n']]. Qed.

(** ** Inversion of a run *)
Section runs.
  Context `{World} {S : Type}.

Lemma bind_ok {A B} (m : M S A) (k : A → M S B) s n b s' n' :
    (m ≫= k) s n = (Ok b, (s', n')) →
    ∃ a s1 n1, m s n = (Ok a, (s1, n1)) ∧ k a s1 n1 = (Ok b, (s', n')).
  Proof.
    unfold mbind, M_bind. destruct (m s n) as [[a|e] [s1 n1]] eqn:E; [|discriminate]. eauto.
  Qed.
Lemma ret_ok {A} (a b : A) s n s' n' :
    (mret a : M S A) s n = (Ok b, (s', n')) → a = b ∧ s' = s ∧ n' = n.
  Proof. unfold mret, M_ret. naive_solver. Qed.
Lemma lift_ok {A} (r : result A) s n b s' n' :
    (lift r : M S A) s n = (Ok b, (s', n')) → r = Ok b ∧ s' = s ∧ n' = n.
  Proof. unfold lift. naive_solver. Qed.
Lemma guard_not_ok c e s n u s' n' :
    (guard_not c e : M S unit) s n = (Ok u, (s', n')) → c = false ∧ s' = s ∧ n' = n.
  Proof. intros (Hr & ? & ?)%lift_ok. apply reject_if_ok in Hr. naive_solver. Qed.
Lemma fail_ok {A} e s n (b : A) s' n' : (fail e : M S A) s n = (Ok b, (s', n')) → False.
  Proof. discriminate. Qed.
Lemma call_ok {A} (f : S → result (A * S)) s n b s' n' :
    call f s n = (Ok b, (s', n')) → f s = Ok (b, s') ∧ n' = Datatypes.S n.
  Proof.
    unfold call. destruct (fault n); [discriminate|].
    destruct (f s) as [[??]|?]; naive_solver.
  Qed.
  (** A query. *)
Lemma read_ok {A} (g : S → A) s n b s' n' :
    call (λ s, Ok (g s, s)) s n = (Ok b, (s', n')) → b = g s ∧ s' = s ∧ n' = Datatypes.S n.
  Proof. intros [? ->]%call_ok. by simplify_eq. Qed.
Lemma now_ok s n t s' n' : (now : M S time) s n = (Ok t, (s', n')) → s' = s ∧ n' = Datatypes.S n ∧ t = clock n.
  Proof. unfold now. naive_solver. Qed.
Lemma rand_text_ok s n t s' n' :
    (rand_text : M S string) s n = (Ok t, (s', n')) → s' = s ∧ n' = Datatypes.S n ∧ t = random n.
  Proof. unfold rand_text. naive_solver. Qed.
Lemma rand_read_ok s n t s' n' :
    (rand_read : M S string) s n = (Ok t, (s', n')) → s' = s ∧ n' = Datatypes.S n ∧ t = random n.
  Proof. unfold rand_read. destruct (fault n); naive_solver. Qed.
Lemma atomically_ok {A} (m : M S A) s n b s' n' :
    atomically m s n = (Ok b, (s', n')) →
    ∃ n1, m s (Datatypes.S n) = (Ok b, (s', n1)).
  Proof.
    unfold atomically. destruct (fault n); [discriminate|].
    destruct (m s (Datatypes.S n)) as [[a|e] [s1 n1]]; [|discriminate].
    destruct (fault n1); naive_solver.
  Qed.
  (** A transaction that reports an error has no effect. *)
Lemma atomically_err {A} (m : M S A) s n e s' n' :
    atomically m s n = (Err e, (s', n')) → s' = s.
  Proof.
    unfold atomically. destruct (fault n); [naive_solver|].
    destruct (m s (Datatypes.S n)) as [[a|e'] [s1 n1]]; [|naive_solver].
    destruct (fault n1); naive_solver.
  Qed.
End runs.

(** A run that evaluates to a value. *)
Lemma ok_run {A S} (x : result A * (S * nat)) : is_ok x.1 = true → ∃ a, x = (Ok a, (x.2.1, x.2.2)).
Proof. destruct x as [[a|e] [s n]]; [|done]. by exists a. Qed.

(** [run_inv] takes a successful run apart, one step at a time. *)
Ltac run_inv_step :=
  match goal with
  | H : (_ ≫= _) _ _ = (Ok _, (_, _)) |- _ =>
      apply bind_ok in H; destruct H as (? & ? & ? & ? & H)
  | H : mret _ _ _ = (Ok _, (_, _)) |- _ =>
      apply ret_ok in H; destruct H as (? & ? & ?); simplify_eq
  | H : guard_not _ _ _ _ = (Ok _, (_, _)) |- _ =>
      apply guard_not_ok in H; destruct H as (? & ? & ?); simplify_eq
  | H : lift _ _ _ = (Ok _, (_, _)) |- _ =>
      apply lift_ok in H; destruct H as (? & ? & ?); simplify_eq
  | H : fail _ _ _ = (Ok _, (_, _)) |- _ => destruct (fail_ok _ _ _ _ _ _ H)
  | H : call (fun s => Ok (@?g s, s)) _ _ = (Ok _, (_, _)) |- _ =>
      apply (read_ok g) in H; destruct H as (? & ? & ?); simplify_eq
  | H : call _ _ _ = (Ok _, (_, _)) |- _ =>
      apply call_ok in H; destruct H as (? & ?); simplify_eq
  | H : now _ _ = (Ok _, (_, _)) |- _ =>
      apply now_ok in H; destruct H as (? & ? & ?); simplify_eq
  | H : rand_text _ _ = (Ok _, (_, _)) |- _ =>
      apply rand_text_ok in H; destruct H as (? & ? & ?); simplify_eq
  | H : rand_read _ _ = (Ok _, (_, _)) |- _ =>
      apply rand_read_ok in H; destruct H as (? & ? & ?); simplify_eq
  | H : atomically _ _ _ = (Ok _, (_, _)) |- _ =>
      apply atomically_ok in H; destruct H as (? & H)
  | H : zoom _ _ _ = (Ok _, (_, _)) |- _ =>
      apply zoom_ok in H; destruct H as (? & H & ?); simplify_eq
  end.
Ltac run_inv := repeat run_inv_step.

(** ** Lists *)
Lemma existsb_false {A} (f : A → bool) l : existsb f l = false ↔ ∀ x, x ∈ l → f x = false.
Proof.
  induction l as [|a l IH]; simpl; [split; [by intros _ x []%elem_of_nil|done]|].
  rewrite orb_false_iff, IH.
  split; [intros [H1 H2] x [->|Hx]%elem_of_cons; auto|intros H; split; [apply H; by left|intros x Hx; apply H; by right]].
Qed.
Lemma filter_submseteq {A} (P : A → Prop) `{∀ x, Decision (P x)} (l k : list A) :
  l ⊆+ k → filter P l ⊆+ filter P k.
Proof.
  induction 1 as [|x l k _ IH|x y l|x l k _ IH|l k j _ IH1 _ IH2]; [done|..];
    rewrite ?filter_cons; repeat case_decide; try done.
  - by constructor.
  - constructor.
  - by constructor.
  - by etrans.
Qed.

(** ** Reachability *)
Inductive star {S : Type} (step : S → S → Prop) : S → S → Prop :=
| star_refl s : star step s s
| star_step s1 s2 s3 : step s1 s2 → star step s2 s3 → star step s1 s3.

Lemma star_trans {S} (step : S → S → Prop) a b c : star step a b → star step b c → star step a c.
Proof. induction 1; eauto using star. Qed.

Lemma star_invariant {S} (step : S → S → Prop) (I : S → Prop) :
  (∀ s s', I s → step s s' → I s') → ∀ s s', star step s s' → I s → I s'.
Proof. intros Hstep s s' Hs. induction Hs; eauto. Qed.

(** ** Buffered channels

    A channel is its capacity, its queue and whether it is closed.  Sending
    on a full channel blocks, sending on or closing a closed channel panics. *)
Record chan (A : Type) := mkChan { ch_cap : nat; ch_buf : list A; ch_closed : bool }.
Arguments mkChan {A} _ _ _.
Arguments ch_cap {A} _.
Arguments ch_buf {A} _.
Arguments ch_closed {A} _.

Inductive outcome := Done | Blocked | Panicked.
#[export] Instance outcome_eq_dec : EqDecision outcome.
Proof. solve_decision. Defined.

Definition make_chan (A : Type) (cap : nat) : chan A := mkChan cap [] false.
Definition chan_send {A} (c : chan A) (x : A) : chan A * outcome :=
  if ch_closed c then (c, Panicked)
  else if bool_decide (length (ch_buf c) < ch_cap c)
       then (mkChan (ch_cap c) (ch_buf c ++ [x]) false, Done)
       else (c, Blocked).
Definition chan_close {A} (c : chan A) : chan A * outcome :=
  if ch_closed c then (c, Panicked) else (mkChan (ch_cap c) (ch_buf c) true, Done).
Definition chan_recv {A} (c : chan A) : option (A * chan A) :=
  match ch_buf c with
  | [] => None
  | x :: l => Some (x, mkChan (ch_cap c) l (ch_closed c))
  end.
