(* ===== verification/GoStrings.v ===== *)
(** * The string functions of Go's standard library that Porty uses

    A Go string is a sequence of bytes: here a Rocq string of 8-bit
    characters, so [String.length] is Go's [len].  UTF-8 decoding follows
    unicode/utf8: an invalid byte is one rune of width 1. *)
From S2P Require Import Prelude.

Definition byte_of (c : ascii) : Z := Z.of_N (N_of_ascii c).
Definition len (s : string) : Z := Z.of_nat (String.length s).

(** ** UTF-8 *)
Definition in_range (lo hi b : Z) : bool := (lo <=? b)%Z && (b <=? hi)%Z.
Definition cont (b : Z) : bool := in_range 128 191 b.

(** The well-formed sequence at the head of a byte list: its rune and width. *)
Definition rune_at (l : list Z) : option (Z * nat) :=
  match l with
  | [] => None
  | b0 :: l1 =>
    if (b0 <? 128)%Z then Some (b0, 1)
    else if in_range 194 223 b0 then
      match l1 with
      | b1 :: _ => if cont b1 then Some (((b0 - 192) * 64 + (b1 - 128))%Z, 2) else None
      | _ => None
      end
    else if in_range 224 239 b0 then
      match l1 with
      | b1 :: b2 :: _ =>
        let lo := if (b0 =? 224)%Z then 160%Z else 128%Z in
        let hi := if (b0 =? 237)%Z then 159%Z else 191%Z in
        if in_range lo hi b1 && cont b2
        then Some (((b0 - 224) * 4096 + (b1 - 128) * 64 + (b2 - 128))%Z, 3) else None
      | _ => None
      end
    else if in_range 240 244 b0 then
      match l1 with
      | b1 :: b2 :: b3 :: _ =>
        let lo := if (b0 =? 240)%Z then 144%Z else 128%Z in
        let hi := if (b0 =? 244)%Z then 143%Z else 191%Z in
        if in_range lo hi b1 && cont b2 && cont b3
        then Some (((b0 - 240) * 262144 + (b1 - 128) * 4096 + (b2 - 128) * 64 + (b3 - 128))%Z, 4)
        else None
      | _ => None
      end
    else None
  end.

Record Rune := mkRune { rune : Z; rune_valid : bool; rune_bytes : list ascii }.

(** The runes of a byte list; [skip] bytes still belong to the previous rune. *)
Fixpoint runes_from (skip : nat) (l : list ascii) : list Rune :=
  match l with
  | [] => []
  | c :: l' =>
    match skip with
    | S k => runes_from k l'
    | O =>
      match rune_at (byte_of <$> l) with
      | Some (r, w) => mkRune r true (take w l) :: runes_from (pred w) l'
      | None => mkRune 65533 false [c] :: runes_from 0 l'
      end
    end
  end.

Definition runes (s : string) : list Rune := runes_from 0 (list_ascii_of_string s).

Definition ValidString (s : string) : bool := forallb rune_valid (runes s).
Definition RuneCountInString (s : string) : Z := Z.of_nat (length (runes s)).
(** unicode.IsControl: the C0 and C1 control characters. *)
Definition IsControl (r : Z) : bool := (r <? 32)%Z && (0 <=? r)%Z || in_range 127 159 r.
Definition IsSpace (r : Z) : bool :=
  in_range 9 13 r || (r =? 32)%Z || (r =? 133)%Z || (r =? 160)%Z || (r =? 5760)%Z
  || in_range 8192 8202 r || (r =? 8232)%Z || (r =? 8233)%Z || (r =? 8239)%Z || (r =? 8287)%Z
  || (r =? 12288)%Z.

Definition string_of_runes (l : list Rune) : string := string_of_list_ascii (l ≫= rune_bytes).

Fixpoint drop_while {A} (p : A → bool) (l : list A) : list A :=
  match l with
  | [] => []
  | x :: l' => if p x then drop_while p l' else l
  end.

Definition TrimSpace (s : string) : string :=
  let front := drop_while (λ r, IsSpace (rune r)) (runes s) in
  string_of_runes (reverse (drop_while (λ r, IsSpace (rune r)) (reverse front))).

(** ** Searching *)
Definition HasPrefix (s p : string) : bool := String.prefix p s.
Definition HasSuffix (s p : string) : bool :=
  bool_decide (String.length p ≤ String.length s) &&
  (String.substring (String.length s - String.length p) (String.length p) s =? p)%string.
Definition TrimPrefix (s p : string) : string :=
  if HasPrefix s p then String.substring (String.length p) (String.length s - String.length p) s else s.
Definition TrimSuffix (s p : string) : string :=
  if HasSuffix s p then String.substring 0 (String.length s - String.length p) s else s.
Definition Contains (s sub : string) : bool :=
  match String.index 0 sub s with Some _ => true | None => false end.
Definition ContainsByte (s : string) (c : ascii) : bool :=
  existsb (Ascii.eqb c) (list_ascii_of_string s).
Definition ContainsAny (s chars : string) : bool :=
  existsb (λ c, ContainsByte chars c) (list_ascii_of_string s).

(** [strings.Split] on a separator of one byte. *)
Fixpoint split_from (sep : ascii) (acc : string) (s : string) : list string :=
  match s with
  | EmptyString => [acc]
  | String c s' =>
    if Ascii.eqb c sep then acc :: split_from sep "" s'
    else split_from sep (acc +:+ String c "") s'
  end.
Definition Split (s : string) (sep : ascii) : list string := split_from sep "" s.

(** [strings.ReplaceAll] for a nonempty [old]: leftmost, non-overlapping. *)
Fixpoint replace_from (old new : string) (skip : nat) (s : string) : string :=
  match s with
  | EmptyString => ""
  | String c s' =>
    match skip with
    | S k => replace_from old new k s'
    | O => if String.prefix old s then new +:+ replace_from old new (pred (String.length old)) s'
           else String c (replace_from old new 0 s')
    end
  end.
Definition ReplaceAll (s old new : string) : string := replace_from old new 0 s.

Definition ToLowerByte (c : ascii) : ascii :=
  let b := N_of_ascii c in
  if ((65 <=? b)%N && (b <=? 90)%N)%bool then ascii_of_N (b + 32) else c.

(** ** Character classes of the regular expressions *)
Definition is_digit (c : ascii) : bool := in_range 48 57 (byte_of c).
Definition is_upper (c : ascii) : bool := in_range 65 90 (byte_of c).
Definition is_lower (c : ascii) : bool := in_range 97 122 (byte_of c).
Definition is_alpha (c : ascii) : bool := is_upper c || is_lower c.
Definition is_alnum (c : ascii) : bool := is_alpha c || is_digit c.

(** ** Order *)
Definition string_le (a b : string) : Prop := String.leb a b = true.
#[export] Instance string_le_dec : RelDecision string_le.
Proof. intros a b. unfold string_le. apply _. Defined.
(** It is a total order, the lexicographic one on bytes. *)
Lemma string_le_cons a b s t :
  string_le (String a s) (String b t) ↔ (byte_of a < byte_of b)%Z ∨ a = b ∧ string_le s t.
Proof.
  unfold string_le, String.leb. cbn [String.compare]. unfold Ascii.compare.
  unfold byte_of. destruct (N.compare_spec (Ascii.N_of_ascii a) (Ascii.N_of_ascii b)) as [E|E|E].
  - assert (a = b) as -> by (rewrite <- (Ascii.ascii_N_embedding a), E; apply Ascii.ascii_N_embedding).
    split; [auto|]. intros [?|[_ ?]]; [lia|done].
  - split; [intros _; left; lia|done].
  - split; [done|]. intros [?|[-> _]]; lia.
Qed.
#[export] Instance string_le_trans : Transitive string_le.
Proof.
  intros s. induction s as [|a s IH]; intros [|b t] [|c u]; try done. rewrite !string_le_cons.
  intros [H1|[-> H1]] [H2|[-> H2]]; [left; lia|by left|by left|right]. split; [done|]. by apply (IH t).
Qed.
#[export] Instance string_le_total : Total string_le.
Proof. intros a b. apply String.leb_total. Qed.
#[export] Instance string_le_anti : AntiSymm (=) string_le.
Proof. intros a b. apply String.leb_antisym. Qed.
Definition SortStrings (l : list string) : list string := merge_sort string_le l.
Lemma SortStrings_Permutation l : SortStrings l ≡ₚ l.
Proof. apply merge_sort_Permutation. Qed.
Lemma elem_of_SortStrings x l : x ∈ SortStrings l ↔ x ∈ l.
Proof. by rewrite SortStrings_Permutation. Qed.

Example trim_space_ex : TrimSpace "  a b	" = "a b"%string.
Proof. reflexivity. Qed.
Example replace_all_ex : ReplaceAll "xaay" "a" "[R]" = "x[R][R]y"%string.
Proof. reflexivity. Qed.
Example split_ex : Split "a/b//c" "/" = ["a"; "b"; ""; "c"]%string.
Proof. reflexivity. Qed.
Example valid_utf8_ex : ValidString "1–64" = true ∧ RuneCountInString "1–64" = 4%Z.
Proof. done. Qed.
