(* ===== verification/Netip.v ===== *)
(** * net/netip and strconv, as far as Porty uses them

    [ParseAddrPort] follows the published algorithm of Go's standard library,
    on byte lists; an address is its bytes, so two addresses are equal exactly
    when their canonical texts ([Addr.String]) are. *)
From S2P Require Import Prelude GoStrings.

Inductive Addr :=
| V4 (bytes : list Z)
| V6 (bytes : list Z) (zone : string).

#[export] Instance Addr_eq_dec : EqDecision Addr.
Proof. solve_decision. Defined.

Record AddrPort := mkAddrPort { ip : Addr; port : Z }.

#[export] Instance AddrPort_eq_dec : EqDecision AddrPort.
Proof. solve_decision. Defined.

Definition Is4 (a : Addr) : bool := match a with V4 _ => true | V6 _ _ => false end.
Definition Is6 (a : Addr) : bool := match a with V4 _ => false | V6 _ _ => true end.
Definition Zone (a : Addr) : string := match a with V4 _ => "" | V6 _ z => z end.
Definition Is4In6 (a : Addr) : bool :=
  match a with
  | V6 b _ => bool_decide (take 12 b = replicate 10 0%Z ++ [255%Z; 255%Z])
  | _ => false
  end.
Definition Unmap (a : Addr) : Addr :=
  match a with V6 b _ => if Is4In6 a then V4 (drop 12 b) else a | _ => a end.
Definition IsUnspecified (a : Addr) : bool :=
  bool_decide (a = V4 (replicate 4 0%Z)) || bool_decide (a = V6 (replicate 16 0%Z) "").
Definition IsMulticast (a : Addr) : bool :=
  match Unmap a with
  | V4 (b :: _) => (Z.land b 240 =? 224)%Z
  | V6 (b :: _) _ => (b =? 255)%Z
  | _ => false
  end.

(** ** strconv.ParseUint(s, 10, bits) *)
Fixpoint parse_digits (acc : Z) (l : list ascii) : option Z :=
  match l with
  | [] => Some acc
  | c :: l' => if is_digit c then parse_digits (acc * 10 + (byte_of c - 48)) l' else None
  end.
Definition ParseUint (s : string) (bits : Z) : option Z :=
  match list_ascii_of_string s with
  | [] => None
  | l => match parse_digits 0 l with
         | Some v => if (v <? 2 ^ bits)%Z then Some v else None
         | None => None
         end
  end.

(** What FormatUint prints is read back. *)
Lemma pretty_N_char_digit d : (d < 10)%N → is_digit (pretty_N_char d) = true ∧ byte_of (pretty_N_char d) = (48 + Z.of_N d)%Z.
Proof.
  intros Hd. assert (d = 0 ∨ d = 1 ∨ d = 2 ∨ d = 3 ∨ d = 4 ∨ d = 5 ∨ d = 6 ∨ d = 7 ∨ d = 8 ∨ d = 9)%N as Hc by lia.
  repeat destruct Hc as [->|Hc]; try subst d; done.
Qed.
Lemma parse_pretty_go x s :
  parse_digits 0 (list_ascii_of_string (pretty_N_go x s)) = parse_digits (Z.of_N x) (list_ascii_of_string s).
Proof.
  revert s. induction x as [x IH] using (well_founded_induction N.lt_wf_0). intros s.
  destruct (decide (x = 0)%N) as [->|Hx]; [by rewrite pretty_N_go_0|]. rewrite pretty_N_go_step by lia.
  rewrite IH by (apply N.div_lt; lia). cbn [list_ascii_of_string parse_digits].
  destruct (pretty_N_char_digit (x mod 10)) as [-> ->]; [by apply N.mod_lt|]. f_equal.
  rewrite (N.div_mod x 10) at 3 by done. lia.
Qed.
Lemma ParseUint_pretty z bits : (0 ≤ z < 2 ^ bits)%Z → ParseUint (pretty z) bits = Some z.
Proof.
  intros Hz. destruct z as [|p|p]; [|pose proof (parse_pretty_go (Npos p) "") as Hp|lia].
  - change (ParseUint (pretty 0%Z) bits) with (if (0 <? 2 ^ bits)%Z then Some 0%Z else None).
    rewrite (proj2 (Z.ltb_lt 0 (2 ^ bits))) by lia. done.
  - change (pretty (Z.pos p)) with (pretty_N_go (N.pos p) ""). unfold ParseUint.
    destruct (list_ascii_of_string (pretty_N_go (N.pos p) "")) as [|c l].
    + cbn in Hp. congruence.
    + rewrite Hp. cbn [parse_digits list_ascii_of_string].
      rewrite (proj2 (Z.ltb_lt (Z.of_N (Npos p)) (2 ^ bits))) by (cbn [Z.of_N]; lia). done.
Qed.

(** *** strconv.Atoi *)
Definition Atoi (s : string) : option Z :=
  match s with
  | String "-" s' => z ← ParseUint s' 64; if (z <=? 2 ^ 63)%Z then Some (- z)%Z else None
  | String "+" s' => z ← ParseUint s' 64; if (z <? 2 ^ 63)%Z then Some z else None
  | _ => z ← ParseUint s 64; if (z <? 2 ^ 63)%Z then Some z else None
  end.

(** ** IPv4: four decimal fields, no leading zeros *)
Definition ipv4_field (l : list ascii) : option Z :=
  match l with
  | [] => None
  | c :: l' =>
    if Ascii.eqb c "0" && negb (bool_decide (l' = [])) then None
    else match parse_digits 0 l with
         | Some v => if (v <=? 255)%Z then Some v else None
         | None => None
         end
  end.

Definition parseIPv4 (s : string) : option (list Z) :=
  match ipv4_field ∘ list_ascii_of_string <$> Split s "." with
  | [Some a; Some b; Some c; Some d] => Some [a; b; c; d]
  | _ => None
  end.

(** ** IPv6 *)
Definition hex_value (c : ascii) : option Z :=
  let b := byte_of c in
  if is_digit c then Some (b - 48)%Z
  else if in_range 97 102 b then Some (b - 87)%Z
  else if in_range 65 70 b then Some (b - 55)%Z
  else None.

(** The hexadecimal digits at the head of [l]: their number, value and the rest. *)
Fixpoint hex_run (off : nat) (acc : Z) (l : list ascii) : nat * Z * list ascii :=
  match l with
  | c :: l' => match hex_value c with
               | Some v => hex_run (S off) (acc * 16 + v) l'
               | None => (off, acc, l)
               end
  | [] => (off, acc, [])
  end.

(** The loop over the colon-separated groups; [out] holds the bytes so far,
    [ellipsis] the position of "::".  Every iteration emits two or four bytes,
    so eight iterations exhaust the sixteen. *)
Fixpoint ipv6_groups (fuel : nat) (out : list Z) (ellipsis : option nat) (s : list ascii)
    : option (list Z * option nat * list ascii) :=
  match fuel with
  | O => Some (out, ellipsis, s)
  | S fuel' =>
    let '(off, acc, rest) := hex_run 0 0 s in
    if bool_decide (off = 0) || bool_decide (4 < off) then None
    else match rest with
    | "."%char :: _ =>
      if bool_decide (ellipsis = None) && negb (bool_decide (length out = 12)) then None
      else if bool_decide (16 < length out + 4) then None
      else match parseIPv4 (string_of_list_ascii s) with
           | Some b => Some (out ++ b, ellipsis, [])
           | None => None
           end
    | _ =>
      let out' := out ++ [acc / 256; acc mod 256]%Z in
      match rest with
      | [] => Some (out', ellipsis, [])
      | ":"%char :: [] => None
      | ":"%char :: ":"%char :: rest' =>
        if bool_decide (ellipsis = None) then
          match rest' with
          | [] => Some (out', Some (length out'), [])
          | _ => ipv6_groups fuel' out' (Some (length out')) rest'
          end
        else None
      | ":"%char :: rest' => ipv6_groups fuel' out' ellipsis rest'
      | _ => None
      end
    end
  end.

Definition parseIPv6 (s : string) : option Addr :=
  let split := match Split s "%" with
               | [a] => Some (a, ""%string)
               | a :: _ =>
                 let z := String.substring (S (String.length a)) (String.length s - S (String.length a)) s in
                 if (z =? "")%string then None else Some (a, z)
               | [] => None
               end in
  match split with
  | None => None
  | Some (a, zone) =>
    let l := list_ascii_of_string a in
    let '(ellipsis, l') := match l with
                           | ":"%char :: ":"%char :: l' => (Some 0, l')
                           | _ => (None, l)
                           end in
    if bool_decide (ellipsis = Some 0) && bool_decide (l' = []) then Some (V6 (replicate 16 0%Z) zone)
    else match ipv6_groups 8 [] ellipsis l' with
    | Some (out, e, []) =>
      if bool_decide (length out < 16) then
        match e with
        | None => None
        | Some k => Some (V6 (take k out ++ replicate (16 - length out) 0%Z ++ drop k out) zone)
        end
      else match e with Some _ => None | None => Some (V6 out zone) end
    | _ => None
    end
  end.

Fixpoint parse_addr_kind (l : list ascii) : option ascii :=
  match l with
  | [] => None
  | c :: l' => if Ascii.eqb c "." || Ascii.eqb c ":" || Ascii.eqb c "%" then Some c else parse_addr_kind l'
  end.
Definition ParseAddr (s : string) : option Addr :=
  match parse_addr_kind (list_ascii_of_string s) with
  | Some "."%char => V4 <$> parseIPv4 s
  | Some ":"%char => parseIPv6 s
  | _ => None
  end.

(** Everything before and after the last colon. *)
Definition last_colon (s : string) : option (string * string) :=
  match reverse (Split s ":") with
  | p :: (_ :: _) as ps =>
    Some (String.substring 0 (String.length s - S (String.length p)) s, p)
  | _ => None
  end.

Definition ParseAddrPort (s : string) : option AddrPort :=
  match last_colon s with
  | None => None
  | Some (host, p) =>
    if (host =? "")%string || (p =? "")%string then None else
    let bracketed := HasPrefix host "[" in
    if bracketed && (bool_decide (String.length host < 2) || negb (HasSuffix host "]")) then None else
    let host' := if bracketed then String.substring 1 (String.length host - 2) host else host in
    match ParseUint p 16, ParseAddr host' with
    | Some n, Some a =>
      if (bracketed && Is4 a) || (negb bracketed && Is6 a) then None else Some (mkAddrPort a n)
    | _, _ => None
    end
  end.

(** ** The canonical texts *)
Definition Itoa (z : Z) : string := pretty z.
Definition hex_digit (z : Z) : ascii := ascii_of_N (Z.to_N (if (z <? 10)%Z then 48 + z else 87 + z)%Z).
(** appendHex: no leading zeros. *)
Definition hex_group (x : Z) : string :=
  ((if (4096 <=? x)%Z then String (hex_digit (x / 4096)) "" else "") +:+
   (if (256 <=? x)%Z then String (hex_digit (x / 256 mod 16)) "" else "") +:+
   (if (16 <=? x)%Z then String (hex_digit (x / 16 mod 16)) "" else "") +:+
   String (hex_digit (x mod 16)) "")%string.
Definition string4 (b : list Z) : string := String.concat "." (Itoa <$> b).
(** The sixteen bytes as eight groups. *)
Fixpoint groups (b : list Z) : list Z :=
  match b with h :: l :: b' => (256 * h + l)%Z :: groups b' | _ => [] end.
Fixpoint zeros (g : list Z) : nat :=
  match g with x :: g' => if (x =? 0)%Z then S (zeros g') else 0 | [] => 0 end.
(** The first longest run of at least two zero groups, if there is one. *)
Definition longest (g : list Z) : option (nat * nat) :=
  fold_left (λ best i,
    let l := zeros (drop i g) in
    if bool_decide (2 ≤ l) && bool_decide (default 0 (snd <$> best) < l) then Some (i, l) else best)
    (seq 0 (length g)) None.
Definition string6 (b : list Z) : string :=
  let g := groups b in
  let text l := String.concat ":" (hex_group <$> l) in
  match longest g with
  | Some (i, l) => (text (take i g) +:+ "::" +:+ text (drop (i + l) g))%string
  | None => text g
  end.
Definition withZone (zone : string) : string := if (zone =? "")%string then "" else ("%" +:+ zone)%string.
(** [Addr.String] and [AddrPort.String] of valid addresses. *)
Definition AddrString (a : Addr) : string :=
  match a with
  | V4 b => string4 b
  | V6 b zone => ((if Is4In6 a then "::ffff:" +:+ string4 (drop 12 b) else string6 b) +:+ withZone zone)%string
  end.
Definition AddrPortString (a : AddrPort) : string :=
  (if Is4 (ip a) then AddrString (ip a) +:+ ":" +:+ Itoa (port a)
   else "[" +:+ AddrString (ip a) +:+ "]:" +:+ Itoa (port a))%string.

Example parse_v4 : ParseAddrPort "0.0.0.0:8080" = Some (mkAddrPort (V4 [0; 0; 0; 0]%Z) 8080).
Proof. reflexivity. Qed.
Example parse_v6 : ParseAddrPort "[::]:80" = Some (mkAddrPort (V6 (replicate 16 0%Z) "") 80).
Proof. reflexivity. Qed.
Example parse_v6_mid : ParseAddrPort "[fe80::1%eth0]:80" =
  Some (mkAddrPort (V6 ([254; 128] ++ replicate 13 0 ++ [1])%Z "eth0") 80).
Proof. reflexivity. Qed.
Example parse_v6_bad : ParseAddrPort "[1:2:3:4:5:6:7:8:9]:80" = None ∧ ParseAddrPort "1.2.3.04:80" = None
  ∧ ParseAddrPort "[1.2.3.4]:80" = None ∧ ParseAddrPort "::1:80" = None ∧ ParseAddrPort "1.2.3.4:65536" = None.
Proof. done. Qed.
Example parse_mapped : Unmap <$> (ip <$> ParseAddrPort "[::ffff:10.0.0.1]:53") = Some (V4 [10; 0; 0; 1]%Z).
Proof. reflexivity. Qed.
Example print_addresses :
  (λ t, AddrPortString <$> ParseAddrPort t) <$>
    ["0.0.0.0:8080"; "[::]:80"; "[fe80::1%eth0]:80"; "[1:0:0:2:0:0:0:3]:9"; "[::ffff:10.0.0.1]:53"; "[1::0:2:3:4:5:6]:7"]%string
  = [Some "0.0.0.0:8080"; Some "[::]:80"; Some "[fe80::1%eth0]:80"; Some "[1:0:0:2::3]:9"; Some "[::ffff:10.0.0.1]:53";
     Some "[1::2:3:4:5:6]:7"]%string.
Proof. vm_compute. reflexivity. Qed.
