(* ===== verification/Environment.v ===== *)
(** * Environments and digests (src/internal/filesystem/environment.go,
    compose/project.go)

    The text form of an environment, and the digest of a project with its
    environment that tells whether the source of a stack changed. *)
From S2P Require Import Prelude GoStrings.

Module Environment.

(** ** SerializeEnvironment *)

(** The expression [^[A-Za-z_][A-Za-z0-9_]*$]. *)
Definition environmentKey (key : string) : bool :=
  match list_ascii_of_string key with
  | c :: l => (is_alpha c || Ascii.eqb c "_") && forallb (λ c, is_alnum c || Ascii.eqb c "_") l
  | [] => false
  end.

(** The replacer of single bytes: one pass over the text. *)
Definition escape (c : ascii) : list ascii :=
  match byte_of c with
  | 92%Z => ["\"; "\"]%char
  | 39%Z => ["\"; "'"]%char
  | 10%Z => ["\"; "n"]%char
  | 13%Z => ["\"; "r"]%char
  | 9%Z => ["\"; "t"]%char
  | _ => [c]
  end.
Definition newline : ascii := ascii_of_nat 10.
Definition line (key value : string) : list ascii :=
  list_ascii_of_string key ++ ["="; "'"]%char ++ (list_ascii_of_string value ≫= escape) ++ ["'"%char; newline].

Definition invalidEntry (e : string * string) : bool :=
  negb (environmentKey e.1) || ContainsByte e.2 (ascii_of_nat 0).
Definition SerializeEnvironment (values : gmap string string) : result string :=
  _ ← reject_if (existsb invalidEntry (map_to_list values)) Files_ErrInvalidEnvironment;
  Ok (string_of_list_ascii (SortStrings (map_to_list values).*1 ≫= λ key, line key (default "" (values !! key)))).

(** ** Reading it back

    The reader of this form: names up to the equals sign, then the value
    between quotes with the escapes undone. *)
Definition unescape (c : ascii) : ascii :=
  if Ascii.eqb c "n" then newline
  else if Ascii.eqb c "r" then ascii_of_nat 13
  else if Ascii.eqb c "t" then ascii_of_nat 9
  else c.
Inductive Place := Name | Quoted | Escaped | Closed.
Fixpoint read (place : Place) (key value : list ascii) (l : list ascii) : option (list (string * string)) :=
  let done := (string_of_list_ascii key, string_of_list_ascii value) in
  match place, l with
  | Name, [] => match key with [] => Some [] | _ => None end
  | Name, c :: l' =>
    if Ascii.eqb c "=" then match l' with "'"%char :: l'' => read Quoted key [] l'' | _ => None end
    else read Name (key ++ [c]) [] l'
  | Quoted, c :: l' =>
    if Ascii.eqb c "\" then read Escaped key value l'
    else if Ascii.eqb c "'" then read Closed key value l'
    else read Quoted key (value ++ [c]) l'
  | Escaped, c :: l' => read Quoted key (value ++ [unescape c]) l'
  | Closed, c :: l' => if Ascii.eqb c newline then (cons done) <$> read Name [] [] l' else None
  | _, [] => None
  end.
Definition ReadEnvironment (text : string) : option (gmap string string) :=
  list_to_map <$> read Name [] [] (list_ascii_of_string text).

Lemma read_value key value rest l :
  read Quoted key value ((l ≫= escape) ++ "'"%char :: rest) = read Closed key (value ++ l) rest.
Proof.
  revert value. induction l as [|c l IH]; intros value; [simpl; by rewrite app_nil_r|].
  change ((c :: l) ≫= escape) with (escape c ++ (l ≫= escape)). rewrite <-app_assoc.
  replace (value ++ c :: l) with ((value ++ [c]) ++ l) by by rewrite <-app_assoc.
  rewrite <-IH. clear IH. generalize ((l ≫= escape) ++ "'"%char :: rest). intros tail.
  destruct c as [[] [] [] [] [] [] [] []]; reflexivity.
Qed.

Lemma read_name pre key rest :
  forallb (λ c, is_alnum c || Ascii.eqb c "_") key = true →
  read Name pre [] (key ++ "="%char :: "'"%char :: rest) = read Quoted (pre ++ key) [] rest.
Proof.
  revert pre. induction key as [|c key IH]; intros pre Hk; simpl in *; [by rewrite app_nil_r|].
  apply andb_prop in Hk as [Hc Hk].
  destruct (Ascii.eqb_spec c "=") as [->|_]; [discriminate|]. rewrite IH by done. by rewrite <-app_assoc.
Qed.

Lemma environmentKey_chars key :
  environmentKey key = true → forallb (λ c, is_alnum c || Ascii.eqb c "_") (list_ascii_of_string key) = true.
Proof.
  unfold environmentKey. destruct (list_ascii_of_string key) as [|c l]; [done|]. simpl.
  intros [Hc Hl]%andb_prop. rewrite Hl, andb_true_r. unfold is_alnum. destruct (is_alpha c); [done|]. simpl in *. by rewrite Hc, orb_true_r.
Qed.

Lemma read_lines (f : string → string) keys :
  Forall (λ k, environmentKey k = true) keys →
  read Name [] [] (keys ≫= λ k, line k (f k)) = Some ((λ k, (k, f k)) <$> keys).
Proof.
  induction 1 as [|k keys Hk _ IH]; [done|]. rewrite bind_cons. unfold line at 1. rewrite <-!app_assoc.
  simpl app. rewrite read_name by by apply environmentKey_chars.
  rewrite read_value. simpl. rewrite IH. simpl.
  by rewrite !string_of_list_ascii_of_string.
Qed.


(** An environment is written so that it can be read back: every valid
    environment has a text from which exactly this environment is read, so two
    environments with the same text are the same; and an environment is
    refused exactly when a name is not an identifier or a value holds a NUL. *)
Theorem environment_round_trip values :
  match SerializeEnvironment values with
  | Ok text => ReadEnvironment text = Some values ∧
      ∀ k v, values !! k = Some v → environmentKey k = true ∧ ContainsByte v (ascii_of_nat 0) = false
  | Err x => x = Files_ErrInvalidEnvironment ∧
      ∃ k v, values !! k = Some v ∧ (environmentKey k = false ∨ ContainsByte v (ascii_of_nat 0) = true)
  end.
Proof.
  unfold SerializeEnvironment, reject_if. destruct (existsb invalidEntry (map_to_list values)) eqn:Eb; simpl.
  - split; [done|]. apply existsb_exists in Eb as ([k v] & Hin & Hb).
    apply list_elem_of_In, elem_of_map_to_list in Hin. exists k, v. split; [done|].
    unfold invalidEntry in Hb. simpl in Hb. apply orb_prop in Hb as [Hb|Hb]; [left; by apply negb_true_iff|by right].
  - assert (∀ k v, values !! k = Some v → environmentKey k = true ∧ ContainsByte v (ascii_of_nat 0) = false) as Hv.
    { intros k v Hkv%elem_of_map_to_list. rewrite existsb_false in Eb.
      specialize (Eb _ Hkv). unfold invalidEntry in Eb. simpl in Eb.
      by apply orb_false_elim in Eb as [?%negb_false_iff ?]. }
    split; [|done]. unfold ReadEnvironment. rewrite list_ascii_of_string_of_list_ascii.
    rewrite read_lines.
    + simpl. f_equal.
      transitivity (list_to_map (M := gmap string string) ((λ k, (k, default "" (values !! k))) <$> (map_to_list values).*1)).
      { apply list_to_map_proper; [|by rewrite SortStrings_Permutation].
        rewrite <-list_fmap_compose. simpl. rewrite list_fmap_id, SortStrings_Permutation. apply NoDup_fst_map_to_list. }
      rewrite <-list_fmap_compose. rewrite (list_fmap_ext _ id); [by rewrite list_fmap_id, list_to_map_to_list|].
      intros i [k v] Hi. simpl. apply list_elem_of_lookup_2, elem_of_map_to_list in Hi. by rewrite Hi.
    + rewrite SortStrings_Permutation. apply Forall_fmap, Forall_forall. intros [k v] Hkv%elem_of_map_to_list.
      simpl. by apply (Hv k v).
Qed.

(** ** Digest *)

(** The JSON form of a project and the hexadecimal SHA-256 of a text. *)
Class Digests (P : Type) := { MarshalJSON : P → result string; sha256 : string → string }.
Definition Digest `{Digests P} (project : P) (environment : gmap string string) : result string :=
  encoded ← MarshalJSON project;
  values ← SerializeEnvironment environment;
  Ok ("sha256:" +:+ sha256 (encoded +:+ String (ascii_of_nat 0) values))%string.
End Environment.
