(* ===== verification/Filesystem.v ===== *)
(** * The files of the stacks (src/internal/filesystem/manager.go)

    A file system is a map from paths to nodes; the calls of [os.Root] that the
    manager makes are computations on it that may fail.  Where a call would
    follow a symbolic link it goes to an arbitrary place ([Links]); the laws
    show that no operation ever gets there. *)
From S2P Require Import Prelude GoStrings.

Notation path := (list string).
(** Regular files with their permission bits, links, and devices and the like. *)
Inductive Node :=
| Directory
| Regular (mode : Z) (contents : string)
| Symlink (target : string)
| Special.
#[export] Instance Node_eq_dec : EqDecision Node.
Proof. solve_decision. Defined.
Notation FS := (@gmap path (@list_eq_dec string String.eq_dec) (@list_countable string String.eq_dec String.countable) Node).

(** Where a link leads that a call has to follow, with the rest of the path. *)
Class Links := follow : FS → path → path → result path.
(** The process's umask. *)
Class Umask := umask : Z.
(** SHA-256 in hexadecimal. *)
Class FileHash := fileDigest : string → string.

Module Filesystem.

(** ** path/filepath, on relative Unix paths *)
Definition cleanStep (acc : path) (c : string) : path :=
  if (c =? "")%string || (c =? ".")%string then acc
  else if (c =? "..")%string then
    match reverse acc with
    | x :: rest => if (x =? "..")%string then acc ++ [c] else reverse rest
    | [] => [c]
    end
  else acc ++ [c].
(** The components of [filepath.Clean]; none for ".". *)
Definition CleanComponents (p : string) : path := fold_left cleanStep (Split p "/") [].
(** The text of a clean path. *)
Definition render (p : path) : string := match p with [] => "." | _ => String.concat "/" p end.
Definition IsLocal (p : string) : bool :=
  negb (p =? "")%string && negb (HasPrefix p "/") && negb (bool_decide (head (CleanComponents p) = Some ".."%string)).
Definition Base (p : string) : string :=
  if (p =? "")%string then "."
  else match reverse (filter (λ c, c ≠ ""%string) (Split p "/")) with c :: _ => c | [] => "/" end.
(** [filepath.Dir] of a clean path, and its last component. *)
Definition parentOf (p : path) : path := reverse (tail (reverse p)).

(** ** The calls of os.Root

    A root is a directory; the components of a path are looked up one by one,
    all but the last of which must be directories. *)
Section root.
Context `{W : World} `{L : Links}.
Notation IO := (M FS).
Definition notDirectory : error := ErrText "not a directory".
Definition isDirectory : error := ErrText "is a directory".

(** The entry of a directory below the manager's root. *)
Definition look (fs : FS) (p : path) : option Node := match p with [] => Some Directory | _ => fs !! p end.
Fixpoint resolve (fs : FS) (cur rest : path) : result path :=
  match rest with
  | [] => Ok cur
  | [c] => Ok (cur ++ [c])
  | c :: rest' =>
    match look fs (cur ++ [c]) with
    | Some Directory => resolve fs (cur ++ [c]) rest'
    | Some (Symlink _) => follow fs (cur ++ [c]) rest'
    | Some _ => Err notDirectory
    | None => Err Os_ErrNotExist
    end
  end.
(** A call on the place that a path names. *)
Definition at_ {A} (root rest : path) (f : FS → path → result (A * FS)) : IO A :=
  call (λ fs, p ← resolve fs root rest; f fs p).

Definition Lstat (root rest : path) : IO Node :=
  at_ root rest (λ fs p, match look fs p with Some n => Ok (n, fs) | None => Err Os_ErrNotExist end).
Definition below (p k : path) : Prop := p `prefix_of` k.
#[global] Instance below_dec p k : Decision (below p k).
Proof. unfold below. apply _. Defined.
Definition strictlyBelow (p k : path) : Prop := p `prefix_of` k ∧ k ≠ p.
#[global] Instance strictlyBelow_dec p k : Decision (strictlyBelow p k).
Proof. unfold strictlyBelow. apply _. Defined.
Definition hasEntries (fs : FS) (p : path) : bool := existsb (λ k, bool_decide (strictlyBelow p k)) (map_to_list fs).*1.
Definition isDir (n : Node) : bool := match n with Directory => true | _ => false end.
Definition isRegular (n : Node) : bool := match n with Regular _ _ => true | _ => false end.
Definition isSymlink (n : Node) : bool := match n with Symlink _ => true | _ => false end.

(** Something new in a directory. *)
Definition create (n : Node) (fs : FS) (p : path) : result (unit * FS) :=
  match look fs p with
  | Some _ => Err Os_ErrExist
  | None => if match look fs (parentOf p) with Some Directory => true | _ => false end
            then Ok (tt, <[p := n]> fs) else Err Os_ErrNotExist
  end.
Definition Mkdir (root rest : path) : IO unit := at_ root rest (create Directory).
(** [O_CREATE|O_EXCL|O_WRONLY] *)
Definition OpenExclusive `{Umask} (root rest : path) (mode : Z) : IO path :=
  at_ root rest (λ fs p, '(_, fs') ← create (Regular (Z.land mode (Z.lnot umask)) "") fs p; Ok (p, fs')).
(** Writing to the open file, and Sync and Close, which change nothing. *)
Definition writeOpen (p : path) (contents : string) : IO unit :=
  call (λ fs, match fs !! p with
    | Some (Regular mode old) => Ok (tt, <[p := Regular mode (old +:+ contents)%string]> fs)
    | _ => Ok (tt, fs)
    end).
Definition syncOpen : IO unit := call (λ fs, Ok (tt, fs)).

(** The file or directory that the path names, links followed. *)
Definition target (fs : FS) (p : path) : result path :=
  match look fs p with Some (Symlink _) => follow fs p [] | Some _ => Ok p | None => Err Os_ErrNotExist end.
Definition ReadFile (root rest : path) : IO string :=
  at_ root rest (λ fs p, q ← target fs p;
    match look fs q with
    | Some (Regular _ contents) => Ok (contents, fs)
    | Some Directory => Err isDirectory
    | Some _ => Ok (""%string, fs)
    | None => Err Os_ErrNotExist
    end).
Definition OpenRoot (root rest : path) : IO path :=
  at_ root rest (λ fs p, q ← target fs p;
    match look fs q with Some Directory => Ok (q, fs) | Some _ => Err notDirectory | None => Err Os_ErrNotExist end).
(** [O_CREATE|O_TRUNC|O_WRONLY] and the write. *)
Definition WriteFile `{Umask} (root rest : path) (contents : string) (mode : Z) : IO unit :=
  at_ root rest (λ fs p,
    match look fs p with
    | None => create (Regular (Z.land mode (Z.lnot umask)) contents) fs p
    | Some Directory => Err isDirectory
    | Some (Regular m _) => Ok (tt, <[p := Regular m contents]> fs)
    | Some (Symlink _) => q ← follow fs p []; Ok (tt, <[q := Regular mode contents]> fs)
    | Some Special => Ok (tt, fs)
    end).
Definition Remove (root rest : path) : IO unit :=
  at_ root rest (λ fs p,
    match look fs p with
    | None => Err Os_ErrNotExist
    | Some _ => if hasEntries fs p then Err Os_ErrExist else Ok (tt, delete p fs)
    end).
Definition without (p : path) (fs : FS) : FS := filter (λ e, ¬ below p e.1) fs.
(** [RemoveAll] of a path that does not exist does nothing. *)
Definition RemoveAll (root rest : path) : IO unit := at_ root rest (λ fs p, Ok (tt, without p fs)).

(** The subtree at [p] becomes the subtree at [q]. *)
Definition rebase (p q k : path) : path := if decide (below p k) then q ++ drop (length p) k else k.
Definition moved (p q : path) (fs : FS) : FS :=
  list_to_map ((λ e : path * Node, (rebase p q e.1, e.2)) <$> map_to_list (filter (λ e, ¬ below q e.1) fs)).
Definition rename (fs : FS) (p q : path) : result (unit * FS) :=
  match look fs p with
  | None => Err Os_ErrNotExist
  | Some n =>
    if decide (p = q) then Ok (tt, fs)
    else if bool_decide (below p q) then Err (ErrText "invalid argument")
    else if negb match look fs (parentOf q) with Some Directory => true | _ => false end then Err Os_ErrNotExist
    else match look fs q, isDir n with
    | None, _ => Ok (tt, moved p q fs)
    | Some Directory, true => if hasEntries fs q then Err Os_ErrExist else Ok (tt, moved p q fs)
    | Some Directory, false => Err isDirectory
    | Some _, true => Err notDirectory
    | Some _, false => Ok (tt, moved p q fs)
    end
  end.
Definition Rename (root from to : path) : IO unit :=
  call (λ fs, p ← resolve fs root from; q ← resolve fs root to; rename fs p q).

(** The names in a directory, in order. *)
Definition names (fs : FS) (p : path) : list string :=
  SortStrings (omap (λ k, if bool_decide (parentOf k = p) && bool_decide (k ≠ []) then last k else None) (map_to_list fs).*1).

(** ** Names *)
Definition stackChar (first : bool) (c : ascii) : bool :=
  is_lower c || is_digit c || (negb first && (Ascii.eqb c "-" || Ascii.eqb c "_")).
Definition validStackName (name : string) : bool :=
  negb ((name =? "")%string || (name =? ".")%string || (name =? "..")%string || HasPrefix name "." || (63 <? len name)%Z
        || negb (IsLocal name) || negb (Base name =? name)%string)
  && match list_ascii_of_string name with
     | c :: l => stackChar true c && forallb (stackChar false) l
     | [] => true
     end.
(** The components of a local path, none of them ".git". *)
Definition cleanLocalPath (p : string) : result path :=
  _ ← reject_if ((p =? "")%string || (p =? ".")%string || negb (IsLocal p)) Files_ErrInvalidPath;
  _ ← reject_if (bool_decide (".git"%string ∈ CleanComponents p)) Files_ErrInvalidPath;
  Ok (CleanComponents p).

Record Limits := mkLimits { MaxEditableBytes : Z; MaxDepth : Z; MaxEntries : Z }.
Record FileContent := mkFileContent { FPath : string; Content : string; FHash : string; FSize : Z }.
Record FileEntry := mkFileEntry { EPath : string; ESize : Z; EIsDir : bool; Editable : bool }.

Context `{U : Umask} `{H : FileHash} (limits : Limits).
Definition hash (contents : string) : string := ("sha256:" +:+ fileDigest contents)%string.
Definition size (n : Node) : Z := match n with Regular _ c => len c | _ => 0 end.

(** [_ = f()], and its use when [m] fails. *)
Definition ignore (m : IO unit) : IO unit := catch m (λ _, mret tt).
Definition unless {A} (m : IO A) (undo : IO unit) : IO A := catch m (λ e, _ ← ignore undo; fail e).

Definition openStack (name : string) : IO path :=
  _ ← guard_not (negb (validStackName name)) Files_ErrInvalidPath;
  info ← catch (Lstat [] [name]) (λ _, fail Files_ErrInvalidPath);
  _ ← guard_not (negb (isDir info) || isSymlink info) Files_ErrInvalidPath;
  catch (OpenRoot [] [name]) (λ _, fail Files_ErrInvalidPath).

(** The loops over the prefixes of a path: [done] is the prefix so far.  The
    one prefix of a path like "a/.." is ".", the directory itself. *)
Fixpoint regularFrom (stack done rest : path) : IO Node :=
  match rest with
  | [] => _ ← Lstat stack done; fail Files_ErrInvalidPath
  | c :: rest' =>
    info ← Lstat stack (done ++ [c]);
    _ ← guard_not (isSymlink info) Files_ErrInvalidPath;
    match rest' with
    | [] => _ ← guard_not (negb (isRegular info)) Files_ErrInvalidPath; mret info
    | _ => _ ← guard_not (negb (isDir info)) Files_ErrInvalidPath; regularFrom stack (done ++ [c]) rest'
    end
  end.
Definition validateRegularFile (stack : path) (p : string) : IO (path * Node) :=
  clean ← lift (cleanLocalPath p);
  info ← regularFrom stack [] clean;
  mret (clean, info).
Fixpoint directoryFrom (stack done rest : path) : IO unit :=
  match rest with
  | [] => mret tt
  | c :: rest' =>
    info ← catch (Lstat stack (done ++ [c])) (λ _, fail Files_ErrInvalidPath);
    _ ← guard_not (negb (isDir info) || isSymlink info) Files_ErrInvalidPath;
    directoryFrom stack (done ++ [c]) rest'
  end.
(** Of a clean path, which the code cleans again (see [FilesystemLaws.clean_again]). *)
Definition validateDirectory (stack clean : path) : IO unit := directoryFrom stack [] clean.
Definition validateEntry (stack clean : path) : IO Node :=
  _ ← guard_not (bool_decide (clean = [])) Files_ErrInvalidPath;
  _ ← validateDirectory stack (parentOf clean);
  info ← Lstat stack clean;
  _ ← guard_not (isSymlink info || negb (isDir info) && negb (isRegular info)) Files_ErrInvalidPath;
  mret info.

(** ** The operations on files *)
Definition result_of (clean : path) (contents : string) : FileContent :=
  mkFileContent (render clean) contents (hash contents) (len contents).
Definition Read (stackName p : string) : IO FileContent :=
  stack ← openStack stackName;
  '(clean, info) ← validateRegularFile stack p;
  _ ← guard_not (MaxEditableBytes limits <? size info)%Z Files_ErrTooLarge;
  contents ← ReadFile stack clean;
  mret (result_of clean contents).

Definition permissions (n : Node) : Z := match n with Regular mode _ => mode | _ => 0 end.
(** [0o666] *)
Definition writable : Z := 438.
Definition temporaryOf (clean : path) (suffix : string) : path :=
  parentOf clean ++ [".porty-write-" +:+ suffix]%string.
Definition Write (stackName p contents expectedHash : string) : IO FileContent :=
  _ ← guard_not (MaxEditableBytes limits <? len contents)%Z Files_ErrTooLarge;
  stack ← openStack stackName;
  '(clean, info) ← validateRegularFile stack p;
  current ← ReadFile stack clean;
  _ ← guard_not ((expectedHash =? "")%string || negb (hash current =? expectedHash)%string) Files_ErrStaleFile;
  suffix ← rand_text;
  let temporary := temporaryOf clean suffix in
  file ← OpenExclusive stack temporary (Z.land (permissions info) writable);
  unless (
    _ ← writeOpen file contents;
    _ ← syncOpen;
    _ ← syncOpen;
    _ ← Rename stack temporary clean;
    mret (result_of clean contents)) (Remove stack temporary).

Fixpoint createDirectories (stack done rest : path) : IO unit :=
  match rest with
  | [] => mret tt
  | c :: rest' =>
    stat ← attempt (Lstat stack (done ++ [c]));
    _ ← match stat with
        | Ok info => guard_not (negb (isDir info) || isSymlink info) Files_ErrInvalidPath
        | Err e => if Is e Os_ErrNotExist then Mkdir stack (done ++ [c]) else fail e
        end;
    createDirectories stack (done ++ [c]) rest'
  end.
Definition CreateDirectory (stackName p : string) : IO unit :=
  stack ← openStack stackName;
  clean ← lift (cleanLocalPath p);
  _ ← (if bool_decide (clean = []) then _ ← Lstat stack []; mret tt else mret tt);
  createDirectories stack [] clean.

Definition CreateFile (stackName p contents : string) : IO FileContent :=
  _ ← guard_not (MaxEditableBytes limits <? len contents)%Z Files_ErrTooLarge;
  stack ← openStack stackName;
  clean ← lift (cleanLocalPath p);
  _ ← validateDirectory stack (parentOf clean);
  file ← OpenExclusive stack clean 416;                   (* 0o640 *)
  unless (
    _ ← writeOpen file contents;
    _ ← syncOpen;
    _ ← syncOpen;
    mret (result_of clean contents)) (Remove stack clean).

Definition Move (stackName from to : string) : IO unit :=
  stack ← openStack stackName;
  fromClean ← lift (cleanLocalPath from);
  toClean ← lift (cleanLocalPath to);
  _ ← validateEntry stack fromClean;
  _ ← validateDirectory stack (parentOf toClean);
  stat ← attempt (Lstat stack toClean);
  _ ← match stat with
      | Ok _ => fail Os_ErrExist
      | Err e => if Is e Os_ErrNotExist then mret tt else fail e
      end;
  Rename stack fromClean toClean.

Definition RemoveEntry (stackName p : string) : IO unit :=
  stack ← openStack stackName;
  clean ← lift (cleanLocalPath p);
  info ← validateEntry stack clean;
  if isDir info then RemoveAll stack clean else Remove stack clean.

(** ** The operations on stacks *)
Definition composeFile : string := "docker-compose.yml".
(** Whether the entry is a directory, as the directory says. *)
Definition entryIsDir (stack p : path) : IO bool := λ fs n,
  (Ok (match look fs (stack ++ p) with Some Directory => true | _ => false end), (fs, n)).
Definition discovered (name : string) : IO bool :=
  if HasPrefix name "." || negb (validStackName name) then mret false else
  dir ← entryIsDir [] [name];
  if negb dir then mret false else
  catch (
    info ← Lstat [] [name];
    if isSymlink info then mret false else
    stack ← OpenRoot [] [name];
    compose ← Lstat stack [composeFile];
    mret (isRegular compose)) (λ _, mret false).
Fixpoint discoverFrom (l : list string) : IO (list string) :=
  match l with
  | [] => mret []
  | name :: rest =>
    yes ← discovered name;
    found ← discoverFrom rest;
    mret (if yes : bool then name :: found else found)
  end.
Definition Discover : IO (list string) :=
  entries ← call (λ fs, Ok (names fs [], fs));
  found ← discoverFrom entries;
  mret (SortStrings found).

Definition CreateStack (name : string) : IO unit :=
  _ ← guard_not (negb (validStackName name)) Files_ErrInvalidPath;
  _ ← Mkdir [] [name];
  stack ← unless (OpenRoot [] [name]) (Remove [] [name]);
  unless (WriteFile stack [composeFile] ("services: {}" +:+ String (ascii_of_nat 10) "")%string 416) (RemoveAll [] [name]).
Definition RenameStack (from to : string) : IO unit :=
  _ ← guard_not (negb (validStackName from) || negb (validStackName to)) Files_ErrInvalidPath;
  Rename [] [from] [to].
Definition RemoveStack (name : string) : IO unit :=
  _ ← guard_not (negb (validStackName name)) Files_ErrInvalidPath;
  info ← catch (Lstat [] [name]) (λ _, fail Files_ErrInvalidPath);
  _ ← guard_not (negb (isDir info) || isSymlink info) Files_ErrInvalidPath;
  RemoveAll [] [name].

(** ** Tree

    [fs.WalkDir] in lexical order.  The function it calls says whether to skip
    a directory ([fs.SkipDir]); for anything else that is not a directory,
    skipping ends the walk of the directory it is in.  The fuel is the depth
    that is left, beyond which the answer is the same [ErrTooLarge]. *)
Inductive Walked := Continue | Skip.
Definition visit (stack p : path) (result_ : list FileEntry) : IO (list FileEntry * Walked) :=
  _ ← guard_not ((MaxEntries limits <=? Z.of_nat (length result_))%Z || (MaxDepth limits <? Z.of_nat (length p))%Z)
        Files_ErrTooLarge;
  if bool_decide (last p = Some ".git"%string) then mret (result_, Skip) else
  info ← Lstat stack p;
  mret (result_ ++ [mkFileEntry (render p) (size info) (isDir info)
                      (isRegular info && (size info <=? MaxEditableBytes limits)%Z)], Continue).
Definition readDir (stack p : path) : IO (list string) := call (λ fs, Ok (names fs (stack ++ p), fs)).
Fixpoint walk (fuel : nat) (stack p : path) (result_ : list FileEntry) : IO (list FileEntry * Walked) :=
  match fuel with
  | O => fail Files_ErrTooLarge
  | S fuel' =>
    dir ← entryIsDir stack p;
    '(r, w) ← visit stack p result_;
    match w, dir : bool with
    | Skip, true => mret (r, Continue)
    | Skip, false => mret (r, Skip)
    | Continue, false => mret (r, Continue)
    | Continue, true =>
      entries ← readDir stack p;
      (fix each (l : list string) (acc : list FileEntry) : IO (list FileEntry * Walked) :=
         match l with
         | [] => mret (acc, Continue)
         | c :: l' =>
           '(acc', w) ← walk fuel' stack (p ++ [c]) acc;
           match w with Skip => mret (acc', Continue) | Continue => each l' acc' end
         end) entries r
    end
  end.
(** The root of the walk is not visited. *)
Fixpoint walkEntries (fuel : nat) (stack : path) (l : list string) (acc : list FileEntry) : IO (list FileEntry) :=
  match l with
  | [] => mret acc
  | c :: l' =>
    '(acc', w) ← walk fuel stack [c] acc;
    match w with Skip => mret acc' | Continue => walkEntries fuel stack l' acc' end
  end.
Definition Tree (stackName : string) : IO (list FileEntry) :=
  stack ← openStack stackName;
  entries ← readDir stack [];
  walkEntries (S (Z.to_nat (MaxDepth limits))) stack entries [].
End root.
End Filesystem.
