(* ===== verification/FilesystemLaws.v ===== *)
(** * What the file operations guarantee

    Every operation stays inside its stack, never touches the stack's
    repository and never follows a symbolic link; files are replaced as a
    whole, by a caller who has seen what they held. *)
From S2P Require Import Prelude GoStrings Filesystem.

Module FilesystemLaws.
Import Filesystem.

(** ** Paths *)
Lemma parentOf_snoc p c : parentOf (p ++ [c]) = p.
Proof. unfold parentOf. rewrite reverse_snoc. simpl. by rewrite reverse_involutive. Qed.
Lemma parentOf_cons s p : p ≠ [] → parentOf (s :: p) = s :: parentOf p.
Proof.
  destruct p as [|c p _] using rev_ind; [done|]. intros _. by rewrite app_comm_cons, !parentOf_snoc.
Qed.
Lemma path_split (p : path) : p ≠ [] → ∃ c, p = parentOf p ++ [c].
Proof. destruct p as [|c p _] using rev_ind; [done|]. intros _. exists c. by rewrite parentOf_snoc. Qed.
Lemma parentOf_prefix p : parentOf p `prefix_of` p.
Proof. destruct p as [|c p _] using rev_ind; [done|]. rewrite parentOf_snoc. by apply prefix_app_r. Qed.
(** A proper prefix is a prefix of the parent. *)
Lemma prefix_parent d p : d `prefix_of` p → d ≠ p → d `prefix_of` parentOf p.
Proof.
  intros [k ->] Hd. destruct k as [|c k _] using rev_ind; [by rewrite app_nil_r in Hd|].
  rewrite app_assoc, parentOf_snoc. by apply prefix_app_r.
Qed.

(** ** File systems *)

(** Every entry is in a directory. *)
Definition WF (fs : FS) : Prop := ∀ p n, fs !! p = Some n → p ≠ [] ∧ look fs (parentOf p) = Some Directory.

Lemma look_ne fs p : p ≠ [] → look fs p = fs !! p.
Proof. by destruct p. Qed.
(** All that is below an entry is below a directory. *)
Lemma WF_below fs p k n : WF fs → fs !! k = Some n → p `prefix_of` k → p ≠ k → look fs p = Some Directory.
Proof.
  intros Hwf. revert n. induction k as [|c k IH] using rev_ind; intros n Hk Hp Hne.
  - apply prefix_nil_inv in Hp. done.
  - destruct (Hwf _ _ Hk) as [_ Hd]. rewrite parentOf_snoc in Hd.
    pose proof (prefix_parent _ _ Hp Hne) as Hq. rewrite parentOf_snoc in Hq.
    destruct (decide (p = k)) as [->|Hpk]; [done|]. destruct k as [|x k'].
    + apply prefix_nil_inv in Hq. done.
    + by apply (IH Directory).
Qed.
Lemma hasEntries_spec fs p : hasEntries fs p = true ↔ ∃ k n, fs !! k = Some n ∧ strictlyBelow p k.
Proof.
  unfold hasEntries. rewrite existsb_exists. split.
  - intros (k & Hk%list_elem_of_In & Hs%bool_decide_eq_true).
    apply list_elem_of_fmap in Hk as ([k' n] & -> & Hin%elem_of_map_to_list). by exists k', n.
  - intros (k & n & Hk & Hs). exists k. split; [|by apply bool_decide_eq_true].
    apply list_elem_of_In, list_elem_of_fmap. exists (k, n). split; [done|by apply elem_of_map_to_list].
Qed.
Lemma hasEntries_file fs p n : WF fs → fs !! p = Some n → n ≠ Directory → hasEntries fs p = false.
Proof.
  intros Hwf Hp Hn. apply not_true_is_false. intros (k & m & Hk & Hb & Hne)%hasEntries_spec.
  pose proof (WF_below _ _ _ _ Hwf Hk Hb (not_eq_sym Hne)) as Hl. destruct p; [|simpl in Hl; congruence].
  destruct (Hwf _ _ Hp). done.
Qed.

Lemma without_lookup p fs k : without p fs !! k = if decide (below p k) then None else fs !! k.
Proof.
  unfold without. rewrite (map_lookup_filter (M := gmap path)). destruct (fs !! k) as [n|]; simpl; [|by destruct (decide _)].
  destruct (decide (below p k)); by case_guard.
Qed.

(** The subtree at [p] is at [q] afterwards. *)
Lemma rebase_inj p q k k' :
  ¬ below p q → ¬ below q k → ¬ below q k' → rebase p q k = rebase p q k' → k = k'.
Proof.
  unfold rebase, below. intros Hpq Hk Hk' E.
  destruct (decide (p `prefix_of` k)) as [[x ->]|], (decide (p `prefix_of` k')) as [[y ->]|]; simplify_eq/=.
  - by rewrite !drop_app_length in E; simplify_eq.
  - exfalso. apply Hk'. by apply prefix_app_r.
  - exfalso. apply Hk. by apply prefix_app_r.
  - done.
Qed.
Lemma moved_lookup p q fs k :
  ¬ below p q →
  moved p q fs !! k =
    if decide (below q k) then (let k0 := p ++ drop (length q) k in if decide (below q k0) then None else fs !! k0)
    else if decide (below p k) then None else fs !! k.
Proof.
  intros Hpq. unfold moved. set (fs1 := filter (λ e : path * Node, ¬ below q e.1) fs).
  assert (∀ k, fs1 !! k = if decide (below q k) then None else fs !! k) as Hf.
  { intros x. apply without_lookup. }
  assert (∀ x n, fs1 !! x = Some n → ¬ below q x) as Hq by (intros x n; rewrite Hf; by case_decide).
  apply option_eq. intros n. rewrite <-elem_of_list_to_map.
  2: { rewrite <-list_fmap_compose. apply NoDup_fmap_2_strong.
    - intros [x a] [y b] Hx%elem_of_map_to_list Hy%elem_of_map_to_list E. simpl in E.
      apply rebase_inj in E; [|done|by eapply Hq..]. subst. congruence.
    - apply NoDup_map_to_list. }
  rewrite list_elem_of_fmap. split.
  - intros ([x a] & [= -> ->] & Hx%elem_of_map_to_list). pose proof (Hq _ _ Hx) as Hn. rewrite Hf in Hx.
    rewrite decide_False in Hx by done. unfold rebase. destruct (decide (below p x)) as [[z ->]|Hp].
    + rewrite decide_True by by apply prefix_app_r. rewrite !drop_app_length. simpl. by rewrite decide_False.
    + by rewrite decide_False, decide_False.
  - destruct (decide (below q k)) as [[z ->]|Hk].
    + rewrite drop_app_length. simpl. destruct (decide (below q (p ++ z))) as [|Hn]; [done|]. intros Hz.
      exists (p ++ z, n). split.
      * unfold rebase. simpl. rewrite decide_True by by apply prefix_app_r. by rewrite drop_app_length.
      * apply elem_of_map_to_list. rewrite Hf. by rewrite decide_False.
    + destruct (decide (below p k)) as [|Hp]; [done|]. intros Hz. exists (k, n). split.
      * unfold rebase. simpl. by rewrite decide_False.
      * apply elem_of_map_to_list. rewrite Hf. by rewrite decide_False.
Qed.

(** ** Running without following links

    [sure P m Q R]: from a state in [P] the computation runs the same way
    wherever links lead; a value satisfies [Q] and after an error the state is
    in [R]. *)
Section sure.
Context `{W : World}.
Notation IO A := (Links → M FS A).
Definition sure {A : Type} (P : FS → Prop) (m : IO A) (Q : A → FS → Prop) (R : FS → Prop) : Prop :=
  ∀ fs n, P fs → ∃ r fs' n', (∀ L, m L fs n = (r, (fs', n'))) ∧ match r with Ok a => Q a fs' | Err _ => R fs' end.

Lemma sure_conseq {A : Type} (P P' : FS → Prop) (m : IO A) (Q Q' : A → FS → Prop) (R R' : FS → Prop) :
  sure P' m Q' R' → (∀ fs, P fs → P' fs) → (∀ a fs, Q' a fs → Q a fs) → (∀ fs, R' fs → R fs) → sure P m Q R.
Proof.
  intros Hm HP HQ HR fs n Hs. destruct (Hm fs n (HP _ Hs)) as (r & fs' & n' & E & Hr).
  exists r, fs', n'. split; [done|]. destruct r; auto.
Qed.
Lemma sure_pure {A : Type} (P : FS → Prop) (φ : Prop) (m : IO A) Q R :
  (φ → sure P m Q R) → sure (λ fs, P fs ∧ φ) m Q R.
Proof. intros Hm fs n [Hs Hf]. by apply Hm. Qed.
Lemma sure_bind {A B : Type} (P : FS → Prop) (m : IO A) (k : Links → A → M FS B) Q1 Q R :
  sure P m Q1 R → (∀ a, sure (Q1 a) (λ L, k L a) Q R) → sure P (λ L, m L ≫= k L) Q R.
Proof.
  intros Hm Hk fs n Hs. destruct (Hm fs n Hs) as ([a|e] & fs1 & n1 & E & Hr).
  - destruct (Hk a fs1 n1 Hr) as (r & fs2 & n2 & E2 & Hr2). exists r, fs2, n2. split; [|done].
    intros L. unfold mbind, M_bind. by rewrite E.
  - exists (Err e), fs1, n1. split; [|done]. intros L. unfold mbind, M_bind. by rewrite E.
Qed.
Lemma sure_lift {A : Type} (P : FS → Prop) (r : result A) (Q : A → FS → Prop) (R : FS → Prop) :
  (∀ a fs, r = Ok a → P fs → Q a fs) → (∀ fs, P fs → R fs) → sure P (λ _, lift r) Q R.
Proof. intros HQ HR fs n Hs. exists r, fs, n. split; [done|]. destruct r; auto. Qed.
Lemma sure_guard (P : FS → Prop) (c : bool) e :
  sure P (λ _, guard_not c e) (λ _ fs, P fs ∧ c = false) P.
Proof. apply sure_lift; [|done]. intros u fs Hc Hs. split; [done|]. by eapply reject_if_ok. Qed.
Lemma sure_ret {A : Type} (P : FS → Prop) (a : A) (Q : A → FS → Prop) R : (∀ fs, P fs → Q a fs) → sure P (λ _, mret a) Q R.
Proof. intros HQ fs n Hs. exists (Ok a), fs, n. split; [done|by apply HQ]. Qed.
Lemma sure_fail {A : Type} (P : FS → Prop) e (Q : A → FS → Prop) (R : FS → Prop) : (∀ fs, P fs → R fs) → sure P (λ _, fail e) Q R.
Proof. intros HR fs n Hs. exists (Err e), fs, n. split; [done|by apply HR]. Qed.
Lemma sure_catch {A : Type} (P : FS → Prop) (m : IO A) (h : Links → error → M FS A) Q R1 R :
  sure P m Q R1 → (∀ e, sure R1 (λ L, h L e) Q R) → sure P (λ L, catch (m L) (h L)) Q R.
Proof.
  intros Hm Hh fs n Hs. destruct (Hm fs n Hs) as ([a|e] & fs1 & n1 & E & Hr).
  - exists (Ok a), fs1, n1. split; [|done]. intros L. unfold catch. by rewrite E.
  - destruct (Hh e fs1 n1 Hr) as (r & fs2 & n2 & E2 & Hr2). exists r, fs2, n2. split; [|done].
    intros L. unfold catch. by rewrite E.
Qed.
Lemma sure_attempt {A : Type} (P : FS → Prop) (m : IO A) (Q : A → FS → Prop) (R : FS → Prop) :
  sure P m Q R → sure P (λ L, attempt (m L)) (λ r fs, match r with Ok a => Q a fs | Err _ => R fs end) (λ _, False).
Proof.
  intros Hm fs n Hs. destruct (Hm fs n Hs) as (r & fs1 & n1 & E & Hr). exists (Ok r), fs1, n1. split; [|by destruct r].
  intros L. unfold attempt. by rewrite E.
Qed.
Lemma sure_if {A : Type} (P : FS → Prop) (b : bool) (m1 m2 : IO A) Q R :
  (b = true → sure P m1 Q R) → (b = false → sure P m2 Q R) → sure P (λ L, if b then m1 L else m2 L) Q R.
Proof. destruct b; eauto. Qed.
Lemma sure_call {A : Type} (P : FS → Prop) (f : Links → FS → result (A * FS)) (Q : A → FS → Prop) (R : FS → Prop) :
  (∀ fs, P fs → R fs) →
  (∀ fs, P fs → ∃ r, (∀ L, f L fs = r) ∧ match r with Ok (a, fs') => Q a fs' | Err _ => True end) →
  sure P (λ L, call (f L)) Q R.
Proof.
  intros HR Hf fs n Hs. destruct (fault n) eqn:En.
  - exists (Err ErrDriver), fs, (S n). split; [|by apply HR]. intros L. unfold call. by rewrite En.
  - destruct (Hf fs Hs) as ([[a fs']|e] & E & Hr).
    + exists (Ok a), fs', (S n). split; [|done]. intros L. unfold call. by rewrite En, E.
    + exists (Err e), fs, (S n). split; [|by apply HR]. intros L. unfold call. by rewrite En, E.
Qed.
Lemma sure_random (P : FS → Prop) (R : FS → Prop) : sure P (λ _, rand_text) (λ _ fs, P fs) R.
Proof. intros fs n Hs. by exists (Ok (random n)), fs, (S n). Qed.
Lemma sure_known {A : Type} (P : FS → Prop) (m : IO A) Q R : (∀ fs, P fs → sure (eq fs) m Q R) → sure P m Q R.
Proof. intros Hm fs n Hs. by apply (Hm fs Hs). Qed.
(** One step from a known state, whose failure changes nothing. *)
Lemma sure_then {A B : Type} fs (m : IO A) (k : Links → A → M FS B) (Q1 : A → FS → Prop) Q (R : FS → Prop) :
  sure (eq fs) m Q1 (eq fs) → R fs → (∀ a x, Q1 a x → sure (eq x) (λ L, k L a) Q R) → sure (eq fs) (λ L, m L ≫= k L) Q R.
Proof.
  intros Hm HR Hk. apply (sure_bind (eq fs) m k Q1).
  - apply (sure_conseq (eq fs) (eq fs) m Q1 Q1 R (eq fs)); [done..|by intros ? <-].
  - intros a x n Hx. by apply (Hk a x Hx).
Qed.
Lemma sure_guarded {B : Type} fs (c : bool) e (k : Links → unit → M FS B) Q (R : FS → Prop) :
  R fs → (c = false → sure (eq fs) (λ L, k L tt) Q R) → sure (eq fs) (λ L, guard_not c e ≫= k L) Q R.
Proof.
  intros HR Hk. apply (sure_then fs (λ _, guard_not c e) k _ _ _ (sure_guard (eq fs) c e)); [done|].
  intros [] x [<- Hc]. by apply Hk.
Qed.
Lemma sure_lifted {A B : Type} fs (r : result A) (k : Links → A → M FS B) Q (R : FS → Prop) :
  R fs → (∀ a, r = Ok a → sure (eq fs) (λ L, k L a) Q R) → sure (eq fs) (λ L, lift r ≫= k L) Q R.
Proof.
  intros HR Hk. apply (sure_then fs (λ _, lift r) k (λ a x, fs = x ∧ r = Ok a)); [|done|intros a x [<- Ha]; by apply Hk].
  apply sure_lift; [|done]. intros a x E Hx. by split.
Qed.
(** Another error in its place. *)
Lemma sure_instead {A : Type} fs (m : IO A) e (Q : A → FS → Prop) :
  sure (eq fs) m Q (eq fs) → sure (eq fs) (λ L, catch (m L) (λ _, fail e)) Q (eq fs).
Proof. intros Hm. apply (sure_catch (eq fs) m (λ _ _, fail e) Q (eq fs)); [done|]. intros e'. by apply sure_fail. Qed.
(** Undoing what failed. *)
Lemma sure_unless {A : Type} (P : FS → Prop) (m : IO A) (undo : IO unit) Q R1 (R : FS → Prop) :
  sure P m Q R1 → sure R1 undo (λ _, R) R → sure P (λ L, unless (m L) (undo L)) Q R.
Proof.
  intros Hm Hu. unfold unless. apply (sure_catch P m (λ L e, _ ← ignore (undo L); fail e) Q R1); [done|]. intros e.
  apply (sure_bind R1 (λ L, ignore (undo L)) (λ _ _, fail e) (λ _, R)); [|intros u; by apply sure_fail].
  apply (sure_catch R1 undo (λ _ _, mret tt) (λ _, R) R); [done|]. intros e'. by apply sure_ret.
Qed.
End sure.

(** ** Paths without links on the way *)
Definition clear (fs : FS) (root p : path) : Prop :=
  ∀ d, d `prefix_of` p → d ≠ [] → d ≠ p → look fs (root ++ d) = Some Directory.
Definition open_ (fs : FS) (root p : path) : Prop :=
  ∀ d, d `prefix_of` p → d ≠ [] → look fs (root ++ d) = Some Directory.

Lemma resolve_clear `{L : Links} fs p : ∀ root, clear fs root p → resolve fs root p = Ok (root ++ p).
Proof.
  induction p as [|c p IH]; intros root Hc; [by rewrite app_nil_r|]. destruct p as [|c' p]; [done|].
  change (resolve fs root (c :: c' :: p)) with
    (match look fs (root ++ [c]) with
     | Some Directory => resolve fs (root ++ [c]) (c' :: p)
     | Some (Symlink _) => follow fs (root ++ [c]) (c' :: p)
     | Some _ => Err notDirectory
     | None => Err Os_ErrNotExist
     end).
  rewrite (Hc [c]); [|by exists (c' :: p)|done|done].
  rewrite IH; [by rewrite <-app_assoc|]. intros d [k E] Hd Hne. rewrite <-app_assoc. simpl.
  apply Hc; [exists k; simpl; by rewrite E|done|]. intros [= ->]. by apply Hne.
Qed.
Lemma clear_single fs root c : clear fs root [c].
Proof.
  intros d [k E] Hd Hne. by destruct d as [|x [|]]; simplify_eq/=.
Qed.
Lemma clear_snoc fs root p c : open_ fs root p → clear fs root (p ++ [c]).
Proof.
  intros Ho d Hd Hn Hne. apply Ho; [|done]. pose proof (prefix_parent _ _ Hd Hne) as Hp. by rewrite parentOf_snoc in Hp.
Qed.
Lemma open_snoc fs root p c : open_ fs root p → look fs (root ++ p ++ [c]) = Some Directory → open_ fs root (p ++ [c]).
Proof.
  intros Ho Hl d Hd Hn. destruct (decide (d = p ++ [c])) as [->|Hne]; [done|].
  apply Ho; [|done]. pose proof (prefix_parent _ _ Hd Hne) as Hp. by rewrite parentOf_snoc in Hp.
Qed.
Lemma clear_parent fs root p : open_ fs root (parentOf p) → clear fs root p.
Proof. intros Ho d Hd Hn Hne. apply Ho; [by apply prefix_parent|done]. Qed.
Lemma open_clear fs root p : open_ fs root p → clear fs root p.
Proof. intros Ho d Hd Hn _. by apply Ho. Qed.
Lemma open_nil fs root : open_ fs root [].
Proof. intros d Hd Hn. by apply prefix_nil_inv in Hd. Qed.

(** ** Clean paths *)
Definition plain (c : string) : Prop := c ≠ ""%string ∧ c ≠ "."%string ∧ c ≠ ".."%string ∧ ContainsByte c "/" = false.
Lemma append_nil_r (a : string) : (a +:+ "")%string = a.
Proof. induction a as [|c a IH]; [done|]. change (String c (a +:+ "") = String c a)%string. by rewrite IH. Qed.
Lemma split_from_bytes sep s : ∀ acc, ContainsByte acc sep = false → Forall (λ c, ContainsByte c sep = false) (split_from sep acc s).
Proof.
  assert (∀ a c, ContainsByte (a +:+ String c "")%string sep = ContainsByte a sep || Ascii.eqb sep c) as Happ.
  { intros a c. unfold ContainsByte. induction a as [|x a IH]; simpl; [by rewrite orb_false_r|].
    unfold ContainsByte in IH. simpl in IH. by rewrite IH, orb_assoc. }
  induction s as [|c s IH]; intros acc Ha; simpl; [by constructor|].
  destruct (Ascii.eqb_spec c sep) as [->|Hne]; [constructor; [done|by apply IH]|]. apply IH. rewrite Happ, Ha. simpl.
  by destruct (Ascii.eqb_spec sep c) as [<-|].
Qed.
(** Steps up come first, names after them. *)
Definition formed (acc : path) : Prop := ∃ ups names : path, acc = ups ++ names ∧ Forall (eq ".."%string) ups ∧ Forall plain names.
Lemma cleanStep_form acc c : ContainsByte c "/" = false → formed acc → formed (cleanStep acc c).
Proof.
  intros Hc (ups & names & -> & Hu & Hn). unfold cleanStep.
  destruct (String.eqb_spec c "") as [->|H1]; [by exists ups, names|].
  destruct (String.eqb_spec c ".") as [->|H2]; [by exists ups, names|].
  cbn [orb]. destruct (String.eqb_spec c "..") as [->|H3].
  - destruct names as [|x names _] using rev_ind.
    + rewrite app_nil_r. destruct ups as [|u ups _] using rev_ind; [by exists [".."%string], []; repeat constructor|].
      rewrite reverse_snoc. apply Forall_app in Hu as [Hu [<- _]%Forall_cons]. rewrite String.eqb_refl.
      exists ((ups ++ [".."%string]) ++ [".."%string]), []. rewrite app_nil_r. split; [done|].
      split; [repeat apply Forall_app_2; [done|by repeat constructor..]|constructor].
    + rewrite app_assoc, reverse_snoc. apply Forall_app in Hn as [Hn [Hx _]%Forall_cons].
      destruct (String.eqb_spec x "..") as [->|]; [by destruct Hx as (_ & _ & ? & _)|].
      rewrite reverse_involutive. by exists ups, names.
  - exists ups, (names ++ [c]). rewrite app_assoc. split; [done|]. split; [done|]. apply Forall_app_2; [done|]. by repeat constructor.
Qed.
Lemma CleanComponents_form p : formed (CleanComponents p).
Proof.
  unfold CleanComponents. pose proof (split_from_bytes "/" p "" eq_refl) as Hs. unfold Split.
  assert (∀ l acc, Forall (λ c, ContainsByte c "/" = false) l → formed acc → formed (fold_left cleanStep l acc)) as H.
  { induction l as [|c l IH]; intros acc Hl Ha; simpl; [done|]. apply Forall_cons in Hl as [Hc Hl].
    apply IH; [done|]. by apply cleanStep_form. }
  apply H; [done|]. by exists [], [].
Qed.
(** A path that is accepted names its file by plain components, none of them
    ".git". *)
Lemma cleanLocalPath_plain p clean :
  cleanLocalPath p = Ok clean → Forall plain clean ∧ ".git"%string ∉ clean.
Proof.
  unfold cleanLocalPath. intros E. apply result_bind_ok in E as (u & G & E). apply reject_if_ok in G.
  apply result_bind_ok in E as (u' & G' & E). apply reject_if_ok, bool_decide_eq_false in G'. injection E as <-.
  split; [|done]. destruct (CleanComponents_form p) as (ups & names & E & Hu & Hn). rewrite E.
  apply orb_false_elim in G as [_ G%negb_false_iff]. unfold IsLocal in G. rewrite E in G.
  destruct ups as [|u'' ups]; [done|]. apply Forall_cons in Hu as [<- _]. simpl in G. by rewrite andb_false_r in G.
Qed.

(** The code cleans a path again that it has cleaned: nothing changes. *)
Lemma split_from_plain sep a : ∀ acc b, ContainsByte a sep = false → split_from sep acc (a +:+ b)%string = split_from sep (acc +:+ a)%string b.
Proof.
  induction a as [|c a IH]; intros acc b Ha; [by rewrite append_nil_r|]. unfold ContainsByte in Ha. simpl in Ha.
  apply orb_false_elim in Ha as [Hc Ha]. change (String c a +:+ b)%string with (String c (a +:+ b)). simpl.
  rewrite Ascii.eqb_sym, Hc, IH by done. f_equal. induction acc as [|x acc IHa]; [done|].
  exact (f_equal (String x) IHa).
Qed.
Lemma split_concat l : l ≠ [] → Forall (λ c, ContainsByte c "/" = false) l → Split (String.concat "/" l) "/" = l.
Proof.
  unfold Split. induction l as [|a [|b l] IH]; [done|..]; intros _ [Ha Hl]%Forall_cons.
  - simpl. rewrite <-(append_nil_r a) at 1. by rewrite split_from_plain.
  - change (String.concat "/" (a :: b :: l)) with (a +:+ (String "/" (String.concat "/" (b :: l))))%string.
    rewrite split_from_plain by done. change ("" +:+ a)%string with a. cbn [split_from]. change (Ascii.eqb "/" "/") with true. cbn iota.
    by rewrite IH.
Qed.
Lemma clean_plain l : ∀ acc, Forall plain l → fold_left cleanStep l acc = acc ++ l.
Proof.
  induction l as [|c l IH]; intros acc; [by rewrite app_nil_r|]. intros [(H1 & H2 & H3 & _) Hl]%Forall_cons. simpl.
  rewrite IH by done. unfold cleanStep.
  destruct (String.eqb_spec c ""); [done|]. destruct (String.eqb_spec c "."); [done|]. destruct (String.eqb_spec c ".."); [done|].
  simpl. by rewrite <-app_assoc.
Qed.
Lemma clean_again l : l ≠ [] → Forall plain l → ".git"%string ∉ l → cleanLocalPath (render l) = Ok l.
Proof.
  intros Hne Hp Hg. assert (render l = String.concat "/" l) as -> by by destruct l.
  assert (CleanComponents (String.concat "/" l) = l) as Hcl.
  { unfold CleanComponents. rewrite split_concat; [by apply clean_plain|done|]. apply (Forall_impl _ _ _ Hp). by intros c (_ & _ & _ & Hc). }
  unfold cleanLocalPath. rewrite Hcl. rewrite bool_decide_eq_false_2 by done. unfold IsLocal. rewrite Hcl.
  destruct l as [|a l]; [done|]. apply Forall_cons in Hp as [(H1 & H2 & H3 & H4) Hl].
  assert (∃ x b, a = String x b ∧ x ≠ "/"%char) as (x & b & -> & Hx).
  { destruct a as [|x b]; [done|]. exists x, b. split; [done|]. intros ->. done. }
  assert (∃ t, String.concat "/" (String x b :: l) = String x t ∧ (l ≠ [] ∨ t = b) ∧ (l ≠ [] → t ≠ ""%string)) as (t & E & Ht & Ht').
  { destruct l as [|b' l]; [by exists b; repeat split; auto|].
    exists (b +:+ String "/" (String.concat "/" (b' :: l)))%string. split; [done|]. split; [by left|]. intros _ E0. destruct b; discriminate E0. }
  rewrite E. assert ((String x t =? ".")%string = false) as ->.
  { apply String.eqb_neq. intros [= -> ->]. destruct Ht as [Hl0|<-]; [by apply Ht'|done]. }
  assert (bool_decide (head (String x b :: l) = Some ".."%string) = false) as -> by (apply bool_decide_eq_false; intros E'; apply H3; simpl in E'; congruence).
  assert (HasPrefix (String x t) "/" = false) as ->.
  { unfold HasPrefix. simpl. by case_match. }
  done.
Qed.

(** ** What an operation may change

    A region holds all that is below its paths, but not the root. *)
Class Region (T : path → Prop) := { region_below : ∀ p k, T p → below p k → T k; region_root : ¬ T [] }.
Definition within (T : path → Prop) (fs fs' : FS) : Prop := WF fs' ∧ ∀ k, ¬ T k → fs' !! k = fs !! k.

(** The stack [s] but for its repository; a whole stack. *)
Definition inside (s : string) (k : path) : Prop := ∃ k', k = s :: k' ∧ k' ≠ [] ∧ head k' ≠ Some ".git"%string.
#[export] Instance inside_region s : Region (inside s).
Proof.
  split; [|by intros (k & [=] & _)]. intros p k (p' & -> & Hp & Hh) [z ->]. exists (p' ++ z). split; [done|].
  destruct p'; [done|]. simpl in *. done.
Qed.
#[export] Instance below_region s : Region (below [s]).
Proof. split; [intros p k Hp Hk; unfold below in *; by etrans|]. intros Hn. by apply prefix_nil_inv in Hn. Qed.
#[export] Instance either_region s t : Region (λ k, below [s] k ∨ below [t] k).
Proof.
  split; [|intros [Hn|Hn]; by apply prefix_nil_inv in Hn].
  intros p k [Hp|Hp] Hk; [left|right]; unfold below in *; by etrans.
Qed.
Lemma inside_clean s clean : clean ≠ [] → ".git"%string ∉ clean → inside s (s :: clean).
Proof. intros Hne Hg. exists clean. split; [done|]. split; [done|]. destruct clean; [done|]. simpl. intros [= ->]. apply Hg. left. Qed.
Lemma below_up (a k : path) : below a (parentOf k) → below a k.
Proof. intros Hx. unfold below in *. etrans; [done|apply parentOf_prefix]. Qed.
Lemma below_refl (p : path) : below p p.
Proof. by unfold below. Qed.
Lemma below_app (p z : path) : below p (p ++ z).
Proof. by exists z. Qed.
Lemma parent_not_below (a : path) : a ≠ [] → ¬ below a (parentOf a).
Proof.
  intros Ha Hb. destruct (path_split a Ha) as [c E]. apply prefix_length in Hb. rewrite E in Hb at 1.
  rewrite length_app in Hb. simpl in Hb. lia.
Qed.

Section within.
Context (T : path → Prop) `{!Region T}.
Lemma region_ne p : T p → p ≠ [].
Proof. intros Hp ->. by apply region_root in Hp. Qed.
Lemma within_refl fs : WF fs → within T fs fs.
Proof. by intros. Qed.
Lemma within_trans fs1 fs2 fs3 : within T fs1 fs2 → within T fs2 fs3 → within T fs1 fs3.
Proof. intros [_ H1] [Hw H2]. split; [done|]. intros k Hk. by rewrite H2, H1. Qed.

Lemma within_insert fs p n :
  WF fs → T p → look fs (parentOf p) = Some Directory →
  fs !! p = None ∨ (∃ m c, fs !! p = Some (Regular m c)) → within T fs (<[p := n]> fs).
Proof.
  intros Hwf Hi Hp Hn. split; [|intros k Hk; rewrite lookup_insert_ne; [done|by intros ->]].
  pose proof (region_ne _ Hi) as Hp0.
  assert (∀ d, look fs d = Some Directory → d ≠ p → look (<[p := n]> fs) d = Some Directory) as Hl.
  { intros d Hd Hne. destruct d; [done|]. simpl in *. by rewrite lookup_insert_ne. }
  intros k m [[<- <-]|[Hne Hk]]%lookup_insert_Some.
  - split; [done|]. apply Hl; [done|]. intros E. apply (parent_not_below p Hp0). rewrite E. apply below_refl.
  - destruct (Hwf _ _ Hk) as [Hk0 Hd]. split; [done|]. apply Hl; [done|]. intros E. rewrite E, look_ne in Hd by done.
    destruct Hn as [Hn|(? & ? & Hn)]; discriminate (eq_trans (eq_sym Hn) Hd).
Qed.
Lemma within_without fs p : WF fs → T p → within T fs (without p fs).
Proof.
  intros Hwf Hi. split.
  - intros k n. rewrite without_lookup. case_decide as Hb; [done|]. intros Hk. destruct (Hwf _ _ Hk) as [Hk0 Hd].
    split; [done|]. assert (¬ below p (parentOf k)) as Hnb by (intros Hx; by apply Hb, below_up).
    destruct (parentOf k) as [|c k'] eqn:Ek; [done|]. simpl in *. rewrite without_lookup. by rewrite decide_False.
  - intros k Hk. rewrite without_lookup. case_decide as Hb; [|done]. destruct Hk. by eapply region_below.
Qed.
Lemma delete_without fs p : hasEntries fs p = false → delete p fs = without p fs.
Proof.
  intros He. apply map_eq. intros k. rewrite without_lookup. destruct (decide (below p k)) as [Hb|Hb].
  - destruct (decide (p = k)) as [->|Hne]; [by rewrite lookup_delete_eq|]. rewrite lookup_delete_ne by done.
    apply eq_None_not_Some. intros [n Hn]. assert (hasEntries fs p = true); [|congruence].
    apply hasEntries_spec. exists k, n. split; [done|]. split; [done|congruence].
  - rewrite lookup_delete_ne; [done|]. intros ->. apply Hb, below_refl.
Qed.
Lemma within_delete fs p : WF fs → T p → hasEntries fs p = false → within T fs (delete p fs).
Proof. intros Hwf Hi He. rewrite delete_without by done. by apply within_without. Qed.
Lemma within_moved fs p q :
  WF fs → T p → T q → ¬ below p q → look fs (parentOf q) = Some Directory → within T fs (moved p q fs).
Proof.
  intros Hwf Hp Hq Hpq Hd. pose proof (region_ne _ Hq) as Hq0. pose proof (region_ne _ Hp) as Hp0.
  assert (∀ d, ¬ below q d → ¬ below p d → look fs d = Some Directory → look (moved p q fs) d = Some Directory) as Hkeep.
  { intros d Hqd Hpd Hl. destruct d as [|c d]; [done|]. simpl in *. rewrite moved_lookup by done.
    by rewrite decide_False, decide_False. }
  split.
  - intros k n. rewrite moved_lookup by done. destruct (decide (below q k)) as [[z ->]|Hk]; simpl.
    + rewrite drop_app_length. case_decide as Hqz; [done|]. intros Hz. split; [by destruct q|].
      destruct (decide (z = [])) as [->|Hzn].
      * rewrite app_nil_r. apply Hkeep; [by apply parent_not_below|intros Hb; by apply Hpq, below_up|done].
      * destruct (path_split z Hzn) as [c Ez]. rewrite Ez, app_assoc, parentOf_snoc.
        destruct (Hwf _ _ Hz) as [_ Hzd]. rewrite Ez, app_assoc, parentOf_snoc in Hzd.
        rewrite look_ne by (by destruct q). rewrite moved_lookup by done. rewrite decide_True by apply below_app.
        rewrite drop_app_length. simpl. rewrite decide_False; [by rewrite <-look_ne by (by destruct p)|].
        intros Hb. apply Hqz. rewrite Ez, app_assoc. unfold below in *. etrans; [done|by apply prefix_app_r].
    + case_decide as Hpk; [done|]. intros Hn. destruct (Hwf _ _ Hn) as [Hk0 Hkd]. split; [done|].
      apply Hkeep; [by intros ?%below_up|by intros ?%below_up|done].
  - intros k Hk. rewrite moved_lookup by done.
    rewrite decide_False by (intros Hb; apply Hk; exact (region_below _ _ Hq Hb)).
    by rewrite decide_False by (intros Hb; apply Hk; exact (region_below _ _ Hp Hb)).
Qed.
End within.
(** ** The calls, on paths without links on the way *)
Section calls.
Context `{W : World} `{U : Umask} `{H : FileHash} (limits : Limits).

Lemma sure_at {A : Type} fs root rest (f : Links → FS → path → result (A * FS)) r (Q : A → FS → Prop) :
  clear fs root rest → (∀ L, f L fs (root ++ rest) = r) → (∀ a fs', r = Ok (a, fs') → Q a fs') →
  sure (eq fs) (λ L, at_ root rest (f L)) Q (eq fs).
Proof.
  intros Hc Hf HQ. apply (sure_call (eq fs) (λ L x, p ← resolve x root rest; f L x p)); [done|]. intros ? <-. exists r.
  split; [intros L; rewrite resolve_clear by done; apply Hf|]. destruct r as [[a fs']|]; auto.
Qed.
Lemma sure_Lstat fs root rest :
  clear fs root rest → sure (eq fs) (λ L, Lstat root rest) (λ n x, fs = x ∧ look fs (root ++ rest) = Some n) (eq fs).
Proof.
  intros Hc. apply (sure_at fs root rest (λ _ fs p, match look fs p with Some n => Ok (n, fs) | None => Err Os_ErrNotExist end) _ _ Hc
    (λ _, eq_refl)). intros n fs' E. destruct (look fs (root ++ rest)); by simplify_eq/=.
Qed.
Lemma sure_attempt_Lstat fs root rest :
  clear fs root rest →
  sure (eq fs) (λ L, attempt (Lstat root rest))
    (λ r x, fs = x ∧ match r with Ok n => look fs (root ++ rest) = Some n | Err e => Is e Os_ErrNotExist = true → look fs (root ++ rest) = None end)
    (eq fs).
Proof.
  intros Hc x n <-. destruct (fault n) eqn:Ef.
  - exists (Ok (Err ErrDriver)), fs, (S n). split; [|by intros]. intros L. unfold attempt, Lstat, at_, call. by rewrite Ef.
  - exists (Ok (match look fs (root ++ rest) with Some x => Ok x | None => Err Os_ErrNotExist end)), fs, (S n). split.
    + intros L. unfold attempt, Lstat, at_, call. rewrite Ef, resolve_clear by done. simpl. by destruct (look fs (root ++ rest)).
    + split; [done|]. by destruct (look fs (root ++ rest)).
Qed.
Lemma sure_OpenRoot fs root rest :
  clear fs root rest → look fs (root ++ rest) = Some Directory →
  sure (eq fs) (λ L, OpenRoot root rest) (λ q x, fs = x ∧ q = root ++ rest) (eq fs).
Proof.
  intros Hc Hd. apply (sure_at fs root rest (λ L fs p, q ← target fs p;
    match look fs q with Some Directory => Ok (q, fs) | Some _ => Err notDirectory | None => Err Os_ErrNotExist end)
    (Ok (root ++ rest, fs))); [done| |by intros ? ? [= <- <-]].
  intros L. unfold target. rewrite Hd. simpl. by rewrite Hd.
Qed.
Lemma sure_ReadFile fs root rest m c :
  clear fs root rest → look fs (root ++ rest) = Some (Regular m c) →
  sure (eq fs) (λ L, ReadFile root rest) (λ t x, fs = x ∧ t = c) (eq fs).
Proof.
  intros Hc Hd. apply (sure_at fs root rest (λ L fs p, q ← target fs p;
    match look fs q with
    | Some (Regular _ contents) => Ok (contents, fs)
    | Some Directory => Err isDirectory
    | Some _ => Ok (""%string, fs)
    | None => Err Os_ErrNotExist
    end) (Ok (c, fs))); [done| |by intros ? ? [= <- <-]].
  intros L. unfold target. rewrite Hd. simpl. by rewrite Hd.
Qed.
(** Something new, of a form that depends on nothing. *)
Lemma create_ok n fs p u fs' :
  create n fs p = Ok (u, fs') → look fs p = None ∧ look fs (parentOf p) = Some Directory ∧ fs' = <[p := n]> fs.
Proof.
  unfold create. intros E. destruct (look fs p); [done|]. destruct (look fs (parentOf p)) as [[]|]; by simplify_eq/=.
Qed.
Lemma sure_Mkdir fs root rest :
  clear fs root rest →
  sure (eq fs) (λ L, Mkdir root rest)
    (λ _ x, look fs (root ++ rest) = None ∧ look fs (parentOf (root ++ rest)) = Some Directory ∧
      x = <[root ++ rest := Directory]> fs) (eq fs).
Proof.
  intros Hc. apply (sure_at fs root rest (λ _, create Directory) _ _ Hc (λ _, eq_refl)). intros u fs' E. by eapply create_ok.
Qed.
Lemma sure_OpenExclusive fs root rest mode :
  clear fs root rest →
  sure (eq fs) (λ L, OpenExclusive root rest mode)
    (λ q x, q = root ++ rest ∧ look fs q = None ∧ look fs (parentOf q) = Some Directory ∧
      x = <[q := Regular (Z.land mode (Z.lnot umask)) ""]> fs) (eq fs).
Proof.
  intros Hc. apply (sure_at fs root rest (λ _ fs p, '(_, fs') ← create (Regular (Z.land mode (Z.lnot umask)) "") fs p; Ok (p, fs')) _ _
    Hc (λ _, eq_refl)). intros q fs' E. apply result_bind_ok in E as ([u fs1] & E & [= <- <-]). by apply create_ok in E.
Qed.
Lemma sure_writeOpen fs p m c contents :
  fs !! p = Some (Regular m c) →
  sure (eq fs) (λ L, writeOpen p contents) (λ _ x, x = <[p := Regular m (c +:+ contents)%string]> fs) (eq fs).
Proof.
  intros Hp. apply (sure_call (eq fs) (λ _ fs, match fs !! p with
    | Some (Regular mode old) => Ok (tt, <[p := Regular mode (old +:+ contents)%string]> fs)
    | _ => Ok (tt, fs) end)); [done|]. intros ? <-. eexists. split; [done|]. by rewrite Hp.
Qed.
Lemma sure_syncOpen fs : sure (eq fs) (λ L, syncOpen) (λ _, eq fs) (eq fs).
Proof. apply (sure_call (eq fs) (λ _ fs, Ok (tt, fs))); [done|]. intros ? <-. by eexists. Qed.
Lemma sure_Remove fs root rest :
  clear fs root rest →
  sure (eq fs) (λ L, Remove root rest) (λ _ x, hasEntries fs (root ++ rest) = false ∧ x = delete (root ++ rest) fs) (eq fs).
Proof.
  intros Hc. apply (sure_at fs root rest (λ _ fs p, match look fs p with
    | None => Err Os_ErrNotExist
    | Some _ => if hasEntries fs p then Err Os_ErrExist else Ok (tt, delete p fs) end) _ _ Hc (λ _, eq_refl)).
  intros u fs' E. destruct (look fs (root ++ rest)); [|done]. by destruct (hasEntries _ _); simplify_eq/=.
Qed.
Lemma sure_RemoveAll fs root rest :
  clear fs root rest → sure (eq fs) (λ L, RemoveAll root rest) (λ _ x, x = without (root ++ rest) fs) (eq fs).
Proof.
  intros Hc. apply (sure_at fs root rest (λ _ fs p, Ok (tt, without p fs)) _ _ Hc (λ _, eq_refl)).
  by intros u fs' [= _ <-].
Qed.
Lemma rename_ok fs p q u fs' :
  rename fs p q = Ok (u, fs') →
  fs' = fs ∨ (fs' = moved p q fs ∧ ¬ below p q ∧ look fs (parentOf q) = Some Directory).
Proof.
  unfold rename. intros E. destruct (look fs p) as [n|]; [|done]. case_decide; [left; congruence|].
  destruct (bool_decide_reflect (below p q)) as [|Hb]; [done|].
  destruct (look fs (parentOf q)) as [[]|] eqn:Ed; try done.
  assert (fs' = moved p q fs ∨ fs' = fs) as [|]; [|by right|by left].
  left. destruct (look fs q) as [[]|], (isDir n); simplify_eq/=; try done. by destruct (hasEntries fs q); simplify_eq/=.
Qed.
Lemma sure_Rename fs root from to :
  clear fs root from → clear fs root to →
  sure (eq fs) (λ L, Rename root from to) (λ u x, rename fs (root ++ from) (root ++ to) = Ok (u, x)) (eq fs).
Proof.
  intros Hp Hq. apply (sure_call (eq fs) (λ L fs, p ← resolve fs root from; q ← resolve fs root to; rename fs p q)); [done|].
  intros ? <-. exists (rename fs (root ++ from) (root ++ to)). split.
  - intros L. by rewrite !resolve_clear by done.
  - by destruct (rename _ _ _) as [[[] x]|].
Qed.
End calls.
(** ** The checks before an operation *)
Section checks.
Context `{W : World} `{U : Umask} `{H : FileHash} (limits : Limits).

Lemma sure_openStack fs s :
  sure (eq fs) (λ L, openStack s) (λ root x, fs = x ∧ root = [s] ∧ validStackName s = true ∧ fs !! [s] = Some Directory) (eq fs).
Proof.
  apply sure_guarded; [done|]. intros Hv%negb_false_iff. eapply sure_then; [apply sure_instead, (sure_Lstat fs [] [s]), clear_single|done|].
  intros n x [<- Hl]. apply sure_guarded; [done|]. intros Hd. destruct n; try done.
  eapply sure_conseq; [apply sure_instead, (sure_OpenRoot fs [] [s]); [apply clear_single|done]|done| |done].
  by intros q x [<- ->].
Qed.
Lemma sure_regularFrom fs stack : ∀ rest done,
  open_ fs stack done →
  sure (eq fs) (λ L, regularFrom stack done rest)
    (λ info x, fs = x ∧ rest ≠ [] ∧ open_ fs stack (parentOf (done ++ rest)) ∧
      ∃ m c, info = Regular m c ∧ look fs (stack ++ done ++ rest) = Some info) (eq fs).
Proof.
  induction rest as [|c rest IH]; intros dn Ho.
  { eapply sure_then; [by apply sure_Lstat, open_clear|done|]. intros n x [<- _]. by apply sure_fail. }
  apply sure_then with (Q1 := λ n x, fs = x ∧ look fs (stack ++ dn ++ [c]) = Some n);
    [by apply sure_Lstat, clear_snoc|done|]. intros n x [<- Hl].
  apply sure_guarded; [done|]. intros Hs. destruct rest as [|c' rest].
  - apply sure_guarded; [done|]. intros Hr. apply sure_ret. intros x <-. rewrite parentOf_snoc.
    split; [done|]. split; [done|]. split; [done|]. destruct n; try done. by do 2 eexists.
  - apply sure_guarded; [done|]. intros Hd. destruct n; try done.
    eapply sure_conseq; [apply (IH (dn ++ [c])); by apply open_snoc|done| |done].
    intros info x (<- & _ & Hrest). rewrite <-app_assoc in Hrest. done.
Qed.
Lemma sure_validateRegularFile fs stack p :
  sure (eq fs) (λ L, validateRegularFile stack p)
    (λ r x, fs = x ∧ r.1 ≠ [] ∧ cleanLocalPath p = Ok r.1 ∧ open_ fs stack (parentOf r.1) ∧
      ∃ m c, r.2 = Regular m c ∧ look fs (stack ++ r.1) = Some r.2) (eq fs).
Proof.
  apply sure_lifted; [done|]. intros clean Hc.
  eapply sure_then; [apply (sure_regularFrom fs stack clean []), open_nil|done|].
  intros info x (<- & Hne & Hrest). by apply sure_ret; intros x <-.
Qed.
Lemma sure_directoryFrom fs stack : ∀ rest done,
  open_ fs stack done → sure (eq fs) (λ L, directoryFrom stack done rest) (λ _ x, fs = x ∧ open_ fs stack (done ++ rest)) (eq fs).
Proof.
  induction rest as [|c rest IH]; intros dn Ho; [apply sure_ret; intros x <-; by rewrite app_nil_r|].
  apply sure_then with (Q1 := λ n x, fs = x ∧ look fs (stack ++ dn ++ [c]) = Some n);
    [by apply sure_instead, sure_Lstat, clear_snoc|done|]. intros n x [<- Hl].
  apply sure_guarded; [done|]. intros Hd. destruct n; try done.
  eapply sure_conseq; [apply (IH (dn ++ [c])); by apply open_snoc|done| |done].
  intros u x [<- Hrest]. by rewrite <-app_assoc in Hrest.
Qed.
Lemma sure_validateEntry fs stack clean :
  sure (eq fs) (λ L, validateEntry stack clean)
    (λ info x, fs = x ∧ clean ≠ [] ∧ open_ fs stack (parentOf clean) ∧ look fs (stack ++ clean) = Some info ∧
      (info = Directory ∨ ∃ m c, info = Regular m c)) (eq fs).
Proof.
  apply sure_guarded; [done|]. intros Hne%bool_decide_eq_false.
  eapply sure_then; [apply (sure_directoryFrom fs stack (parentOf clean) []), open_nil|done|].
  intros u x [<- Ho]. eapply sure_then; [apply sure_Lstat; by apply clear_parent|done|].
  intros n x [<- Hl]. apply sure_guarded; [done|]. intros Hn. apply sure_ret. intros x <-.
  do 4 (split; [done|]). destruct n; try done; [by left|right; by do 2 eexists].
Qed.
End checks.
(** ** What each operation does *)
Lemma file_below fs p k : WF fs → p ≠ [] → look fs p ≠ Some Directory → below p k → k ≠ p → fs !! k = None.
Proof.
  intros Hwf Hp Hl Hb Hne. apply eq_None_not_Some. intros [n Hn].
  apply Hl. exact (WF_below fs p k n Hwf Hn Hb (not_eq_sym Hne)).
Qed.
(** A new file that takes the place of another. *)
Lemma moved_file fs t p n m c :
  WF fs → t ≠ [] → t ≠ p → length t = length p → fs !! t = None → fs !! p = Some (Regular m c) →
  moved t p (<[t := n]> fs) = <[p := n]> fs.
Proof.
  intros Hwf Ht0 Htp Hlen Ht Hp.
  assert (∀ a b z : path, length a = length b → below a (b ++ z) → a = b) as Hsame.
  { intros a b z Hl [y E]. by apply app_inj_1 in E as [-> _]. }
  assert (¬ below t p) as Hnb by (intros Hb; apply Htp, (Hsame t p []); [done|by rewrite app_nil_r]).
  assert (p ≠ []) as Hp0 by (intros ->; by destruct t).
  apply map_eq. intros k. rewrite moved_lookup by done. destruct (decide (below p k)) as [[z ->]|Hk]; simpl.
  - rewrite drop_app_length, decide_False by (intros Hb; symmetry in Hlen; by apply Htp, eq_sym, (Hsame p t z)).
    destruct (decide (z = [])) as [->|Hz]; [by rewrite !app_nil_r, !lookup_insert_eq|].
    assert (∀ a : path, a ++ z ≠ a) as Hz' by (intros a E; apply Hz; by apply (app_inv_head a); rewrite app_nil_r).
    rewrite !lookup_insert_ne by (by apply not_eq_sym). rewrite (file_below fs t), (file_below fs p);
      try first [done|apply below_app|by rewrite look_ne, ?Hp, ?Ht].
  - destruct (decide (below t k)) as [Hb|Hb].
    + assert (fs !! k = None) as E.
      { destruct (decide (k = t)) as [->|Hne]; [done|]. apply (file_below fs t); [done..|by rewrite look_ne, Ht|done|done]. }
      rewrite lookup_insert_ne; [done|]. intros ->. by apply Hk, below_refl.
    + rewrite !lookup_insert_ne; [done| |]; intros ->; [by apply Hk, below_refl|by apply Hb, below_refl].
Qed.

(** The files at [p] are at [q] afterwards, all else is as it was. *)
Definition Moved (p q : path) (fs fs' : FS) : Prop :=
  (∀ z, fs' !! (q ++ z) = fs !! (p ++ z)) ∧ (∀ k, below p k → ¬ below q k → fs' !! k = None) ∧
  (∀ k, ¬ below p k → ¬ below q k → fs' !! k = fs !! k).
Lemma moved_Moved fs p q n :
  WF fs → fs !! p = Some n → look fs q = None → ¬ below p q → Moved p q fs (moved p q fs).
Proof.
  intros Hwf Hp Hq Hpq. assert (q ≠ []) as Hq0 by by intros ->.
  assert (∀ k, below q k → fs !! k = None) as Hfree.
  { intros k Hb. destruct (decide (k = q)) as [->|Hne]; [by rewrite look_ne in Hq|].
    apply (file_below fs q); [done|done|by rewrite Hq|done|done]. }
  split; [|split].
  - intros z. rewrite moved_lookup by done. rewrite decide_True by apply below_app. rewrite drop_app_length. simpl.
    destruct (decide (below q (p ++ z))) as [Hb|]; [|done]. by rewrite Hfree.
  - intros k Hb Hnb. rewrite moved_lookup by done. by rewrite decide_False, decide_True.
  - intros k Hb Hnb. rewrite moved_lookup by done. by rewrite !decide_False.
Qed.
(** Only directories were added, on the way to [clean]. *)
Definition Added (s : string) (clean : path) (fs fs' : FS) : Prop :=
  ∀ k, fs' !! k = fs !! k ∨
    (fs !! k = None ∧ fs' !! k = Some Directory ∧ ∃ d, k = s :: d ∧ d ≠ [] ∧ d `prefix_of` clean).

Section operations.
Context `{W : World} `{U : Umask} `{H : FileHash} (limits : Limits).

Inductive FileOp :=
| OpRead (s p : string)
| OpWrite (s p contents expectedHash : string)
| OpCreateDirectory (s p : string)
| OpCreateFile (s p contents : string)
| OpMove (s from to : string)
| OpRemove (s p : string)
| OpTree (s : string)
| OpDiscover
| OpCreateStack (s : string)
| OpRenameStack (from to : string)
| OpRemoveStack (s : string).
Inductive Reply := RDone | RFile (f : FileContent) | RTree (l : list FileEntry) | RNames (l : list string).
Definition exec `{Links} (op : FileOp) : M FS Reply :=
  match op with
  | OpRead s p => f ← Read limits s p; mret (RFile f)
  | OpWrite s p c h => f ← Write limits s p c h; mret (RFile f)
  | OpCreateDirectory s p => _ ← CreateDirectory s p; mret RDone
  | OpCreateFile s p c => f ← CreateFile limits s p c; mret (RFile f)
  | OpMove s a b => _ ← Move s a b; mret RDone
  | OpRemove s p => _ ← RemoveEntry s p; mret RDone
  | OpTree s => l ← Tree limits s; mret (RTree l)
  | OpDiscover => l ← Discover; mret (RNames l)
  | OpCreateStack s => _ ← CreateStack s; mret RDone
  | OpRenameStack a b => _ ← RenameStack a b; mret RDone
  | OpRemoveStack s => _ ← RemoveStack s; mret RDone
  end.

(** The entry that a path of a stack names. *)
Definition names_entry (fs : FS) (s p : string) (clean : path) (n : Node) : Prop :=
  validStackName s = true ∧ cleanLocalPath p = Ok clean ∧ clean ≠ [] ∧ fs !! (s :: clean) = Some n.
(** A directory with a compose file. *)
Definition isStack (fs : FS) (name : string) : Prop :=
  validStackName name = true ∧ fs !! [name] = Some Directory ∧ ∃ m c, fs !! [name; composeFile] = Some (Regular m c).
(** Entries of the stack outside of any repository, within the limits. *)
Definition listed (fs : FS) (s : string) (e : FileEntry) : Prop :=
  ∃ p n, p ≠ [] ∧ fs !! (s :: p) = Some n ∧ ".git"%string ∉ p ∧ (Z.of_nat (length p) ≤ MaxDepth limits)%Z ∧
    e = mkFileEntry (render p) (size n) (isDir n) (isRegular n && (size n <=? MaxEditableBytes limits)%Z).
Definition listing (fs : FS) (s : string) (l : list FileEntry) : Prop :=
  (Z.of_nat (length l) ≤ Z.max 0 (MaxEntries limits))%Z ∧ Forall (listed fs s) l.
Definition Effect (op : FileOp) (fs : FS) (r : Reply) (fs' : FS) : Prop :=
  match op with
  | OpRead s p => fs' = fs ∧ ∃ clean m c,
      names_entry fs s p clean (Regular m c) ∧ (len c ≤ MaxEditableBytes limits)%Z ∧ r = RFile (result_of clean c)
  | OpWrite s p c h => ∃ clean m old,
      names_entry fs s p clean (Regular m old) ∧ (len c ≤ MaxEditableBytes limits)%Z ∧ hash old = h ∧
      r = RFile (result_of clean c) ∧
      fs' = <[s :: clean := Regular (Z.land (Z.land m writable) (Z.lnot umask)) c]> fs
  | OpCreateDirectory s p => ∃ clean, cleanLocalPath p = Ok clean ∧ open_ fs' [s] clean ∧ Added s clean fs fs'
  | OpCreateFile s p c => ∃ clean,
      cleanLocalPath p = Ok clean ∧ clean ≠ [] ∧ fs !! (s :: clean) = None ∧ (len c ≤ MaxEditableBytes limits)%Z ∧
      r = RFile (result_of clean c) ∧ fs' = <[s :: clean := Regular (Z.land 416 (Z.lnot umask)) c]> fs
  | OpMove s a b => ∃ p n q, names_entry fs s a p n ∧ cleanLocalPath b = Ok q ∧ q ≠ [] ∧
      fs !! (s :: q) = None ∧ Moved (s :: p) (s :: q) fs fs'
  | OpRemove s p => ∃ clean n, names_entry fs s p clean n ∧ fs' = without (s :: clean) fs
  | OpTree s => fs' = fs ∧ ∃ l, r = RTree l ∧ listing fs s l
  | OpDiscover => fs' = fs ∧ ∃ l, r = RNames l ∧ Forall (isStack fs) l
  | OpCreateStack s => validStackName s = true ∧ fs !! [s] = None ∧
      fs' = <[[s; composeFile] := Regular (Z.land 416 (Z.lnot umask)) ("services: {}" +:+ String (ascii_of_nat 10) "")%string]>
              (<[[s] := Directory]> fs)
  | OpRenameStack a b => validStackName a = true ∧ validStackName b = true ∧ (fs' = fs ∨ fs' = moved [a] [b] fs)
  | OpRemoveStack s => validStackName s = true ∧ fs !! [s] = Some Directory ∧ fs' = without [s] fs
  end.
(** What may be left over when an operation fails: files that were not there
    before. *)
Definition Leftover (op : FileOp) (fs fs' : FS) : Prop :=
  fs' = fs ∨
  match op with
  | OpWrite s p _ _ => ∃ clean n suffix m c, names_entry fs s p clean n ∧
      fs !! (s :: temporaryOf clean suffix) = None ∧ fs' = <[s :: temporaryOf clean suffix := Regular m c]> fs
  | OpCreateDirectory s p => ∃ clean, cleanLocalPath p = Ok clean ∧ Added s clean fs fs'
  | OpCreateFile s p _ => ∃ clean m c, cleanLocalPath p = Ok clean ∧ clean ≠ [] ∧
      fs !! (s :: clean) = None ∧ fs' = <[s :: clean := Regular m c]> fs
  | OpCreateStack s => fs !! [s] = None ∧ fs' = <[[s] := Directory]> fs
  | _ => False
  end.
(** The part of the file system that an operation may change. *)
Definition touches (op : FileOp) (k : path) : Prop :=
  match op with
  | OpRead s _ | OpTree s => False
  | OpDiscover => False
  | OpWrite s _ _ _ | OpCreateDirectory s _ | OpCreateFile s _ _ | OpMove s _ _ | OpRemove s _ => inside s k
  | OpCreateStack s | OpRemoveStack s => below [s] k
  | OpRenameStack a b => below [a] k ∨ below [b] k
  end.
Definition done_ (op : FileOp) (fs : FS) (r : Reply) (fs' : FS) : Prop := within (touches op) fs fs' ∧ Effect op fs r fs'.
Definition left_ (op : FileOp) (fs fs' : FS) : Prop := within (touches op) fs fs' ∧ Leftover op fs fs'.
Lemma left_same op fs : WF fs → left_ op fs fs.
Proof. intros Hwf. split; [done|by left]. Qed.
#[local] Hint Resolve left_same : core.

Lemma Read_sure fs s p :
  WF fs → sure (eq fs) (λ L, Read limits s p) (λ f, done_ (OpRead s p) fs (RFile f)) (left_ (OpRead s p) fs).
Proof.
  intros Hwf. eapply sure_then; [apply sure_openStack|auto|]. intros root x (<- & -> & Hv & Hs).
  eapply sure_then; [apply sure_validateRegularFile|auto|]. intros [clean info] x (<- & Hne & Hc & Ho & m & c & Hi & Hl).
  simpl in *. subst info. apply sure_guarded; [auto|]. intros Hsz%Z.ltb_ge.
  eapply sure_then; [eapply sure_ReadFile; [by apply clear_parent|done]|auto|]. intros t x [<- ->].
  apply sure_ret. intros x <-. split; [done|]. split; [done|]. by exists clean, m, c.
Qed.
(** The temporary file is next to the file it replaces. *)
Lemma temporary_inside s clean suffix : clean ≠ [] → ".git"%string ∉ clean → inside s (s :: temporaryOf clean suffix).
Proof.
  intros Hne Hg. exists (temporaryOf clean suffix). split; [done|]. unfold temporaryOf.
  split; [by destruct (parentOf clean)|]. destruct (parentOf clean) as [|y l] eqn:E; [done|]. simpl. intros [= ->]. apply Hg.
  destruct (path_split clean Hne) as [z ->]. rewrite E. left.
Qed.
Lemma temporary_length clean suffix : clean ≠ [] → length (temporaryOf clean suffix) = length clean.
Proof.
  intros Hne. destruct (path_split clean Hne) as [z E]. rewrite E at 2. unfold temporaryOf. by rewrite !length_app.
Qed.
Lemma clear_fresh fs root p q n : fs !! q = None → clear fs root p → clear (<[q := n]> fs) root p.
Proof.
  intros Hq Hc d Hd Hd0 Hne. pose proof (Hc d Hd Hd0 Hne) as Hl.
  assert (root ++ d ≠ []) as Hrd by (intros [_ ->]%app_nil; done). rewrite look_ne in Hl |- * by done.
  rewrite lookup_insert_ne; [done|]. intros ->. by rewrite Hl in Hq.
Qed.
Lemma rename_file fs t p n m c u x :
  WF fs → t ≠ [] → length t = length p → fs !! t = None → fs !! p = Some (Regular m c) → isDir n = false →
  rename (<[t := n]> fs) t p = Ok (u, x) → x = <[p := n]> fs.
Proof.
  intros Hwf Ht0 Hlen Ht Hp Hn. assert (t ≠ p) as Hne by (intros ->; by rewrite Hp in Ht).
  assert (p ≠ []) as Hp0 by (intros ->; by destruct t).
  unfold rename. rewrite look_ne, lookup_insert_eq by done. rewrite decide_False by done.
  destruct (bool_decide _); [done|]. destruct (negb _); [done|]. rewrite look_ne, lookup_insert_ne, Hp, Hn by done.
  intros [= _ <-]. by apply (moved_file fs t p n m c).
Qed.
Lemma temporary_left fs s p contents h clean old suffix k c :
  WF fs → names_entry fs s p clean old → look fs (parentOf (s :: temporaryOf clean suffix)) = Some Directory →
  fs !! (s :: temporaryOf clean suffix) = None →
  left_ (OpWrite s p contents h) fs (<[s :: temporaryOf clean suffix := Regular k c]> fs).
Proof.
  intros Hwf (Hv & Hc & Hne & Hl) Hd Hq. destruct (cleanLocalPath_plain _ _ Hc) as [_ Hg]. split.
  - apply within_insert; [apply _|done|by apply temporary_inside|done|by left].
  - right. by exists clean, old, suffix, k, c.
Qed.
(** From the moment the temporary file exists. *)
Lemma replace_sure fs s p contents h clean m old suffix k :
  WF fs → names_entry fs s p clean (Regular m old) → open_ fs [s] (parentOf clean) →
  (len contents ≤ MaxEditableBytes limits)%Z → hash old = h → k = Z.land (Z.land m writable) (Z.lnot umask) →
  let t := temporaryOf clean suffix in
  fs !! (s :: t) = None → look fs (parentOf (s :: t)) = Some Directory →
  sure (eq (<[s :: t := Regular k ""]> fs))
    (λ L, unless (
      _ ← writeOpen (s :: t) contents;
      _ ← syncOpen;
      _ ← syncOpen;
      _ ← Rename [s] t clean;
      mret (result_of clean contents)) (Remove [s] t))
    (λ f, done_ (OpWrite s p contents h) fs (RFile f)) (left_ (OpWrite s p contents h) fs).
Proof.
  intros Hwf Hnm Ho Hsz Hh Hk t Hq Hd. pose proof Hnm as (Hv & Hc & Hne & Hl).
  assert (clear fs [s] t) as Ht by by apply clear_snoc.
  eapply sure_unless with (R1 := λ x, ∃ c', x = <[s :: t := Regular k c']> fs).
  2: { apply sure_known. intros x [c' ->]. eapply (sure_conseq (eq (<[s :: t := Regular k c']> fs)));
      [by apply sure_Remove, clear_fresh|done| |by intros ? <-; eapply temporary_left].
    intros u x [_ ->]. simpl. rewrite delete_insert_id by done. auto. }
  eapply sure_then; [by eapply sure_writeOpen; rewrite lookup_insert_eq|by exists ""%string|].
  intros u x ->. rewrite insert_insert_eq. change ("" +:+ contents)%string with contents.
  do 2 (eapply sure_then; [apply sure_syncOpen|by exists contents|]; intros ? x <-).
  eapply sure_then; [apply sure_Rename; apply clear_fresh; [done..|by apply clear_parent]|by exists contents|].
  intros ? x Hr. apply (rename_file _ _ _ _ m old) in Hr as ->; [|try done..].
  2: { simpl. f_equal. by apply temporary_length. }
  apply sure_ret. intros x <-. split; [|exists clean, m, old; by subst k].
  destruct (cleanLocalPath_plain _ _ Hc) as [_ Hg].
  apply within_insert; [apply _|done|by apply inside_clean|by apply (Hwf _ _ Hl)|right; by exists m, old].
Qed.
Lemma Write_sure fs s p contents h :
  WF fs → sure (eq fs) (λ L, Write limits s p contents h)
    (λ f, done_ (OpWrite s p contents h) fs (RFile f)) (left_ (OpWrite s p contents h) fs).
Proof.
  intros Hwf. apply sure_guarded; [auto|]. intros Hsz%Z.ltb_ge.
  eapply sure_then; [apply sure_openStack|auto|]. intros root x (<- & -> & Hv & Hs).
  eapply sure_then; [apply sure_validateRegularFile|auto|]. intros [clean info] x (<- & Hne & Hc & Ho & m & c & Hi & Hl).
  cbn [fst snd] in *. subst info. eapply sure_then; [eapply sure_ReadFile; [by apply clear_parent|done]|auto|].
  intros t x [<- ->]. apply sure_guarded; [auto|]. intros Hh. apply orb_false_elim in Hh as [_ Hh%negb_false_iff%String.eqb_eq].
  eapply sure_then; [apply sure_random|auto|]. intros suffix x <-.
  eapply sure_then; [by apply sure_OpenExclusive, clear_snoc|auto|]. intros q x (-> & Hq & Hd & ->).
  by eapply replace_sure.
Qed.
Lemma open_fresh fs root p q n : fs !! q = None → open_ fs root p → open_ (<[q := n]> fs) root p.
Proof.
  intros Hq Hc d Hd Hd0. pose proof (Hc d Hd Hd0) as Hl.
  assert (root ++ d ≠ []) as Hrd by (intros [_ ->]%app_nil; done). rewrite look_ne in Hl |- * by done.
  rewrite lookup_insert_ne; [done|]. intros ->. by rewrite Hl in Hq.
Qed.
Lemma Added_refl s clean fs : Added s clean fs fs.
Proof. intros k. by left. Qed.
Lemma Added_step s clean fs d x :
  fs !! (s :: d) = None → d ≠ [] → d `prefix_of` clean → Added s clean (<[s :: d := Directory]> fs) x → Added s clean fs x.
Proof.
  intros Hn Hd Hp Hx k. destruct (decide (k = s :: d)) as [->|Hne].
  - right. split; [done|]. split; [|by exists d].
    destruct (Hx (s :: d)) as [->|(E & _ & _)]; [|]; rewrite lookup_insert_eq in *; done.
  - destruct (Hx k) as [E|E]; rewrite lookup_insert_ne in E by done; auto.
Qed.
Lemma createDirectories_sure s clean : ".git"%string ∉ clean → ∀ rest done fs,
  WF fs → done ++ rest = clean → open_ fs [s] done →
  sure (eq fs) (λ L, createDirectories [s] done rest)
    (λ _ x, within (inside s) fs x ∧ open_ x [s] clean ∧ Added s clean fs x) (λ x, within (inside s) fs x ∧ Added s clean fs x).
Proof.
  intros Hg. induction rest as [|c rest IH]; intros dn fs Hwf Hcl Ho.
  - apply sure_ret. intros x <-. rewrite app_nil_r in Hcl. subst dn. split; [done|]. split; [done|]. apply Added_refl.
  - assert (∀ x, fs = x → within (inside s) fs x ∧ Added s clean fs x) as Hsame by (intros x <-; split; [done|apply Added_refl]).
    assert (dn ++ [c] `prefix_of` clean) as Hpre by (exists rest; by rewrite <-app_assoc).
    assert ((dn ++ [c]) ++ rest = clean) as Hcl' by by rewrite <-app_assoc.
    eapply sure_then; [by eapply sure_conseq; [apply sure_attempt_Lstat, clear_snoc|..]|auto|].
    intros stat x [<- Hst]. simpl in Hst.
    apply (sure_bind (eq fs) (λ L, match stat with
        | Ok info => guard_not (negb (isDir info) || isSymlink info) Files_ErrInvalidPath
        | Err e => if Is e Os_ErrNotExist then Mkdir [s] (dn ++ [c]) else fail e
        end) (λ L _, createDirectories [s] (dn ++ [c]) rest)
      (λ _ x, (x = fs ∨ (fs !! (s :: dn ++ [c]) = None ∧ x = <[s :: dn ++ [c] := Directory]> fs)) ∧
         within (inside s) fs x ∧ open_ x [s] (dn ++ [c]))).
    + destruct stat as [info|e]; [|destruct (Is e Os_ErrNotExist) eqn:He; [|by apply sure_fail]].
      * eapply sure_conseq; [apply sure_guard|done| |done]. intros u x [<- Hd]. split; [by left|]. split; [done|].
        apply open_snoc; [done|]. destruct info; done.
      * eapply sure_conseq; [by apply sure_Mkdir, clear_snoc|done| |done]. intros u x (Hn & Hd & ->). simpl in Hn, Hd.
        split; [by right|]. split.
        -- apply within_insert; [apply _|done| |done|by left]. apply inside_clean; [by destruct dn|].
           intros Hin. apply Hg. rewrite <-Hcl'. by apply elem_of_app; left.
        -- apply open_snoc; [by apply open_fresh|]. simpl. by rewrite lookup_insert_eq.
    + intros u. apply sure_known. intros x (Hx & Hw & Hox).
      eapply sure_conseq; [apply (IH (dn ++ [c]) x); [by destruct Hw|done|done]|done| |].
      * intros u' y (Hwy & Hoy & Hay). split; [by eapply within_trans|]. split; [done|].
        destruct Hx as [->|[Hn ->]]; [done|]. eapply Added_step; [done|by destruct dn|done|done].
      * intros y (Hwy & Hay). split; [by eapply within_trans|].
        destruct Hx as [->|[Hn ->]]; [done|]. eapply Added_step; [done|by destruct dn|done|done].
Qed.
Lemma CreateDirectory_sure fs s p :
  WF fs → sure (eq fs) (λ L, CreateDirectory s p) (λ _, done_ (OpCreateDirectory s p) fs RDone) (left_ (OpCreateDirectory s p) fs).
Proof.
  intros Hwf. eapply sure_then; [apply sure_openStack|auto|]. intros root x (<- & -> & Hv & Hs).
  apply sure_lifted; [auto|]. intros clean Hc. destruct (cleanLocalPath_plain _ _ Hc) as [_ Hg].
  eapply sure_then with (Q1 := λ _, eq fs); [|auto|intros ? x <-].
  { apply (sure_if (eq fs) (bool_decide (clean = [])) (λ L, _ ← Lstat [s] []; mret tt) (λ _, mret tt)); intros _; [|by apply sure_ret].
    eapply sure_then; [apply sure_Lstat, open_clear, open_nil|done|]. intros ? x [<- _]. by apply sure_ret. }
  eapply sure_conseq; [apply (createDirectories_sure s clean Hg clean [] fs); [done|done|apply open_nil]|done|..].
  - intros u x (Hw & Ho & Ha). split; [done|]. by exists clean.
  - intros x (Hw & Ha). split; [done|]. right. by exists clean.
Qed.
Lemma CreateFile_sure fs s p contents :
  WF fs → sure (eq fs) (λ L, CreateFile limits s p contents)
    (λ f, done_ (OpCreateFile s p contents) fs (RFile f)) (left_ (OpCreateFile s p contents) fs).
Proof.
  intros Hwf. apply sure_guarded; [auto|]. intros Hsz%Z.ltb_ge.
  eapply sure_then; [apply sure_openStack|auto|]. intros root x (<- & -> & Hv & Hs).
  apply sure_lifted; [auto|]. intros clean Hc. destruct (cleanLocalPath_plain _ _ Hc) as [_ Hg].
  eapply sure_then; [apply (sure_directoryFrom fs [s] (parentOf clean) []), open_nil|auto|]. intros u x [<- Ho].
  assert (clear fs [s] clean) as Hcl by by apply clear_parent.
  eapply sure_then; [by apply sure_OpenExclusive|auto|]. intros q x (-> & Hq & Hd & ->). simpl in Hq, Hd.
  assert (clean ≠ []) as Hne by (intros ->; simpl in Hq; by rewrite Hs in Hq).
  set (k := Z.land 416 (Z.lnot umask)).
  assert (∀ c, within (inside s) fs (<[s :: clean := Regular k c]> fs)) as Hw.
  { intros c. apply within_insert; [apply _|done|by apply inside_clean|done|by left]. }
  eapply sure_unless with (R1 := λ x, ∃ c', x = <[s :: clean := Regular k c']> fs).
  - eapply sure_then; [by eapply sure_writeOpen; rewrite lookup_insert_eq|by exists ""%string|].
    intros ? x ->. rewrite insert_insert_eq. change ("" +:+ contents)%string with contents.
    do 2 (eapply sure_then; [apply sure_syncOpen|by exists contents|]; intros ? x <-).
    apply sure_ret. intros x <-. split; [apply Hw|]. by exists clean.
  - apply sure_known. intros x [c' ->]. eapply (sure_conseq (eq (<[s :: clean := Regular k c']> fs)));
      [by apply sure_Remove, clear_fresh|done| |].
    + intros ? x [_ ->]. simpl. rewrite delete_insert_id by done. auto.
    + intros ? <-. split; [apply Hw|]. right. by exists clean, k, c'.
Qed.
Lemma rename_exact fs p q n u x :
  WF fs → fs !! p = Some n → p ≠ [] → look fs q = None → rename fs p q = Ok (u, x) →
  x = moved p q fs ∧ Moved p q fs x ∧ ¬ below p q ∧ look fs (parentOf q) = Some Directory.
Proof.
  intros Hwf Hp Hp0 Hq. unfold rename. rewrite look_ne, Hp by done.
  destruct (decide (p = q)) as [->|Hne]; [rewrite look_ne in Hq by done; by rewrite Hp in Hq|].
  destruct (bool_decide_reflect (below p q)) as [|Hb]; [done|].
  destruct (look fs (parentOf q)) as [[]|] eqn:Hd; try done. rewrite Hq. intros [= _ <-].
  split; [done|]. split; [|done]. by eapply moved_Moved.
Qed.
Lemma Move_sure fs s a b :
  WF fs → sure (eq fs) (λ L, Move s a b) (λ _, done_ (OpMove s a b) fs RDone) (left_ (OpMove s a b) fs).
Proof.
  intros Hwf. eapply sure_then; [apply sure_openStack|auto|]. intros root x (<- & -> & Hv & Hs).
  apply sure_lifted; [auto|]. intros p Hp. apply sure_lifted; [auto|]. intros q Hq.
  destruct (cleanLocalPath_plain _ _ Hp) as [_ Hpg]. destruct (cleanLocalPath_plain _ _ Hq) as [_ Hqg].
  eapply sure_then; [apply sure_validateEntry|auto|]. intros n x (<- & Hp0 & Hpo & Hpl & _).
  eapply sure_then; [apply (sure_directoryFrom fs [s] (parentOf q) []), open_nil|auto|]. intros u x [<- Hqo].
  assert (clear fs [s] p) as Hpc by by apply clear_parent.
  assert (clear fs [s] q) as Hqc by by apply clear_parent.
  eapply sure_then; [by eapply sure_conseq; [by apply sure_attempt_Lstat|..]|auto|].
  intros stat x [<- Hst]. eapply sure_then with (Q1 := λ _ x, fs = x ∧ look fs ([s] ++ q) = None).
  - destruct stat as [info|e]; [by apply sure_fail|].
    destruct (Is e Os_ErrNotExist) eqn:He; [|by apply sure_fail]. apply sure_ret. intros x <-. split; [done|]. by apply Hst.
  - auto.
  - intros u' x [<- Hfree]. eapply sure_conseq; [by apply sure_Rename|done| |intros ? <-; auto].
    intros ? x Hr. assert (q ≠ []) as Hq0 by (intros ->; simpl in Hfree; by rewrite Hs in Hfree).
    apply (rename_exact fs _ _ n) in Hr as (-> & HM & Hb & Hd); [|done..].
    split; [|by exists p, n, q]. by apply within_moved; [apply _|done|apply inside_clean|apply inside_clean|..].
Qed.
Lemma RemoveEntry_sure fs s p :
  WF fs → sure (eq fs) (λ L, RemoveEntry s p) (λ _, done_ (OpRemove s p) fs RDone) (left_ (OpRemove s p) fs).
Proof.
  intros Hwf. eapply sure_then; [apply sure_openStack|auto|]. intros root x (<- & -> & Hv & Hs).
  apply sure_lifted; [auto|]. intros clean Hc. destruct (cleanLocalPath_plain _ _ Hc) as [_ Hg].
  eapply sure_then; [apply sure_validateEntry|auto|]. intros n x (<- & Hne & Ho & Hl & _).
  assert (clear fs [s] clean) as Hcl by by apply clear_parent.
  assert (done_ (OpRemove s p) fs RDone (without (s :: clean) fs)) as Hdone.
  { split; [by apply within_without; [apply _|done|apply inside_clean]|]. by exists clean, n. }
  apply (sure_if (eq fs) (isDir n) (λ L, RemoveAll [s] clean) (λ L, Remove [s] clean)); intros _.
  - eapply sure_conseq; [by apply sure_RemoveAll|done| |intros ? <-; auto]. by intros ? x ->.
  - eapply sure_conseq; [by apply sure_Remove|done| |intros ? <-; auto]. intros ? x [He ->]. by rewrite delete_without.
Qed.

Lemma valid_ne name : validStackName name = true → name ≠ ""%string.
Proof. by intros Hv ->. Qed.
Lemma RenameStack_sure fs a b :
  WF fs → sure (eq fs) (λ L, RenameStack a b) (λ _, done_ (OpRenameStack a b) fs RDone) (left_ (OpRenameStack a b) fs).
Proof.
  intros Hwf. apply sure_guarded; [auto|]. intros [Ha%negb_false_iff Hb%negb_false_iff]%orb_false_elim.
  eapply sure_conseq; [apply sure_Rename; apply clear_single|done| |intros ? <-; auto].
  intros ? x Hr. apply rename_ok in Hr as [->|(-> & Hnb & Hd)].
  - split; [done|]. split; [done|]. split; [done|by left].
  - split; [|split; [done|]; split; [done|by right]].
    apply (within_moved _ fs [a] [b] Hwf); [left; apply below_refl|right; apply below_refl|done|done].
Qed.
Lemma RemoveStack_sure fs s :
  WF fs → sure (eq fs) (λ L, RemoveStack s) (λ _, done_ (OpRemoveStack s) fs RDone) (left_ (OpRemoveStack s) fs).
Proof.
  intros Hwf. apply sure_guarded; [auto|]. intros Hv%negb_false_iff.
  eapply sure_then; [apply sure_instead, (sure_Lstat fs [] [s]), clear_single|auto|]. intros n x [<- Hl].
  apply sure_guarded; [auto|]. intros Hd. destruct n; try done.
  eapply sure_conseq; [apply sure_RemoveAll, clear_single|done| |intros ? <-; auto]. intros ? x ->.
  split; [by apply within_without; [apply _|done|apply below_refl]|]. done.
Qed.
Lemma sure_WriteFile fs root rest contents mode :
  clear fs root rest → look fs (root ++ rest) = None →
  sure (eq fs) (λ L, WriteFile root rest contents mode)
    (λ _ x, x = <[root ++ rest := Regular (Z.land mode (Z.lnot umask)) contents]> fs) (eq fs).
Proof.
  intros Hc Hn. apply (sure_at fs root rest (λ L fs p,
    match look fs p with
    | None => create (Regular (Z.land mode (Z.lnot umask)) contents) fs p
    | Some Directory => Err isDirectory
    | Some (Regular m _) => Ok (tt, <[p := Regular m contents]> fs)
    | Some (Symlink _) => q ← follow fs p []; Ok (tt, <[q := Regular mode contents]> fs)
    | Some Special => Ok (tt, fs)
    end) (create (Regular (Z.land mode (Z.lnot umask)) contents) fs (root ++ rest))); [done|intros L; by rewrite Hn|].
  intros u x E. by apply create_ok in E as (_ & _ & ->).
Qed.
Lemma CreateStack_sure fs s :
  WF fs → sure (eq fs) (λ L, CreateStack s) (λ _, done_ (OpCreateStack s) fs RDone) (left_ (OpCreateStack s) fs).
Proof.
  intros Hwf. apply sure_guarded; [auto|]. intros Hv%negb_false_iff.
  eapply sure_then; [apply (sure_Mkdir fs [] [s]), clear_single|auto|]. intros u x (Hn & _ & ->). simpl in Hn |- *.
  set (fs1 := <[[s] := Directory]> fs). assert (look fs1 [s] = Some Directory) as Hd1 by by unfold fs1; simpl; rewrite lookup_insert_eq.
  assert (within (below [s]) fs fs1) as Hw1 by by apply within_insert; [apply _|done|apply below_refl|done|by left].
  assert (fs1 !! [s; composeFile] = None) as Hc1.
  { unfold fs1. rewrite lookup_insert_ne by done. apply (file_below fs [s]); [done|done|by simpl; rewrite Hn| |done].
    by exists [composeFile]. }
  assert (left_ (OpCreateStack s) fs fs1) as Hleft by by split; [|right].
  eapply (sure_bind (eq fs1) (λ L, unless (OpenRoot [] [s]) (Remove [] [s]))
    (λ L stack, unless (WriteFile stack [composeFile] ("services: {}" +:+ String (ascii_of_nat 10) "")%string 416) (RemoveAll [] [s]))).
  - eapply (sure_unless (eq fs1) (λ L, OpenRoot [] [s]) (λ L, Remove [] [s])); [by apply sure_OpenRoot; [apply clear_single|]|].
    eapply sure_conseq; [apply (sure_Remove fs1 [] [s]), clear_single|done| |by intros ? <-].
    intros ? x [_ ->]. simpl. unfold fs1. rewrite delete_insert_id by done. auto.
  - intros root. apply sure_known. intros x [<- ->].
    eapply (sure_unless (eq fs1) (λ L, WriteFile ([] ++ [s]) [composeFile] ("services: {}" +:+ String (ascii_of_nat 10) "")%string 416)
      (λ L, RemoveAll [] [s])).
    + eapply sure_conseq; [apply (sure_WriteFile fs1 [s] [composeFile]); [apply clear_single|done]|done| |done].
      intros ? x ->. split; [|done]. eapply within_trans; [done|].
      apply within_insert; [apply _|by destruct Hw1|by exists [composeFile]|done|by left].
    + eapply sure_conseq; [apply (sure_RemoveAll fs1 [] [s]), clear_single|done| |by intros ? <-].
      intros ? x ->. simpl. assert (hasEntries fs1 [s] = false) as He.
      { apply not_true_is_false. intros (k & n & Hk & Hb & Hne)%hasEntries_spec. unfold fs1 in Hk.
        rewrite lookup_insert_ne in Hk by done. by rewrite (file_below fs [s] k) in Hk; [|done|done|simpl; rewrite Hn|..]. }
      rewrite <-delete_without by done. unfold fs1. rewrite delete_insert_id by done. auto.
Qed.
Lemma sure_entryIsDir fs stack p (R : FS → Prop) :
  sure (eq fs) (λ _, entryIsDir stack p) (λ d x, fs = x ∧ (d = true → look fs (stack ++ p) = Some Directory)) R.
Proof. intros x n <-. do 3 eexists. split; [done|]. split; [done|]. by destruct (look fs (stack ++ p)) as [[]|]. Qed.
Lemma discovered_sure fs name :
  sure (eq fs) (λ L, discovered name) (λ b x, fs = x ∧ (b = true → isStack fs name)) (λ _, False).
Proof.
  unfold discovered. destruct (HasPrefix name "." || negb (validStackName name)) eqn:Ev; [by apply sure_ret; intros x <-|].
  apply orb_false_elim in Ev as [_ Hv%negb_false_iff].
  eapply sure_bind; [apply (sure_entryIsDir fs [] [name])|]. intros d. apply sure_known. intros x [<- Hd].
  destruct d; simpl negb; cbn iota; [|by apply sure_ret; intros x <-]. specialize (Hd eq_refl).
  eapply (sure_catch (eq fs) _ (λ _ _, mret false) _ (eq fs)); [|by intros e; apply sure_ret; intros x <-].
  eapply sure_then; [apply (sure_Lstat fs [] [name]), clear_single|done|]. intros n x [<- Hl].
  rewrite Hd in Hl. injection Hl as <-. simpl isSymlink. cbn iota.
  eapply sure_then; [by apply (sure_OpenRoot fs [] [name]); [apply clear_single|]|done|]. intros q x [<- ->].
  eapply sure_then; [apply (sure_Lstat fs ([] ++ [name]) [composeFile]), clear_single|done|]. intros n x [<- Hc].
  apply sure_ret. intros x <-. split; [done|]. intros Hr. split; [done|]. split; [done|]. destruct n; try done. by do 2 eexists.
Qed.
Lemma discoverFrom_sure fs l :
  sure (eq fs) (λ L, discoverFrom l) (λ found x, fs = x ∧ Forall (isStack fs) found) (eq fs).
Proof.
  induction l as [|name l IH]; [apply sure_ret; intros x <-; by split|].
  eapply sure_then; [by eapply sure_conseq; [apply discovered_sure|..]|done|]. intros yes x [<- Hy].
  eapply sure_then; [apply IH|done|]. intros found x [<- Hf]. apply sure_ret. intros x <-. split; [done|].
  destruct yes; [|done]. constructor; auto.
Qed.
Lemma Discover_sure fs :
  WF fs → sure (eq fs) (λ L, Discover) (λ l, done_ OpDiscover fs (RNames l)) (left_ OpDiscover fs).
Proof.
  intros Hwf. eapply sure_then with (Q1 := λ _, eq fs).
  - apply (sure_call (eq fs) (λ _ fs, Ok (names fs [], fs))); [done|]. intros ? <-. by eexists.
  - auto.
  - intros entries x <-. eapply sure_then; [apply discoverFrom_sure|auto|]. intros found x [<- Hf].
    apply sure_ret. intros x <-. split; [done|]. split; [done|]. eexists. split; [done|].
    rewrite Forall_forall in Hf |- *. intros y Hy. rewrite elem_of_SortStrings in Hy. by apply Hf.
Qed.

(** The walk of a tree. *)
Definition walkable (fs : FS) (s : string) (p : path) : Prop := p ≠ [] ∧ open_ fs [s] (parentOf p) ∧ ".git"%string ∉ parentOf p.
Lemma visit_sure fs s p acc :
  walkable fs s p → listing fs s acc →
  sure (eq fs) (λ L, visit limits [s] p acc)
    (λ r x, fs = x ∧ listing fs s r.1 ∧ (r.2 = Continue → ".git"%string ∉ p)) (eq fs).
Proof.
  intros (Hp & Ho & Hg) [Hlen Hall]. apply sure_guarded; [done|]. intros [Hn%Z.leb_gt Hd%Z.ltb_ge]%orb_false_elim.
  destruct (bool_decide_reflect (last p = Some ".git"%string)) as [|Hl]; [by apply sure_ret; intros x <-|].
  assert (".git"%string ∉ p) as Hgp.
  { destruct (path_split p Hp) as [c E]. rewrite E in Hl |- *. rewrite last_snoc in Hl.
    intros [Hx|Hx]%elem_of_app; [done|]. apply list_elem_of_singleton in Hx. by subst. }
  eapply sure_then; [by apply sure_Lstat, clear_parent|done|]. intros n x [<- Hf].
  apply sure_ret. intros x <-. split; [done|]. split; [|done]. cbn [fst]. split.
  - rewrite length_app. simpl length. lia.
  - apply Forall_app_2; [done|]. constructor; [|done]. by exists p, n.
Qed.
Lemma walk_sure fs s : ∀ fuel p acc,
  walkable fs s p → listing fs s acc →
  sure (eq fs) (λ L, walk limits fuel [s] p acc) (λ r x, fs = x ∧ listing fs s r.1) (eq fs).
Proof.
  induction fuel as [|fuel IH]; intros p acc Hp Hacc; [by apply sure_fail|].
  eapply sure_then with (Q1 := λ d x, fs = x ∧ (d = true → look fs ([s] ++ p) = Some Directory)).
  { apply sure_entryIsDir. }
  { done. }
  intros d x [<- Hd]. eapply sure_then; [by apply visit_sure|done|]. intros [r w] x (<- & Hr & Hg). cbn [fst snd] in *.
  destruct w, d; try by apply sure_ret; intros x <-.
  eapply sure_then with (Q1 := λ _, eq fs).
  { apply (sure_call (eq fs) (λ _ fs, Ok (names fs ([s] ++ p), fs))); [done|]. intros ? <-. by eexists. }
  { done. }
  intros entries x <-. destruct Hp as (Hp0 & Ho & Hgp).
  assert (open_ fs [s] p) as Hop.
  { destruct (path_split p Hp0) as [c E]. rewrite E in Hd |- *. by apply open_snoc, Hd. }
  clear acc Hacc. revert r Hr. induction entries as [|c l IHl]; intros acc Hacc; [by apply sure_ret; intros x <-|].
  eapply sure_then; [apply IH; [|done]|done|].
  - split; [by destruct p|]. rewrite parentOf_snoc. auto.
  - intros [acc' w] x [<- Hacc']. cbn [fst] in Hacc'. destruct w; [by apply IHl|]. by apply sure_ret; intros x <-.
Qed.
Lemma Tree_sure fs s : WF fs → sure (eq fs) (λ L, Tree limits s) (λ l, done_ (OpTree s) fs (RTree l)) (left_ (OpTree s) fs).
Proof.
  intros Hwf. eapply sure_then; [apply sure_openStack|auto|]. intros root x (<- & -> & Hv & Hs).
  eapply sure_then with (Q1 := λ _, eq fs).
  { apply (sure_call (eq fs) (λ _ fs, Ok (names fs ([s] ++ []), fs))); [done|]. intros ? <-. by eexists. }
  { auto. }
  intros entries x <-. assert (listing fs s []) as H0 by by split; [simpl; lia|].
  set (fuel := S (Z.to_nat (MaxDepth limits))). clearbody fuel.
  revert H0. generalize (@nil FileEntry). induction entries as [|c l IHl]; intros acc Hacc.
  - apply sure_ret. intros x <-. split; [done|]. split; [done|]. by eexists.
  - eapply sure_then; [apply walk_sure; [|done]|auto|].
    + split; [done|]. split; [apply open_nil|]. apply not_elem_of_nil.
    + intros [acc' w] x [<- Hacc']. cbn [fst] in Hacc'. destruct w; [by apply IHl|].
      apply sure_ret; intros x <-. split; [done|]. split; [done|]. by eexists.
Qed.
Lemma exec_sure fs op : WF fs → sure (eq fs) (λ L, exec op) (done_ op fs) (left_ op fs).
Proof.
  intros Hwf. destruct op; unfold exec.
  all: eapply sure_bind; [|intros a; apply sure_ret; intros x Hx; exact Hx].
  - by apply Read_sure.
  - by apply Write_sure.
  - by apply CreateDirectory_sure.
  - by apply CreateFile_sure.
  - by apply Move_sure.
  - by apply RemoveEntry_sure.
  - by apply Tree_sure.
  - by apply Discover_sure.
  - by apply CreateStack_sure.
  - by apply RenameStack_sure.
  - by apply RemoveStack_sure.
Qed.
End operations.
End FilesystemLaws.
