(* ===== verification/FilesystemContract.v ===== *)
(** * The contract of the file operations

    Every operation refines its abstract effect ([FilesystemLaws.Effect]) in
    every world and wherever links lead; what is written is read again; a
    stale writer is refused; the repositories of the stacks are out of reach. *)
From S2P Require Import Prelude GoStrings Filesystem FilesystemLaws.

Module FilesystemContract.
Import Filesystem FilesystemLaws.

(** ** Runs in which no call fails *)
Section gives.
Context `{W : World} `{F : !Faultless W}.
Definition gives {A : Type} (fs : FS) (m : M FS A) (a : A) (fs' : FS) : Prop := ∀ n, ∃ n', m fs n = (Ok a, (fs', n')).
Lemma gives_ret {A : Type} fs (a : A) : gives fs (mret a) a fs.
Proof. intros n. by exists n. Qed.
Lemma gives_bind {A B : Type} fs (m : M FS A) (k : A → M FS B) a b fs1 fs2 :
  gives fs m a fs1 → gives fs1 (k a) b fs2 → gives fs (m ≫= k) b fs2.
Proof.
  intros Hm Hk n. destruct (Hm n) as [n1 E1]. destruct (Hk n1) as [n2 E2]. exists n2. unfold mbind, M_bind. by rewrite E1.
Qed.
Lemma gives_guard {B : Type} fs (c : bool) e (k : unit → M FS B) b fs' :
  c = false → gives fs (k tt) b fs' → gives fs (guard_not c e ≫= k) b fs'.
Proof. intros -> Hk. by eapply gives_bind; [|done]; intros n; exists n. Qed.
Lemma gives_lift {A B : Type} fs (r : result A) (k : A → M FS B) a b fs' :
  r = Ok a → gives fs (k a) b fs' → gives fs (lift r ≫= k) b fs'.
Proof. intros -> Hk. by eapply gives_bind; [|done]; intros n; exists n. Qed.
Lemma gives_catch {A : Type} fs (m : M FS A) h a fs' : gives fs m a fs' → gives fs (catch m h) a fs'.
Proof. intros Hm n. destruct (Hm n) as [n1 E1]. exists n1. unfold catch. by rewrite E1. Qed.
(** The run fails and changes nothing. *)
Definition refuses {A : Type} (fs : FS) (m : M FS A) : Prop := ∀ n, ∃ e n', m fs n = (Err e, (fs, n')).
Lemma refuses_bind {A B : Type} fs (m : M FS A) (k : A → M FS B) a :
  gives fs m a fs → refuses fs (k a) → refuses fs (m ≫= k).
Proof.
  intros Hm Hk n. destruct (Hm n) as [n1 E1]. destruct (Hk n1) as (e & n2 & E2). exists e, n2. unfold mbind, M_bind. by rewrite E1.
Qed.
Lemma refuses_first {A B : Type} fs (m : M FS A) (k : A → M FS B) : refuses fs m → refuses fs (m ≫= k).
Proof. intros Hm n. destruct (Hm n) as (e & n1 & E1). exists e, n1. unfold mbind, M_bind. by rewrite E1. Qed.
Lemma gives_refused {A : Type} fs (m : M FS A) a : refuses fs m → gives fs (catch m (λ _, mret a)) a fs.
Proof. intros Hm n. destruct (Hm n) as (e & n1 & E1). exists n1. unfold catch. by rewrite E1. Qed.
Lemma gives_call {A : Type} fs (f : FS → result (A * FS)) a fs' : f fs = Ok (a, fs') → gives fs (call f) a fs'.
Proof. intros E n. exists (S n). unfold call. by rewrite no_fault, E. Qed.
Context `{L : Links} `{U : Umask} `{H : FileHash} (limits : Limits).
Lemma gives_at {A : Type} fs root rest (f : FS → path → result (A * FS)) a fs' :
  clear fs root rest → f fs (root ++ rest) = Ok (a, fs') → gives fs (at_ root rest f) a fs'.
Proof. intros Hc E. apply gives_call. by rewrite resolve_clear. Qed.
Lemma gives_Lstat fs root rest n : clear fs root rest → look fs (root ++ rest) = Some n → gives fs (Lstat root rest) n fs.
Proof. intros Hc E. apply gives_at; [done|]. by rewrite E. Qed.
Lemma refuses_Lstat fs root rest : clear fs root rest → look fs (root ++ rest) = None → refuses fs (Lstat root rest).
Proof. intros Hc E n. exists Os_ErrNotExist, (S n). unfold Lstat, at_, call. rewrite no_fault, resolve_clear by done. simpl. by rewrite E. Qed.
Lemma gives_OpenRoot fs root rest :
  clear fs root rest → look fs (root ++ rest) = Some Directory → gives fs (OpenRoot root rest) (root ++ rest) fs.
Proof. intros Hc E. apply gives_at; [done|]. unfold target. rewrite E. simpl. by rewrite E. Qed.
Lemma gives_openStack fs s :
  validStackName s = true → fs !! [s] = Some Directory → gives fs (openStack s) [s] fs.
Proof.
  intros Hv Hs. apply gives_guard; [by rewrite Hv|]. eapply gives_bind; [by apply gives_catch, (gives_Lstat fs [] [s]); [apply clear_single|]|].
  apply gives_guard; [done|]. apply gives_catch. by apply (gives_OpenRoot fs [] [s]); [apply clear_single|].
Qed.
Lemma gives_regularFrom fs stack m c : ∀ rest done,
  open_ fs stack done → rest ≠ [] → open_ fs stack (parentOf (done ++ rest)) → look fs (stack ++ done ++ rest) = Some (Regular m c) →
  gives fs (regularFrom stack done rest) (Regular m c) fs.
Proof.
  induction rest as [|c' rest IH]; intros dn Ho Hne Hp Hl; [done|]. destruct rest as [|c'' rest].
  - eapply gives_bind; [by apply gives_Lstat; [apply clear_snoc|]|]. by repeat (apply gives_guard; [done|]); apply gives_ret.
  - assert (look fs (stack ++ dn ++ [c']) = Some Directory) as Hd.
    { apply Hp; [|by destruct dn]. apply prefix_parent.
      - exists (c'' :: rest). by rewrite <-app_assoc.
      - intros [=]%app_inv_head. }
    eapply gives_bind; [by apply gives_Lstat; [apply clear_snoc|]|]. do 2 (apply gives_guard; [done|]).
    apply IH; [by apply open_snoc|done|by rewrite <-app_assoc|by rewrite <-app_assoc].
Qed.
Lemma gives_Read fs s p clean m c :
  WF fs → names_entry fs s p clean (Regular m c) → (len c ≤ MaxEditableBytes limits)%Z →
  gives fs (Read limits s p) (result_of clean c) fs.
Proof.
  intros Hwf (Hv & Hc & Hne & Hl) Hsz.
  assert (∀ d, d `prefix_of` parentOf clean → look fs (s :: d) = Some Directory) as Hup.
  { intros d Hd. apply (WF_below fs (s :: d) (s :: clean) (Regular m c)); [done|done| |].
    - apply prefix_cons. etrans; [done|apply parentOf_prefix].
    - intros [= ->]. destruct (path_split clean Hne) as [x E]. apply prefix_length in Hd. rewrite E in Hd at 1.
      rewrite length_app in Hd. simpl in Hd. lia. }
  assert (open_ fs [s] (parentOf clean)) as Ho by (intros d Hd _; by apply Hup).
  eapply gives_bind; [apply gives_openStack; [done|by apply (Hup []), prefix_nil]|].
  eapply gives_bind.
  { eapply gives_lift; [done|]. eapply gives_bind; [|apply gives_ret]. by apply (gives_regularFrom fs [s] m c clean []); [apply open_nil|..]. }
  apply gives_guard; [by apply Z.ltb_ge|].
  eapply gives_bind; [apply gives_at; [by apply clear_parent|]|apply gives_ret].
  unfold target. simpl. rewrite Hl. simpl. by rewrite Hl.
Qed.
End gives.
(** ** Discovery, when no call fails *)
Section discovery.
Context `{W : World} `{F : !Faultless W} `{L : Links}.
Lemma elem_of_names fs p c : c ∈ names fs p ↔ is_Some (fs !! (p ++ [c])).
Proof.
  unfold names. rewrite elem_of_SortStrings, list_elem_of_omap. split.
  - intros (k & Hk & E). apply list_elem_of_fmap in Hk as ([k' n] & -> & Hk%elem_of_map_to_list). simpl in E.
    destruct (bool_decide_reflect (parentOf k' = p)) as [Hp|]; [|done].
    destruct (bool_decide_reflect (k' ≠ [])) as [Hk0|]; [|done]. simpl in E.
    destruct (path_split k' Hk0) as [x Ex]. rewrite Ex, last_snoc in E. injection E as ->. rewrite <-Hp, <-Ex. by exists n.
  - intros [n Hn]. exists (p ++ [c]). split.
    + apply list_elem_of_fmap. exists (p ++ [c], n). split; [done|by apply elem_of_map_to_list].
    + rewrite parentOf_snoc, last_snoc. rewrite !bool_decide_eq_true_2; [done| |done]. by destruct p.
Qed.
Lemma gives_entryIsDir fs stack p : gives fs (entryIsDir stack p) (bool_decide (look fs (stack ++ p) = Some Directory)) fs.
Proof.
  intros n. exists n. unfold entryIsDir. destruct (look fs (stack ++ p)) as [[]|];
    [by rewrite bool_decide_eq_true_2|by rewrite bool_decide_eq_false_2..].
Qed.
Lemma discovered_exact fs name : ∃ b, gives fs (discovered name) b fs ∧ (b = true ↔ isStack fs name).
Proof.
  unfold discovered. destruct (validStackName name) eqn:Hv.
  2: { rewrite orb_true_r. exists false. split; [apply gives_ret|]. split; [done|]. intros (E & _). congruence. }
  destruct (HasPrefix name ".") eqn:Hp.
  { exists false. split; [apply gives_ret|]. split; [done|]. intros _. unfold validStackName in Hv. rewrite Hp in Hv.
    destruct (name =? "")%string, (name =? ".")%string, (name =? "..")%string; done. }
  simpl orb. cbn iota. destruct (decide (look fs [name] = Some Directory)) as [El|El].
  2: { exists false. split; [|split; [done|]; intros (_ & E & _); by destruct El].
    eapply gives_bind; [by apply gives_entryIsDir|]. rewrite bool_decide_eq_false_2 by done. apply gives_ret. }
  destruct (look fs [name; composeFile]) as [k|] eqn:Ec.
  - exists (isRegular k). split.
    + eapply gives_bind; [by apply gives_entryIsDir|]. rewrite bool_decide_eq_true_2 by done.
      apply gives_catch. eapply gives_bind; [by apply (gives_Lstat fs [] [name]); [apply clear_single|]|]. simpl.
      eapply gives_bind; [by apply (gives_OpenRoot fs [] [name]); [apply clear_single|]|].
      eapply gives_bind; [by apply (gives_Lstat fs [name] [composeFile]); [apply clear_single|]|]. apply gives_ret.
    + split.
      * intros Hr. split; [done|]. split; [done|]. destruct k; try done. by do 2 eexists.
      * intros (_ & _ & m & c & E). simpl in Ec. rewrite E in Ec. by injection Ec as <-.
  - exists false. split; [|split; [done|]; intros (_ & _ & m & c & E); simpl in Ec; by rewrite E in Ec].
    eapply gives_bind; [by apply gives_entryIsDir|]. rewrite bool_decide_eq_true_2 by done.
    apply gives_refused. eapply refuses_bind; [by apply (gives_Lstat fs [] [name]); [apply clear_single|]|]. simpl.
    eapply refuses_bind; [by apply (gives_OpenRoot fs [] [name]); [apply clear_single|]|].
    by apply refuses_first, (refuses_Lstat fs [name] [composeFile]); [apply clear_single|].
Qed.
Lemma discoverFrom_exact fs l :
  ∃ found, gives fs (discoverFrom l) found fs ∧ ∀ name, name ∈ found ↔ name ∈ l ∧ isStack fs name.
Proof.
  induction l as [|name l (found & Hf & Hin)].
  - exists []. split; [apply gives_ret|]. intros name. rewrite elem_of_nil. tauto.
  - destruct (discovered_exact fs name) as (b & Hb & Hs). exists (if b then name :: found else found). split.
    + eapply gives_bind; [done|]. eapply gives_bind; [done|]. apply gives_ret.
    + intros x. rewrite elem_of_cons. destruct b; rewrite ?elem_of_cons, Hin; [|].
      * split; [intros [->|[]]; [split; [by left|by apply Hs]|tauto]|tauto].
      * split; [tauto|]. intros [[->|] Hx]; [by apply Hs in Hx|tauto].
Qed.
(** [Discover] finds the stacks, all of them and nothing else. *)
Theorem discovery_is_exact fs : ∃ l, gives fs Discover l fs ∧ ∀ name, name ∈ l ↔ isStack fs name.
Proof.
  destruct (discoverFrom_exact fs (names fs [])) as (found & Hf & Hin). exists (SortStrings found). split.
  - eapply gives_bind; [by apply gives_call|]. eapply gives_bind; [done|]. apply gives_ret.
  - intros name. rewrite elem_of_SortStrings, Hin, elem_of_names. simpl. split; [by intros []|].
    intros Hs. split; [|done]. destruct Hs as (_ & E & _). by eexists.
Qed.
End discovery.

(** ** The contract *)
Section contract.
Context `{W : World} `{U : Umask} `{H : FileHash} (limits : Limits).


(** A run of an operation, with its effect. *)
Lemma file_run `{L : Links} op fs n r fs' n' :
  WF fs → exec limits op fs n = (r, (fs', n')) →
  within (touches op) fs fs' ∧ match r with Ok a => Effect limits op fs a fs' | Err _ => Leftover op fs fs' end.
Proof.
  intros Hwf E. destruct (exec_sure limits fs op Hwf fs n eq_refl) as (r' & fs1 & n1 & E' & Hr).
  rewrite E' in E. injection E as -> -> ->. by destruct r.
Qed.
Lemma Write_run `{L : Links} s p c h fs n r fs' n' :
  WF fs → Write limits s p c h fs n = (r, (fs', n')) →
  within (inside s) fs fs' ∧
  match r with Ok f => Effect limits (OpWrite s p c h) fs (RFile f) fs' | Err _ => Leftover (OpWrite s p c h) fs fs' end.
Proof.
  intros Hwf E. apply (file_run (OpWrite s p c h) fs n (match r with Ok f => Ok (RFile f) | Err e => Err e end) fs' n') in Hwf.
  - by destruct r.
  - unfold exec, mbind, M_bind. rewrite E. by destruct r.
Qed.

(** What has been written is what is read from then on, by the hash that the
    next writer has to give, when no call fails. *)
Theorem what_is_written_is_read `{L : Links} `{F : !Faultless W} s p c h fs n f fs' n' :
  WF fs → Write limits s p c h fs n = (Ok f, (fs', n')) →
  FHash f = hash c ∧ Content f = c ∧ ∀ m, ∃ m', Read limits s p fs' m = (Ok f, (fs', m')).
Proof.
  intros Hwf E. destruct (Write_run _ _ _ _ _ _ _ _ _ Hwf E) as [[Hwf' _] (clean & m & old & Hn & Hsz & Hh & [= ->] & ->)].
  split; [done|]. split; [done|]. destruct Hn as (Hv & Hc & Hne & Hl).
  eapply gives_Read; [done| |done]. do 3 (split; [done|]). apply lookup_insert_eq.
Qed.

(** Who writes with the hash of a file that another has replaced since does
    not get through: the file stays as the other wrote it. *)
Theorem stale_writers_are_refused `{L : Links} s p c1 c2 h fs n f fs' n' m r fs2 m' :
  WF fs → Write limits s p c1 h fs n = (Ok f, (fs', n')) → hash c1 ≠ h →
  Write limits s p c2 h fs' m = (r, (fs2, m')) →
  (∃ e, r = Err e) ∧ ∀ clean, cleanLocalPath p = Ok clean → fs2 !! (s :: clean) = fs' !! (s :: clean).
Proof.
  intros Hwf E Hne E2. destruct (Write_run _ _ _ _ _ _ _ _ _ Hwf E) as [[Hwf' _] (clean & k & old & Hn & _ & _ & _ & ->)].
  destruct Hn as (_ & Hc & Hc0 & _). destruct (Write_run _ _ _ _ _ _ _ _ _ Hwf' E2) as [_ Hr]. destruct r as [f2|e].
  - destruct Hr as (clean2 & k2 & old2 & (_ & Hc2 & _ & Hl2) & _ & Hh2 & _). rewrite Hc in Hc2. injection Hc2 as <-.
    rewrite lookup_insert_eq in Hl2. injection Hl2 as _ <-. done.
  - split; [by eexists|]. intros clean2 Hc2. rewrite Hc in Hc2. injection Hc2 as <-.
    destruct Hr as [->|(clean2 & n2 & suffix & k2 & c' & _ & Hfree & ->)]; [done|].
    rewrite (lookup_insert_ne _ (s :: temporaryOf clean2 suffix)); [done|]. intros Heq. rewrite Heq, lookup_insert_eq in Hfree. done.
Qed.

(** ** Histories *)
Fixpoint history `{L : Links} (ops : list FileOp) : M FS unit :=
  match ops with
  | [] => mret tt
  | op :: rest => _ ← attempt (exec limits op); history rest
  end.
Definition onFiles (op : FileOp) : bool :=
  match op with OpCreateStack _ | OpRenameStack _ _ | OpRemoveStack _ => false | _ => true end.
Lemma onFiles_repository op s k : onFiles op = true → ¬ touches op (s :: ".git"%string :: k).
Proof.
  intros Hop Ht. destruct op; try discriminate Hop; try contradiction Ht; destruct Ht as (k' & [= E] & _ & Hh); subst k'; by apply Hh.
Qed.

(** Whatever is done to the files of the stacks, through whatever paths: the
    repositories of the stacks stay as they are. *)
Theorem repositories_are_out_of_reach `{L : Links} ops fs n u fs' n' s k :
  WF fs → forallb onFiles ops = true → history ops fs n = (u, (fs', n')) →
  fs' !! (s :: ".git"%string :: k) = fs !! (s :: ".git"%string :: k).
Proof.
  revert fs n. induction ops as [|op ops IH]; intros fs n Hwf Hops; [by intros [= _ <- _]|].
  apply andb_prop in Hops as [Hop Hops]. simpl. unfold mbind, M_bind, attempt.
  destruct (exec limits op fs n) as [r [fs1 n1]] eqn:E. intros Eh.
  destruct (file_run op fs n r fs1 n1 Hwf E) as [[Hwf1 Hk] _].
  rewrite (IH fs1 n1 Hwf1 Hops Eh). by apply Hk, onFiles_repository.
Qed.
End contract.

(** ** A stack with a repository, a secret outside and links to it *)
Module Example.
#[local] Instance world : World := calm.
#[local] Instance mask : Umask := 18%Z.                (* 022 *)
#[local] Instance digest : FileHash := λ s, s.
#[local] Instance links : Links := λ _ _ rest, Ok ("secret"%string :: rest).
Definition limits : Limits := mkLimits 100 8 100.
Definition files : FS := list_to_map [
  (["secret"], Regular 384 "s"); (["web"], Directory); (["web"; "docker-compose.yml"], Regular 420 "services");
  (["web"; ".git"], Directory); (["web"; ".git"; "HEAD"], Regular 420 "ref"); (["web"; "conf"], Directory);
  (["web"; "conf"; "app.ini"], Regular 493 "a=1"); (["web"; "link"], Symlink "../secret"); (["web"; "up"], Symlink "..")]%string.
Lemma files_WF : WF files.
Proof.
  assert (map_Forall (λ p _, p ≠ [] ∧ look files (parentOf p) = Some Directory) files) as Hall; [|exact Hall].
  apply (bool_decide_unpack _). vm_compute. exact I.
Qed.
Definition app : string := "conf/../conf/app.ini".
Definition written : FileContent := mkFileContent "conf/app.ini" "a=2" "sha256:a=2" 3.
Lemma discovery_is_exact_witness : ∃ l, gives files Discover l files ∧ "web"%string ∈ l.
Proof.
  destruct (discovery_is_exact files) as (l & Hl & Hin). exists l. split; [exact Hl|]. apply Hin.
  split; [vm_compute; reflexivity|]. split; [vm_compute; reflexivity|]. exists 420%Z, "services"%string. vm_compute. reflexivity.
Defined.
Lemma writing : ∃ fs' n', Write limits "web" app "a=2" "sha256:a=1" files 0 = (Ok written, (fs', n')).
Proof.
  assert (fst (Write limits "web" app "a=2" "sha256:a=1" files 0) = Ok written) as E by (vm_compute; reflexivity).
  destruct (Write _ _ _ _ _ _ _) as [r [fs' n']]. exists fs', n'. cbn [fst] in E. by rewrite E.
Qed.
Lemma what_is_written_is_read_witness : ∃ fs' m m', Read limits "web" app fs' m = (Ok written, (fs', m')).
Proof.
  destruct writing as (fs' & n' & E). exists fs', 0.
  destruct (what_is_written_is_read limits "web" app "a=2" "sha256:a=1" files 0 written fs' n' files_WF E) as (_ & _ & Hr).
  exact (Hr 0).
Defined.
Lemma stale_writers_are_refused_witness :
  ∃ fs' e fs2 m', Write limits "web" app "a=3" "sha256:a=1" fs' 0 = (Err e, (fs2, m')).
Proof.
  destruct writing as (fs' & n' & E). exists fs'.
  destruct (Write limits "web" app "a=3" "sha256:a=1" fs' 0) as [r [fs2 m']] eqn:E2.
  destruct (stale_writers_are_refused limits "web" app "a=2" "a=3" "sha256:a=1" files 0 written fs' n' 0 r fs2 m' files_WF E) as [[e He] _].
  - vm_compute. discriminate.
  - exact E2.
  - exists e, fs2, m'. rewrite He. reflexivity.
Defined.
(** Deleting the configuration, then trying to get at the repository through
    several paths. *)
Definition attacks : list FileOp := [
  OpRemove "web" "conf"; OpRemove "web" ".git"; OpWrite "web" "conf/../.git/HEAD" "x" "sha256:ref"; OpMove "web" ".git" "gone";
  OpCreateFile "web" "up/web/.git/config" "x"; OpCreateDirectory "web" "link/x"]%string.
Lemma repositories_are_out_of_reach_witness :
  ∃ u fs' n', history limits attacks files 0 = (u, (fs', n')) ∧ fs' !! ["web"; ".git"; "HEAD"]%string = Some (Regular 420 "ref").
Proof.
  destruct (history limits attacks files 0) as [u [fs' n']] eqn:E. exists u, fs', n'. split; [reflexivity|].
  rewrite (repositories_are_out_of_reach limits attacks files 0 u fs' n' "web" ["HEAD"%string] files_WF eq_refl E). vm_compute. reflexivity.
Defined.

(** In the tree of a submodule or a linked worktree, ".git" is a regular file.
    Skipping it ends the walk of the directory it is in: the compose file, which
    is next to it, is not listed. *)
Definition worktree : FS := list_to_map [
  (["web"], Directory); (["web"; ".git"], Regular 420 "gitdir: .."); (["web"; "docker-compose.yml"], Regular 420 "services")]%string.
Lemma git_file_ends_the_listing :
  fst (Tree limits "web" worktree 0) = Ok [] ∧
  fst (Tree limits "web" (delete ["web"; ".git"]%string worktree) 0) = Ok [mkFileEntry "docker-compose.yml" 8 false true] ∧
  fst (Read limits "web" "docker-compose.yml" worktree 0) = Ok (mkFileContent "docker-compose.yml" "services" "sha256:services" 8).
Proof. vm_compute. split; [reflexivity|]. split; reflexivity. Qed.
End Example.
End FilesystemContract.
