(* ===== verification/Coordinator.v ===== *)
(** * The operation coordinator (src/internal/operation/deployment.go)

    [Coordinator.Try] admits at most one repository-wide operation, or any
    number of operations on distinct stacks.  The section models the lock
    state, [Try] and the release closure it returns, and relates every
    interleaving of the two to the list of admissions that are still held. *)
From S2P Require Import Prelude.

Module Coordinator.

(** The struct's fields; [stacks] is a [map[string]bool] that only ever holds
    [true], so it is the set of its keys. *)
Record Coordinator := mkCoordinator {
  repository : bool;
  stacks : gset string;
}.

Definition NewCoordinator : Coordinator := mkCoordinator false ∅.

(** What the release closure captured. *)
Record Grant := mkGrant { g_repository : bool; g_stackID : string }.

#[export] Instance Grant_eq_dec : EqDecision Grant.
Proof. solve_decision. Defined.

Definition Try (c : Coordinator) (repo : bool) (stackID : string) : Coordinator * result Grant :=
  let admitted :=
    if repo then
      if repository c || negb (bool_decide (size (stacks c) = 0)) then None
      else Some (mkCoordinator true (stacks c))
    else if repository c then None
    else Some c in
  match admitted with
  | None => (c, Err Operation_ErrConflict)
  | Some c1 =>
      if negb (stackID =? "")%string then
        if bool_decide (stackID ∈ stacks c1) then
          ((if repo then mkCoordinator false (stacks c1) else c1), Err Operation_ErrConflict)
        else (mkCoordinator (repository c1) ({[stackID]} ∪ stacks c1), Ok (mkGrant repo stackID))
      else (c1, Ok (mkGrant repo stackID))
  end.

(** The closure [Try] returns. *)
Definition release (c : Coordinator) (g : Grant) : Coordinator :=
  mkCoordinator (if g_repository g then false else repository c) (stacks c ∖ {[g_stackID g]}).

(** ** Interleavings of admissions and releases

    The ghost list [held] records the grants that were returned and whose
    release closure has not run; the callers defer it exactly once. *)
Record System := mkSystem { lock : Coordinator; held : list Grant }.

Definition initial : System := mkSystem NewCoordinator [].

Inductive step : System → System → Prop :=
| step_admit c c' g h repo id :
    Try c repo id = (c', Ok g) → step (mkSystem c h) (mkSystem c' (g :: h))
| step_refuse c c' e h repo id :
    Try c repo id = (c', Err e) → step (mkSystem c h) (mkSystem c' h)
| step_release c g h1 h2 :
    step (mkSystem c (h1 ++ g :: h2)) (mkSystem (release c g) (h1 ++ h2)).

Definition reachable (s : System) : Prop := star step initial s.

(** A grant that locks nothing: [Try(false, "")]. *)
Definition anonymous : Grant := mkGrant false "".

(** What a grant may share the system with. *)
Definition compatible (g g' : Grant) : Prop :=
  (g_repository g = true → g' = anonymous) ∧
  (g_stackID g = g_stackID g' → g_stackID g = ""%string).

Definition admissible (g : Grant) (h : list Grant) : Prop :=
  if g_repository g then ∀ g', g' ∈ h → g' = anonymous
  else ∀ g', g' ∈ h → g_repository g' = false ∧ (g_stackID g = g_stackID g' → g_stackID g = ""%string).

Definition ids (h : list Grant) : list string := filter (λ i, i ≠ ""%string) (g_stackID <$> h).

Record Inv (s : System) : Prop := {
  inv_repository : repository (lock s) = existsb g_repository (held s);
  inv_stacks : stacks (lock s) = list_to_set (ids (held s));
  inv_nodup : NoDup (ids (held s));
  inv_exclusive : ∀ h1 g h2, held s = h1 ++ g :: h2 → g_repository g = true →
                  ∀ g', g' ∈ h1 ++ h2 → g' = anonymous;
}.

Lemma ids_app h1 h2 : ids (h1 ++ h2) = ids h1 ++ ids h2.
Proof. unfold ids. by rewrite fmap_app, filter_app. Qed.

Lemma ids_cons g h : ids (g :: h) = if decide (g_stackID g = ""%string) then ids h else g_stackID g :: ids h.
Proof.
  unfold ids. csimpl. rewrite filter_cons.
  destruct (decide (g_stackID g ≠ _)), (decide (g_stackID g = _)); by try done.
Qed.

Lemma elem_of_ids i h : i ∈ ids h ↔ i ≠ ""%string ∧ ∃ g, g ∈ h ∧ g_stackID g = i.
Proof.
  unfold ids. rewrite list_elem_of_filter, list_elem_of_fmap.
  naive_solver.
Qed.


Lemma ids_nil_anonymous h :
  ids h = [] → existsb g_repository h = false → ∀ g, g ∈ h → g = anonymous.
Proof.
  intros Hids Hrepo g Hg. pose proof (proj1 (existsb_false _ _) Hrepo _ Hg).
  assert (g_stackID g = ""%string) as Hid.
  { destruct (decide (g_stackID g = ""%string)); [done|].
    assert (g_stackID g ∈ ids h) as Hin by (apply elem_of_ids; eauto). rewrite Hids in Hin. set_solver. }
  destruct g; simpl in *; by subst.
Qed.

(** [Try] on a state that satisfies the invariant, branch by branch. *)
Lemma Try_spec c h repo id :
  Inv (mkSystem c h) →
  (admissible (mkGrant repo id) h ∧
   Try c repo id = (mkCoordinator (repo || repository c)
                      (if decide (id = ""%string) then stacks c else {[id]} ∪ stacks c), Ok (mkGrant repo id))) ∨
  (¬ admissible (mkGrant repo id) h ∧ Try c repo id = (c, Err Operation_ErrConflict)).
Proof.
  intros [Hr Hs Hn He]; simpl in *. destruct c as [cr cs]; simpl in *; subst.
  unfold Try, admissible; simpl.
  destruct repo; simpl.
  - destruct (existsb g_repository h) eqn:Er; simpl.
    { right. split; [|done]. intros Hall. apply not_false_iff_true in Er. apply Er.
      apply existsb_false. intros g ->%Hall. done. }
    destruct (ids h) as [|i l] eqn:Ei; simpl.
    + left. split; [by apply ids_nil_anonymous|].
      destruct (String.eqb_spec id ""), (decide (id = ""%string)); try done.
    + rewrite bool_decide_false; simpl.
      * right. split; [|done]. intros Hall.
        assert (i ∈ ids h) as (Hne & g & ->%Hall & Hgi)%elem_of_ids by (rewrite Ei; set_solver).
        by simpl in Hgi.
      * rewrite size_union_alt. rewrite size_singleton. lia.
  - destruct (existsb g_repository h) eqn:Er; simpl.
    { right. split; [|done]. intros Hall. apply not_false_iff_true in Er. apply Er.
      apply existsb_false. intros g [??]%Hall. done. }
    destruct (String.eqb_spec id "") as [->|Hne]; simpl.
    { left. split; [|done].
      intros g Hg. split; [by eapply existsb_false|done]. }
    case_bool_decide as Hin.
    + right. split; [|done]. intros Hall.
      apply elem_of_list_to_set, elem_of_ids in Hin as (_ & g & [_ Hg]%Hall & <-). by apply Hne, Hg.
    + left. rewrite decide_False by done. split; [|done].
      intros g Hg. split; [by eapply existsb_false|].
      intros ->. exfalso. apply Hin, elem_of_list_to_set, elem_of_ids. eauto.
Qed.

Lemma Inv_initial : Inv initial.
Proof. split; simpl; try done; [constructor|]. by intros [|??] ???. Qed.

Lemma Inv_step s s' : Inv s → step s s' → Inv s'.
Proof.
  intros HI Hstep. destruct Hstep as [c c' g h repo id HT|c c' e h repo id HT|c g h1 h2].
  - destruct (Try_spec c h repo id HI) as [[Hadm HT']|[_ HT']]; rewrite HT' in HT; simplify_eq.
    destruct HI as [Hr Hs Hn He]; simpl in *. unfold admissible in Hadm; simpl in Hadm.
    split; simpl.
    + by rewrite Hr.
    + rewrite ids_cons; simpl. destruct (decide (id = _)); simpl; by rewrite ?Hs.
    + rewrite ids_cons; simpl. destruct (decide (id = _)); [done|]. constructor; [|done].
      intros (Hne & g & Hg & Hid)%elem_of_ids. destruct repo.
      * rewrite (Hadm g Hg) in Hid. by subst.
      * symmetry in Hid. apply Hadm in Hid; done.
    + intros [|g0 h1] g h2 Heq Hg g' Hg'; simplify_eq/=.
      * by apply Hadm.
      * apply elem_of_cons in Hg' as [->|Hg']; [|by eapply He].
        destruct repo.
        -- rewrite (Hadm g) in Hg by set_solver. done.
        -- destruct (Hadm g) as [Hg2 _]; [set_solver|congruence].
  - destruct (Try_spec c h repo id HI) as [[_ HT']|[_ HT']]; rewrite HT' in HT; by simplify_eq.
  - destruct HI as [Hr Hs Hn He]; simpl in *.
    assert (Hperm : h1 ++ g :: h2 ≡ₚ g :: h1 ++ h2) by (by rewrite Permutation_middle).
    assert (Hids : ids (h1 ++ g :: h2) ≡ₚ ids (g :: h1 ++ h2)).
    { unfold ids. by rewrite Hperm. }
    assert (Hstk : stacks c ∖ {[g_stackID g]} = list_to_set (ids (h1 ++ h2))).
    { apply set_eq. intros i. rewrite Hs, elem_of_difference, elem_of_singleton, !elem_of_list_to_set, Hids.
      rewrite Hids in Hn. rewrite ids_cons in Hn |- *. destruct (decide (g_stackID g = _)) as [E|E].
      - rewrite elem_of_ids, E. naive_solver.
      - apply NoDup_cons in Hn as [Hn _]. rewrite elem_of_cons. split; [naive_solver|].
        intros Hi. split; [by right|]. by intros ->. }
    assert (Hnd : NoDup (ids (h1 ++ h2))).
    { rewrite Hids, ids_cons in Hn. destruct (decide _); [done|]. by apply NoDup_cons in Hn as [_ ?]. }
    assert (Hrep : (if g_repository g then false else repository c) = existsb g_repository (h1 ++ h2)).
    { rewrite Hr, !existsb_app; simpl. destruct (g_repository g) eqn:Hg; [|done].
      symmetry. rewrite <-existsb_app. apply existsb_false. intros g' Hg'.
      by rewrite (He h1 g h2 eq_refl Hg g' Hg'). }
    unfold release. split; simpl; try done.
    intros k1 g1 k2 Heq Hg1 g' Hg'.
    assert (∃ l1 l2, h1 ++ g :: h2 = l1 ++ g1 :: l2 ∧ ∀ x, x ∈ k1 ++ k2 → x ∈ l1 ++ l2) as (l1 & l2 & El & Hin).
    { clear -Heq. apply app_eq_inv in Heq as [(l & -> & Heq)|(l & -> & ->)].
      - destruct l as [|y l]; simplify_eq/=.
        + eexists (k1 ++ [g]), k2. rewrite <-!app_assoc; simpl. split; [done|set_solver].
        + eexists k1, (l ++ g :: h2). rewrite <-!app_assoc; simpl. split; [done|set_solver].
      - eexists (h1 ++ g :: l), k2. rewrite <-!app_assoc; simpl. split; [done|set_solver]. }
    by apply (He l1 g1 l2 El Hg1), Hin.
Qed.

Lemma Inv_reachable s : reachable s → Inv s.
Proof. intros Hs. eapply star_invariant; [apply Inv_step|apply Hs|apply Inv_initial]. Qed.

(** C34. Mutual exclusion: in every reachable state, whatever the interleaving
    of admissions, refusals and releases, two grants that are held at the same
    time are compatible: a repository-wide grant coexists with no grant that
    locks anything, and no stack is locked twice. *)
Theorem coordinator_exclusion s i j g g' :
  reachable s → i ≠ j → held s !! i = Some g → held s !! j = Some g' → compatible g g'.
Proof.
  intros Hs Hij Hi Hj. destruct (Inv_reachable s Hs) as [_ _ Hn He].
  apply list_elem_of_split_length in Hi as (h1 & h2 & Eh & ->).
  assert (g' ∈ h1 ++ h2) as Hg'.
  { rewrite Eh in Hj. apply elem_of_app. rewrite lookup_app in Hj.
    destruct (h1 !! j) eqn:Ej; simplify_eq; [left; by eapply list_elem_of_lookup_2|].
    apply lookup_ge_None in Ej. destruct (j - length h1) eqn:Ed; [lia|].
    right. by eapply list_elem_of_lookup_2. }
  split; [intros Hg; by eapply He|]. intros Hid.
  destruct (decide (g_stackID g = ""%string)) as [|Hne]; [done|exfalso].
  assert (Hperm : ids (held s) ≡ₚ ids (g :: h1 ++ h2)).
  { unfold ids. by rewrite Eh, Permutation_middle. }
  rewrite Hperm, ids_cons, decide_False in Hn by done. apply NoDup_cons in Hn as [Hn _].
  apply Hn, elem_of_ids. eauto.
Qed.

(** Admission is exact: in every reachable state [Try] grants a request
    if and only if it conflicts with no grant that is held, a refusal leaves
    the lock as it was, and when every grant has been released the lock is
    back in its initial state. *)
Theorem try_admits_exactly s repo id :
  reachable s →
  (is_ok (Try (lock s) repo id).2 = true ↔ admissible (mkGrant repo id) (held s)) ∧
  (is_ok (Try (lock s) repo id).2 = false → (Try (lock s) repo id).1 = lock s) ∧
  (held s = [] → lock s = NewCoordinator).
Proof.
  intros Hs. pose proof (Inv_reachable s Hs) as HI. destruct s as [c h]; simpl in *.
  destruct (Try_spec c h repo id HI) as [[Ha ->]|[Ha ->]]; simpl.
  - split_and!; try done. intros ->. destruct HI as [Hr Hst _ _]; simpl in *. by destruct c; simpl in *; subst.
  - split_and!; try done. intros ->. destruct HI as [Hr Hst _ _]; simpl in *. by destruct c; simpl in *; subst.
Qed.

Definition two_stacks : System :=
  mkSystem (mkCoordinator false {["db"%string; "web"%string]}) [mkGrant false "web"; mkGrant false "db"].

Lemma two_stacks_reachable : reachable two_stacks.
Proof.
  eapply star_step; [apply (step_admit _ (mkCoordinator false {["db"%string]}) (mkGrant false "db") _ false "db"%string); reflexivity|].
  eapply star_step; [apply (step_admit _ (mkCoordinator false {["db"%string; "web"%string]}) (mkGrant false "web") _ false "web"%string); vm_compute; reflexivity|].
  apply star_refl.
Qed.

Lemma coordinator_exclusion_witness : compatible (mkGrant false "web") (mkGrant false "db").
Proof. exact (coordinator_exclusion two_stacks 0 1 _ _ two_stacks_reachable ltac:(discriminate) eq_refl eq_refl). Defined.

Lemma try_admits_exactly_witness :
  is_ok (Try (lock two_stacks) true "").2 = false ∧ (Try (lock two_stacks) true "").1 = lock two_stacks.
Proof.
  assert (H : is_ok (Try (lock two_stacks) true "").2 = false) by reflexivity.
  split; [exact H|exact (proj1 (proj2 (try_admits_exactly two_stacks true "" two_stacks_reachable)) H)].
Defined.

End Coordinator.
