(* ===== verification/Locking.v ===== *)
(** * Work under the operation lock

    The services that change stacks or the repository all begin with
    [release, err := coordinator.Try(..); if err != nil { return err }; defer
    release()].  [locked] is that prefix around the rest of the function; its
    laws are stated once here. *)
From S2P Require Import Prelude Coordinator.

Module Locking.
Import Coordinator.

Section locked.
Context {E : Type} `{L : !Lens E Coordinator}.

Definition locked {A} (repo : bool) (id : string) (m : M E A) : M E A := λ e n,
  match Try (view e) repo id with
  | (c, Err x) => (Err x, (put c e, n))
  | (c, Ok g) => deferred (λ e, put (release (view e) g) e) m (put c e) n
  end.

(** A refusal changes nothing, and a release undoes the admission. *)
Lemma Try_refused c repo id c' x : Try c repo id = (c', Err x) → c' = c ∧ x = Operation_ErrConflict.
Proof.
  unfold Try. destruct c as [cr cs]; simpl. intros H.
  destruct repo, cr; simpl in H; try (injection H as <- <-; done).
  - case_bool_decide; simpl in H; [|injection H as <- <-; done].
    destruct (id =? "")%string; simpl in H; [discriminate|]. case_bool_decide; [|discriminate].
    by injection H as <- <-.
  - destruct (id =? "")%string; simpl in H; [discriminate|]. case_bool_decide; [|discriminate].
    by injection H as <- <-.
Qed.

Lemma Try_release c repo id c' g :
  (repo = true ∨ id ≠ ""%string) → Try c repo id = (c', Ok g) → release c' g = c.
Proof.
  unfold Try, release. destruct c as [cr cs]; simpl. intros Hid H.
  destruct repo, cr; simpl in H; try discriminate.
  - case_bool_decide as Hs; simpl in H; [|discriminate].
    apply size_empty_inv, leibniz_equiv in Hs as ->.
    destruct (String.eqb_spec id "") as [->|Hne]; simpl in H.
    + injection H as <- <-. simpl; f_equal; set_solver.
    + rewrite bool_decide_false in H by set_solver. injection H as <- <-. simpl; f_equal; set_solver.
  - destruct Hid as [|Hid]; [done|].
    destruct (String.eqb_spec id "") as [->|Hne]; simpl in H; [done|].
    case_bool_decide; [discriminate|]. injection H as <- <-. simpl; f_equal; set_solver.
Qed.

(** The two courses of a locked function. *)
Lemma locked_cases {A} repo id (m : M E A) e n :
  locked repo id m e n = (Err Operation_ErrConflict, (e, n)) ∨
  ∃ c g, Try (view e) repo id = (c, Ok g) ∧
    locked repo id m e n = deferred (λ e, put (release (view e) g) e) m (put c e) n.
Proof.
  unfold locked. destruct (Try (view e) repo id) as [c [g|x]] eqn:Et; [right; eauto|left].
  apply Try_refused in Et as [-> ->]. by rewrite put_view.
Qed.

Lemma locked_ok {A} repo id (m : M E A) e n a e' n' :
  locked repo id m e n = (Ok a, (e', n')) →
  ∃ c g e1, Try (view e) repo id = (c, Ok g) ∧ m (put c e) n = (Ok a, (e1, n')) ∧
    e' = put (release (view e1) g) e1.
Proof.
  intros H. destruct (locked_cases repo id m e n) as [Hc|(c & g & Et & Hc)]; rewrite Hc in H; [done|].
  unfold deferred in H. destruct (m (put c e) n) as [r [e1 n1]] eqn:Em.
  injection H as -> <- <-. exists c, g, e1. done.
Qed.

Lemma maintains_locked {A} (P : E → nat → Prop) repo id (m : M E A) :
  (∀ c e n, P e n → P (put c e) n) → maintains P m → maintains P (locked repo id m).
Proof.
  intros Hp Hm e n He. destruct (locked_cases repo id m e n) as [->|(c & g & _ & ->)]; [done|].
  specialize (Hm (put c e) n (Hp _ _ _ He)). unfold deferred.
  destruct (m (put c e) n) as [r [e1 n1]]. by apply Hp.
Qed.

Lemma forward_locked {A} repo id (m : M E A) : forward m → forward (locked repo id m).
Proof.
  intros Hm e n. destruct (locked_cases repo id m e n) as [->|(c & g & _ & ->)]; [done|].
  specialize (Hm (put c e) n). unfold deferred. by destruct (m (put c e) n) as [r [e1 n1]].
Qed.

(** Work that leaves the lock alone returns it as it was. *)
Lemma locked_returns {A} repo id (m : M E A) e n :
  (repo = true ∨ id ≠ ""%string) → (∀ e n, view (m e n).2.1 = view e) →
  view (locked repo id m e n).2.1 = view e.
Proof.
  intros Hid Hm. destruct (locked_cases repo id m e n) as [->|(c & g & Et & ->)]; [done|].
  specialize (Hm (put c e) n). rewrite view_put in Hm. unfold deferred.
  destruct (m (put c e) n) as [r [e1 n1]]. simpl in *. rewrite view_put, Hm. by eapply Try_release.
Qed.
(** From a known state: the work finds the lock taken and must return it so. *)
Lemma from_locked {A} repo id (m : M E A) e (Q : A → E → Prop) (R : error → E → Prop) :
  (repo = true ∨ id ≠ ""%string) → R Operation_ErrConflict e →
  (∀ c, from (put c e) m (λ a e', view e' = c ∧ Q a (put (view e) e')) (λ x e', view e' = c ∧ R x (put (view e) e'))) →
  from e (locked repo id m) Q R.
Proof.
  intros Hid HR Hm n. destruct (locked_cases repo id m e n) as [->|(c & g & Et & ->)]; [done|].
  specialize (Hm c n). apply Try_release in Et; [|done]. unfold deferred.
  by destruct (m (put c e) n) as [[a|x] [e' n']]; destruct Hm as [-> Hm]; rewrite Et.
Qed.
End locked.
#[export] Hint Resolve forward_locked : pres.
End Locking.
