(* ===== verification/Traffic.v ===== *)
(** * Wake listeners (src/internal/traffic/listener.go)

    The configuration check, and the latch that turns connection attempts into
    at most one wake event.  The sockets themselves are the kernel's; the
    reader goroutines appear as the steps they may take. *)
From S2P Require Import Prelude GoStrings Netip.

Module Traffic.

Definition MaxBindings : Z := 256.

Record Binding := mkBinding { Network : string; Address : string }.
#[export] Instance Binding_eq_dec : EqDecision Binding.
Proof. solve_decision. Defined.
#[export] Instance Binding_countable : Countable Binding.
Proof. refine (inj_countable' (λ b, (Network b, Address b)) (λ p, mkBinding p.1 p.2) _). by intros []. Defined.

Record Config := mkConfig {
  Generation : Z;     (* uint64 *)
  Threshold : Z;      (* uint32 *)
  Window : duration;
  Bindings : list Binding;
}.

Record Wake := mkWake { w_generation : Z; w_network : string; w_remote : AddrPort; w_at : time }.

Record State := mkState {
  s_generation : Z;
  Attempts : Z;       (* uint64 *)
  Pending : bool;
  TriggeredAt : time;
}.

(** ** Validate *)

(** One binding: its parsed endpoint, or the reason it is refused. *)
Definition checkBinding (b : Binding) : result AddrPort :=
  match ParseAddrPort (Address b) with
  | None => Err (ErrText "invalid wake address")
  | Some a =>
    if (port a =? 0)%Z || IsMulticast (ip a) || negb (Zone (ip a) =? "")%string
    then Err (ErrText "invalid wake address")
    else if ((Network b =? "tcp4") || (Network b =? "udp4"))%string then
      if negb (Is4 (ip a)) then Err (ErrText "IPv4 listener requires an IPv4 address") else Ok a
    else if ((Network b =? "tcp6") || (Network b =? "udp6"))%string then
      if negb (Is6 (ip a)) || Is4In6 (ip a) then Err (ErrText "IPv6 listener requires an IPv6 address") else Ok a
    else Err (ErrText "wake network must be tcp4, tcp6, udp4 or udp6")
  end.

(** [seen] holds the bindings with their address in canonical form, that is
    by endpoint. *)
Fixpoint checkBindings (seen : list (string * AddrPort)) (l : list Binding) : result unit :=
  match l with
  | [] => Ok tt
  | b :: l' =>
    a ← checkBinding b;
    if bool_decide ((Network b, a) ∈ seen) then Err (ErrText "duplicate wake binding")
    else checkBindings ((Network b, a) :: seen) l'
  end.

Definition Validate (c : Config) : result unit :=
  if (Generation c =? 0)%Z then Err (ErrText "wake generation must be positive")
  else if (Threshold c <? 1)%Z || (1000 <? Threshold c)%Z
  then Err (ErrText "wake threshold must be between 1 and 1000 attempts")
  else if (Window c <? 10 * Millisecond)%Z || (Minute <? Window c)%Z
  then Err (ErrText "wake window must be between 10ms and 60s")
  else if (Z.of_nat (length (Bindings c)) =? 0)%Z || (MaxBindings <? Z.of_nat (length (Bindings c)))%Z
  then Err (ErrText "wake bindings must contain between 1 and 256 endpoints")
  else checkBindings [] (Bindings c).

(** ** The listener *)
Record Listener := mkListener {
  config : Config;
  state : State;
  windowStart : time;
  windowCount : Z;    (* uint32 *)
  closed : bool;
  err : option error;
  events : chan Wake;
  released : bool;    (* releaseOnce has run: every socket is closed *)
}.

(** The listener [Listen] returns once every binding is reserved. *)
Definition newListener (c : Config) : Listener :=
  mkListener c (mkState (Generation c) 0 false zeroTime) zeroTime 0 false None (make_chan Wake 1) false.

Definition Snapshot (l : Listener) : result State :=
  if closed l then Err Traffic_ErrClosed
  else match err l with Some e => Err e | None => Ok (state l) end.

(** [record] returns whether its reader stops, and how the send on the event
    channel went when there was one. *)
Definition record (l : Listener) (now : time) (network : string) (remote : AddrPort)
    : Listener * bool * outcome :=
  if closed l || bool_decide (err l ≠ None) || Pending (state l) then (l, true, Done)
  else
    let st := mkState (s_generation (state l)) (wrapU64 (Attempts (state l) + 1)) (Pending (state l)) (TriggeredAt (state l)) in
    let fresh := IsZero (windowStart l) || (Window (config l) <=? Sub now (windowStart l))%Z in
    let start := if fresh then now else windowStart l in
    let count := wrapU32 ((if fresh then 0 else windowCount l) + 1)%Z in
    if (count <? Threshold (config l))%Z then
      (mkListener (config l) st start count (closed l) (err l) (events l) (released l), false, Done)
    else
      let '(ch, o) := chan_send (events l) (mkWake (Generation (config l)) network remote now) in
      (mkListener (config l) (mkState (s_generation st) (Attempts st) true now) start count
         (closed l) (err l) ch (released l), true, o).

(** [fail] latches the first error and releases every socket. *)
Definition fail (l : Listener) (e : error) : Listener :=
  if closed l || bool_decide (err l ≠ None) then l
  else mkListener (config l) (state l) (windowStart l) (windowCount l) (closed l)
         (Some (ErrWrap e "wake listener unavailable")) (events l) true.

(** [Close] runs once: it marks the listener closed and releases the sockets;
    after every reader has returned it closes the event channel. *)
Definition close_begin (l : Listener) : Listener :=
  mkListener (config l) (state l) (windowStart l) (windowCount l) true (err l) (events l) true.
Definition close_end (l : Listener) : Listener * outcome :=
  let '(ch, o) := chan_close (events l) in
  (mkListener (config l) (state l) (windowStart l) (windowCount l) (closed l) (err l) ch (released l), o).

(** ** Listen

    The kernel's sockets are the set of endpoints that are bound; binding one
    that is in the set fails, and so does any call the world decides. *)
Section listen.
Context `{World}.

Definition closeAll (acquired : list Binding) : M (gset Binding) unit :=
  λ s n, (Ok tt, (s ∖ list_to_set acquired, n)).

(** One iteration of the loop: resolve the address, bind the socket, register
    its closer, bound its queue. *)
Definition reserveOne (acquired : list Binding) (b : Binding) : M (gset Binding) (list Binding) :=
  _ ← call (λ s, Ok (tt, s));
  _ ← call (λ s, if bool_decide (b ∈ s) then Err (ErrText "reserve") else Ok (tt, {[b]} ∪ s));
  catch (_ ← call (λ s, Ok (tt, s)); mret (acquired ++ [b]))
        (λ e, _ ← closeAll [b]; Prelude.fail e).

Fixpoint reserveAll (acquired : list Binding) (l : list Binding) : M (gset Binding) (list Binding) :=
  match l with
  | [] => mret acquired
  | b :: l' =>
    acquired' ← catch (reserveOne acquired b) (λ e, _ ← closeAll acquired; Prelude.fail e);
    reserveAll acquired' l'
  end.

Definition Listen (c : Config) : M (gset Binding) Listener :=
  _ ← lift (Validate c);
  _ ← reserveAll [] (Bindings c);
  mret (newListener c).

End listen.

(** ** Interleavings of the readers, the consumer and Close *)
Record System := mkSystem {
  listener : Listener;
  readers : nat;         (* reader goroutines that have not returned *)
  finished : bool;       (* Close has returned *)
  sent : list Wake;      (* ghost: every wake ever sent *)
  attempts : list time;  (* ghost: the attempts that were counted, newest first *)
  broken : bool;         (* some channel operation blocked or panicked *)
}.

Definition counted (l : Listener) : bool :=
  negb (closed l || bool_decide (err l ≠ None) || Pending (state l)).

(** The latest time the clock has shown to [record]. *)
Definition lastAttempt (s : System) : time := hd 0%Z (attempts s).

Inductive step : System → System → Prop :=
| step_attempt s now network remote l' stop o :
    0 < readers s → (lastAttempt s ≤ now)%Z →
    record (listener s) now network remote = (l', stop, o) →
    step s (mkSystem l' (if stop : bool then pred (readers s) else readers s) (finished s)
              (if counted (listener s) && Pending (state l')
               then mkWake (Generation (config (listener s))) network remote now :: sent s else sent s)
              (if counted (listener s) then now :: attempts s else attempts s)
              (broken s || negb (bool_decide (o = Done))))
| step_fail s e :
    0 < readers s →
    step s (mkSystem (fail (listener s) e) (pred (readers s)) (finished s) (sent s) (attempts s) (broken s))
| step_receive s w ch :
    chan_recv (events (listener s)) = Some (w, ch) →
    step s (mkSystem (mkListener (config (listener s)) (state (listener s)) (windowStart (listener s))
                        (windowCount (listener s)) (closed (listener s)) (err (listener s)) ch (released (listener s)))
              (readers s) (finished s) (sent s) (attempts s) (broken s))
| step_close s :
    closed (listener s) = false →
    step s (mkSystem (close_begin (listener s)) (readers s) (finished s) (sent s) (attempts s) (broken s))
| step_closed s l' o :
    closed (listener s) = true → readers s = 0 → finished s = false →
    close_end (listener s) = (l', o) →
    step s (mkSystem l' 0 true (sent s) (attempts s) (broken s || negb (bool_decide (o = Done)))).

Definition start (c : Config) (n : nat) : System := mkSystem (newListener c) n false [] [] false.

Record Inv (c : Config) (s : System) : Prop := {
  inv_config : config (listener s) = c;
  inv_unbroken : broken s = false;
  inv_cap : ch_cap (events (listener s)) = 1;
  inv_buffered : length (ch_buf (events (listener s))) ≤ length (sent s);
  inv_pending : length (sent s) = if Pending (state (listener s)) then 1 else 0;
  inv_finished : ch_closed (events (listener s)) = finished s;
  inv_done : finished s = true → readers s = 0 ∧ closed (listener s) = true;
  inv_count : (0 ≤ windowCount (listener s))%Z ∧
    (Pending (state (listener s)) = false → (windowCount (listener s) < Threshold c)%Z) ∧
    (windowCount (listener s) ≤ Z.of_nat (length (attempts s)))%Z;
  inv_started : windowStart (listener s) ≠ 0%Z → (1 ≤ windowCount (listener s))%Z;
  inv_window : Forall (λ t, windowStart (listener s) ≤ t)%Z (take (Z.to_nat (windowCount (listener s))) (attempts s));
  inv_clock : Forall (λ t, t ≤ lastAttempt s)%Z (attempts s);
  inv_sent : ∀ w, w ∈ sent s →
    ∃ l, l ⊆+ attempts s ∧ Z.of_nat (length l) = Threshold c ∧
         Forall (λ t, 0 ≤ w_at w - t < Window c)%Z l ∧ w_generation w = Generation c;
}.

Lemma Inv_start c n : (0 < Threshold c)%Z → Inv c (start c n).
Proof.
  intros Hc. split; simpl; try done; try set_solver; lia.
Qed.

(** What [record] does when the attempt counts. *)
Lemma record_counted l now network remote l' stop o :
  counted l = true → record l now network remote = (l', stop, o) →
  ∃ fresh count,
    fresh = IsZero (windowStart l) || (Window (config l) <=? Sub now (windowStart l))%Z ∧
    count = wrapU32 ((if fresh then 0 else windowCount l) + 1)%Z ∧
    config l' = config l ∧ closed l' = closed l ∧ err l' = err l ∧
    windowStart l' = (if fresh then now else windowStart l) ∧ windowCount l' = count ∧
    stop = Pending (state l') ∧
    Pending (state l') = negb (count <? Threshold (config l))%Z ∧
    if Pending (state l')
    then chan_send (events l) (mkWake (Generation (config l)) network remote now) = (events l', o)
    else events l' = events l ∧ o = Done.
Proof.
  unfold counted, record. intros Hc%negb_true_iff. rewrite Hc.
  apply orb_false_iff in Hc as [[Hc1 Hc2]%orb_false_iff Hc3]. cbv zeta.
  set (fresh := IsZero _ || _). set (count := wrapU32 _).
  destruct (count <? Threshold (config l))%Z eqn:Et.
  - intros [= <- <- <-]. exists fresh, count. simpl. rewrite Hc3, Et. done.
  - destruct (chan_send _ _) as [ch o'] eqn:Es. intros [= <- <- <-].
    exists fresh, count. simpl. by rewrite Et.
Qed.

Lemma record_ignored l now network remote :
  counted l = false → record l now network remote = (l, true, Done).
Proof. unfold counted, record. intros Hc%negb_false_iff. by rewrite Hc. Qed.

(** A counted attempt preserves the invariant. *)
Lemma Inv_counted c s now network remote l' stop o :
  is_ok (Validate c) = true → Inv c s → 0 < readers s → (lastAttempt s ≤ now)%Z →
  counted (listener s) = true → record (listener s) now network remote = (l', stop, o) →
  Inv c (mkSystem l' (if stop : bool then pred (readers s) else readers s) (finished s)
          (if Pending (state l') then mkWake (Generation (config (listener s))) network remote now :: sent s else sent s)
          (now :: attempts s) (broken s || negb (bool_decide (o = Done)))).
Proof.
  intros Hv [Hcfg Hub Hcap Hbuf Hpend Hfin Hdone [Hc0 [Hc1 Hc2]] Hsta Hwin Hclk Hsent] Hrd Hnow Hcnt Hrec.
  assert (Hrange : (1 ≤ Threshold c ≤ 1000 ∧ 10 * Millisecond ≤ Window c ≤ Minute)%Z).
  { unfold Validate in Hv. repeat case_match; try done; unfold Millisecond, Minute, Second in *; lia. }
  destruct (record_counted _ _ _ _ _ _ _ Hcnt Hrec)
    as (fresh & count & Ef & Ec & Hcfg' & Hcl & Herr & Hws & Hwc & -> & Hp & Hch).
  unfold counted in Hcnt. apply negb_true_iff, orb_false_iff in Hcnt as [[Hclosed _]%orb_false_iff Hnp].
  rewrite Hnp in Hpend. apply nil_length_inv in Hpend. rewrite Hpend in Hbuf; simpl in Hbuf.
  specialize (Hc1 Hnp).
  assert (Hcount : count = ((if fresh then 0 else windowCount (listener s)) + 1)%Z).
  { rewrite Ec. apply wrapU32_id. destruct fresh; lia. }
  assert (Hopen : ch_closed (events (listener s)) = false).
  { rewrite Hfin. destruct (finished s); [|done]. destruct (Hdone eq_refl). congruence. }
  assert (Htake : Forall (λ t, windowStart l' ≤ t)%Z (take (Z.to_nat count) (now :: attempts s))).
  { rewrite Hws, Hcount. destruct fresh; simpl; [by repeat constructor|].
    replace (Z.to_nat (windowCount (listener s) + 1)) with (S (Z.to_nat (windowCount (listener s)))) by lia.
    simpl. constructor; [|done].
    symmetry in Ef. apply orb_false_iff in Ef as [Ef%Z.eqb_neq _]. specialize (Hsta Ef).
    unfold lastAttempt in Hnow.
    destruct (Z.to_nat (windowCount (listener s))) eqn:E0, (attempts s) as [|t ts];
      simpl in *; try lia. apply Forall_cons in Hwin. lia. }
  assert (Hfresh : (now - windowStart l' < Window c)%Z).
  { rewrite Hws. destruct fresh; [unfold Millisecond in *; lia|].
    symmetry in Ef. apply orb_false_iff in Ef as [_ Ef%Z.leb_gt].
    rewrite Hcfg in Ef. unfold Sub, Minute, Second in *. lia. }
  assert (Hchan : ch_cap (events l') = 1 ∧ ch_closed (events l') = finished s ∧ o = Done ∧
                  length (ch_buf (events l')) ≤ if Pending (state l') then 1 else 0).
  { destruct (Pending (state l')); [|destruct Hch as [-> ->]; split_and!; done || lia].
    unfold chan_send in Hch. rewrite Hopen, bool_decide_true in Hch by (rewrite Hcap; lia).
    injection Hch as <- <-. simpl. rewrite length_app. simpl. split_and!; try done; [congruence|lia]. }
  destruct Hchan as (Hcap' & Hopen' & -> & Hbuf'). rewrite Hcfg in Hp.
  assert (Hpt : Pending (state l') = true → count = Threshold c).
  { intros E. rewrite E in Hp. symmetry in Hp. apply negb_true_iff, Z.ltb_ge in Hp.
    rewrite Hcount in *. destruct fresh; lia. }
  rewrite Hpend. split; simpl; rewrite ?Hcfg', ?Hcl, ?Hwc; try done.
  - by rewrite Hub.
  - destruct (Pending (state l')); simpl; lia.
  - by destruct (Pending (state l')).
  - intros Hf. destruct (Hdone Hf). lia.
  - rewrite Hcount. split_and!; [destruct fresh; lia| |destruct fresh; lia].
    intros E. rewrite E in Hp. symmetry in Hp. apply negb_false_iff, Z.ltb_lt in Hp. congruence.
  - rewrite Hcount. destruct fresh; lia.
  - constructor; [unfold lastAttempt; simpl; lia|].
    eapply Forall_impl; [apply Hclk|]. simpl. intros t Ht. unfold lastAttempt; simpl. lia.
  - intros w. destruct (Pending (state l')); [|set_solver]. intros ->%list_elem_of_singleton.
    specialize (Hpt eq_refl). exists (take (Z.to_nat count) (now :: attempts s)). split_and!; simpl.
    + apply sublist_submseteq, sublist_take.
    + rewrite length_take. simpl. rewrite Hpt, Hcount in *. destruct fresh; lia.
    + eapply Forall_impl; [apply Forall_and; split; [apply Htake|]|].
      * apply (Forall_take (λ t, (t ≤ now)%Z)).
        constructor; [lia|]. eapply Forall_impl; [apply Hclk|]. simpl. intros; lia.
      * simpl. intros t [??]. lia.
    + by rewrite Hcfg.
Qed.

Lemma traffic_inv_step c s s' : is_ok (Validate c) = true → Inv c s → step s s' → Inv c s'.
Proof.
  intros Hv HI Hstep.
  destruct Hstep as [s now network remote l' stop o Hrd Hnow Hrec|s e Hrd|s w ch Hch|s Hcl|s l' o Hcl Hrd Hfin Hend].
  - destruct (counted (listener s)) eqn:Ec; simpl.
    + by apply (Inv_counted c s now network remote l' stop o).
    + rewrite record_ignored in Hrec by done. simplify_eq. destruct HI. split; simpl; try done.
      * by rewrite orb_false_r.
      * intros Hf. destruct (inv_done0 Hf). lia.
  - destruct HI. unfold fail. destruct (closed (listener s) || _); split; simpl; try done;
      intros Hf; destruct (inv_done0 Hf); split; [lia|done|lia|done].
  - unfold chan_recv in Hch. destruct (ch_buf (events (listener s))) eqn:Eb; simplify_eq.
    destruct HI. rewrite Eb in *. split; simpl in *; try done. lia.
  - destruct HI. split; simpl; try done. intros Hf. by destruct (inv_done0 Hf).
  - unfold close_end, chan_close in Hend. destruct HI. rewrite inv_finished0, Hfin in Hend. simplify_eq/=.
    split; simpl; try done. by rewrite orb_false_r.
Qed.

Lemma traffic_inv_reachable c n s : is_ok (Validate c) = true → star step (start c n) s → Inv c s.
Proof.
  intros Hv Hs. eapply star_invariant; [|apply Hs|].
  - intros ??. by apply traffic_inv_step.
  - apply Inv_start. unfold Validate in Hv. repeat case_match; try done; lia.
Qed.

(** ** What [Validate] accepts *)
Definition validBinding (b : Binding) (a : AddrPort) : Prop :=
  ParseAddrPort (Address b) = Some a ∧ port a ≠ 0%Z ∧ IsMulticast (ip a) = false ∧ Zone (ip a) = ""%string ∧
  (((Network b = "tcp4" ∨ Network b = "udp4")%string ∧ Is4 (ip a) = true) ∨
   ((Network b = "tcp6" ∨ Network b = "udp6")%string ∧ Is6 (ip a) = true ∧ Is4In6 (ip a) = false)).

Definition validConfig (c : Config) : Prop :=
  Generation c ≠ 0%Z ∧ (1 ≤ Threshold c ≤ 1000)%Z ∧ (10 * Millisecond ≤ Window c ≤ Minute)%Z ∧
  1 ≤ length (Bindings c) ≤ 256 ∧
  ∃ endpoints, Forall2 validBinding (Bindings c) endpoints ∧
               NoDup (zip (Network <$> Bindings c) endpoints).

Lemma checkBinding_spec b a : checkBinding b = Ok a ↔ validBinding b a.
Proof.
  unfold checkBinding, validBinding.
  destruct (ParseAddrPort (Address b)) as [a'|]; [|split; [done|by intros [? _]]].
  destruct (decide (a' = a)) as [->|Hne].
  2:{ split; [|by intros [[= ->] _]]. intros E. exfalso. repeat case_match; simplify_eq. }
  destruct (Z.eqb_spec (port a) 0); simpl; [split; [done|tauto]|].
  destruct (IsMulticast (ip a)); simpl; [split; [done|by intros (_ & _ & ? & _)]|].
  destruct (String.eqb_spec (Zone (ip a)) ""); simpl; [|split; [done|tauto]].
  destruct (String.eqb_spec (Network b) "tcp4"), (String.eqb_spec (Network b) "udp4"),
    (String.eqb_spec (Network b) "tcp6"), (String.eqb_spec (Network b) "udp6"); simpl; try congruence;
    destruct (Is4 (ip a)), (Is6 (ip a)), (Is4In6 (ip a)); simpl;
    intuition congruence.
Qed.

Lemma checkBindings_spec seen l :
  checkBindings seen l = Ok tt ↔
  ∃ endpoints, Forall2 validBinding l endpoints ∧ NoDup (zip (Network <$> l) endpoints) ∧
               ∀ x, x ∈ zip (Network <$> l) endpoints → x ∉ seen.
Proof.
  revert seen. induction l as [|b l IH]; intros seen; simpl.
  - split; [|done]. intros _. exists []. split_and!; simpl; [constructor|constructor|set_solver].
  - split.
    + intros (a & Ha%checkBinding_spec & H)%result_bind_ok. case_bool_decide as Hin; [done|].
      apply IH in H as (es & Hes & Hnd & Hseen). exists (a :: es). split_and!; simpl; [by constructor| |set_solver].
      constructor; [|done]. intros Hx. by apply (Hseen _ Hx), list_elem_of_here.
    + intros (es & Hes & Hnd & Hseen). inversion Hes as [|? a ? es' Ha Hes']; simplify_eq/=.
      apply NoDup_cons in Hnd as [Hnin Hnd].
      apply checkBinding_spec in Ha. rewrite Ha. simpl. rewrite bool_decide_false by (apply Hseen; set_solver).
      apply IH. exists es'. split_and!; [done|done|]. intros x Hx [->|Hin]%elem_of_cons; [done|].
      by apply (Hseen x); [right|].
Qed.

(** [Validate] accepts exactly the configurations with a generation, a
    threshold and a window in range and 1 to 256 pairwise different endpoints
    that parse to an address of their network's family. *)
Theorem validate_exactly c : Validate c = Ok tt ↔ validConfig c.
Proof.
  unfold Validate, validConfig, MaxBindings.
  destruct (Z.eqb_spec (Generation c) 0); [naive_solver|].
  destruct (Z.ltb_spec (Threshold c) 1); simpl; [naive_solver lia|].
  destruct (Z.ltb_spec 1000 (Threshold c)); simpl; [naive_solver lia|].
  destruct (Z.ltb_spec (Window c) (10 * Millisecond)); simpl; [naive_solver lia|].
  destruct (Z.ltb_spec Minute (Window c)); simpl; [naive_solver lia|].
  destruct (Z.eqb_spec (Z.of_nat (length (Bindings c))) 0); simpl; [naive_solver lia|].
  destruct (Z.ltb_spec 256 (Z.of_nat (length (Bindings c)))); simpl; [naive_solver lia|].
  rewrite checkBindings_spec. split.
  - intros (es & ? & ? & _). split_and!; try done; try lia. eauto.
  - intros (_ & _ & _ & _ & es & ? & ?). exists es. split_and!; try done. set_solver.
Qed.

(** The order of the bindings does not matter. *)
Lemma zip_pairs (ps : list (Binding * AddrPort)) :
  zip (Network <$> ps.*1) ps.*2 = (λ p, (Network p.1, p.2)) <$> ps.
Proof. induction ps as [|p ps IH]; [done|]. rewrite !fmap_cons. simpl. f_equal. apply IH. Qed.
Lemma valid_pairs (ps : list (Binding * AddrPort)) :
  Forall2 validBinding ps.*1 ps.*2 ↔ Forall (λ p, validBinding p.1 p.2) ps.
Proof. induction ps as [|p ps IH]; simpl; [split; constructor|]. by rewrite Forall2_cons, Forall_cons, IH. Qed.
Lemma Validate_Permutation g t w l l' :
  l ≡ₚ l' → Validate (mkConfig g t w l) = Ok tt → Validate (mkConfig g t w l') = Ok tt.
Proof.
  intros Hp. rewrite !validate_exactly. unfold validConfig. simpl. intros (? & ? & ? & Hl & es & Hv & Hn).
  split; [done|]. split; [done|]. split; [done|]. split; [by rewrite <-Hp|].
  assert (length l = length es) as Hlen by by apply Forall2_length in Hv.
  set (ps := zip l es) in *. assert (l = ps.*1) as El by (symmetry; apply fst_zip; lia).
  assert (es = ps.*2) as Ees by (symmetry; apply snd_zip; lia). rewrite El in *. rewrite Ees in Hv, Hn.
  apply Permutation_sym, Permutation_map_inv in Hp as (ps' & -> & Hps).
  exists ps'.*2. change (map fst ps') with (ps'.*1). rewrite zip_pairs, valid_pairs, <-Hps.
  by rewrite zip_pairs in Hn; rewrite valid_pairs in Hv.
Qed.

(** The event channel is safe and the wake is latched: whatever the
    interleaving of readers, failures, the consumer and Close, no send blocks
    or hits a closed channel, the channel is closed once, and at most one wake
    is ever sent, exactly when the listener is pending. *)
Theorem wake_sent_once c n s :
  is_ok (Validate c) = true → star step (start c n) s →
  broken s = false ∧ length (sent s) ≤ 1 ∧ (Pending (state (listener s)) = true ↔ sent s ≠ []).
Proof.
  intros Hv Hs. destruct (traffic_inv_reachable c n s Hv Hs). split_and!; [done|by destruct (Pending _); lia|].
  destruct (sent s); simpl in *; destruct (Pending _); naive_solver.
Qed.

(** A wake means real traffic: whenever a wake has been sent, [Threshold]
    counted attempts happened less than [Window] before it, and it carries the
    generation of its configuration. *)
Theorem wake_needs_threshold c n s w :
  is_ok (Validate c) = true → star step (start c n) s → w ∈ sent s →
  ∃ l, l ⊆+ attempts s ∧ Z.of_nat (length l) = Threshold c ∧
       Forall (λ t, 0 ≤ w_at w - t < Window c)%Z l ∧ w_generation w = Generation c.
Proof. intros Hv Hs. by apply (inv_sent c s (traffic_inv_reachable c n s Hv Hs)). Qed.

Section listen_facts.
Context `{World}.

Lemma reserveOne_spec acq b s n :
  match reserveOne acq b s n with
  | (Ok acq', (s', _)) => acq' = acq ++ [b] ∧ b ∉ s ∧ s' = {[b]} ∪ s
  | (Err _, (s', _)) => s' = s
  end.
Proof.
  unfold reserveOne, catch, closeAll, Prelude.fail, mbind, M_bind, mret, M_ret, call. simpl.
  destruct (fault n); [done|]. destruct (fault (S n)); [done|].
  case_bool_decide; [done|]. destruct (fault (S (S n))); simpl; [|done]. set_solver.
Qed.

Lemma reserveAll_spec acq l s0 n :
  (∀ b, b ∈ acq → b ∉ s0) →
  match reserveAll acq l (list_to_set acq ∪ s0) n with
  | (Ok acq', (s', _)) => acq' = acq ++ l ∧ s' = list_to_set (acq ++ l) ∪ s0 ∧ (∀ b, b ∈ l → b ∉ s0)
  | (Err _, (s', _)) => s' = s0
  end.
Proof.
  revert acq n. induction l as [|b l IH]; intros acq n Hacq; simpl.
  - rewrite app_nil_r. set_solver.
  - unfold mbind at 1, M_bind at 1, catch at 1.
    pose proof (reserveOne_spec acq b (list_to_set acq ∪ s0) n) as Hone.
    destruct (reserveOne acq b (list_to_set acq ∪ s0) n) as [[acq'|e] [s1 n1]].
    + destruct Hone as (-> & Hb & ->).
      replace ({[b]} ∪ (list_to_set acq ∪ s0)) with (list_to_set (acq ++ [b]) ∪ s0 : gset Binding) by set_solver.
      specialize (IH (acq ++ [b]) n1). destruct (reserveAll _ _ _ _) as [[acq''|e] [s2 n2]].
      * destruct IH as (-> & -> & ?); [set_solver|]. rewrite <-!app_assoc. simpl. set_solver.
      * apply IH. set_solver.
    + subst. unfold closeAll, Prelude.fail, mbind, M_bind. simpl. set_solver.
Qed.

(** [Listen] reserves every port or none: on success exactly the
    configured bindings have been added to the bound sockets, none of which was
    bound before; on any failure, at whatever call, the sockets are as before. *)
Theorem listen_all_or_nothing c s n :
  match Listen c s n with
  | (Ok l, (s', _)) => Validate c = Ok tt ∧ l = newListener c ∧ s' = list_to_set (Bindings c) ∪ s ∧
                       (∀ b, b ∈ Bindings c → b ∉ s)
  | (Err _, (s', _)) => s' = s
  end.
Proof.
  unfold Listen, mbind at 1, M_bind at 1, lift. destruct (Validate c) as [[]|e]; [|done].
  pose proof (reserveAll_spec [] (Bindings c) s n ltac:(set_solver)) as Hall.
  unfold mbind, M_bind. rewrite list_to_set_nil, (left_id_L ∅ (∪)) in Hall.
  destruct (reserveAll [] (Bindings c) s n) as [[acq|e] [s1 n1]]; simpl; [|done]. naive_solver.
Qed.
End listen_facts.

(** ** Witnesses *)
Definition web_config : Config :=
  mkConfig 1 1 Second [mkBinding "tcp4" "0.0.0.0:80"; mkBinding "udp6" "[::]:53"].

Definition woken : System :=
  mkSystem
    (mkListener web_config (mkState 1 1 true 5%Z) 5%Z 1 false None
       (mkChan 1 [mkWake 1 "tcp4" (mkAddrPort (V4 [10; 0; 0; 1]%Z) 40000) 5%Z] false) false)
    1 false [mkWake 1 "tcp4" (mkAddrPort (V4 [10; 0; 0; 1]%Z) 40000) 5%Z] [5%Z] false.

Lemma woken_reachable : star step (start web_config 2) woken.
Proof.
  eapply star_step; [|apply star_refl].
  exact (step_attempt (start web_config 2) 5%Z "tcp4" (mkAddrPort (V4 [10; 0; 0; 1]%Z) 40000)
           (listener woken) true Done ltac:(simpl; lia) ltac:(done) eq_refl).
Qed.

Lemma wake_sent_once_witness : broken woken = false ∧ length (sent woken) ≤ 1 ∧
  (Pending (state (listener woken)) = true ↔ sent woken ≠ []).
Proof. exact (wake_sent_once web_config 2 woken eq_refl woken_reachable). Defined.

Lemma wake_needs_threshold_witness :
  ∃ l, l ⊆+ attempts woken ∧ Z.of_nat (length l) = Threshold web_config ∧
       Forall (λ t, 0 ≤ 5 - t < Second)%Z l ∧ 1%Z = Generation web_config.
Proof.
  exact (wake_needs_threshold web_config 2 woken
           (mkWake 1 "tcp4" (mkAddrPort (V4 [10; 0; 0; 1]%Z) 40000) 5%Z) eq_refl woken_reachable
           (list_elem_of_here _ _)).
Defined.

End Traffic.
