(* ===== verification/OnDemandPolicy.v ===== *)
(** * On-demand policies and the activity tracker
    (src/internal/ondemand/types.go, policy.go)

    The data of a group, the policy check, and the tracker that decides, from
    successive samples of a group, whether to wake it, put it to sleep or pause
    it. *)
From S2P Require Import Prelude GoStrings Netip Traffic.

Module OnDemandPolicy.
Import Traffic.

Definition MaxGroups : Z := 64.
Definition MaxMembers : Z := 8.

(** [Phase] and [Action] are string types with named constants. *)
Definition Phase := string.
Definition Running : Phase := "running".
Definition Sleeping : Phase := "sleeping".
Definition Starting : Phase := "starting".
Definition Stopping : Phase := "stopping".
Definition Unknown : Phase := "unknown".

Definition Action := string.
Definition WakeUp : Action := "wake".
Definition Sleep : Action := "sleep".

Record Policy := mkPolicy {
  Name : string;
  Enabled : bool;
  Members : list string;
  WakeThreshold : Z;        (* uint32 *)
  WakeWindowMS : Z;         (* int64, as all below *)
  IdleSeconds : Z;
  MinRuntimeSeconds : Z;
  StartupSeconds : Z;
  StopGraceSeconds : Z;
}.

Record Evidence := mkEvidence {
  SourceDigest : string;
  ContainerIDs : list string;
  EvidenceBindings : list Binding;
}.

Record Group := mkGroup {
  GroupID : string;
  GroupStackID : string;
  GroupPolicy : Policy;
  Revision : Z;
  GroupPhase : Phase;
  HoldReason : string;
  PausedReason : string;
  GroupEvidence : Evidence;
}.

Record PolicyUpdate := mkPolicyUpdate { UpdatePolicy : Policy; ExpectedRevision : Z }.

Record Counters := mkCounters { Received : Z; Sent : Z }.
#[export] Instance Counters_eq_dec : EqDecision Counters.
Proof. solve_decision. Defined.

Record Sample := mkSample {
  SampleEpoch : string;
  SamplePhase : Phase;
  ObservedAt : time;
  SampleCounters : gmap string Counters;
  SampleEvidence : Evidence;
}.

Record Decision := mkDecision { DAction : Action; PauseReason : string; UnavailableReason : string }.
Definition noDecision : Decision := mkDecision "" "" "".
Definition act (a : Action) : Decision := mkDecision a "" "".
Definition pause (r : string) : Decision := mkDecision "" r "".
Definition unavailable (r : string) : Decision := mkDecision "" "" r.

(** ** Policies *)
Definition DefaultPolicy : Policy := mkPolicy "" false [] 1 1000 600 120 300 120.

(** [^[a-zA-Z0-9][a-zA-Z0-9_.-]{0,62}$] *)
Definition member_char (c : ascii) : bool :=
  is_alnum c || Ascii.eqb c "_" || Ascii.eqb c "." || Ascii.eqb c "-".
Definition memberName (s : string) : bool :=
  match list_ascii_of_string s with
  | [] => false
  | c :: l => is_alnum c && forallb member_char l && bool_decide (length l ≤ 62)
  end.

Fixpoint checkMembers (seen : list string) (l : list string) : bool :=
  match l with
  | [] => true
  | m :: l' => if negb (memberName m) || bool_decide (m ∈ seen) then false else checkMembers (m :: seen) l'
  end.

Definition ValidatePolicy (p : Policy) : result unit :=
  let invalid r := Err (ErrWrap OnDemand_ErrInvalid r) in
  if negb (Name p =? TrimSpace (Name p))%string || (Name p =? "")%string
     || negb (ValidString (Name p)) || (64 <? RuneCountInString (Name p))%Z
  then invalid "name must contain 1–64 characters without surrounding spaces"%string
  else if (Z.of_nat (length (Members p)) =? 0)%Z || (MaxMembers <? Z.of_nat (length (Members p)))%Z
  then invalid "select 1–8 services"%string
  else if negb (checkMembers [] (Members p))
  then invalid "service names must be valid and unique"%string
  else if (WakeThreshold p <? 1)%Z || (1000 <? WakeThreshold p)%Z
  then invalid "wake threshold must be 1–1000 attempts"%string
  else if (WakeWindowMS p <? 10)%Z || (60000 <? WakeWindowMS p)%Z
  then invalid "wake window must be 10–60000 milliseconds"%string
  else if (IdleSeconds p <? 60)%Z || (86400 <? IdleSeconds p)%Z
  then invalid "idle timeout must be 1 minute–24 hours"%string
  else if (MinRuntimeSeconds p <? 0)%Z || (3600 <? MinRuntimeSeconds p)%Z
  then invalid "minimum runtime must be 0–60 minutes"%string
  else if (StartupSeconds p <? 30)%Z || (900 <? StartupSeconds p)%Z
  then invalid "startup timeout must be 30 seconds–15 minutes"%string
  else if (StopGraceSeconds p <? 10)%Z || (120 <? StopGraceSeconds p)%Z
  then invalid "stop grace must be 10–120 seconds per service"%string
  else Ok tt.

(** ** The tracker *)
Record Tracker := mkTracker {
  runtimeEpoch : string;
  revision : Z;
  phase : Phase;
  runningSince : time;
  lastActivity : time;
  counters : option (gmap string Counters);   (* nil, or a map *)
}.

Definition zeroTracker : Tracker := mkTracker "" 0 "" zeroTime zeroTime None.

Definition Invalidate (t : Tracker) (now : time) : Tracker :=
  mkTracker (runtimeEpoch t) (revision t) (phase t) (runningSince t) now None.

(** The loop over the sample's counters: [None] when an identity is unknown,
    otherwise whether some counter changed. *)
Fixpoint scanCounters (old : gmap string Counters) (changed : bool) (l : list (string * Counters)) : option bool :=
  match l with
  | [] => Some changed
  | (id, counts) :: l' =>
    match old !! id with
    | None => None
    | Some previous => scanCounters old (changed || negb (bool_decide (previous = counts))) l'
    end
  end.

Definition Evaluate (t : Tracker) (g : Group) (s : Sample) (pending : bool) (now : time) : Tracker * Decision :=
  let t := if negb (revision t =? Revision g)%Z || negb (phase t =? GroupPhase g)%string || IsZero (runningSince t)
           then Invalidate (mkTracker (SampleEpoch s) (Revision g) (GroupPhase g) now (lastActivity t) (counters t)) now
           else t in
  if negb (Enabled (GroupPolicy g)) || negb (HoldReason g =? "")%string || negb (PausedReason g =? "")%string
  then (Invalidate t now, noDecision)
  else if IsZero (ObservedAt s) || (10 * Second <? Sub now (ObservedAt s))%Z || After (ObservedAt s) now
  then (Invalidate t now, unavailable "Runtime observation is stale.")
  else if (GroupPhase g =? Starting)%string || (GroupPhase g =? Stopping)%string
  then (t, noDecision)
  else if negb (SamplePhase s =? GroupPhase g)%string || (GroupPhase g =? Unknown)%string
  then (t, pause "Container state changed outside the owned transition. Review and resume this group.")
  else if (GroupPhase g =? Sleeping)%string
  then (t, if pending then act WakeUp else noDecision)
  else if bool_decide (size (SampleCounters s) = 0)
  then (Invalidate t now, unavailable "Network activity could not be observed.")
  else if negb (runtimeEpoch t =? SampleEpoch s)%string
  then (t, pause "Container restarted outside the owned transition. Review and resume this group.")
  else match counters t with
  | None =>
    (mkTracker (runtimeEpoch t) (revision t) (phase t) (runningSince t) now (Some (SampleCounters s)), noDecision)
  | Some old =>
    if negb (bool_decide (size (SampleCounters s) = size old))
    then (t, pause "Container membership changed. Review and resume this group.")
    else match scanCounters old false (map_to_list (SampleCounters s)) with
    | None => (t, pause "Container identity changed. Review and resume this group.")
    | Some changed =>
      let t' := mkTracker (runtimeEpoch t) (revision t) (phase t) (runningSince t)
                  (if changed then now else lastActivity t) (Some (SampleCounters s)) in
      if (wrap64 (MinRuntimeSeconds (GroupPolicy g) * Second) <=? Sub now (runningSince t'))%Z
         && (wrap64 (IdleSeconds (GroupPolicy g) * Second) <=? Sub now (lastActivity t'))%Z
      then (t', act Sleep) else (t', noDecision)
    end
  end.

(** ** What the policy check accepts *)
Definition validPolicy (p : Policy) : Prop :=
  (Name p = TrimSpace (Name p) ∧ Name p ≠ ""%string ∧ ValidString (Name p) = true ∧
   (RuneCountInString (Name p) ≤ 64)%Z) ∧
  (1 ≤ length (Members p) ≤ 8 ∧ Forall (λ m, memberName m = true) (Members p) ∧ NoDup (Members p)) ∧
  (1 ≤ WakeThreshold p ≤ 1000 ∧ 10 ≤ WakeWindowMS p ≤ 60000 ∧ 60 ≤ IdleSeconds p ≤ 86400 ∧
   0 ≤ MinRuntimeSeconds p ≤ 3600 ∧ 30 ≤ StartupSeconds p ≤ 900 ∧ 10 ≤ StopGraceSeconds p ≤ 120)%Z.

Lemma checkMembers_spec seen l :
  checkMembers seen l = true ↔
  Forall (λ m, memberName m = true) l ∧ NoDup l ∧ ∀ m, m ∈ l → m ∉ seen.
Proof.
  revert seen. induction l as [|m l IH]; intros seen; simpl.
  - split; [|done]. intros _. split_and!; [constructor|constructor|set_solver].
  - rewrite Forall_cons, NoDup_cons. destruct (memberName m) eqn:Em; simpl; [|split; [done|naive_solver]].
    case_bool_decide as Hin; simpl.
    + split; [done|]. intros (_ & _ & Hs). by destruct (Hs m (list_elem_of_here _ _)).
    + rewrite IH. set_solver.
Qed.

Lemma range_check a lo hi : ((a <? lo) || (hi <? a))%Z = false ↔ (lo ≤ a ≤ hi)%Z.
Proof. rewrite orb_false_iff, !Z.ltb_ge. lia. Qed.

Ltac reject_range :=
  let E := fresh in
  destruct (_ || _) eqn:E;
  [split; [done|]; intros (_ & _ & ?); rewrite <-not_false_iff_true, range_check in E; tauto
  |apply range_check in E].

Lemma ValidatePolicy_spec p : ValidatePolicy p = Ok tt ↔ validPolicy p.
Proof.
  unfold ValidatePolicy, validPolicy, MaxMembers.
  destruct (String.eqb_spec (Name p) (TrimSpace (Name p))) as [|]; simpl; [|naive_solver].
  destruct (String.eqb_spec (Name p) ""); simpl; [naive_solver|].
  destruct (ValidString (Name p)); simpl; [|naive_solver].
  destruct (Z.ltb_spec 64 (RuneCountInString (Name p))); simpl; [naive_solver lia|].
  destruct (Z.eqb_spec (Z.of_nat (length (Members p))) 0); simpl; [naive_solver lia|].
  destruct (Z.ltb_spec 8 (Z.of_nat (length (Members p)))); simpl; [naive_solver lia|].
  assert (Hm : checkMembers [] (Members p) = true ↔
               Forall (λ m, memberName m = true) (Members p) ∧ NoDup (Members p)).
  { rewrite checkMembers_spec. set_solver. }
  destruct (checkMembers [] (Members p)) eqn:Em; simpl; [|split; [done|]; intros (_ & (_ & ? & ?) & _); naive_solver].
  destruct Hm as [[] _]; [done|].
  do 6 reject_range.
  split; [|done]. intros _. split_and!; done || lia.
Qed.

(** ** Traces of a tracker

    A worker owns one tracker and calls [Evaluate] and [Invalidate] on it.
    The ghost trace records every call, newest first. *)
Record Call := mkCall { c_group : Group; c_sample : Sample; c_now : time; c_decision : Decision }.
Inductive Entry := Evaluated (c : Call) | Invalidated (now : time).
Inductive Event := EvEvaluate (g : Group) (s : Sample) (pending : bool) (now : time) | EvInvalidate (now : time).

Definition exec (st : Tracker * list Entry) (e : Event) : Tracker * list Entry :=
  match e with
  | EvEvaluate g s pending now =>
    let '(t', d) := Evaluate st.1 g s pending now in
    (t', Evaluated (mkCall g s now d) :: st.2)
  | EvInvalidate now => (Invalidate st.1 now, Invalidated now :: st.2)
  end.

Definition runTracker (es : list Event) : Tracker * list Entry := foldl exec (zeroTracker, []) es.

(** A call that saw exactly the counters [m], or paused the group. *)
Definition quiet (m : gmap string Counters) (e : Entry) : Prop :=
  match e with
  | Evaluated c => PauseReason (c_decision c) ≠ ""%string ∨ SampleCounters (c_sample c) = m
  | Invalidated _ => False
  end.
(** A call on the group at this revision and phase. *)
Definition steady (rev : Z) (ph : Phase) (e : Entry) : Prop :=
  match e with
  | Evaluated c => Revision (c_group c) = rev ∧ GroupPhase (c_group c) = ph
  | Invalidated _ => True
  end.

Definition idleSince (m : gmap string Counters) (at_ : time) (tr : list Entry) : Prop :=
  ∃ tr1 c tr2, tr = tr1 ++ Evaluated c :: tr2 ∧ c_now c = at_ ∧ SampleCounters (c_sample c) = m ∧
               Forall (quiet m) tr1.
Definition steadySince (rev : Z) (ph : Phase) (at_ : time) (tr : list Entry) : Prop :=
  ∃ tr1 c tr2, tr = tr1 ++ Evaluated c :: tr2 ∧ c_now c = at_ ∧
               Forall (steady rev ph) (tr1 ++ [Evaluated c]).

Record TInv (t : Tracker) (tr : list Entry) : Prop := {
  tinv_idle : ∀ m, counters t = Some m → idleSince m (lastActivity t) tr;
  tinv_steady : runningSince t ≠ 0%Z → steadySince (revision t) (phase t) (runningSince t) tr;
  tinv_phase : ∀ m, counters t = Some m → phase t ≠ Starting ∧ phase t ≠ Stopping ∧ phase t ≠ Sleeping;
}.

Lemma scanCounters_spec old changed l r :
  scanCounters old changed l = Some r →
  (r = false ↔ changed = false ∧ ∀ k v, (k, v) ∈ l → old !! k = Some v).
Proof.
  revert changed. induction l as [|[k v] l IH]; intros changed; simpl.
  - intros [= ->]. set_solver.
  - destruct (old !! k) as [p|] eqn:Ek; [|done]. intros ->%IH. rewrite orb_false_iff.
    case_bool_decide; simpl; [subst; set_solver|]. split; [naive_solver|]. intros [_ Hall].
    specialize (Hall k v ltac:(left)). congruence.
Qed.

(** Equal sizes and no change: the same map, whatever the iteration order. *)
Lemma scanCounters_same (old m : gmap string Counters) :
  size m = size old → scanCounters old false (map_to_list m) = Some false → m = old.
Proof.
  intros Hsz Hsc. apply scanCounters_spec in Hsc as [Hsc _]. destruct Hsc as [_ Hsub]; [done|].
  apply map_subseteq_size_eq; [|lia]. apply map_subseteq_spec. intros k v Hk.
  by apply Hsub, elem_of_map_to_list.
Qed.

(** The tracker after the reset at the head of [Evaluate]. *)
Definition resetTracker (t : Tracker) (g : Group) (s : Sample) (now : time) : Tracker :=
  if negb (revision t =? Revision g)%Z || negb (phase t =? GroupPhase g)%string || IsZero (runningSince t)
  then Invalidate (mkTracker (SampleEpoch s) (Revision g) (GroupPhase g) now (lastActivity t) (counters t)) now
  else t.

Lemma resetTracker_spec t g s now :
  let t0 := resetTracker t g s now in
  revision t0 = Revision g ∧ phase t0 = GroupPhase g ∧
  (t0 = t ∨ counters t0 = None ∧ runningSince t0 = now).
Proof.
  unfold resetTracker. destruct (Z.eqb_spec (revision t) (Revision g)); simpl; [|by auto].
  destruct (String.eqb_spec (phase t) (GroupPhase g)); simpl; [|by auto].
  destruct (IsZero (runningSince t)); simpl; auto.
Qed.

(** Nothing blocks the group from being acted on. *)
Definition eligible (g : Group) (s : Sample) (now : time) : Prop :=
  Enabled (GroupPolicy g) = true ∧ HoldReason g = ""%string ∧ PausedReason g = ""%string ∧
  ObservedAt s ≠ 0%Z ∧ (0 ≤ now - ObservedAt s ≤ 10 * Second)%Z.

Definition keepsCounters (t t' : Tracker) : Prop :=
  runningSince t' = runningSince t ∧ revision t' = revision t ∧ phase t' = phase t.

Inductive EvalCase (t0 : Tracker) (g : Group) (s : Sample) (now : time) : Tracker → Decision → Prop :=
| case_invalidated d : DAction d = ""%string → EvalCase t0 g s now (Invalidate t0 now) d
| case_kept d :
    DAction d ≠ Sleep →
    PauseReason d ≠ ""%string ∨ phase t0 = Starting ∨ phase t0 = Stopping ∨ phase t0 = Sleeping →
    EvalCase t0 g s now t0 d
| case_counted t' d :
    eligible g s now → SamplePhase s = GroupPhase g →
    phase t0 ≠ Starting → phase t0 ≠ Stopping → phase t0 ≠ Sleeping → phase t0 ≠ Unknown →
    keepsCounters t0 t' → counters t' = Some (SampleCounters s) →
    lastActivity t' = now ∨ (counters t0 = Some (SampleCounters s) ∧ lastActivity t' = lastActivity t0) →
    PauseReason d = ""%string →
    (DAction d = Sleep →
      (wrap64 (MinRuntimeSeconds (GroupPolicy g) * Second) ≤ Sub now (runningSince t'))%Z ∧
      (wrap64 (IdleSeconds (GroupPolicy g) * Second) ≤ Sub now (lastActivity t'))%Z) →
    EvalCase t0 g s now t' d.

Lemma Evaluate_cases t g s pending now t' d :
  Evaluate t g s pending now = (t', d) → EvalCase (resetTracker t g s now) g s now t' d.
Proof.
  destruct (resetTracker_spec t g s now) as (_ & Hph & _).
  unfold Evaluate. fold (resetTracker t g s now). set (t0 := resetTracker t g s now) in *.
  destruct (Enabled (GroupPolicy g)) eqn:Een; simpl; [|by intros [= <- <-]; constructor].
  destruct (String.eqb_spec (HoldReason g) "") as [Eh|]; simpl; [|by intros [= <- <-]; constructor].
  destruct (String.eqb_spec (PausedReason g) "") as [Ep|]; simpl; [|by intros [= <- <-]; constructor].
  destruct (_ || _ || _) eqn:Efr; [by intros [= <- <-]; constructor|].
  apply orb_false_iff in Efr as [[Ez%Z.eqb_neq Eo%Z.ltb_ge]%orb_false_iff Ea%Z.ltb_ge].
  assert (Hel : eligible g s now).
  { split_and!; try done; [lia|]. revert Eo. unfold Sub, Second. lia. }
  destruct (String.eqb_spec (GroupPhase g) Starting) as [Es|Es]; simpl.
  { intros [= <- <-]. apply case_kept; [done|]. rewrite Hph. tauto. }
  destruct (String.eqb_spec (GroupPhase g) Stopping) as [Et|Et]; simpl.
  { intros [= <- <-]. apply case_kept; [done|]. rewrite Hph. tauto. }
  destruct (String.eqb_spec (SamplePhase s) (GroupPhase g)) as [Eph|]; simpl;
    [|by intros [= <- <-]; apply case_kept; [|by left]].
  destruct (String.eqb_spec (GroupPhase g) Unknown) as [|Eu]; simpl;
    [by intros [= <- <-]; apply case_kept; [|by left]|].
  destruct (String.eqb_spec (GroupPhase g) Sleeping) as [El|El]; simpl.
  { intros [= <- <-]. apply case_kept; [by destruct pending|]. rewrite Hph. tauto. }
  case_bool_decide; [by intros [= <- <-]; constructor|].
  destruct (_ =? _)%string; simpl; [|by intros [= <- <-]; apply case_kept; [|by left]].
  destruct (counters t0) as [old|] eqn:Eold.
  2:{ intros [= <- <-]. apply case_counted; rewrite ?Hph; try done. by left. }
  case_bool_decide as Hsz; simpl; [|by intros [= <- <-]; apply case_kept; [|by left]].
  destruct (scanCounters _ _ _) as [changed|] eqn:Esc; [|by intros [= <- <-]; apply case_kept; [|by left]].
  intros Hd.
  assert (Hq : PauseReason d = "" ∧ (DAction d = Sleep →
      (wrap64 (MinRuntimeSeconds (GroupPolicy g) * Second) ≤ Sub now (runningSince t'))%Z ∧
      (wrap64 (IdleSeconds (GroupPolicy g) * Second) ≤ Sub now (lastActivity t'))%Z) ∧
      t' = mkTracker (runtimeEpoch t0) (revision t0) (phase t0) (runningSince t0)
             (if changed then now else lastActivity t0) (Some (SampleCounters s))).
  { destruct (_ && _) eqn:Ew; simplify_eq/=; split_and!; try done.
    intros _. by apply andb_true_iff in Ew as [?%Z.leb_le ?%Z.leb_le]. }
  destruct Hq as (Hq1 & Hq2 & ->). simpl in *.
  apply case_counted; rewrite ?Hph; try done.
  destruct changed; simpl; [by left|right]. by rewrite (scanCounters_same _ _ Hsz Esc), Eold.
Qed.

Lemma steadySince_snoc rev ph a tr e :
  steadySince rev ph a tr → steady rev ph e → steadySince rev ph a (e :: tr).
Proof.
  intros (tr1 & c & tr2 & -> & Hc & Hall) He. exists (e :: tr1), c, tr2.
  split_and!; [done|done|]. by constructor.
Qed.

Lemma idleSince_snoc m a tr e : idleSince m a tr → quiet m e → idleSince m a (e :: tr).
Proof.
  intros (tr1 & c & tr2 & -> & Hc & Hm & Hall) He. exists (e :: tr1), c, tr2.
  split_and!; [done|done|done|]. by constructor.
Qed.

Lemma TInv_exec t tr e : TInv t tr → TInv (exec (t, tr) e).1 (exec (t, tr) e).2.
Proof.
  intros [Hidle Hsteady Hphase]. destruct e as [g s pending now|now]; simpl.
  2:{ split; simpl; try done. intros Hz. apply steadySince_snoc; [by apply Hsteady|done]. }
  destruct (Evaluate t g s pending now) as [t' d] eqn:E. simpl.
  apply Evaluate_cases in E. destruct (resetTracker_spec t g s now) as (Hrev & Hph & Hreset).
  set (t0 := resetTracker t g s now) in *. set (entry := Evaluated (mkCall g s now d)).
  assert (Hsteady0 : runningSince t0 ≠ 0%Z →
            steadySince (revision t0) (phase t0) (runningSince t0) (entry :: tr)).
  { intros Hz. destruct Hreset as [E0|[_ Hnow]].
    - rewrite E0 in *. apply steadySince_snoc; [by apply Hsteady|]. by simpl.
    - exists [], (mkCall g s now d), tr. split_and!; [done|done|]. repeat constructor; by simpl. }
  assert (Hidle0 : ∀ m, counters t0 = Some m → idleSince m (lastActivity t0) tr ∧
            phase t0 ≠ Starting ∧ phase t0 ≠ Stopping ∧ phase t0 ≠ Sleeping).
  { intros m Hm. destruct Hreset as [E0|[Hn _]]; [|congruence]. rewrite E0 in *. eauto. }
  destruct E as [d ?|d _ Hd|t' d Hel Hsp Hp1 Hp2 Hp3 Hp4 (Hk1 & Hk2 & Hk3) Hc Hla Hpd Hact].
  - split; simpl; try done.
  - split; try done; intros m Hm; destruct (Hidle0 m Hm) as [? ?]; [|done].
    apply idleSince_snoc; [done|]. left. simpl. tauto.
  - split.
    + intros m Hm. rewrite Hc in Hm. simplify_eq. destruct Hla as [->|[Hc0 ->]].
      * exists [], (mkCall g s now d), tr. split_and!; done || constructor.
      * apply idleSince_snoc; [by apply Hidle0|]. by right.
    + by rewrite Hk1, Hk2, Hk3.
    + intros m Hm. by rewrite Hk3.
Qed.

Lemma TInv_run es : TInv (runTracker es).1 (runTracker es).2.
Proof.
  unfold runTracker. assert (H0 : TInv (zeroTracker, @nil Entry).1 (zeroTracker, @nil Entry).2) by (by split).
  revert H0. generalize (zeroTracker, @nil Entry). induction es as [|e es IH]; intros [t tr] H; simpl; [done|].
  apply IH. by apply TInv_exec.
Qed.

(** [ValidatePolicy] accepts exactly the policies with a trimmed, valid
    name of 1 to 64 characters, 1 to 8 distinct well-formed members and every
    number in its documented range; an accepted policy always has a threshold
    and window that the wake listener accepts, and its durations do not
    overflow. *)
Theorem policy_check_exact p :
  (ValidatePolicy p = Ok tt ↔ validPolicy p) ∧
  (ValidatePolicy p = Ok tt → ∀ gen bs, gen ≠ 0%Z → 1 ≤ length bs ≤ 256 →
   Traffic.Validate (mkConfig gen (WakeThreshold p) (wrap64 (WakeWindowMS p * Millisecond)) bs) = checkBindings [] bs ∧
   wrap64 (IdleSeconds p * Second) = (IdleSeconds p * Second)%Z ∧
   wrap64 (MinRuntimeSeconds p * Second) = (MinRuntimeSeconds p * Second)%Z).
Proof.
  split; [apply ValidatePolicy_spec|]. intros (_ & _ & Hr)%ValidatePolicy_spec gen bs Hgen Hbs.
  unfold Second. rewrite !wrap64_id by (unfold Millisecond; lia). split_and!; try done.
  unfold Traffic.Validate; simpl. apply Z.eqb_neq in Hgen. rewrite Hgen.
  unfold MaxBindings, Millisecond, Minute, Second.
  repeat match goal with |- context [if ?b then Err _ else _] => replace b with false by lia end. done.
Qed.

(** C38. A group is only put to sleep after real silence: if, after any
    sequence of calls, the tracker answers [Sleep] for a valid policy, then the
    group is eligible and observed in its own phase, the sample's counters are
    those of a call at least [IdleSeconds] ago and of every later call (calls
    that paused the group aside), and the group has been seen at this revision
    and phase by every call of the last [MinRuntimeSeconds]. *)
Theorem sleep_only_after_silence es g s pending now :
  ValidatePolicy (GroupPolicy g) = Ok tt →
  DAction (Evaluate (runTracker es).1 g s pending now).2 = Sleep →
  eligible g s now ∧ SamplePhase s = GroupPhase g ∧
  (∃ at_, (IdleSeconds (GroupPolicy g) * Second ≤ now - at_)%Z ∧
          idleSince (SampleCounters s) at_ (runTracker es).2) ∧
  (∃ at_, (MinRuntimeSeconds (GroupPolicy g) * Second ≤ now - at_)%Z ∧
          steadySince (Revision g) (GroupPhase g) at_ (runTracker es).2).
Proof.
  intros Hv Hact. apply ValidatePolicy_spec in Hv as (_ & _ & Hr).
  pose proof (TInv_run es) as HI. destruct (runTracker es) as [t tr]; simpl in *.
  destruct (Evaluate t g s pending now) as [t' d] eqn:E. simpl in Hact.
  apply Evaluate_cases in E. destruct (resetTracker_spec t g s now) as (Hrev & Hph & Hreset).
  set (t0 := resetTracker t g s now) in *.
  destruct E as [d Hd|d Hd _|t' d Hel Hsp Hp1 Hp2 Hp3 Hp4 (Hk1 & Hk2 & Hk3) Hc Hla Hpd Hq];
    [by rewrite Hact in Hd|done|].
  destruct (Hq Hact) as [Hmin Hidl]. unfold Second in *.
  rewrite wrap64_id in Hmin, Hidl by lia. rewrite Sub_ge in Hmin, Hidl by lia.
  destruct Hla as [Hla|[Hc0 Hla]]; [rewrite Hla in Hidl; lia|].
  destruct Hreset as [E0|[Hn _]]; [|congruence]. rewrite E0 in *. split_and!; try done.
  - exists (lastActivity t). split; [by rewrite <-Hla|]. by apply (tinv_idle _ _ HI).
  - exists (runningSince t). split; [by rewrite <-Hk1|]. rewrite <-Hrev, <-Hph.
    apply (tinv_steady _ _ HI). intros Hz. unfold t0, resetTracker in E0. rewrite Hz in E0.
    unfold IsZero in E0. simpl in E0. rewrite orb_true_r in E0. unfold Invalidate in E0.
    destruct t; simpl in *. by simplify_eq.
Qed.

(** A wake is decided exactly for an eligible sleeping group that is
    observed sleeping and has a latched wake attempt; the tracker's memory
    plays no part in it. *)
Theorem wake_exactly_when_pending t g s pending now :
  DAction (Evaluate t g s pending now).2 = WakeUp ↔
  pending = true ∧ eligible g s now ∧ GroupPhase g = Sleeping ∧ SamplePhase s = Sleeping.
Proof.
  unfold Evaluate, eligible. fold (resetTracker t g s now). set (t0 := resetTracker t g s now).
  destruct (Enabled (GroupPolicy g)); simpl; [|naive_solver].
  destruct (String.eqb_spec (HoldReason g) ""); simpl; [|naive_solver].
  destruct (String.eqb_spec (PausedReason g) ""); simpl; [|naive_solver].
  destruct (_ || _ || _) eqn:Efr; simpl.
  { split; [done|]. intros (_ & (_ & _ & _ & Hz & Hb) & _). exfalso.
    unfold IsZero, After, Sub, Second in *. lia. }
  apply orb_false_iff in Efr as [[Ez%Z.eqb_neq Eo%Z.ltb_ge]%orb_false_iff Ea%Z.ltb_ge].
  assert (Hb : (0 ≤ now - ObservedAt s ≤ 10 * Second)%Z) by (revert Eo; unfold Sub, Second; lia).
  destruct (decide (GroupPhase g = Sleeping)) as [El|El].
  - rewrite El. simpl. destruct (String.eqb_spec (SamplePhase s) Sleeping); simpl; [|naive_solver].
    destruct pending; simpl; naive_solver.
  - apply String.eqb_neq in El as El'. rewrite El'. split; [|tauto].
    repeat case_match; simpl; try done.
Qed.

(** ** Witnesses *)
Definition web_policy : Policy := mkPolicy "web" true ["nginx"%string] 1 1000 600 120 300 120.
Definition web_group : Group :=
  mkGroup "odg_1" "stk_1" web_policy 3 Running "" "" (mkEvidence "d" ["c1"%string] []).
Definition web_sample (at_ : time) : Sample :=
  mkSample "e" Running at_ {["c1"%string := mkCounters 10 20]} (mkEvidence "d" ["c1"%string] []).
Definition quiet_events : list Event :=
  [EvEvaluate web_group (web_sample (1000 * Second)) false (1000 * Second);
   EvEvaluate web_group (web_sample (1300 * Second)) false (1300 * Second)]%Z.

Lemma policy_check_exact_witness :
  Traffic.Validate (mkConfig 7 (WakeThreshold web_policy) (wrap64 (WakeWindowMS web_policy * Millisecond))
                      [mkBinding "tcp4" "0.0.0.0:80"]) = checkBindings [] [mkBinding "tcp4" "0.0.0.0:80"].
Proof.
  exact (proj1 (proj2 (policy_check_exact web_policy) eq_refl 7%Z [mkBinding "tcp4" "0.0.0.0:80"]
                  ltac:(discriminate) ltac:(simpl; lia))).
Defined.

Lemma sleep_only_after_silence_witness :
  eligible web_group (web_sample (1600 * Second)%Z) (1600 * Second)%Z.
Proof.
  exact (proj1 (sleep_only_after_silence quiet_events web_group (web_sample (1600 * Second)%Z) false
                  (1600 * Second)%Z eq_refl ltac:(vm_compute; reflexivity))).
Defined.

End OnDemandPolicy.
