(* ===== verification/Hub.v ===== *)
(** * The websocket hub (src/internal/websocket/hub.go)

    The hub numbers every published event, keeps the last [capacity] of them
    for replay, and hands each event to the subscribers of its topic without
    ever blocking.  The channels that the hub and the connections share live in
    a store indexed by subscription. *)
From S2P Require Import Prelude GoStrings.

Module Hub.
Section hub.
Context {Payload : Type}.

Record Event := mkEvent {
  Type_ : string;
  Topic : string;
  Sequence : Z;         (* uint64 *)
  Timestamp : time;
  EventPayload : Payload;
}.

Record Hub := mkHub {
  capacity : Z;
  sequence : Z;                   (* uint64 *)
  replay : list Event;
  nextID : Z;                     (* uint64 *)
  subscribers : gmap Z string;    (* a subscriber's topic; its channels are in the store *)
  connections : gset Z;
  events : gmap Z (chan Event);   (* the store of event channels, by subscription *)
  dropped : gmap Z (chan unit);   (* the store of drop signals *)
  cancelled : gset Z;             (* the subscriptions whose once has fired *)
}.

Definition NewHub (cap : Z) : Hub :=
  mkHub (if (cap <=? 0)%Z then 256 else cap)%Z 0 [] 0 ∅ ∅ ∅ ∅ ∅.

Record Subscription := mkSubscription { sub_id : Z; Replay : list Event; Gap : bool }.

Definition RegisterConnection (h : Hub) : Hub * Z :=
  let id := wrapU64 (nextID h + 1) in
  (mkHub (capacity h) (sequence h) (replay h) id (subscribers h) ({[id]} ∪ connections h)
     (events h) (dropped h) (cancelled h), id).
Definition UnregisterConnection (h : Hub) (id : Z) : Hub :=
  mkHub (capacity h) (sequence h) (replay h) (nextID h) (subscribers h) (connections h ∖ {[id]})
    (events h) (dropped h) (cancelled h).
(** The connections whose cancel function [CloseConnections] calls. *)
Definition CloseConnections (h : Hub) : gset Z := connections h.

Definition set_channels (h : Hub) (subs : gmap Z string) (ev : gmap Z (chan Event)) (dr : gmap Z (chan unit)) : Hub :=
  mkHub (capacity h) (sequence h) (replay h) (nextID h) subs (connections h) ev dr (cancelled h).

(** Close a channel of the store; the second component says that it did not panic. *)
Definition close_in {A} (m : gmap Z (chan A)) (id : Z) : gmap Z (chan A) * bool :=
  match m !! id with
  | Some c => let '(c', o) := chan_close c in (<[id := c']> m, bool_decide (o = Done))
  | None => (m, false)
  end.

(** One iteration of the loop over the subscribers; the flag is cleared by a
    panic. *)
Definition deliver (event : Event) (acc : Hub * bool) (entry : Z * string) : Hub * bool :=
  let '(h, fine) := acc in
  let '(id, topic) := entry in
  if negb (topic =? Topic event)%string then (h, fine)
  else match events h !! id with
  | None => (h, false)
  | Some c =>
    match chan_send c event with
    | (c', Done) => (set_channels h (subscribers h) (<[id := c']> (events h)) (dropped h), fine)
    | (_, Panicked) => (h, false)
    | (_, Blocked) =>
      let '(dr, f1) := close_in (dropped h) id in
      let '(ev, f2) := close_in (events h) id in
      (set_channels h (delete id (subscribers h)) ev dr, fine && f1 && f2)
    end
  end.

(** [publish]: number the event, remember it, hand it out.  The loop ranges
    over a map; [order] is the order it happens to visit. *)
Definition stamp (h : Hub) (event : Event) : Event :=
  mkEvent (Type_ event) (Topic event) (wrapU64 (sequence h + 1)) (Timestamp event) (EventPayload event).

Definition remember (h : Hub) (event : Event) : Hub :=
  let replay' := replay h ++ [event] in
  let replay'' := if (capacity h <? Z.of_nat (length replay'))%Z
                  then drop (Z.to_nat (Z.of_nat (length replay') - capacity h)) replay' else replay' in
  mkHub (capacity h) (Sequence event) replay'' (nextID h) (subscribers h) (connections h)
    (events h) (dropped h) (cancelled h).

Definition publish (h : Hub) (event : Event) (order : list (Z * string)) : Hub * bool :=
  let event' := stamp h event in
  foldl (deliver event') (remember h event', true) order.

Definition Subscribe (h : Hub) (topic : string) (since : Z) (buffer : Z) : Hub * Subscription :=
  let buffer := if (buffer <=? 0)%Z then 32%Z else buffer in
  let id := wrapU64 (nextID h + 1) in
  let h' := mkHub (capacity h) (sequence h) (replay h) id (<[id := topic]> (subscribers h)) (connections h)
              (<[id := make_chan Event (Z.to_nat buffer)]> (events h))
              (<[id := make_chan unit 0]> (dropped h)) (cancelled h) in
  let gap := (sequence h <? since)%Z ||
             match replay h with e :: _ => (since <? wrapU64 (Sequence e - 1))%Z | [] => false end in
  (h', mkSubscription id
         (filter (λ e, Topic e = topic ∧ (since < Sequence e)%Z) (replay h)) gap).

(** [Subscription.Cancel]: the once, then the closure [Subscribe] made. *)
Definition Cancel (h : Hub) (id : Z) : Hub * bool :=
  if bool_decide (id ∈ cancelled h) then (h, true)
  else
    let h1 := mkHub (capacity h) (sequence h) (replay h) (nextID h) (subscribers h) (connections h)
                (events h) (dropped h) ({[id]} ∪ cancelled h) in
    match subscribers h !! id with
    | None => (h1, true)
    | Some _ =>
      let '(ev, f) := close_in (events h) id in
      (set_channels h1 (delete id (subscribers h)) ev (dropped h), f)
    end.

(** A connection takes the next event of its subscription. *)
Definition receive (h : Hub) (id : Z) : option (Event * Hub) :=
  c ← events h !! id;
  '(e, c') ← chan_recv c;
  Some (e, set_channels h (subscribers h) (<[id := c']> (events h)) (dropped h)).

(** ** Interleavings *)
Record System := mkSystem {
  hub : Hub;
  published : list Event;              (* ghost: every event, oldest first *)
  streams : gmap Z (string * Z * list Event);
                                       (* ghost: topic, sequence at subscription, events taken *)
  fine : bool;                         (* no channel operation has panicked *)
}.

Inductive step : System → System → Prop :=
| step_publish s event order h' f :
    (sequence (hub s) + 1 < 2 ^ 64)%Z →
    order ≡ₚ map_to_list (subscribers (hub s)) →
    publish (hub s) event order = (h', f) →
    step s (mkSystem h' (published s ++ [stamp (hub s) event]) (streams s) (fine s && f))
| step_subscribe s topic since buffer h' sub :
    (nextID (hub s) + 1 < 2 ^ 64)%Z →
    Subscribe (hub s) topic since buffer = (h', sub) →
    step s (mkSystem h' (published s)
              (<[sub_id sub := (topic, sequence (hub s), [])]> (streams s)) (fine s))
| step_cancel s id h' f :
    id ∈ dom (streams s) → Cancel (hub s) id = (h', f) →
    step s (mkSystem h' (published s) (streams s) (fine s && f))
| step_receive s id e h' topic start taken :
    receive (hub s) id = Some (e, h') → streams s !! id = Some (topic, start, taken) →
    step s (mkSystem h' (published s) (<[id := (topic, start, taken ++ [e])]> (streams s)) (fine s))
| step_register s h' id :
    (nextID (hub s) + 1 < 2 ^ 64)%Z →
    RegisterConnection (hub s) = (h', id) → step s (mkSystem h' (published s) (streams s) (fine s))
| step_unregister s id :
    step s (mkSystem (UnregisterConnection (hub s) id) (published s) (streams s) (fine s)).

Definition initial (cap : Z) : System := mkSystem (NewHub cap) [] ∅ true.
Definition reachable (cap : Z) (s : System) : Prop := star step (initial cap) s.

(** The events of a topic that were published after a sequence number. *)
Definition since_of (topic : string) (start : Z) (l : list Event) : list Event :=
  filter (λ e, Topic e = topic ∧ (start < Sequence e)%Z) l.

(** ** The invariant *)

(** How the stream of one subscription stands, given the events published. *)
Definition good (h : Hub) (pub : list Event) (id : Z) (st : string * Z * list Event) : Prop :=
  let '(topic, start, taken) := st in
  ∃ c, events h !! id = Some c ∧
    match subscribers h !! id with
    | Some t => t = topic ∧ ch_closed c = false ∧
        taken ++ ch_buf c = since_of topic start pub ∧
        ∃ d, dropped h !! id = Some d ∧ ch_closed d = false
    | None => ch_closed c = true ∧ taken ++ ch_buf c `prefix_of` since_of topic start pub
    end.

Definition numbered (l : list Event) : Prop :=
  ∀ i e, l !! i = Some e → Sequence e = (Z.of_nat i + 1)%Z.

Record Inv (cap : Z) (s : System) : Prop := {
  inv_fine : fine s = true;
  inv_capacity : capacity (hub s) = (if (cap <=? 0)%Z then 256 else cap)%Z;
  inv_sequence : sequence (hub s) = Z.of_nat (length (published s));
  inv_bound : (sequence (hub s) < 2 ^ 64)%Z;
  inv_numbered : numbered (published s);
  inv_replay : replay (hub s) =
    drop (length (published s) - Z.to_nat (capacity (hub s))) (published s);
  inv_ids : ∀ id, id ∈ dom (streams s) → (0 < id ≤ nextID (hub s))%Z;
  inv_next : (0 ≤ nextID (hub s) < 2 ^ 64)%Z;
  inv_subscribed : dom (subscribers (hub s)) ⊆ dom (streams s);
  inv_start : ∀ id topic start taken, streams s !! id = Some (topic, start, taken) →
    (0 ≤ start ≤ sequence (hub s))%Z;
  inv_streams : ∀ id st, streams s !! id = Some st → good (hub s) (published s) id st;
}.

Lemma capacity_pos cap : (0 < if (cap <=? 0)%Z then 256 else cap)%Z.
Proof. destruct (Z.leb_spec cap 0); lia. Qed.

Lemma numbered_snoc l e :
  numbered l → Sequence e = (Z.of_nat (length l) + 1)%Z → numbered (l ++ [e]).
Proof.
  intros Hl He i e' Hi. apply lookup_app_Some in Hi as [Hi|[Hle Hi]]; [by apply Hl|].
  apply list_lookup_singleton_Some in Hi as [Hi <-]. rewrite He. lia.
Qed.

Lemma since_of_snoc topic start l e :
  since_of topic start (l ++ [e]) =
    since_of topic start l ++ (if decide (Topic e = topic ∧ (start < Sequence e)%Z) then [e] else []).
Proof. unfold since_of. by rewrite filter_app, filter_cons, filter_nil. Qed.

Lemma since_of_snoc_prefix topic start l e :
  since_of topic start l `prefix_of` since_of topic start (l ++ [e]).
Proof. rewrite since_of_snoc. by eexists. Qed.

Lemma since_of_none topic start l :
  (∀ e, e ∈ l → (Sequence e ≤ start)%Z) → since_of topic start l = [].
Proof.
  intros Hl. unfold since_of. induction l as [|e l IH]; [done|].
  rewrite filter_cons, decide_False; [apply IH; intros; apply Hl; by right|].
  intros [_ ?]. specialize (Hl e ltac:(by left)). lia.
Qed.

Lemma numbered_bounds l e : numbered l → e ∈ l → (0 < Sequence e ≤ Z.of_nat (length l))%Z.
Proof.
  intros Hl [i Hi]%list_elem_of_lookup. rewrite (Hl _ _ Hi). apply lookup_lt_Some in Hi. lia.
Qed.

(** *** The loop over the subscribers *)
Definition frame (h h' : Hub) : Prop :=
  capacity h' = capacity h ∧ sequence h' = sequence h ∧ replay h' = replay h ∧
  nextID h' = nextID h ∧ dom (subscribers h') ⊆ dom (subscribers h).

Lemma frame_trans h1 h2 h3 : frame h1 h2 → frame h2 h3 → frame h1 h3.
Proof. unfold frame. intros (?&?&?&?&?) (?&?&?&?&?). repeat split; try congruence. set_solver. Qed.

(** An iteration for one subscriber serves it and leaves the others alone. *)
Lemma deliver_self e h pub id topic st :
  good h pub id st → subscribers h !! id = Some topic → (st.1.2 < Sequence e)%Z →
  ∃ h', deliver e (h, true) (id, topic) = (h', true) ∧ good h' (pub ++ [e]) id st ∧ frame h h' ∧
    ∀ id', id' ≠ id → events h' !! id' = events h !! id' ∧
      subscribers h' !! id' = subscribers h !! id' ∧ dropped h' !! id' = dropped h !! id'.
Proof.
  destruct st as [[t start] taken]; simpl. intros (c & Hc & Hg) Hsub Hstart.
  rewrite Hsub in Hg. destruct Hg as (<- & Hopen & Hbuf & d & Hd & Hdo).
  unfold deliver. destruct (String.eqb_spec topic (Topic e)) as [->|Hne]; simpl.
  - rewrite Hc. unfold chan_send. rewrite Hopen. case_bool_decide as Hlen.
    + eexists. split; [done|]. repeat split; simpl; try done.
      * exists (mkChan (ch_cap c) (ch_buf c ++ [e]) false). rewrite lookup_insert_eq, Hsub.
        repeat split; simpl; try done; [|eauto].
        rewrite since_of_snoc, decide_True by done. by rewrite (assoc _), Hbuf.
      * by rewrite lookup_insert_ne.
    + unfold close_in. rewrite Hd, Hc. unfold chan_close. rewrite Hopen, Hdo.
      eexists. split; [done|]. split; [|split; [|intros id' Hid; simpl;
        by rewrite !lookup_insert_ne, lookup_delete_ne]].
      * exists (mkChan (ch_cap c) (ch_buf c) true). simpl. rewrite lookup_insert_eq, lookup_delete_eq.
        repeat split; try done. rewrite Hbuf. apply since_of_snoc_prefix.
      * repeat split; simpl; try done. rewrite dom_delete. set_solver.
  - eexists. split; [done|]. repeat split; try done. exists c. rewrite Hsub. repeat split; eauto.
    rewrite since_of_snoc, decide_False by naive_solver. by rewrite app_nil_r.
Qed.

Lemma good_frame h h' pub id st :
  events h' !! id = events h !! id → subscribers h' !! id = subscribers h !! id →
  dropped h' !! id = dropped h !! id → good h pub id st → good h' pub id st.
Proof. unfold good. destruct st as [[t start] taken]. intros -> -> ->. done. Qed.

Lemma deliver_all e pub (sts : gmap Z (string * Z * list Event)) order h :
  NoDup order.*1 →
  (∀ id topic, (id, topic) ∈ order → subscribers h !! id = Some topic ∧
     ∃ st, sts !! id = Some st ∧ good h pub id st ∧ (st.1.2 < Sequence e)%Z) →
  ∃ h', foldl (deliver e) (h, true) order = (h', true) ∧ frame h h' ∧
    (∀ id st, id ∈ order.*1 → sts !! id = Some st → good h' (pub ++ [e]) id st) ∧
    (∀ id, id ∉ order.*1 → events h' !! id = events h !! id ∧
      subscribers h' !! id = subscribers h !! id ∧ dropped h' !! id = dropped h !! id).
Proof.
  revert h. induction order as [|[id topic] order IH]; intros h Hnd Hgood.
  { exists h. split_and!; [done|repeat split; set_solver|set_solver|done]. }
  rewrite fmap_cons in Hnd. apply NoDup_cons in Hnd as [Hid Hnd]. simpl in Hid.
  destruct (Hgood id topic ltac:(left)) as (Hsub & st & Hst & Hg & Hlt).
  destruct (deliver_self e h pub id topic st Hg Hsub Hlt) as (h1 & E1 & Hg1 & Hf1 & Ho1).
  destruct (IH h1 Hnd) as (h2 & E2 & Hf2 & Hin2 & Hout2).
  { intros id' topic' Hin. assert (id' ≠ id) as Hne.
    { intros ->. apply Hid. apply list_elem_of_fmap. by exists (id, topic'). }
    destruct (Hgood id' topic' ltac:(by right)) as (Hsub' & st' & Hst' & Hg' & Hlt').
    destruct (Ho1 _ Hne) as (He & Hs & Hd). split; [congruence|].
    exists st'. split_and!; [done| |done]. by apply (good_frame h). }
  exists h2. cbn [foldl]. rewrite E1. split_and!; [done|by eapply frame_trans| |].
  - intros id' st'. rewrite fmap_cons, elem_of_cons. intros [->|Hin] Hst'; [|by apply Hin2].
    simpl in *. simplify_eq. destruct (Hout2 _ Hid) as (He & Hs & Hd). by apply (good_frame h1).
  - intros id'. rewrite fmap_cons, not_elem_of_cons. intros [Hne Hnin].
    destruct (Hout2 _ Hnin) as (?&?&?), (Ho1 _ Hne) as (?&?&?). split_and!; congruence.
Qed.

(** *** Every step keeps the invariant *)
Lemma drop_snoc_bound (l : list Event) (e : Event) (c : nat) :
  0 < c →
  (if decide (c < length (drop (length l - c) l ++ [e]))
   then drop (length (drop (length l - c) l ++ [e]) - c) (drop (length l - c) l ++ [e])
   else drop (length l - c) l ++ [e]) = drop (length (l ++ [e]) - c) (l ++ [e]).
Proof.
  intros Hc. rewrite !length_app, length_drop. simpl.
  rewrite <- (drop_app_le l [e] (length l - c)) by lia.
  case_decide; [rewrite drop_drop|]; f_equal; lia.
Qed.

Lemma remember_replay h event pub :
  (0 < capacity h)%Z → replay h = drop (length pub - Z.to_nat (capacity h)) pub →
  replay (remember h event) = drop (length (pub ++ [event]) - Z.to_nat (capacity h)) (pub ++ [event]).
Proof.
  intros Hc Hr. unfold remember. cbn [replay]. rewrite Hr.
  rewrite <- (drop_snoc_bound pub event (Z.to_nat (capacity h))) by lia.
  match goal with |- context [(capacity h <? Z.of_nat ?n)%Z] =>
    destruct (Z.ltb_spec (capacity h) (Z.of_nat n)) as [Hl|Hl] end.
  - rewrite decide_True by lia. f_equal. lia.
  - by rewrite decide_False by lia.
Qed.

Lemma order_keys (m : gmap Z string) order :
  order ≡ₚ map_to_list m →
  NoDup order.*1 ∧ (∀ id topic, (id, topic) ∈ order ↔ m !! id = Some topic).
Proof.
  intros Hp. split; [rewrite Hp; apply NoDup_fst_map_to_list|].
  intros id topic. rewrite Hp. apply elem_of_map_to_list.
Qed.

Lemma inv_publish cap s event order h' f :
  (sequence (hub s) + 1 < 2 ^ 64)%Z → order ≡ₚ map_to_list (subscribers (hub s)) →
  publish (hub s) event order = (h', f) → Inv cap s →
  Inv cap (mkSystem h' (published s ++ [stamp (hub s) event]) (streams s) (fine s && f)).
Proof.
  intros Hmax Hperm Hp I. destruct I.
  assert (Sequence (stamp (hub s) event) = (sequence (hub s) + 1)%Z) as Hseq.
  { simpl. apply wrapU64_id. lia. }
  destruct (order_keys _ _ Hperm) as [Hnd Hin].
  pose (h1 := remember (hub s) (stamp (hub s) event)).
  destruct (deliver_all (stamp (hub s) event) (published s) (streams s) order h1 Hnd)
    as (h2 & E & (Fc & Fs & Fr & Fn & Fd) & Hserved & Hother).
  { intros id topic Hio. apply Hin in Hio. split; [done|].
    assert (id ∈ dom (streams s)) as [st Hst]%elem_of_dom
      by (apply inv_subscribed0, elem_of_dom; eauto).
    exists st. split_and!; [done|by apply (good_frame (hub s)); eauto|].
    destruct st as [[t start] taken]. apply inv_start0 in Hst. simpl. simpl in Hseq. lia. }
  unfold publish in Hp. unfold h1 in E. rewrite E in Hp. simplify_eq.
  simpl in Fc, Fs, Fn, Fd. change (replay h1) with (replay (remember (hub s) (stamp (hub s) event))) in Fr.
  constructor; simpl.
  - by rewrite inv_fine0.
  - congruence.
  - rewrite Fs, length_app. simpl. rewrite wrapU64_id by lia. lia.
  - rewrite Fs. rewrite wrapU64_id by lia. lia.
  - apply numbered_snoc; [done|]. lia.
  - rewrite Fr, Fc. apply remember_replay; [|done]. rewrite inv_capacity0. apply capacity_pos.
  - rewrite Fn. done.
  - rewrite Fn. done.
  - set_solver.
  - intros id topic start taken Hst. apply inv_start0 in Hst. rewrite Fs, wrapU64_id by lia. lia.
  - intros id st Hst. destruct (decide (id ∈ order.*1)) as [Hi|Hi]; [by apply Hserved|].
    destruct (Hother _ Hi) as (He & Hs & Hd).
    assert (subscribers (hub s) !! id = None) as Hnone.
    { apply eq_None_not_Some. intros [topic Ht]. apply Hi, list_elem_of_fmap.
      exists (id, topic). split; [done|]. by apply Hin. }
    specialize (inv_streams0 _ _ Hst). apply (good_frame h1); [done..|].
    destruct st as [[t start] taken]. destruct inv_streams0 as (c & Hc & Hg).
    exists c. simpl. rewrite Hnone in *. split_and!; [done|naive_solver|].
    etrans; [apply Hg|]. apply since_of_snoc_prefix.
Qed.

Lemma inv_subscribe cap s topic since buffer h' sub :
  (nextID (hub s) + 1 < 2 ^ 64)%Z →
  Subscribe (hub s) topic since buffer = (h', sub) → Inv cap s →
  Inv cap (mkSystem h' (published s)
             (<[sub_id sub := (topic, sequence (hub s), [])]> (streams s)) (fine s)).
Proof.
  intros Hmax Hs I. destruct I. unfold Subscribe in Hs. simplify_eq. simpl.
  rewrite wrapU64_id by lia. constructor; simpl; try done.
  - intros id. rewrite dom_insert. intros [->%elem_of_singleton|Hid]%elem_of_union; [lia|].
    apply inv_ids0 in Hid. lia.
  - lia.
  - set_solver.
  - intros id t start taken. rewrite lookup_insert_Some. intros [[<- ?]|[_ ?]]; [|eauto]. simplify_eq. lia.
  - intros id st. rewrite lookup_insert_Some. intros [[<- <-]|[Hne Hst]].
    + eexists. simpl. rewrite !lookup_insert_eq. split; [done|]. simpl. split_and!; [done..| |eauto].
      symmetry. apply since_of_none. intros e He. apply (numbered_bounds _ _ inv_numbered0) in He. lia.
    + apply (good_frame (hub s)); [by simpl; rewrite ?lookup_insert_ne..|eauto].
Qed.

Lemma inv_cancel cap s id h' f :
  id ∈ dom (streams s) → Cancel (hub s) id = (h', f) → Inv cap s →
  Inv cap (mkSystem h' (published s) (streams s) (fine s && f)).
Proof.
  intros Hid HC I. destruct I. unfold Cancel in HC. case_bool_decide as Honce.
  { simplify_eq. rewrite andb_true_r. by constructor. }
  destruct (subscribers (hub s) !! id) as [topic|] eqn:Hsub.
  - apply elem_of_dom in Hid as [st Hst]. pose proof (inv_streams0 _ _ Hst) as Hg.
    destruct st as [[t start] taken]. destruct Hg as (c & Hc & Hg). rewrite Hsub in Hg.
    destruct Hg as (<- & Hopen & Hbuf & d & Hd & Hdo).
    unfold close_in in HC. rewrite Hc in HC. unfold chan_close in HC. rewrite Hopen in HC.
    simplify_eq. constructor; simpl; try done.
    + by rewrite inv_fine0.
    + rewrite dom_delete. set_solver.
    + intros id' st' Hst'. destruct (decide (id' = id)) as [->|Hne].
      * simplify_eq. exists (mkChan (ch_cap c) (ch_buf c) true). simpl.
        rewrite lookup_insert_eq, lookup_delete_eq. split_and!; [done..|]. by rewrite Hbuf.
      * apply (good_frame (hub s)); [by simpl; rewrite ?lookup_insert_ne, ?lookup_delete_ne..|eauto].
  - simplify_eq. rewrite andb_true_r. by constructor.
Qed.

Lemma inv_receive cap s id e h' topic start taken :
  receive (hub s) id = Some (e, h') → streams s !! id = Some (topic, start, taken) → Inv cap s →
  Inv cap (mkSystem h' (published s) (<[id := (topic, start, taken ++ [e])]> (streams s)) (fine s)).
Proof.
  intros HR Hst I. destruct I. pose proof (inv_streams0 _ _ Hst) as (c & Hc & Hg).
  unfold receive in HR. rewrite Hc in HR. simpl in HR. unfold chan_recv in HR.
  destruct (ch_buf c) as [|x l] eqn:Hb; simpl in HR; [done|]. simplify_eq.
  constructor; simpl; try done.
  - intros id'. rewrite dom_insert_lookup by eauto. apply inv_ids0.
  - rewrite dom_insert_lookup by eauto. done.
  - intros id' t' start' taken'. rewrite lookup_insert_Some. intros [[<- ?]|[_ ?]]; [|eauto].
    simplify_eq. eauto.
  - intros id' st'. rewrite lookup_insert_Some. intros [[<- <-]|[Hne Hst']].
    + exists (mkChan (ch_cap c) l (ch_closed c)). simpl. rewrite lookup_insert_eq. split; [done|].
      destruct (subscribers (hub s) !! id) eqn:Hs.
      * destruct Hg as (-> & ? & Ht & Hd). simplify_eq. rewrite <- (assoc_L (++)). eauto.
      * destruct Hg as (? & Ht). rewrite <- (assoc_L (++)). eauto.
    + apply (good_frame (hub s)); [by simpl; rewrite ?lookup_insert_ne..|eauto].
Qed.

Lemma inv_step cap s s' : Inv cap s → step s s' → Inv cap s'.
Proof.
  intros I Hstep. destruct Hstep.
  - by eapply inv_publish.
  - by eapply inv_subscribe.
  - by eapply inv_cancel.
  - by eapply inv_receive.
  - destruct I. unfold RegisterConnection in *. simplify_eq. rewrite wrapU64_id by lia.
    constructor; simpl; try done; [|lia]. intros id Hid. apply inv_ids0 in Hid. lia.
  - destruct I. by constructor.
Qed.

Lemma inv_initial cap : Inv cap (initial cap).
Proof.
  constructor; simpl; try done; try set_solver.
Qed.

Lemma reachable_inv cap s : reachable cap s → Inv cap s.
Proof. intros Hr. eapply star_invariant; [by apply inv_step|done|apply inv_initial]. Qed.

(** ** Replay *)
Lemma since_of_drop topic since l k :
  numbered l → (Z.of_nat k ≤ since)%Z → since_of topic since (drop k l) = since_of topic since l.
Proof.
  intros Hn Hk. unfold since_of. rewrite <- (take_drop k l) at 2. rewrite filter_app.
  fold (since_of topic since (take k l)). rewrite (since_of_none _ _ (take k l)); [done|].
  intros e [i Hi]%list_elem_of_lookup. rewrite lookup_take_Some in Hi. destruct Hi as [Hi ?].
  rewrite (Hn _ _ Hi). lia.
Qed.

Lemma since_of_split topic since l1 l2 :
  numbered (l1 ++ l2) → (since ≤ Z.of_nat (length l1))%Z →
  since_of topic since (l1 ++ l2) =
    since_of topic since l1 ++ since_of topic (Z.of_nat (length l1)) (l1 ++ l2).
Proof.
  intros Hn Hle. unfold since_of. rewrite !filter_app. f_equal.
  fold (since_of topic (Z.of_nat (length l1)) l1). rewrite since_of_none.
  - simpl. assert (∀ e, e ∈ l2 → (Z.of_nat (length l1) < Sequence e)%Z) as Hl2.
    { intros e [i Hi]%list_elem_of_lookup. rewrite (Hn (length l1 + i) e); [lia|].
      rewrite lookup_app_r by lia. by replace (length l1 + i - length l1) with i by lia. }
    clear Hn. induction l2 as [|e l2 IH]; [done|].
    rewrite !filter_cons, IH by (intros; apply Hl2; by right).
    specialize (Hl2 e ltac:(by left)). repeat case_decide; [done|exfalso; intuition lia..|done].
  - intros e He. assert (numbered l1) as Hn1.
    { intros i e' Hi. apply Hn. by apply lookup_app_l_Some. }
    apply (numbered_bounds _ _ Hn1 He).
Qed.

(** The gap flag tells a client that is ahead of the server or whose missing
    events are no longer kept. *)
Lemma subscribe_gap cap s topic since buffer h' sub :
  Inv cap s → (0 ≤ since)%Z → Subscribe (hub s) topic since buffer = (h', sub) →
  Gap sub = false ↔
    (Z.of_nat (length (published s)) - capacity (hub s) ≤ since ≤ Z.of_nat (length (published s)))%Z.
Proof.
  intros [] Hpos Hs. unfold Subscribe in Hs. simplify_eq. simpl.
  rewrite orb_false_iff, inv_sequence0, Z.ltb_ge.
  pose proof (capacity_pos cap). rewrite <- inv_capacity0 in H.
  rewrite inv_replay0. set (k := length (published s) - Z.to_nat (capacity (hub s))).
  destruct (drop k (published s)) as [|e l] eqn:E.
  - apply (f_equal length) in E. rewrite length_drop in E. simpl in E. split; [intros []|]; lia.
  - assert (published s !! k = Some e) as Hk by (rewrite <- (Nat.add_0_r k), <- lookup_drop, E; done).
    pose proof (lookup_lt_Some _ _ _ Hk). rewrite (inv_numbered0 _ _ Hk).
    rewrite wrapU64_id by lia. rewrite Z.ltb_ge. lia.
Qed.

Lemma subscribe_replay cap s topic since buffer h' sub :
  Inv cap s → (0 ≤ since)%Z → Subscribe (hub s) topic since buffer = (h', sub) → Gap sub = false →
  Replay sub = since_of topic since (published s).
Proof.
  intros I Hpos Hs Hg. apply (subscribe_gap _ _ _ _ _ _ _ I Hpos Hs) in Hg. destruct I.
  unfold Subscribe in Hs. simplify_eq. simpl. rewrite inv_replay0.
  fold (since_of topic since (drop (length (published s) - Z.to_nat (capacity (hub s))) (published s))).
  pose proof (capacity_pos cap). rewrite <- inv_capacity0 in H. apply since_of_drop; [done|lia].
Qed.

(** What the steps after a subscription keep. *)
Lemma star_monotone s s' :
  star step s s' → ∀ cap, Inv cap s →
  published s `prefix_of` published s' ∧
  ∀ id topic start taken, streams s !! id = Some (topic, start, taken) →
    ∃ taken', streams s' !! id = Some (topic, start, taken ++ taken').
Proof.
  induction 1 as [s|s1 s2 s3 Hstep _ IH]; intros cap I.
  { split; [done|]. intros id topic start taken ?. exists []. by rewrite app_nil_r. }
  destruct (IH cap (inv_step _ _ _ I Hstep)) as [Hp Hst].
  assert (published s1 `prefix_of` published s2 ∧
    ∀ id topic start taken, streams s1 !! id = Some (topic, start, taken) →
      ∃ taken', streams s2 !! id = Some (topic, start, taken ++ taken')) as [Hp1 Hst1].
  { assert (∀ id topic start taken, streams s1 !! id = Some (topic, start, taken) →
      ∃ taken', streams s1 !! id = Some (topic, start, taken ++ taken')) as Hsame
      by (intros id topic start taken ?; exists []; by rewrite app_nil_r).
    destruct Hstep as [| s topic since buffer h' sub Hmax Hsub | | s id e h' t start taken _ Hid | |];
      simpl; try (split; [by eexists|done]); split; try done.
    - intros id t start taken Hid. exists []. rewrite app_nil_r, lookup_insert_ne; [done|].
      unfold Subscribe in Hsub. simplify_eq. simpl. rewrite wrapU64_id by (destruct I; lia).
      assert (id ∈ dom (streams s)) as Hd by (apply elem_of_dom; eauto).
      apply (inv_ids _ _ I) in Hd. lia.
    - intros id' t' start' taken' Hid'. destruct (decide (id = id')) as [->|Hne].
      + simplify_eq. exists [e]. by rewrite lookup_insert_eq.
      + exists []. by rewrite app_nil_r, lookup_insert_ne. }
  split; [by etrans|]. intros id topic start taken Hid.
  destruct (Hst1 _ _ _ _ Hid) as [t1 H1]. destruct (Hst _ _ _ _ H1) as [t2 H2].
  exists (t1 ++ t2). by rewrite (assoc_L (++)).
Qed.

(** C20: in every interleaving of publications, subscriptions, cancellations
    and receptions no channel is closed twice and nothing is sent on a closed
    channel, so the hub never panics; and the events a subscription has
    received followed by those waiting in its channel are exactly the
    publications of its topic since it subscribed, in order.  Once it was
    cancelled, or dropped because its buffer was full, they are an initial
    part of them and the channel is closed, so that the connection learns
    about it. *)
Theorem hub_never_panics_nor_loses cap s :
  reachable cap s →
  fine s = true ∧
  ∀ id topic start taken, streams s !! id = Some (topic, start, taken) →
    ∃ c, events (hub s) !! id = Some c ∧
      if decide (is_Some (subscribers (hub s) !! id))
      then ch_closed c = false ∧ taken ++ ch_buf c = since_of topic start (published s)
      else ch_closed c = true ∧ taken ++ ch_buf c `prefix_of` since_of topic start (published s).
Proof.
  intros I%reachable_inv. split; [apply I|]. intros id topic start taken Hst.
  destruct (inv_streams _ _ I _ _ Hst) as (c & Hc & Hg). exists c. split; [done|].
  destruct (subscribers (hub s) !! id) eqn:E.
  - rewrite decide_True by eauto. naive_solver.
  - rewrite decide_False by (intros [? ?]; done). done.
Qed.

(** A client that subscribes with the sequence number of the last event
    it has seen, and is not told that there is a gap, misses nothing: for as
    long as the subscription stands, the replayed events, followed by the
    received and the waiting ones, are all the events of the topic published
    after that sequence number, in order and without duplicates. *)
Theorem resume_misses_nothing cap s topic since buffer h' sub s' t :
  reachable cap s → (0 ≤ since)%Z → (nextID (hub s) + 1 < 2 ^ 64)%Z →
  Subscribe (hub s) topic since buffer = (h', sub) →
  Gap sub = false →
  star step (mkSystem h' (published s)
    (<[sub_id sub := (topic, sequence (hub s), [])]> (streams s)) (fine s)) s' →
  subscribers (hub s') !! sub_id sub = Some t →
  ∃ taken c, streams s' !! sub_id sub = Some (topic, sequence (hub s), taken) ∧
    events (hub s') !! sub_id sub = Some c ∧
    Replay sub ++ taken ++ ch_buf c = since_of topic since (published s').
Proof.
  intros I%reachable_inv Hpos Hmax Hsub Hgap Hstar Hstill.
  pose proof (inv_subscribe _ _ _ _ _ _ _ Hmax Hsub I) as I1.
  destruct (star_monotone _ _ Hstar _ I1) as [[rest Hpub] Hst]. simpl in Hpub.
  destruct (Hst (sub_id sub) topic (sequence (hub s)) []) as [taken Htaken];
    [apply lookup_insert_eq|]. simpl in Htaken.
  assert (Inv cap s') as I2 by (eapply star_invariant; [by apply inv_step|done|done]).
  destruct (inv_streams _ _ I2 _ _ Htaken) as (c & Hc & Hg). rewrite Hstill in Hg.
  destruct Hg as (_ & _ & Hbuf & _). exists taken, c. split_and!; [done..|].
  rewrite Hbuf, (subscribe_replay _ _ _ _ _ _ _ I Hpos Hsub Hgap).
  apply (subscribe_gap _ _ _ _ _ _ _ I Hpos Hsub) in Hgap.
  rewrite Hpub, (inv_sequence _ _ I). symmetry. apply since_of_split; [|lia].
  rewrite <- Hpub. apply I2.
Qed.
End hub.
Arguments Event : clear implicits.
Arguments Hub : clear implicits.
Arguments System : clear implicits.
Arguments Subscription : clear implicits.

(** A hub that keeps one event: two are published, a client that has seen the
    first subscribes, a third is published and received. *)
Definition ev (n : Z) : Event unit := mkEvent "alert" "alerts" n 0%Z tt.
Definition after_publish (s : System unit) (order : list (Z * string)) : System unit :=
  let r := publish (hub s) (ev 0) order in
  mkSystem (fst r) (published s ++ [stamp (hub s) (ev 0)]) (streams s) (fine s && snd r).
Lemma after_publish_step s order :
  (sequence (hub s) + 1 < 2 ^ 64)%Z → order ≡ₚ map_to_list (subscribers (hub s)) →
  step s (after_publish s order).
Proof. intros. eapply step_publish; [done..|]. apply surjective_pairing. Qed.

Definition witness_before : System unit := after_publish (after_publish (initial 1) []) [].
Definition witness_subscribed : System unit :=
  mkSystem (fst (Subscribe (hub witness_before) "alerts" 1 8)) (published witness_before)
    {[1%Z := ("alerts", 2%Z, [])]} true.
Definition witness_after : System unit := after_publish witness_subscribed [(1%Z, "alerts")].

Lemma witness_before_reachable : reachable 1 witness_before.
Proof.
  eapply star_step; [|eapply star_step; [|apply star_refl]]; apply after_publish_step; done.
Qed.

Lemma hub_never_panics_nor_loses_witness : fine witness_before = true.
Proof. apply (hub_never_panics_nor_loses 1 witness_before witness_before_reachable). Defined.

Lemma resume_misses_nothing_witness :
  ∃ taken c, streams witness_after !! 1%Z = Some ("alerts", 2%Z, taken) ∧
    events (hub witness_after) !! 1%Z = Some c ∧
    [ev 2] ++ taken ++ ch_buf c = since_of "alerts" 1 (published witness_after).
Proof.
  apply (resume_misses_nothing 1 witness_before "alerts" 1 8
    (fst (Subscribe (hub witness_before) "alerts" 1 8))
    (snd (Subscribe (hub witness_before) "alerts" 1 8)) witness_after "alerts").
  - apply witness_before_reachable.
  - done.
  - done.
  - apply surjective_pairing.
  - done.
  - eapply star_step; [|apply star_refl]. by apply (after_publish_step witness_subscribed).
  - done.
Defined.
End Hub.
