(* ===== verification/TimeText.v ===== *)
(** * Times as the database stores them (encodeTime, src/internal/sqlite/auth_store.go)

    Most time columns hold the RFC 3339 text of a time in UTC, and the queries
    compare and sort that text byte by byte.  This file renders a time the way
    [time.Time.Format] does for the layout [time.RFC3339Nano] and determines
    what the order of the texts says about the order of the times. *)
From S2P Require Import Prelude GoStrings.

Module TimeText.
Local Open Scope Z_scope.

(** ** Calendar *)

(** Days before 1 January of year [y], counted from 1 January of year 1. *)
Definition days_before (y : Z) : Z :=
  365 * (y - 1) + (y - 1) / 4 - (y - 1) / 100 + (y - 1) / 400.
Definition year_of (d : Z) : Z :=
  let y := d * 400 / 146097 + 1 in
  if d <? days_before y then y - 1 else if days_before (y + 1) <=? d then y + 1 else y.
Definition leap (y : Z) : bool := ((y mod 4 =? 0) && negb (y mod 100 =? 0)) || (y mod 400 =? 0).

Definition days_before_month (l : bool) (m : Z) : Z :=
  let x := if l then 1 else 0 in
  if m =? 1 then 0 else if m =? 2 then 31 else if m =? 3 then 59 + x else if m =? 4 then 90 + x
  else if m =? 5 then 120 + x else if m =? 6 then 151 + x else if m =? 7 then 181 + x
  else if m =? 8 then 212 + x else if m =? 9 then 243 + x else if m =? 10 then 273 + x
  else if m =? 11 then 304 + x else 334 + x.
Definition month_of (l : bool) (yd : Z) : Z :=
  let b m := days_before_month l m <=? yd in
  if b 12 then 12 else if b 11 then 11 else if b 10 then 10 else if b 9 then 9 else if b 8 then 8
  else if b 7 then 7 else if b 6 then 6 else if b 5 then 5 else if b 4 then 4 else if b 3 then 3
  else if b 2 then 2 else 1.

(** ** Text *)
Definition digit (z : Z) : ascii := ascii_of_nat (48 + Z.to_nat (z mod 10)).
(** The last [w] decimal digits. *)
Fixpoint pad (w : nat) (z : Z) : string :=
  match w with
  | O => ""
  | S w' => pad w' (z / 10) ++ String (digit z) ""
  end%string.
Fixpoint ndigits (fuel : nat) (z : Z) : nat :=
  match fuel with
  | O => O
  | S f => if z =? 0 then O else S (ndigits f (z / 10))
  end.
(** At least [w] digits (years have at most 12). *)
Definition appendInt (w : nat) (z : Z) : string :=
  if z <? 0 then String "-" (pad (Nat.max w (ndigits 20 (- z))) (- z))
  else pad (Nat.max w (ndigits 20 z)) z.
(** The fraction of a second, without trailing zeros. *)
Fixpoint fraction (w : nat) (ns : Z) : string :=
  match w with
  | O => ""
  | S w' => if (ns mod 10 =? 0)%Z then fraction w' (ns / 10) else String "." (pad (S w') ns)
  end%string.

(** [value.UTC().Format(time.RFC3339Nano)] *)
Definition encodeTime (value : time) : string :=
  let sec := value / Second in
  let d := sec / 86400 in
  let y := year_of d in
  let yd := d - days_before y in
  let m := month_of (leap y) yd in
  let s := sec mod 86400 in
  appendInt 4 y ++ String "-" (pad 2 m ++ String "-" (pad 2 (yd - days_before_month (leap y) m + 1) ++
  String "T" (pad 2 (s / 3600) ++ String ":" (pad 2 (s mod 3600 / 60) ++ String ":" (pad 2 (s mod 60) ++
  fraction 9 (value mod Second) ++ "Z")))))%string.

(** The comparisons [a <= b] and [a < b] of SQL on two such texts. *)
Definition text_le (t u : time) : bool := String.leb (encodeTime t) (encodeTime u).

Example encodeTime_zero : encodeTime 0 = "0001-01-01T00:00:00Z"%string.
Proof. reflexivity. Qed.
Example encodeTime_leap :
  encodeTime ((days_before 2024 + 59) * 86400 * Second + 86399 * Second + 120000000)
  = "2024-02-29T23:59:59.12Z"%string.
Proof. vm_compute. reflexivity. Qed.

(** ** The calendar is monotone *)
Lemma year_of_spec d : 0 ≤ d → days_before (year_of d) ≤ d < days_before (year_of d + 1).
Proof.
  intros Hd. unfold year_of. destruct (Z.ltb_spec d (days_before (d * 400 / 146097 + 1)));
    [|destruct (Z.leb_spec (days_before (d * 400 / 146097 + 1 + 1)) d)];
    unfold days_before in *; Z.to_euclidean_division_equations; lia.
Qed.

Lemma days_before_mono y y' : y ≤ y' → days_before y ≤ days_before y'.
Proof. unfold days_before. intros. Z.to_euclidean_division_equations. lia. Qed.

Lemma year_of_mono d d' : 0 ≤ d → d ≤ d' → year_of d ≤ year_of d'.
Proof.
  intros H0 Hd. pose proof (year_of_spec d H0). pose proof (year_of_spec d' ltac:(lia)).
  destruct (Z.le_gt_cases (year_of d) (year_of d')) as [|Hgt]; [done|].
  pose proof (days_before_mono (year_of d' + 1) (year_of d) ltac:(lia)). lia.
Qed.

Lemma month_of_range l yd : 1 ≤ month_of l yd ≤ 12.
Proof. unfold month_of. repeat (case_match; [lia|]). lia. Qed.

Lemma month_of_mono l yd yd' : yd ≤ yd' → month_of l yd ≤ month_of l yd'.
Proof.
  intros H. unfold month_of.
  repeat match goal with |- context [days_before_month l ?m <=? yd'] =>
    destruct (Z.leb_spec (days_before_month l m) yd');
    [repeat (case_match; [lia|]); lia|
     destruct (Z.leb_spec (days_before_month l m) yd); [lia|]] end.
  lia.
Qed.

Lemma month_of_spec l yd : 0 ≤ yd < 366 → 0 ≤ yd - days_before_month l (month_of l yd) < 99.
Proof.
  intros H. unfold month_of.
  repeat match goal with |- context [days_before_month l ?m <=? yd] =>
    destruct (Z.leb_spec (days_before_month l m) yd) as [?H|?H];
    [destruct l; unfold days_before_month in *; simpl in *; lia|] end.
  destruct l; unfold days_before_month in *; simpl in *; lia.
Qed.

Lemma year_length y : days_before (y + 1) - days_before y ≤ 366.
Proof. unfold days_before. Z.to_euclidean_division_equations. lia. Qed.

(** ** Fixed-width numbers compare like numbers *)
Definition order (a b : string) : comparison := String.compare a b.

Lemma compare_digit x y :
  0 ≤ x < 10 → 0 ≤ y < 10 → Ascii.compare (digit x) (digit y) = (x ?= y).
Proof.
  intros Hx Hy. unfold Ascii.compare, digit.
  rewrite !Z.mod_small by lia. unfold N_of_ascii.
  assert (∀ z, 0 ≤ z < 10 → z = 0 ∨ z = 1 ∨ z = 2 ∨ z = 3 ∨ z = 4 ∨ z = 5 ∨ z = 6 ∨ z = 7 ∨ z = 8 ∨ z = 9) as Hz
    by lia.
  destruct (Hz x Hx) as [->|[->|[->|[->|[->|[->|[->|[->|[->| ->]]]]]]]]];
  destruct (Hz y Hy) as [->|[->|[->|[->|[->|[->|[->|[->|[->| ->]]]]]]]]]; reflexivity.
Qed.

Lemma text_append_assoc (a b c : string) : ((a ++ b) ++ c = a ++ b ++ c)%string.
Proof.
  induction a as [|x a IH]; [done|].
  change (String x ((a ++ b) ++ c) = String x (a ++ b ++ c))%string. by rewrite IH.
Qed.

Lemma order_pad w : ∀ a b x y,
  0 ≤ a < 10 ^ Z.of_nat w → 0 ≤ b < 10 ^ Z.of_nat w →
  order (pad w a ++ x) (pad w b ++ y) =
    match a ?= b with Eq => order x y | c => c end.
Proof.
  induction w as [|w IH]; intros a b x y Ha Hb.
  { assert (a = 0) as -> by (simpl in Ha; lia). assert (b = 0) as -> by (simpl in Hb; lia). done. }
  rewrite Nat2Z.inj_succ, Z.pow_succ_r in Ha, Hb by lia.
  cbn [pad]. rewrite !text_append_assoc. rewrite IH by (split; [apply Z.div_pos|apply Z.div_lt_upper_bound]; lia).
  unfold digit. rewrite <- (Z.mod_mod a 10), <- (Z.mod_mod b 10) by lia.
  fold (digit (a mod 10)) (digit (b mod 10)).
  change (order (String (digit (a mod 10)) "" ++ x) (String (digit (b mod 10)) "" ++ y))
    with (match Ascii.compare (digit (a mod 10)) (digit (b mod 10)) with
          | Eq => order x y | c => c end).
  pose proof (Z.mod_pos_bound a 10 ltac:(lia)). pose proof (Z.mod_pos_bound b 10 ltac:(lia)).
  rewrite compare_digit by lia.
  pose proof (Z.div_mod a 10 ltac:(lia)). pose proof (Z.div_mod b 10 ltac:(lia)).
  destruct (Z.compare_spec (a / 10) (b / 10)), (Z.compare_spec (a mod 10) (b mod 10)),
    (Z.compare_spec a b); try done; lia.
Qed.

Lemma order_sep c x y : order (String c x) (String c y) = order x y.
Proof. unfold order. simpl. unfold Ascii.compare. by rewrite N.compare_refl. Qed.

Lemma ndigits_le f : ∀ z w, 0 ≤ z < 10 ^ Z.of_nat w → (ndigits f z ≤ w)%nat.
Proof.
  induction f as [|f IH]; intros z w Hz; simpl; [lia|].
  destruct (Z.eqb_spec z 0); [lia|]. destruct w as [|w]; [simpl in Hz; lia|].
  rewrite Nat2Z.inj_succ, Z.pow_succ_r in Hz by lia.
  apply le_n_S, IH. split; [apply Z.div_pos|apply Z.div_lt_upper_bound]; lia.
Qed.

Lemma appendInt_pad w z : 0 ≤ z < 10 ^ Z.of_nat w → appendInt w z = pad w z.
Proof.
  intros Hz. unfold appendInt. destruct (Z.ltb_spec z 0); [lia|].
  rewrite Nat.max_l; [done|]. by apply ndigits_le.
Qed.

(** ** The order of the texts *)
Definition renderable (t : time) : Prop := 0 ≤ t < days_before 10000 * 86400 * Second.

(** The fields of the text, most significant first. *)
Definition fields (t : time) : list Z :=
  let sec := t / Second in
  let d := sec / 86400 in
  let y := year_of d in
  let yd := d - days_before y in
  let m := month_of (leap y) yd in
  let s := sec mod 86400 in
  [y; m; yd - days_before_month (leap y) m + 1; s / 3600; s mod 3600 / 60; s mod 60].

Fixpoint lex (a b : list Z) : comparison :=
  match a, b with
  | x :: a', y :: b' => match x ?= y with Eq => lex a' b' | c => c end
  | _, _ => Eq
  end.

Lemma renderable_seconds t :
  renderable t → 0 ≤ t / Second / 86400 < days_before 10000.
Proof.
  unfold renderable, Second. intros. Z.to_euclidean_division_equations. lia.
Qed.

Lemma renderable_year t : renderable t → 1 ≤ year_of (t / Second / 86400) < 10000.
Proof.
  intros Hr%renderable_seconds. pose proof (year_of_spec _ (proj1 Hr)) as Hs.
  split.
  - assert (days_before 1 < days_before (year_of (t / Second / 86400) + 1)) as Hd
      by (change (days_before 1) with 0; lia).
    destruct (Z.lt_ge_cases (year_of (t / Second / 86400)) 1); [|done].
    pose proof (days_before_mono (year_of (t / Second / 86400) + 1) 1 ltac:(lia)). lia.
  - destruct (Z.lt_ge_cases (year_of (t / Second / 86400)) 10000) as [|Hge]; [done|].
    pose proof (days_before_mono _ _ Hge). lia.
Qed.

Lemma order_encodeTime t u :
  renderable t → renderable u →
  order (encodeTime t) (encodeTime u) =
    match lex (fields t) (fields u) with
    | Eq => order (fraction 9 (t mod Second) ++ "Z") (fraction 9 (u mod Second) ++ "Z")
    | c => c
    end.
Proof.
  intros Ht Hu. pose proof (renderable_year t Ht). pose proof (renderable_year u Hu).
  apply renderable_seconds in Ht. apply renderable_seconds in Hu.
  pose proof (year_of_spec _ (proj1 Ht)). pose proof (year_of_spec _ (proj1 Hu)).
  unfold encodeTime, fields. cbv zeta. rewrite !appendInt_pad by (simpl; lia).
  set (y := year_of (t / Second / 86400)) in *. set (y' := year_of (u / Second / 86400)) in *.
  pose proof (year_length y). pose proof (year_length y').
  set (yd := t / Second / 86400 - days_before y) in *.
  set (yd' := u / Second / 86400 - days_before y') in *.
  pose proof (month_of_spec (leap y) yd ltac:(lia)). pose proof (month_of_spec (leap y') yd' ltac:(lia)).
  pose proof (month_of_range (leap y) yd). pose proof (month_of_range (leap y') yd').
  set (s := (t / Second) mod 86400). set (s' := (u / Second) mod 86400).
  assert (0 ≤ s < 86400) by (apply Z.mod_pos_bound; lia).
  assert (0 ≤ s' < 86400) by (apply Z.mod_pos_bound; lia).
  clearbody yd yd' s s' y y'. cbn [lex].
  assert (∀ z, 0 ≤ z < 86400 → 0 ≤ z / 3600 < 100 ∧ 0 ≤ z mod 3600 / 60 < 100 ∧ 0 ≤ z mod 60 < 100) as Hclock
    by (intros; Z.to_euclidean_division_equations; lia).
  destruct (Hclock s) as (?&?&?); [done|]. destruct (Hclock s') as (?&?&?); [done|].
  change (10 ^ Z.of_nat 2) with 100 in *.
  repeat (rewrite order_pad by (change (10 ^ Z.of_nat 2) with 100; change (10 ^ Z.of_nat 4) with 10000; lia);
    case_match; [|done..]; try rewrite order_sep).
  done.
Qed.

Lemma lex_fields_lt t u :
  renderable t → renderable u → t / Second < u / Second → lex (fields t) (fields u) = Lt.
Proof.
  intros Ht Hu Hlt. apply renderable_seconds in Ht. apply renderable_seconds in Hu.
  unfold fields. cbv zeta. set (sec := t / Second) in *. set (sec' := u / Second) in *. clearbody sec sec'.
  assert (sec / 86400 ≤ sec' / 86400) as Hd by (apply Z.div_le_mono; lia).
  pose proof (Z.div_mod sec 86400 ltac:(lia)) as Hs. pose proof (Z.div_mod sec' 86400 ltac:(lia)) as Hs'.
  set (d := sec / 86400) in *. set (d' := sec' / 86400) in *.
  pose proof (Z.mod_pos_bound sec 86400 ltac:(lia)). pose proof (Z.mod_pos_bound sec' 86400 ltac:(lia)).
  set (s := sec mod 86400) in *. set (s' := sec' mod 86400) in *. clearbody s s' d d'.
  pose proof (year_of_mono d d' ltac:(lia) Hd). cbn [lex].
  destruct (Z.compare_spec (year_of d) (year_of d')) as [Hy| |]; [|done|lia]. rewrite <- Hy.
  pose proof (month_of_mono (leap (year_of d)) (d - days_before (year_of d)) (d' - days_before (year_of d)) ltac:(lia)).
  match goal with |- context [?a ?= ?b] => destruct (Z.compare_spec a b) as [Hm| |]; [|done|lia] end.
  rewrite <- Hm.
  match goal with |- context [?a ?= ?b] => destruct (Z.compare_spec a b) as [Hday| |]; [|done|lia] end.
  assert (s < s') as Hss by lia. clear - Hss H H0.
  repeat (match goal with |- context [?a ?= ?b] => destruct (Z.compare_spec a b) as [?H| |?H]; [|done|] end);
    exfalso; Z.to_euclidean_division_equations; lia.
Qed.

Lemma lex_refl l : lex l l = Eq.
Proof. induction l as [|x l IH]; simpl; [done|]. by rewrite Z.compare_refl. Qed.

Lemma order_antisym a b : order a b = CompOpp (order b a).
Proof. apply String.compare_antisym. Qed.

Lemma text_le_order t u : text_le t u = match order (encodeTime t) (encodeTime u) with Gt => false | _ => true end.
Proof.
  reflexivity.
Qed.

Lemma fraction_dot w ns :
  0 < ns < 10 ^ Z.of_nat w → ∃ r, fraction w ns = String "." r.
Proof.
  revert ns. induction w as [|w IH]; intros ns Hns; [simpl in Hns; lia|]. simpl.
  destruct (Z.eqb_spec (ns mod 10) 0) as [Hz|]; [|eauto]. apply IH.
  rewrite Nat2Z.inj_succ, Z.pow_succ_r in Hns by lia.
  pose proof (Z.div_mod ns 10 ltac:(lia)). lia.
Qed.

(** In different seconds the comparison is right. *)
Lemma text_le_seconds t u :
  renderable t → renderable u → t / Second ≠ u / Second → text_le t u = (t <=? u).
Proof.
  intros Ht Hu Hne. rewrite text_le_order, order_encodeTime by done.
  destruct (Z.lt_total (t / Second) (u / Second)) as [Hlt|[|Hlt]]; [|done|].
  - rewrite (lex_fields_lt t u) by done. symmetry. apply Z.leb_le.
    unfold Second in *. Z.to_euclidean_division_equations. lia.
  - pose proof (order_encodeTime u t Hu Ht) as Ho. rewrite (lex_fields_lt u t) in Ho by done.
    rewrite <- order_encodeTime, order_antisym, Ho by done. symmetry. apply Z.leb_gt.
    unfold Second in *. Z.to_euclidean_division_equations. lia.
Qed.

(** A comparison is never off by a second or more. *)
Lemma text_le_slack t u :
  renderable t → renderable u →
  (t + Second ≤ u → text_le t u = true) ∧ (u + Second ≤ t → text_le t u = false).
Proof.
  intros Ht Hu. split; intros; (rewrite text_le_seconds; [|done..|]);
    [apply Z.leb_le| |apply Z.leb_gt|]; unfold Second in *; Z.to_euclidean_division_equations; lia.
Qed.

(** C40. The text comparison that the queries use for time columns agrees with
    the order of the times whenever they lie in different seconds, but it is
    wrong inside a second: a whole second compares greater than every later
    moment of that second, because the layout drops the zero fraction and "."
    sorts before "Z". *)
Theorem text_order_exact_up_to_seconds t u :
  renderable t → renderable u →
  (t / Second ≠ u / Second → text_le t u = (t <=? u)) ∧
  (t / Second = u / Second → t mod Second = 0 → u mod Second ≠ 0 →
     t < u ∧ text_le t u = false ∧ text_le u t = true).
Proof.
  intros Ht Hu. split; [by apply text_le_seconds|]. intros Hs Hz Hnz.
  pose proof (Z.mod_pos_bound u Second ltac:(done)) as Hb.
  assert (t < u) as Hlt.
  { pose proof (Z.div_mod t Second ltac:(done)). pose proof (Z.div_mod u Second ltac:(done)). lia. }
  assert (order (encodeTime u) (encodeTime t) = Lt) as Ho.
  { rewrite order_encodeTime by done. unfold fields. rewrite <- Hs, lex_refl, Hz.
    destruct (fraction_dot 9 (u mod Second)) as [r ->]; [unfold Second in *; simpl; lia|]. done. }
  rewrite !text_le_order, (order_antisym (encodeTime t)), Ho. done.
Qed.

Lemma text_order_exact_up_to_seconds_witness :
  renderable 0 ∧ renderable 500000000 ∧ text_le 0 500000000 = false.
Proof.
  assert (renderable 0) as H0 by (unfold renderable; vm_compute; split; [discriminate|reflexivity]).
  assert (renderable 500000000) as H1 by (unfold renderable; vm_compute; split; [discriminate|reflexivity]).
  split; [done|]. split; [done|].
  apply (text_order_exact_up_to_seconds 0 500000000 H0 H1); [reflexivity|reflexivity|discriminate].
Defined.
End TimeText.
