(* ===== verification/TimeParse.v ===== *)
(** * Reading times (time.Parse(time.RFC3339Nano, ..) of the stores and of
    src/internal/compose/update_snapshot.go)

    [time.Parse] for the layout [time.RFC3339Nano], character by character, and
    the proof that it reads back what [TimeText.encodeTime] writes, so that a
    row of a table holds the time that was stored. *)
From S2P Require Import Prelude GoStrings Netip TimeText.

Module TimeParse.
Import TimeText.
Local Open Scope Z_scope.
Notation chars := list_ascii_of_string.

Definition val (c : ascii) : Z := byte_of c - 48.
Definition expect (c : ascii) (l : list ascii) : option (list ascii) :=
  match l with a :: l' => if Ascii.eqb a c then Some l' else None | [] => None end.
(** One or two digits; exactly two if [fixed]. *)
Definition getnum (fixed : bool) (l : list ascii) : option (Z * list ascii) :=
  match l with
  | a :: l' =>
    if negb (is_digit a) then None
    else match l' with
    | b :: l'' => if is_digit b then Some (10 * val a + val b, l'') else if fixed then None else Some (val a, l')
    | [] => if fixed then None else Some (val a, [])
    end
  | [] => None
  end.
Definition inside (lo hi : Z) (x : option (Z * list ascii)) : option (Z * list ascii) :=
  '(z, l) ← x; if (lo <=? z) && (z <=? hi) then Some (z, l) else None.
Definition getYear (l : list ascii) : option (Z * list ascii) :=
  match l with
  | a :: b :: c :: d :: l' => z ← parse_digits 0 [a; b; c; d]; Some (z, l')
  | _ => None
  end.
Fixpoint digits (l : list ascii) : list ascii :=
  match l with c :: l' => if is_digit c then c :: digits l' else [] | [] => [] end.
(** The fraction of a second, if there is one; its tenth digit and those after
    it are dropped. *)
Definition getFraction (l : list ascii) : option (Z * list ascii) :=
  match l with
  | s :: c :: l' =>
    if (Ascii.eqb s "." || Ascii.eqb s ",") && is_digit c then
      let ds := digits (c :: l') in
      ns ← parse_digits 0 (take 9 ds);
      Some (ns * 10 ^ (9 - Z.of_nat (length (take 9 ds))), drop (length ds) (c :: l'))
    else Some (0, l)
  | _ => Some (0, l)
  end.
(** The offset from UTC in seconds. *)
Definition getZone (l : list ascii) : option (Z * list ascii) :=
  match l with
  | "Z"%char :: l' => Some (0, l')
  | s :: l' =>
    '(h, l1) ← getnum true l'; l2 ← expect ":" l1; '(m, l3) ← getnum true l2;
    if (24 <? h) || (60 <? m) then None
    else if Ascii.eqb s "+" then Some ((h * 60 + m) * 60, l3)
    else if Ascii.eqb s "-" then Some (- ((h * 60 + m) * 60), l3) else None
  | [] => None
  end.
Definition daysIn (m y : Z) : Z := if m =? 12 then 31 else days_before_month (leap y) (m + 1) - days_before_month (leap y) m.
Definition Date (y m d hour min sec ns : Z) : time :=
  ((days_before y + days_before_month (leap y) m + (d - 1)) * 86400 + hour * 3600 + min * 60 + sec) * Second + ns.
Definition Parse (s : string) : option time :=
  '(y, l) ← getYear (chars s); l ← expect "-" l;
  '(m, l) ← inside 1 12 (getnum true l); l ← expect "-" l;
  '(d, l) ← getnum true l; l ← expect "T" l;
  '(hour, l) ← inside 0 23 (getnum false l); l ← expect ":" l;
  '(min, l) ← inside 0 59 (getnum true l); l ← expect ":" l;
  '(sec, l) ← inside 0 59 (getnum true l);
  '(ns, l) ← getFraction l;
  '(zone, l) ← getZone l;
  if negb (bool_decide (l = [])) || (d <? 1) || (daysIn m y <? d) then None
  else Some (Date y m d hour min sec ns - zone * Second).

Example parse_docker : Parse "2024-02-29T23:59:59.123456789Z" = Some ((days_before 2024 + 59) * 86400 * Second + 86399 * Second + 123456789).
Proof. vm_compute. reflexivity. Qed.
Example parse_offset : Parse "2024-03-01T01:00:00,5+01:00" = Some ((days_before 2024 + 60) * 86400 * Second + 500000000).
Proof. vm_compute. reflexivity. Qed.
Example parse_leap : Parse "2023-02-29T00:00:00Z" = None.
Proof. vm_compute. reflexivity. Qed.

(** ** Digits *)
Lemma chars_app a b : chars (a ++ b)%string = chars a ++ chars b.
Proof. induction a as [|x a IH]; [done|]. change (x :: chars (a ++ b)%string = x :: chars a ++ chars b). by rewrite IH. Qed.
Lemma byte_digit z : byte_of (digit z) = 48 + z mod 10.
Proof.
  unfold byte_of, digit. pose proof (Z.mod_pos_bound z 10 ltac:(lia)).
  rewrite <-N_nat_Z. change (N.to_nat (N_of_ascii ?c)) with (nat_of_ascii c). rewrite nat_ascii_embedding by lia. lia.
Qed.
Lemma val_digit z : val (digit z) = z mod 10.
Proof. unfold val. rewrite byte_digit. lia. Qed.
Lemma is_digit_digit z : is_digit (digit z) = true.
Proof. unfold is_digit, in_range. rewrite byte_digit. pose proof (Z.mod_pos_bound z 10 ltac:(lia)). apply andb_true_intro. lia. Qed.
Lemma chars_pad_S w z l : chars (pad (S w) z ++ l)%string = chars (pad w (z / 10)) ++ digit z :: chars l.
Proof. cbn [pad]. rewrite !chars_app, <-(assoc_L (++)). done. Qed.
Lemma pad_digits w : ∀ z, Forall (λ c, is_digit c = true) (chars (pad w z)) ∧ length (chars (pad w z)) = w.
Proof.
  induction w as [|w IH]; intros z; [by repeat constructor|]. cbn [pad]. rewrite chars_app. destruct (IH (z / 10)) as [H1 H2].
  split; [|rewrite length_app, H2; simpl; lia]. apply Forall_app. split; [done|]. repeat constructor. apply is_digit_digit.
Qed.
Lemma parse_digits_app l : ∀ acc k x, parse_digits acc l = Some x → parse_digits acc (l ++ k) = parse_digits x k.
Proof. induction l as [|c l IH]; intros acc k x; simpl; [by intros [= ->]|]. destruct (is_digit c); [apply IH|done]. Qed.
Lemma parse_pad w : ∀ z, 0 ≤ z < 10 ^ Z.of_nat w → parse_digits 0 (chars (pad w z)) = Some z.
Proof.
  induction w as [|w IH]; intros z Hz; [simpl in Hz; simpl; f_equal; lia|]. cbn [pad]. rewrite chars_app.
  rewrite Nat2Z.inj_succ, Z.pow_succ_r in Hz by lia.
  rewrite (parse_digits_app _ _ _ (z / 10)) by (apply IH; split; [apply Z.div_pos|apply Z.div_lt_upper_bound]; lia).
  change (parse_digits ?x (chars (String ?c ""))) with (if is_digit c then Some (x * 10 + (byte_of c - 48)) else None).
  rewrite is_digit_digit, byte_digit. f_equal. pose proof (Z.div_mod z 10 ltac:(lia)). lia.
Qed.
Lemma getnum_pad fixed z l : 0 ≤ z < 100 → getnum fixed (chars (pad 2 z ++ l)) = Some (z, chars l).
Proof.
  intros Hz. rewrite !chars_pad_S. cbn [pad chars app]. rewrite chars_app. cbn [pad chars app].
  unfold getnum. rewrite !is_digit_digit. cbn [negb]. rewrite !val_digit. f_equal. f_equal.
  rewrite (Z.mod_small (z / 10)) by (split; [apply Z.div_pos|apply Z.div_lt_upper_bound]; lia).
  pose proof (Z.div_mod z 10 ltac:(lia)). lia.
Qed.
Lemma inside_ok lo hi z l : lo ≤ z ≤ hi → inside lo hi (Some (z, l)) = Some (z, l).
Proof. intros H. unfold inside. simpl. rewrite (proj2 (Z.leb_le _ _)), (proj2 (Z.leb_le _ _)) by lia. done. Qed.
Lemma expect_ok c l : expect c (chars (String c l)) = Some (chars l).
Proof. simpl. by rewrite Ascii.eqb_refl. Qed.
Lemma getYear_pad z l : 0 ≤ z < 10000 → getYear (chars (pad 4 z ++ l)) = Some (z, chars l).
Proof.
  intros Hz. pose proof (parse_pad 4 z Hz) as Hp. rewrite chars_app. destruct (pad_digits 4 z) as [_ Hl].
  destruct (chars (pad 4 z)) as [|a [|b [|c [|d [|]]]]]; try done. simpl app. unfold getYear. by rewrite Hp.
Qed.
Lemma digits_app l k : Forall (λ c, is_digit c = true) l → (∀ c k', k = c :: k' → is_digit c = false) → digits (l ++ k) = l.
Proof.
  intros Hl Hk. induction Hl as [|c l Hc _ IH]; simpl; [|by rewrite Hc, IH].
  destruct k as [|c k]; [done|]. simpl. by rewrite (Hk c k).
Qed.
Lemma fraction_spec w : ∀ ns, 0 ≤ ns < 10 ^ Z.of_nat w →
  (ns = 0 ∧ fraction w ns = ""%string) ∨
  ∃ v k, (k < w)%nat ∧ fraction w ns = String "." (pad (S k) v) ∧ 0 ≤ v < 10 ^ Z.of_nat (S k) ∧ ns = v * 10 ^ (Z.of_nat w - Z.of_nat (S k)).
Proof.
  induction w as [|w IH]; intros ns Hns; [left; simpl in Hns; split; [lia|done]|]. cbn [fraction].
  destruct (Z.eqb_spec (ns mod 10) 0) as [Hm|Hm].
  - pose proof (Z.div_mod ns 10 ltac:(lia)) as Hd. rewrite Nat2Z.inj_succ, Z.pow_succ_r in Hns by lia.
    destruct (IH (ns / 10)) as [[H0 ->]|(v & k & Hk & -> & Hv & He)]; [split; [apply Z.div_pos|apply Z.div_lt_upper_bound]; lia|left; split; [lia|done]|].
    right. exists v, k. split_and!; [lia|done|lia|lia|]. rewrite Hd, Hm, He.
    replace (Z.of_nat (S w) - Z.of_nat (S k)) with (Z.succ (Z.of_nat w - Z.of_nat (S k))) by lia.
    rewrite Z.pow_succ_r by lia. lia.
  - right. exists ns, w. split_and!; [lia|done|lia|lia|]. by rewrite Z.sub_diag, Z.mul_1_r.
Qed.
Lemma getFraction_fraction ns : 0 ≤ ns < Second → getFraction (chars (fraction 9 ns ++ "Z")) = Some (ns, ["Z"%char]).
Proof.
  intros Hns. destruct (fraction_spec 9 ns Hns) as [[-> ->]|(v & k & Hk & -> & Hv & He)]; [done|].
  change (chars (String "." (pad (S k) v) ++ "Z")%string) with ("."%char :: chars (pad (S k) v ++ "Z")%string). rewrite chars_app.
  destruct (pad_digits (S k) v) as [Hd Hl]. pose proof (parse_pad (S k) v Hv) as Hp.
  assert (digits (chars (pad (S k) v) ++ chars "Z") = chars (pad (S k) v)) as Hds by (apply digits_app; [done|by intros ? ? [= <- _]]).
  destruct (chars (pad (S k) v)) as [|c l] eqn:El; [done|]. simpl app in *. unfold getFraction.
  assert (is_digit c = true) as Hc by by apply Forall_inv in Hd. rewrite Hc. cbn [Ascii.eqb orb andb].
  change (Ascii.eqb "." "." || Ascii.eqb "." ",") with true. cbn [andb]. rewrite Hds.
  rewrite take_ge by (rewrite Hl; lia). rewrite Hp. cbn [mbind option_bind]. rewrite Hl.
  rewrite He. change (Z.of_nat 9) with 9. do 2 f_equal. rewrite app_comm_cons, <-Hl. apply drop_app_length.
Qed.

(** ** The round trip *)
Lemma month_day (l : bool) yd : 0 ≤ yd < 365 + (if l then 1 else 0) →
  days_before_month l (month_of l yd) ≤ yd ∧ (month_of l yd = 12 ∨ yd < days_before_month l (month_of l yd + 1)).
Proof.
  intros H. unfold month_of.
  repeat match goal with |- context [days_before_month l ?m <=? yd] =>
    destruct (Z.leb_spec (days_before_month l m) yd) as [?H|?H];
    [split; [done|]; first [left; done|right; assumption]|] end.
  split; [destruct l; unfold days_before_month; simpl; lia|right; assumption].
Qed.
Lemma year_days y : days_before (y + 1) - days_before y = 365 + (if leap y then 1 else 0).
Proof.
  unfold days_before, leap. destruct (Z.eqb_spec (y mod 4) 0), (Z.eqb_spec (y mod 100) 0), (Z.eqb_spec (y mod 400) 0); simpl;
    Z.to_euclidean_division_equations; lia.
Qed.
(** C37. What the stores write for a time is read back as that very time: for
    every time between the years 1 and 9999, to the nanosecond. *)
Theorem stored_times_are_read_back t : renderable t → Parse (encodeTime t) = Some t.
Proof.
  intros Ht. pose proof (renderable_year t Ht) as Hy. pose proof Ht as Hsec%renderable_seconds.
  pose proof (year_of_spec _ (proj1 Hsec)) as Hyd. unfold encodeTime. cbv zeta.
  set (y := year_of (t / Second / 86400)) in *. pose proof (year_days y) as Hlen.
  set (yd := t / Second / 86400 - days_before y) in *.
  pose proof (month_day (leap y) yd ltac:(lia)) as [Hm1 Hm2]. pose proof (month_of_range (leap y) yd) as Hmr.
  set (m := month_of (leap y) yd) in *. set (s := (t / Second) mod 86400).
  assert (0 ≤ s < 86400) as Hs by (apply Z.mod_pos_bound; lia).
  assert (0 ≤ s / 3600 ≤ 23 ∧ 0 ≤ s mod 3600 / 60 ≤ 59 ∧ 0 ≤ s mod 60 ≤ 59 ∧ s / 3600 * 3600 + s mod 3600 / 60 * 60 + s mod 60 = s)
    as (Hh & Hmin & Hss & Hsum) by (Z.to_euclidean_division_equations; lia).
  assert (1 ≤ yd - days_before_month (leap y) m + 1 ≤ daysIn m y) as Hd.
  { unfold daysIn. destruct (Z.eqb_spec m 12) as [E|E]; [|lia]. rewrite E in Hm1 |- *. destruct (leap y); cbn in Hlen, Hm1 |- *; lia. }
  assert (daysIn m y < 100) as Hd2.
  { unfold daysIn, days_before_month. destruct (leap y); repeat case_match; lia. }
  unfold Parse. rewrite appendInt_pad by (simpl; lia). rewrite getYear_pad by lia. cbn [mbind option_bind].
  rewrite expect_ok. cbn [mbind option_bind]. rewrite getnum_pad, inside_ok by lia. cbn [mbind option_bind].
  rewrite expect_ok. cbn [mbind option_bind]. rewrite getnum_pad by lia. cbn [mbind option_bind].
  rewrite expect_ok. cbn [mbind option_bind]. rewrite getnum_pad, inside_ok by lia. cbn [mbind option_bind].
  rewrite expect_ok. cbn [mbind option_bind]. rewrite getnum_pad, inside_ok by lia. cbn [mbind option_bind].
  rewrite expect_ok. cbn [mbind option_bind]. rewrite getnum_pad, inside_ok by lia. cbn [mbind option_bind].
  rewrite getFraction_fraction by (apply Z.mod_pos_bound; done). cbn [mbind option_bind getZone].
  rewrite bool_decide_true by done. cbn [negb orb]. rewrite (proj2 (Z.ltb_ge _ _)), (proj2 (Z.ltb_ge _ _)) by lia. cbn [orb].
  f_equal. unfold Date. replace (yd - days_before_month (leap y) m + 1 - 1) with (yd - days_before_month (leap y) m) by lia.
  pose proof (Z.div_mod t Second ltac:(done)) as E1. pose proof (Z.div_mod (t / Second) 86400 ltac:(lia)) as E2. fold s in E2.
  unfold yd. lia.
Qed.
Lemma stored_times_are_read_back_witness : Parse (encodeTime (63844588799 * Second + 120000000)) = Some (63844588799 * Second + 120000000).
Proof. apply stored_times_are_read_back. unfold renderable. split; [discriminate|reflexivity]. Defined.
End TimeParse.
