(* ===== verification/Alerts.v ===== *)
(** * Alerts (src/internal/alert, src/internal/sqlite/alert_store.go)

    An alert is the current state of one problem (a stack, a problem, a
    target); its occurrences are the identifiers already counted; its events
    are its history.  The three tables are the state of the store, and every
    exported operation runs in one transaction. *)
From S2P Require Import Prelude GoStrings TimeText.

(** ** The data (alert/types.go) *)
Module Alert.

Record Key := mkKey { StackID : string; Problem : string; Target : string }.
#[export] Instance Key_eq_dec : EqDecision Key.
Proof. solve_decision. Defined.

Record Alert := mkAlert {
  ID : string;
  AKey : Key;
  StackName : string;
  Revision : Z;
  Episode : Z;
  Count : Z;
  Summary : string;
  OperationID : string;
  FirstAt : time;
  LatestAt : time;
  AcknowledgedAt : option time;
  AcknowledgedBy : string;
  ResolvedAt : option time;
  ResolvedBy : string;
  Resolution : string;
  CanResolveManually : bool;
}.
#[export] Instance Alert_eq_dec : EqDecision Alert.
Proof. solve_decision. Defined.

Record Change := mkChange {
  CKind : string;
  CKey : Key;
  CStackName : string;
  OccurrenceID : string;
  COperationID : string;
  CSummary : string;
  CExpectedRevision : Z;
  ObservedAt : time;
  CCanResolveManually : bool;
}.

Record Mutation := mkMutation { MID : string; MExpectedRevision : Z; ActorID : string; Note : string }.
Record Filter := mkFilter { FStackID : string; View : string; Limit : Z; Offset : Z }.
Record Page := mkPage { Items : list Alert; UnacknowledgedCount : Z; Total : Z }.
Record Event := mkEvent {
  EID : string;
  AlertID : string;
  EEpisode : Z;
  EKind : string;
  EActorID : string;
  At : time;
  ENote : string;
  EOperationID : string;
}.

(** ** Checks (alert/alert.go) *)
Definition ValidateChange (c : Change) : result unit :=
  _ ← reject_if (negb (CKind c =? "failure")%string && negb (CKind c =? "recovery")%string) Alert_ErrInvalid;
  _ ← reject_if ((TrimSpace (StackID (CKey c)) =? "")%string || (TrimSpace (Problem (CKey c)) =? "")%string
                 || (TrimSpace (Target (CKey c)) =? "")%string || (OccurrenceID c =? "")%string
                 || IsZero (ObservedAt c)) Alert_ErrInvalid;
  _ ← reject_if ((4096 <? len (CSummary c))%Z || negb (ValidString (CSummary c))
                 || (512 <? len (OccurrenceID c))%Z || (512 <? len (Target (CKey c)))%Z
                 || (512 <? len (CStackName c))%Z) Alert_ErrInvalid;
  reject_if ((CKind c =? "recovery")%string && (CExpectedRevision c <? 1)%Z) Alert_ErrInvalid.

Definition ValidateMutation (m : Mutation) : result unit :=
  reject_if ((MID m =? "")%string || (ActorID m =? "")%string || (MExpectedRevision m <? 1)%Z
             || (1024 <? len (Note m))%Z || negb (ValidString (Note m))) Alert_ErrInvalid.

Definition NormalizeFilter (f : Filter) : result Filter :=
  let view := if (View f =? "")%string then "attention"%string else View f in
  _ ← reject_if (negb ((view =? "attention") || (view =? "open") || (view =? "unacknowledged")
                       || (view =? "all"))%string) Alert_ErrInvalid;
  let limit := if (Limit f <=? 0)%Z then 50%Z else Limit f in
  let limit := if (200 <? limit)%Z then 200%Z else limit in
  _ ← reject_if (Offset f <? 0)%Z Alert_ErrInvalid;
  Ok (mkFilter (FStackID f) view limit (Offset f)).

(** ** The tables (migrations/00005_alerts.sql) *)
Record AlertDB := mkAlertDB {
  alerts : gmap string Alert;                  (* by id *)
  occurrences : gset (string * string);        (* alert id, occurrence id *)
  events : list Event;                         (* by sequence, oldest first *)
}.
Definition emptyAlertDB : AlertDB := mkAlertDB ∅ ∅ [].

(** The row with a given key (UNIQUE(stack_id,problem,target)). *)
Definition withKey (k : Key) (db : AlertDB) : option Alert :=
  head (filter (λ a, AKey a = k) (map_to_list (alerts db)).*2).

End Alert.

(** ** The store (sqlite/alert_store.go) *)
Module AlertStore.
Import Alert TimeText.

Section store.
Context `{W : World}.

Definition Find (key : Key) : M AlertDB Alert :=
  call (λ db, match withKey key db with Some a => Ok (a, db) | None => Err Alert_ErrNotFound end).
Definition Get (id : string) : M AlertDB Alert :=
  call (λ db, match alerts db !! id with Some a => Ok (a, db) | None => Err Alert_ErrNotFound end).

Definition alertID : M AlertDB string := r ← rand_read; mret ("alt_" ++ r)%string.

(** INSERT .. ON CONFLICT(id) DO UPDATE SET every column but the id and the key. *)
Definition saveAlert (a : Alert) : M AlertDB unit :=
  call (λ db,
    let put a' := mkAlertDB (<[ID a := a']> (alerts db)) (occurrences db) (events db) in
    match alerts db !! ID a with
    | Some old =>
        Ok (tt, put (mkAlert (ID a) (AKey old) (StackName a) (Revision a) (Episode a) (Count a) (Summary a)
                       (OperationID a) (FirstAt a) (LatestAt a) (AcknowledgedAt a) (AcknowledgedBy a)
                       (ResolvedAt a) (ResolvedBy a) (Resolution a) (CanResolveManually a)))
    | None => if withKey (AKey a) db then Err ErrConstraint else Ok (tt, put a)
    end).

Definition recordAlertEvent (a : Alert) (kind actor note operation : string) (at_ : time) : M AlertDB unit :=
  id ← alertID;
  call (λ db,
    if bool_decide (id ∈ EID <$> events db) then Err ErrConstraint
    else if alerts db !! ID a
    then Ok (tt, mkAlertDB (alerts db) (occurrences db)
                   (events db ++ [mkEvent id (ID a) (Episode a) kind actor at_ note operation]))
    else Err ErrConstraint).

Definition insertOccurrence (id occurrence : string) : M AlertDB unit :=
  call (λ db,
    if bool_decide ((id, occurrence) ∈ occurrences db) then Err ErrConstraint
    else if alerts db !! id
    then Ok (tt, mkAlertDB (alerts db) ({[(id, occurrence)]} ∪ occurrences db) (events db))
    else Err ErrConstraint).

Definition seen (id occurrence : string) : M AlertDB bool :=
  call (λ db, Ok (bool_decide ((id, occurrence) ∈ occurrences db), db)).

(** What a change makes of the alert: [None] when it changes nothing. *)
Definition transition (a : Alert) (c : Change) : result (option Alert) :=
  let at_ := ObservedAt c in
  if (CKind c =? "recovery")%string then
    _ ← reject_if (negb (Revision a =? CExpectedRevision c)%Z) Alert_ErrConflict;
    Ok (if ResolvedAt a then None
        else Some (mkAlert (ID a) (AKey a) (StackName a) (Revision a + 1) (Episode a) (Count a) (Summary a)
                     (OperationID a) (FirstAt a) (if After at_ (LatestAt a) then at_ else LatestAt a)
                     (AcknowledgedAt a) (AcknowledgedBy a) (Some at_) "" "Verified recovery"
                     (CanResolveManually a)))
  else
    let a := if ResolvedAt a
             then mkAlert (ID a) (AKey a) (StackName a) (Revision a) (Episode a + 1) 0 (Summary a)
                    (OperationID a) at_ (LatestAt a) None "" None "" "" (CanResolveManually a)
             else a in
    Ok (Some (mkAlert (ID a) (AKey a) (if (CStackName c =? "")%string then StackName a else CStackName c)
                (Revision a + 1) (Episode a) (Count a + 1) (CSummary c) (COperationID c) (FirstAt a)
                (if After at_ (LatestAt a) then at_ else LatestAt a)
                (AcknowledgedAt a) (AcknowledgedBy a) (ResolvedAt a) (ResolvedBy a) (Resolution a)
                (CCanResolveManually c))).

Definition freshAlert (id : string) (c : Change) : Alert :=
  mkAlert id (CKey c) "" 0 1 0 "" "" (ObservedAt c) zeroTime None "" None "" "" false.

(** Save what a change makes of an alert, its occurrence and its event. *)
Definition storeChange (c : Change) (a : Alert) : M AlertDB (list Alert) :=
  next ← lift (transition a c);
  match next with
  | None => mret []
  | Some a' =>
    _ ← saveAlert a';
    _ ← insertOccurrence (ID a') (OccurrenceID c);
    _ ← recordAlertEvent a' (CKind c) "" (CSummary c) (COperationID c) (ObservedAt c);
    mret [a']
  end.

(** The body of the loop over the changes. *)
Definition applyChange (c : Change) : M AlertDB (list Alert) :=
  _ ← lift (ValidateChange c);
  found ← call (λ db, Ok (withKey (CKey c) db, db));
  match found with
  | None =>
    if (CKind c =? "recovery")%string then mret []
    else id ← alertID; storeChange c (freshAlert id c)
  | Some a =>
    exists_ ← seen (ID a) (OccurrenceID c);
    if (exists_ : bool) then mret [a] else storeChange c a
  end.
Fixpoint applyAlertChanges (changes : list Change) : M AlertDB (list Alert) :=
  match changes with
  | [] => mret []
  | c :: changes' => r ← applyChange c; rs ← applyAlertChanges changes'; mret (r ++ rs)
  end.

Definition Apply (changes : list Change) : M AlertDB (list Alert) :=
  atomically (applyAlertChanges changes).

(** [mutate]: the acknowledgement or manual resolution of one alert. *)
Definition mutation (a : Alert) (m : Mutation) (resolve : bool) (now : time) : result Alert :=
  if resolve then
    _ ← reject_if (negb (CanResolveManually a)) Alert_ErrManualResolutionUnavailable;
    _ ← reject_if (if ResolvedAt a then true else false) Alert_ErrConflict;
    Ok (mkAlert (ID a) (AKey a) (StackName a) (Revision a + 1) (Episode a) (Count a) (Summary a)
          (OperationID a) (FirstAt a) (LatestAt a) (AcknowledgedAt a) (AcknowledgedBy a)
          (Some now) (ActorID m) (Note m) (CanResolveManually a))
  else
    _ ← reject_if (if AcknowledgedAt a then true else false) Alert_ErrConflict;
    Ok (mkAlert (ID a) (AKey a) (StackName a) (Revision a + 1) (Episode a) (Count a) (Summary a)
          (OperationID a) (FirstAt a) (LatestAt a) (Some now) (ActorID m)
          (ResolvedAt a) (ResolvedBy a) (Resolution a) (CanResolveManually a)).

Definition mutateTx (m : Mutation) (resolve : bool) : M AlertDB Alert :=
  a ← Get (MID m);
  _ ← guard_not (negb (Revision a =? MExpectedRevision m)%Z) Alert_ErrConflict;
  t ← now;
  a' ← lift (mutation a m resolve t);
  _ ← saveAlert a';
  _ ← recordAlertEvent a' (if resolve then "resolved" else "acknowledged")%string (ActorID m) (Note m) "" t;
  mret a'.
Definition mutate (m : Mutation) (resolve : bool) : M AlertDB Alert :=
  _ ← lift (ValidateMutation m);
  atomically (mutateTx m resolve).
Definition Acknowledge (m : Mutation) : M AlertDB Alert := mutate m false.
Definition Resolve (m : Mutation) : M AlertDB Alert := mutate m true.

(** The recoveries that still refer to the current revision. *)
Definition current (db : AlertDB) (c : Change) : bool :=
  if (CKind c =? "recovery")%string
  then match withKey (CKey c) db with Some a => (Revision a =? CExpectedRevision c)%Z | None => false end
  else true.
Fixpoint currentAlertChanges (input : list Change) : M AlertDB (list Change) :=
  match input with
  | [] => mret []
  | c :: input' =>
    keep ← (if (CKind c =? "recovery")%string then call (λ db, Ok (current db c, db)) else mret true);
    rest ← currentAlertChanges input';
    mret (if keep : bool then c :: rest else rest)
  end.

(** [ORDER BY latest_at DESC,id DESC]; the times are compared as text. *)
Definition latest_first (a b : Alert) : Prop :=
  if bool_decide (encodeTime (LatestAt a) = encodeTime (LatestAt b))
  then string_le (ID b) (ID a) else TimeText.text_le (LatestAt b) (LatestAt a) = true.
#[export] Instance latest_first_dec : RelDecision latest_first.
Proof. intros a b. unfold latest_first. case_bool_decide; apply _. Defined.

Definition inView (f : Filter) (a : Alert) : bool :=
  ((FStackID f =? "") || (StackID (AKey a) =? FStackID f))%string &&
  (if (View f =? "attention")%string then bool_decide (ResolvedAt a = None ∨ AcknowledgedAt a = None)
   else if (View f =? "open")%string then bool_decide (ResolvedAt a = None)
   else if (View f =? "unacknowledged")%string then bool_decide (AcknowledgedAt a = None)
   else true).
Definition rows (db : AlertDB) : list Alert := (map_to_list (alerts db)).*2.
Definition page {A} (limit offset : Z) (l : list A) : list A :=
  take (Z.to_nat limit) (drop (Z.to_nat offset) l).

Definition List (filter_ : Filter) : M AlertDB Page :=
  f ← lift (NormalizeFilter filter_);
  atomically (
    unacknowledged ← call (λ db,
      Ok (Z.of_nat (length (filter (λ a, AcknowledgedAt a = None) (rows db))), db));
    total ← call (λ db, Ok (Z.of_nat (length (filter (λ a, inView f a = true) (rows db))), db));
    items ← call (λ db, Ok (page (Limit f) (Offset f)
      (merge_sort latest_first (filter (λ a, inView f a = true) (rows db))), db));
    mret (mkPage items unacknowledged total)).

Definition History (id : string) (limit offset : Z) : M AlertDB (list Event) :=
  f ← lift (NormalizeFilter (mkFilter "" "" limit offset));
  _ ← Get id;
  call (λ db, Ok (page (Limit f) (Offset f) (reverse (filter (λ e, AlertID e = id) (events db))), db)).
End store.

(** ** The service (alert/alert.go): it publishes what the store committed *)
Section service.
Context `{W : World}.
Definition publishing (m : M AlertDB Alert) : M (AlertDB * list Alert) Alert := λ '(db, published) n,
  match m db n with
  | (Ok a, (db', n')) => (Ok a, ((db', published ++ [a]), n'))
  | (Err e, (db', n')) => (Err e, ((db', published), n'))
  end.
Definition ServiceAcknowledge (m : Mutation) : M (AlertDB * list Alert) Alert := publishing (Acknowledge m).
Definition ServiceResolve (m : Mutation) : M (AlertDB * list Alert) Alert := publishing (Resolve m).
End service.
End AlertStore.

(** ** The history explains every alert *)
Module AlertLaws.
Import Alert AlertStore.

(** The events of one alert, and those of its current episode. *)
Definition history (id : string) (evs : list Event) : list Event := filter (λ e, AlertID e = id) evs.
Definition episode (n : Z) (evs : list Event) : list Event := filter (λ e, EEpisode e = n) evs.
Definition failures (evs : list Event) : list Event := filter (λ e, EKind e = "failure"%string) evs.

(** An alert agrees with its events: the revision counts them all, the count
    the failures of the current episode; it is resolved (acknowledged) exactly
    when the current episode has such an event. *)
Record consistent (evs : list Event) (a : Alert) : Prop := {
  c_revision : Revision a = Z.of_nat (length evs);
  c_episode : (1 ≤ Episode a)%Z;
  c_past : Forall (λ e, 1 ≤ EEpisode e ≤ Episode a)%Z evs;
  c_count : Count a = Z.of_nat (length (failures (episode (Episode a) evs)));
  c_resolved : is_Some (ResolvedAt a) ↔
    Exists (λ e, EKind e = "recovery" ∨ EKind e = "resolved")%string (episode (Episode a) evs);
  c_acknowledged : is_Some (AcknowledgedAt a) ↔
    Exists (λ e, EKind e = "acknowledged")%string (episode (Episode a) evs);
}.

Record Inv (db : AlertDB) : Prop := {
  inv_id : ∀ i a, alerts db !! i = Some a → ID a = i;
  inv_key : ∀ a b i j, alerts db !! i = Some a → alerts db !! j = Some b → AKey a = AKey b → i = j;
  inv_consistent : ∀ i a, alerts db !! i = Some a → consistent (history i (events db)) a;
  inv_counted : ∀ i a, alerts db !! i = Some a → (1 ≤ Count a)%Z;
  inv_events : ∀ e, e ∈ events db → is_Some (alerts db !! AlertID e);
  inv_occurrences : ∀ i o, (i, o) ∈ occurrences db → is_Some (alerts db !! i);
  inv_unique : NoDup (EID <$> events db);
}.

Lemma episode_snoc n evs e :
  episode n (evs ++ [e]) = episode n evs ++ (if decide (EEpisode e = n) then [e] else []).
Proof. unfold episode. by rewrite filter_app, filter_cons, filter_nil. Qed.
Lemma failures_snoc evs e :
  failures (evs ++ [e]) = failures evs ++ (if decide (EKind e = "failure"%string) then [e] else []).
Proof. unfold failures. by rewrite filter_app, filter_cons, filter_nil. Qed.
Lemma history_snoc i evs e :
  history i (evs ++ [e]) = history i evs ++ (if decide (AlertID e = i) then [e] else []).
Proof. unfold history. by rewrite filter_app, filter_cons, filter_nil. Qed.
Lemma episode_future n evs : Forall (λ e, 1 ≤ EEpisode e ≤ n)%Z evs → episode (n + 1) evs = [].
Proof.
  induction 1 as [|e evs He _ IH]; [done|]. unfold episode in *.
  rewrite filter_cons, decide_False by lia. done.
Qed.

Lemma consistent_fresh id c : consistent [] (freshAlert id c).
Proof.
  constructor; simpl; try done; try lia; split; intros H; try (by inversion H); by destruct H.
Qed.

(** A new event of the current episode. *)
Lemma consistent_snoc evs a a' e :
  consistent evs a → EEpisode e = Episode a → Episode a' = Episode a →
  Revision a' = (Revision a + 1)%Z →
  Count a' = (Count a + if decide (EKind e = "failure"%string) then 1 else 0)%Z →
  (is_Some (ResolvedAt a') ↔ is_Some (ResolvedAt a) ∨ EKind e = "recovery"%string ∨ EKind e = "resolved"%string) →
  (is_Some (AcknowledgedAt a') ↔ is_Some (AcknowledgedAt a) ∨ EKind e = "acknowledged"%string) →
  consistent (evs ++ [e]) a'.
Proof.
  intros [] He Ha Hr Hc Hres Hack.
  constructor; rewrite ?Ha, ?episode_snoc, ?decide_True by done.
  - rewrite length_app. simpl. lia.
  - done.
  - apply Forall_app. split; [done|]. constructor; [lia|constructor].
  - rewrite failures_snoc, length_app, Hc, c_count0. case_decide; simpl; lia.
  - rewrite Hres, c_resolved0, Exists_app, Exists_cons, Exists_nil. naive_solver.
  - rewrite Hack, c_acknowledged0, Exists_app, Exists_cons, Exists_nil. naive_solver.
Qed.

(** The first event of a new episode is a failure. *)
Lemma consistent_reopen evs a a' e :
  consistent evs a → EEpisode e = (Episode a + 1)%Z → Episode a' = (Episode a + 1)%Z →
  Revision a' = (Revision a + 1)%Z → EKind e = "failure"%string → Count a' = 1%Z →
  ResolvedAt a' = None → AcknowledgedAt a' = None → consistent (evs ++ [e]) a'.
Proof.
  intros [] He Ha Hr Hk Hc Hres Hack.
  constructor; rewrite ?Ha, ?episode_snoc, ?decide_True, ?(episode_future _ _ c_past0) by done.
  - rewrite length_app. simpl. lia.
  - lia.
  - apply Forall_app. split; [|constructor; [lia|constructor]].
    eapply Forall_impl; [exact c_past0|]. simpl. intros; lia.
  - simpl. unfold failures. by rewrite filter_cons, decide_True.
  - simpl. rewrite Hres, Exists_cons, Exists_nil, Hk. split; [by intros [? ?]|naive_solver].
  - simpl. rewrite Hack, Exists_cons, Exists_nil, Hk. split; [by intros [? ?]|naive_solver].
Qed.

Definition changeEvent (id : string) (c : Change) (a : Alert) : Event :=
  mkEvent id (ID a) (Episode a) (CKind c) "" (ObservedAt c) (CSummary c) (COperationID c).

Lemma ValidateChange_kind c u : ValidateChange c = Ok u → CKind c = "failure"%string ∨ CKind c = "recovery"%string.
Proof.
  intros (? & H & _)%result_bind_ok. apply reject_if_ok in H.
  destruct (String.eqb_spec (CKind c) "failure"); [auto|].
  destruct (String.eqb_spec (CKind c) "recovery"); [auto|done].
Qed.

Lemma transition_consistent evs a c a' id u :
  ValidateChange c = Ok u → transition a c = Ok (Some a') → consistent evs a →
  consistent (evs ++ [changeEvent id c a']) a' ∧ ID a' = ID a ∧ AKey a' = AKey a ∧
  Revision a' = (Revision a + 1)%Z ∧
  (CKind c = "failure"%string ∨ (1 ≤ Count a)%Z → 1 ≤ Count a')%Z.
Proof.
  intros Hk%ValidateChange_kind Ht Hc. unfold transition in Ht.
  destruct (String.eqb_spec (CKind c) "recovery") as [Hr|Hr].
  - apply result_bind_ok in Ht as (? & _ & Ht). destruct (ResolvedAt a) eqn:Er; [done|]. simplify_eq.
    split; [|simpl; split_and!; [done..|intros [Hf|]; [congruence|done]]]. eapply consistent_snoc; simpl; rewrite ?Hr; simpl; try done; try lia.
    + rewrite Er. split; [auto|by eauto].
    + split; [auto|]. intros [|]; [done|]. congruence.
  - destruct Hk as [Hk|]; [|done].
    assert (0 ≤ Count a)%Z by (rewrite (c_count _ _ Hc); lia).
    destruct (ResolvedAt a) as [r|] eqn:Er; simplify_eq; (split; [|simpl; split_and!; [done..|lia]]).
    + eapply consistent_reopen; simpl; done.
    + eapply consistent_snoc; simpl; rewrite ?Hk; simpl; try done; try lia.
      * split; [auto|]. intros [|[|]]; congruence.
      * split; [auto|]. intros [|]; [done|]. congruence.
Qed.

Lemma mutation_consistent evs a m b now a' id note :
  mutation a m b now = Ok a' → consistent evs a →
  consistent (evs ++ [mkEvent id (ID a') (Episode a') (if b then "resolved" else "acknowledged")%string
                       (ActorID m) now note ""]) a' ∧
  ID a' = ID a ∧ AKey a' = AKey a ∧ Revision a' = (Revision a + 1)%Z ∧ Count a' = Count a.
Proof.
  intros Hm Hc. unfold mutation in Hm.
  destruct b; repeat (apply result_bind_ok in Hm as (? & _ & Hm)); simplify_eq;
    (split; [|done]); eapply consistent_snoc; simpl; try done; try lia;
    rewrite ?is_Some_alt; (split; [naive_solver|]); intros; destruct_or?; try done; try congruence.
Qed.

(** *** The tables *)
Lemma withKey_Some db k a :
  withKey k db = Some a → (∃ i, alerts db !! i = Some a) ∧ AKey a = k.
Proof.
  intros Hw. unfold withKey in Hw. apply head_Some_elem_of in Hw.
  apply list_elem_of_filter in Hw as [Hk Hin]. split; [|done].
  apply list_elem_of_fmap in Hin as ([i a'] & -> & Hin). apply elem_of_map_to_list in Hin. eauto.
Qed.

Lemma withKey_None db k i a : withKey k db = None → alerts db !! i = Some a → AKey a ≠ k.
Proof.
  intros Hw Hi Hk. unfold withKey in Hw. apply head_None in Hw.
  assert (a ∈ filter (λ a, AKey a = k) (map_to_list (alerts db)).*2) as Hin.
  { apply list_elem_of_filter. split; [done|]. apply list_elem_of_fmap.
    exists (i, a). split; [done|]. by apply elem_of_map_to_list. }
  rewrite Hw in Hin. by apply elem_of_nil in Hin.
Qed.

Lemma withKey_inv db k a : Inv db → withKey k db = Some a → alerts db !! ID a = Some a ∧ AKey a = k.
Proof. intros I ([i Hi] & Hk)%withKey_Some. by rewrite (inv_id _ I _ _ Hi). Qed.

Lemma withKey_of db a i : Inv db → alerts db !! i = Some a → withKey (AKey a) db = Some a.
Proof.
  intros I Hi. destruct (withKey (AKey a) db) as [b|] eqn:E.
  - apply (withKey_inv _ _ _ I) in E as [Hb Hk]. pose proof (inv_key _ I _ _ _ _ Hb Hi Hk). congruence.
  - by destruct (withKey_None _ _ _ _ E Hi).
Qed.

(** The place of an alert in the table: its own row, or a new one. *)
Definition placed (db : AlertDB) (a : Alert) : Prop :=
  (∃ old, alerts db !! ID a = Some old ∧ AKey old = AKey a) ∨
  (alerts db !! ID a = None ∧ withKey (AKey a) db = None).

Lemma inv_commit db a e occ :
  Inv db → placed db a → consistent (history (ID a) (events db) ++ [e]) a → (1 ≤ Count a)%Z →
  AlertID e = ID a → EID e ∉ (EID <$> events db) →
  (∀ i o, (i, o) ∈ occ → i = ID a ∨ (i, o) ∈ occurrences db) →
  Inv (mkAlertDB (<[ID a := a]> (alerts db)) occ (events db ++ [e])).
Proof.
  intros I Hplace Hc Hcount He Hnew Hocc. constructor; simpl.
  - intros i b. rewrite lookup_insert_Some. intros [[<- <-]|[_ Hi]]; [done|]. by apply I.
  - assert (∀ b i, i ≠ ID a → alerts db !! i = Some b → AKey b ≠ AKey a) as Hkey.
    { intros b i Hne Hi Hk. destruct Hplace as [(old & Hold & Hko)|[_ Hnone]].
      - apply Hne. apply (inv_key _ I _ _ _ _ Hi Hold). congruence.
      - by apply (withKey_None _ _ _ _ Hnone Hi). }
    intros b c i j. rewrite !lookup_insert_Some. intros [[<- <-]|[? Hi]] [[<- <-]|[? Hj]] Hk; [done|..].
    + by destruct (Hkey c j ltac:(done) Hj).
    + by destruct (Hkey b i ltac:(done) Hi).
    + by apply (inv_key _ I _ _ _ _ Hi Hj).
  - intros i b. rewrite history_snoc, lookup_insert_Some. intros [[<- <-]|[Hne Hi]].
    + by rewrite decide_True.
    + rewrite decide_False by congruence. rewrite app_nil_r. by apply I.
  - intros i b. rewrite lookup_insert_Some. intros [[<- <-]|[_ Hi]]; [done|]. by apply (inv_counted _ I i).
  - intros e'. rewrite elem_of_app, list_elem_of_singleton, lookup_insert_is_Some. intros [Hin| ->]; [|auto].
    destruct (decide (ID a = AlertID e')); [auto|]. right. split; [done|]. by apply I.
  - intros i o Hin. rewrite lookup_insert_is_Some. destruct (Hocc _ _ Hin) as [->|Ho]; [auto|].
    destruct (decide (ID a = i)); [auto|]. right. split; [done|]. by apply (inv_occurrences _ I i o).
  - rewrite fmap_app. apply NoDup_app. split_and!; [apply I| |apply NoDup_singleton].
    intros x Hx. simpl. rewrite list_elem_of_singleton. congruence.
Qed.

(** *** Freshness of the identifiers *)
(** Rows are never deleted, their keys never change, their revisions never
    decrease. *)
Record grows (db db' : AlertDB) : Prop := {
  grows_rows : ∀ i a, alerts db !! i = Some a →
    ∃ a', alerts db' !! i = Some a' ∧ AKey a' = AKey a ∧ (Revision a ≤ Revision a')%Z;
  grows_occurrences : occurrences db ⊆ occurrences db';
}.
#[global] Instance grows_refl : Reflexive grows.
Proof. intros db. constructor; [|done]. intros i a Hi. exists a. split_and!; [done..|lia]. Qed.
#[global] Instance grows_trans : Transitive grows.
Proof.
  intros db1 db2 db3 [H12 O12] [H23 O23]. constructor; [|set_solver]. intros i a Hi.
  destruct (H12 _ _ Hi) as (a2 & H2 & K2 & R2). destruct (H23 _ _ H2) as (a3 & H3 & K3 & R3).
  exists a3. split_and!; [done|congruence|lia].
Qed.
Lemma grows_commit db a occ evs :
  placed db a → (∀ old, alerts db !! ID a = Some old → (Revision old ≤ Revision a)%Z) →
  occurrences db ⊆ occ → grows db (mkAlertDB (<[ID a := a]> (alerts db)) occ evs).
Proof.
  intros Hp Hr Ho. constructor; [|done]. intros i b Hi. simpl.
  destruct (decide (i = ID a)) as [->|Hne]; [|rewrite lookup_insert_ne by done; exists b; split_and!; [done..|lia]].
  rewrite lookup_insert_eq. exists a. split_and!; [done| |by apply Hr].
  destruct Hp as [(old & Hold & Hk)|[Hn _]]; simplify_eq. done.
Qed.

Section runs.
Context `{W : World}.
Context (db0 : AlertDB).     (* the tables some time ago *)

(** Every identifier in the tables was read from the random source before
    the given tick. *)
Definition drawn (n : nat) (id : string) : Prop := ∃ k, k < n ∧ id = ("alt_" ++ random k)%string.
Record Fresh (db : AlertDB) (n : nat) : Prop := {
  fresh_alerts : ∀ i, is_Some (alerts db !! i) → drawn n i;
  fresh_events : ∀ e, e ∈ events db → drawn n (EID e);
}.
Definition Log (db : AlertDB) (n : nat) : Prop := Inv db ∧ Fresh db n ∧ grows db0 db.

Lemma drawn_le n m id : n ≤ m → drawn n id → drawn m id.
Proof. intros ? (k & ? & ?). exists k. split; [lia|done]. Qed.

#[global] Instance Log_timeless : Timeless Log.
Proof.
  intros db n (I & [Fa Fe] & G). split; [done|]. split; [|done]. constructor; intros; (eapply drawn_le; [|eauto]); lia.
Qed.

Lemma not_drawn `{!Unpredictable W} n id : drawn n id → id ≠ ("alt_" ++ random n)%string.
Proof. intros (k & Hk & ->) Heq. apply (inj (String.append "alt_")), random_inj in Heq. lia. Qed.

(** What the statements do to the tables. *)
Definition rekeyed (old a : Alert) : Alert :=
  mkAlert (ID a) (AKey old) (StackName a) (Revision a) (Episode a) (Count a) (Summary a)
    (OperationID a) (FirstAt a) (LatestAt a) (AcknowledgedAt a) (AcknowledgedBy a)
    (ResolvedAt a) (ResolvedBy a) (Resolution a) (CanResolveManually a).
Lemma rekeyed_same old a : AKey old = AKey a → rekeyed old a = a.
Proof. unfold rekeyed. intros ->. by destruct a. Qed.

Definition saved (db db' : AlertDB) (a : Alert) : Prop :=
  (∃ old, alerts db !! ID a = Some old ∧ db' = mkAlertDB (<[ID a := rekeyed old a]> (alerts db)) (occurrences db) (events db)) ∨
  (alerts db !! ID a = None ∧ withKey (AKey a) db = None ∧
   db' = mkAlertDB (<[ID a := a]> (alerts db)) (occurrences db) (events db)).
Lemma saveAlert_ok a db n u db' n' :
  saveAlert a db n = (Ok u, (db', n')) → n' = S n ∧ saved db db' a.
Proof.
  intros H. unfold saveAlert in H. run_inv. split; [done|]. unfold saved.
  destruct (alerts db !! ID a) as [old|]; [left; exists old; naive_solver|].
  destruct (withKey (AKey a) db); [done|]. right. naive_solver.
Qed.

Lemma insertOccurrence_ok i o db n u db' n' :
  insertOccurrence i o db n = (Ok u, (db', n')) →
  n' = S n ∧ (i, o) ∉ occurrences db ∧
  db' = mkAlertDB (alerts db) ({[(i, o)]} ∪ occurrences db) (events db).
Proof.
  intros H. unfold insertOccurrence in H. run_inv. case_bool_decide; [done|].
  destruct (alerts db !! i); [|done]. naive_solver.
Qed.

Lemma recordAlertEvent_ok a kind actor note op at_ db n u db' n' :
  recordAlertEvent a kind actor note op at_ db n = (Ok u, (db', n')) →
  n' = S (S n) ∧ ("alt_" ++ random n)%string ∉ (EID <$> events db) ∧
  db' = mkAlertDB (alerts db) (occurrences db)
          (events db ++ [mkEvent ("alt_" ++ random n) (ID a) (Episode a) kind actor at_ note op]).
Proof.
  intros H. unfold recordAlertEvent, alertID in H. run_inv. case_bool_decide; [done|].
  destruct (alerts _ !! ID a); [|done]. naive_solver.
Qed.

Lemma storeChange_ok c a db n r db' n' :
  storeChange c a db n = (Ok r, (db', n')) →
  ∃ next, transition a c = Ok next ∧
    match next with
    | None => r = [] ∧ db' = db ∧ n' = n
    | Some a' => r = [a'] ∧ ∃ k db1, n ≤ k < n' ∧ saved db db1 a' ∧
        (ID a', OccurrenceID c) ∉ occurrences db ∧
        ("alt_" ++ random k)%string ∉ (EID <$> events db) ∧
        db' = mkAlertDB (alerts db1) ({[(ID a', OccurrenceID c)]} ∪ occurrences db)
                (events db ++ [changeEvent ("alt_" ++ random k) c a'])
    end.
Proof.
  intros H. unfold storeChange in H. run_inv. eexists. split; [done|].
  match goal with H : match ?x with _ => _ end _ _ = _ |- _ => destruct x as [a'|]; [|by run_inv] end.
  run_inv. repeat match goal with
  | H : saveAlert _ _ _ = _ |- _ => apply saveAlert_ok in H as (-> & ?)
  | H : insertOccurrence _ _ _ _ = _ |- _ => apply insertOccurrence_ok in H as (-> & ? & ->)
  | H : recordAlertEvent _ _ _ _ _ _ _ _ = _ |- _ => apply recordAlertEvent_ok in H as (-> & ? & ->)
  end. simpl in *. split; [done|]. exists (S (S n)). eexists. split; [lia|]. split; [done|].
  match goal with H : saved _ _ _ |- _ => destruct H as [(? & ? & ->)|(? & ? & ->)] end; done.
Qed.

(** A saved alert keeps its place. *)
Lemma saved_placed db db1 a :
  placed db a → saved db db1 a → db1 = mkAlertDB (<[ID a := a]> (alerts db)) (occurrences db) (events db).
Proof.
  intros [(old & Ho & Hk)|[Ho _]] [(old' & Ho' & ->)|(Ho' & _ & ->)]; simplify_eq; [|done].
  by rewrite rekeyed_same.
Qed.

(** *** The operations keep the log *)
Lemma log_extend db n a e occ k m :
  Log db n → placed db a → consistent (history (ID a) (events db) ++ [e]) a → (1 ≤ Count a)%Z →
  AlertID e = ID a → EID e = ("alt_" ++ random k)%string → n ≤ k < m → EID e ∉ (EID <$> events db) →
  (is_Some (alerts db !! ID a) ∨ drawn m (ID a)) →
  (∀ i o, (i, o) ∈ occ → i = ID a ∨ (i, o) ∈ occurrences db) → occurrences db ⊆ occ →
  (∀ old, alerts db !! ID a = Some old → (Revision old ≤ Revision a)%Z) →
  Log (mkAlertDB (<[ID a := a]> (alerts db)) occ (events db ++ [e])) m.
Proof.
  intros (I & [Fa Fe] & G) Hp Hc Hcount He Hid Hk Hnew Ha Hocc Hsub Hrev. split; [by apply inv_commit|].
  split; [|by etrans; [|apply grows_commit]]. constructor; simpl.
  - intros i. rewrite lookup_insert_is_Some. intros [<-|[_ Hi]].
    + destruct Ha as [Ha|]; [|done]. apply (drawn_le n); [lia|auto].
    + apply (drawn_le n); [lia|auto].
  - intros e'. rewrite elem_of_app, list_elem_of_singleton. intros [Hin| ->].
    + apply (drawn_le n); [lia|auto].
    + rewrite Hid. exists k. split; [lia|done].
Qed.

Lemma freshAlert_placed `{!Unpredictable W} db n k c :
  Log db n → n ≤ k → withKey (CKey c) db = None → placed db (freshAlert ("alt_" ++ random k) c).
Proof.
  intros (I & [Fa _] & _) Hk Hw. right. split; [|done]. apply eq_None_not_Some. intros Hi.
  apply Fa in Hi. apply (not_drawn k _ ltac:(by apply (drawn_le n)) eq_refl).
Qed.

Lemma history_nil db i : Inv db → alerts db !! i = None → history i (events db) = [].
Proof.
  intros I Hi. unfold history. destruct (filter _ (events db)) as [|e l] eqn:E; [done|].
  assert (e ∈ e :: l) as He by left. rewrite <- E in He. apply list_elem_of_filter in He as [<- He].
  apply (inv_events _ I) in He as [? ?]. congruence.
Qed.

Lemma storeChange_log c a u db n m r db' n' :
  ValidateChange c = Ok u → Log db n → n ≤ m → placed db a → consistent (history (ID a) (events db)) a →
  (CKind c = "failure"%string ∨ 1 ≤ Count a)%Z → (alerts db !! ID a = Some a ∨ alerts db !! ID a = None ∧ drawn m (ID a)) →
  storeChange c a db m = (Ok r, (db', n')) → Log db' n'.
Proof.
  intros Hv HL Hnm Hp Hc Hcount Hid Hrun.
  apply storeChange_ok in Hrun as ([a'|] & Ht & Hrun).
  - destruct Hrun as (_ & k & db1 & Hk & Hsaved & Hocc & Hnew & ->).
    destruct (transition_consistent _ _ _ _ ("alt_" ++ random k) _ Hv Ht Hc) as (Hc' & Hi & Hkey & Hrev & Hcnt).
    assert (placed db a') as Hp' by (unfold placed in *; by rewrite Hi, Hkey).
    rewrite (saved_placed _ _ _ Hp' Hsaved). simpl. rewrite Hi in *.
    rewrite <- Hi. apply (log_extend db n a' _ _ k n'); try done; rewrite ?Hi; try done; [auto|lia| | | |].
    + destruct Hid as [|[_ Hd]]; [eauto|]. right. apply (drawn_le m); [lia|done].
    + intros i o. rewrite elem_of_union, elem_of_singleton. naive_solver.
    + set_solver.
    + intros old Hold. destruct Hid as [|[Hn _]]; simplify_eq. lia.
  - destruct Hrun as (_ & -> & ->). by apply (timeless_le Log db n).
Qed.

Lemma applyChange_log `{!Unpredictable W} c db n r db' n' :
  Log db n → applyChange c db n = (Ok r, (db', n')) → Log db' n'.
Proof.
  intros HL Hrun. unfold applyChange in Hrun. run_inv.
  match goal with H : ValidateChange c = Ok ?u |- _ => rename H into Hv; pose proof (ValidateChange_kind _ _ Hv) as Hk end.
  destruct (withKey (CKey c) _) as [a|] eqn:Ew.
  - unfold seen in Hrun. run_inv. destruct (withKey_inv _ _ _ (proj1 HL) Ew) as [Ha Hkey].
    case_bool_decide; run_inv; [by do 2 apply timeless_succ|].
    eapply (storeChange_log c a); [done|exact HL| | | | | |done]; [lia|left; eauto|by apply HL| |eauto].
    right. by eapply (inv_counted _ (proj1 HL)).
  - assert (alerts db !! ("alt_" ++ random (S n))%string = None) as Hnone.
    { destruct (freshAlert_placed _ _ (S n) c HL ltac:(lia) Ew) as [(old & Ho & Hk')|[Hn _]]; [|done].
      by destruct (withKey_None _ _ _ _ Ew Ho). }
    destruct (String.eqb_spec (CKind c) "recovery") as [Hr|Hr]; run_inv; [by apply timeless_succ|].
    unfold alertID in *. run_inv.
    eapply (storeChange_log c); [done|exact HL| | | | | |done].
    + lia.
    + eapply freshAlert_placed; [exact HL|lia|done].
    + simpl. rewrite history_nil; [apply consistent_fresh|apply HL|done].
    + left. by destruct Hk.
    + right. simpl. split; [done|]. exists (S n). split; [lia|done].
Qed.

Lemma applyAlertChanges_log `{!Unpredictable W} cs db n r db' n' :
  Log db n → applyAlertChanges cs db n = (Ok r, (db', n')) → Log db' n'.
Proof.
  revert db n r. induction cs as [|c cs IH]; intros db n r HL Hrun; simpl in Hrun; run_inv; [done|].
  eapply IH; [|done]. by eapply applyChange_log.
Qed.

Lemma mutateTx_log `{!Unpredictable W} m b db n r db' n' :
  Log db n → mutateTx m b db n = (Ok r, (db', n')) → Log db' n'.
Proof.
  intros HL Hrun. unfold mutateTx, Get in Hrun. run_inv.
  match goal with H : saveAlert _ _ _ = _ |- _ => apply saveAlert_ok in H as (-> & Hs) end.
  match goal with H : recordAlertEvent _ _ _ _ _ _ _ _ = _ |- _ => apply recordAlertEvent_ok in H as (-> & Hnew & ->) end.
  match goal with H : match ?x with _ => _ end = Ok _ |- _ => destruct x as [?|] eqn:Ha; [|done]; simplify_eq end.
  match type of Ha with _ = Some ?y => rename y into a end.
  match goal with H : mutation _ _ _ _ = Ok _ |- _ => rename H into Hm end.
  pose proof (inv_id _ (proj1 HL) _ _ Ha) as Hid.
  destruct (mutation_consistent _ _ _ _ _ _ ("alt_" ++ random (S (S (S n)))) (Note m) Hm
    (inv_consistent _ (proj1 HL) _ _ Ha)) as (Hc & Hi & Hk & Hrev & Hcount).
  rewrite <- Hid in *. rewrite <- Hi in Ha.
  assert (placed _ r) as Hp by (left; exists a; split; [exact Ha|done]).
  rewrite (saved_placed _ _ _ Hp Hs) in *. simpl in *.
  eapply (log_extend _ n r _ _ (S (S (S n)))); simpl; try done.
  - by rewrite <- Hi in Hc.
  - rewrite Hcount. by eapply (inv_counted _ (proj1 HL)).
  - lia.
  - left. eauto.
  - auto.
  - intros old Hold. simplify_eq. lia.
Qed.

Lemma forward_saveAlert a : forward (saveAlert a).
Proof. apply forward_call. Qed.
Lemma forward_insertOccurrence i o : forward (insertOccurrence i o).
Proof. apply forward_call. Qed.
Lemma forward_seen i o : forward (seen i o).
Proof. apply forward_call. Qed.
Lemma forward_alertID : forward alertID.
Proof. unfold alertID. fwd. Qed.
#[local] Hint Resolve forward_saveAlert forward_insertOccurrence forward_seen forward_alertID : pres.
Lemma forward_recordAlertEvent a kind actor note op at_ : forward (recordAlertEvent a kind actor note op at_).
Proof. unfold recordAlertEvent. fwd. Qed.
#[local] Hint Resolve forward_recordAlertEvent : pres.
Lemma forward_storeChange c a : forward (storeChange c a).
Proof. unfold storeChange. fwd. Qed.
#[local] Hint Resolve forward_storeChange : pres.
Lemma forward_applyChange c : forward (applyChange c).
Proof. unfold applyChange. fwd. Qed.
#[local] Hint Resolve forward_applyChange : pres.
Lemma forward_applyAlertChanges cs : forward (applyAlertChanges cs).
Proof. induction cs as [|c cs IH]; simpl; fwd. Qed.
Lemma forward_Get id : forward (Get id).
Proof. apply forward_call. Qed.
#[local] Hint Resolve forward_Get : pres.
Lemma forward_mutateTx m b : forward (mutateTx m b).
Proof. unfold mutateTx. fwd. Qed.

Lemma mutate_log `{!Unpredictable W} m b : maintains Log (mutate m b).
Proof.
  apply maintains_bind; [apply maintains_lift|]. intros _.
  apply maintains_atomically_ok; [apply _|apply forward_mutateTx|]. intros db n a db' n'. apply mutateTx_log.
Qed.
Lemma Apply_log `{!Unpredictable W} cs : maintains Log (Apply cs).
Proof.
  apply maintains_atomically_ok; [apply _|apply forward_applyAlertChanges|].
  intros db n a db' n'. apply applyAlertChanges_log.
Qed.

(** *** Calls of the store, one after the other *)
Inductive request := RApply (cs : list Change) | RMutate (m : Mutation) (resolve : bool).
Definition serve (r : request) (db : AlertDB) (n : nat) : AlertDB * nat :=
  match r with
  | RApply cs => (Apply cs db n).2
  | RMutate m b => (mutate m b db n).2
  end.
Definition serveAll (rs : list request) (db : AlertDB) (n : nat) : AlertDB * nat :=
  foldl (λ '(db, n) r, serve r db n) (db, n) rs.

Lemma serveAll_log `{!Unpredictable W} rs db n :
  Log db n → Log (serveAll rs db n).1 (serveAll rs db n).2.
Proof.
  unfold serveAll. revert db n. induction rs as [|r rs IH]; intros db n HL; simpl; [done|].
  destruct (serve r db n) as [db' n'] eqn:E. apply IH.
  destruct r as [cs|m b]; simpl in E.
  - pose proof (Apply_log cs db n HL) as H'. by rewrite E in H'.
  - pose proof (mutate_log m b db n HL) as H'. by rewrite E in H'.
Qed.

End runs.

Lemma empty_log `{W : World} : Log emptyAlertDB emptyAlertDB 0.
Proof.
  split; [|split; [|done]]; constructor; simpl; try (intros *; rewrite ?lookup_empty; by intros);
    try (intros * Hin; by apply elem_of_nil in Hin); try set_solver.
  constructor.
Qed.

(** An occurrence that was counted stays counted, under the same alert. *)
Definition counted (db : AlertDB) (c : Change) : Prop :=
  ∃ a, withKey (CKey c) db = Some a ∧ (ID a, OccurrenceID c) ∈ occurrences db.

Lemma counted_grows `{W : World} db0 db n c :
  counted db0 c → Inv db0 → Log db0 db n → counted db c.
Proof.
  intros (a & Hw & Ho) I0 (I & _ & G). destruct (withKey_inv _ _ _ I0 Hw) as [Ha Hk].
  destruct (grows_rows _ _ G _ _ Ha) as (a' & Ha' & Hk' & _). exists a'.
  rewrite <- Hk, <- Hk', (inv_id _ I _ _ Ha'). split; [by eapply withKey_of|]. by apply (grows_occurrences _ _ G).
Qed.

Lemma Log_now `{W : World} db0 db n : Log db0 db n → Log db db n.
Proof. intros (?&?&_). split_and!; done. Qed.

Lemma applyChange_counts `{W : World} `{!Unpredictable W} c db0 db n r db' n' :
  Log db0 db n → CKind c = "failure"%string → applyChange c db n = (Ok r, (db', n')) → counted db' c.
Proof.
  intros HL Hk Hrun. pose proof (applyChange_log _ _ _ _ _ _ _ (Log_now _ _ _ HL) Hrun) as HL'.
  unfold applyChange in Hrun. run_inv. unfold counted.
  assert (∀ a, transition a c ≠ Ok None) as Hnone.
  { intros a. unfold transition. rewrite Hk. by destruct (ResolvedAt a). }
  destruct (withKey (CKey c) _) as [a|] eqn:Ew.
  - unfold seen in Hrun. run_inv. destruct (withKey_inv _ _ _ (proj1 HL) Ew) as [Ha Hkey].
    case_bool_decide as Hin; run_inv; [by exists a|].
    apply storeChange_ok in Hrun as ([a'|] & Ht & Hrun); [|by destruct (Hnone _ Ht)].
    destruct Hrun as (_ & k & db1 & Hk' & Hsaved & _ & _ & ->).
    destruct (grows_rows _ _ (proj2 (proj2 HL')) _ _ Ha) as (b & Hb & Hkb & _). exists b.
    rewrite <- Hkey, <- Hkb. split; [by apply (withKey_of _ _ (ID a)); [apply HL'|]|].
    rewrite (inv_id _ (proj1 HL') _ _ Hb). simpl.
    assert (ID a' = ID a) as -> by (unfold transition in Ht; rewrite Hk in Ht; destruct (ResolvedAt a); naive_solver).
    set_solver.
  - rewrite Hk in Hrun. simpl in Hrun. run_inv. unfold alertID in *. run_inv.
    apply storeChange_ok in Hrun as ([a'|] & Ht & Hrun); [|by destruct (Hnone _ Ht)].
    unfold transition in Ht. rewrite Hk in Ht. simpl in Ht.
    destruct Hrun as (_ & k & db1 & Hk' & Hsaved & _ & _ & ->).
    exists a'. simpl.
    assert (alerts db1 !! ID a' = Some a' ∧ AKey a' = CKey c) as [Hrow Hkey].
    { rewrite (saved_placed db db1 a'); [by simpl; rewrite lookup_insert_eq; simplify_eq| |done].
      pose proof (freshAlert_placed _ _ n (S n) c HL ltac:(lia) Ew) as Hp. by simplify_eq. }
    rewrite <- Hkey. split; [|set_solver]. apply (withKey_of _ _ (ID a')); [apply HL'|done].
Qed.

Lemma serveAll_from `{W : World} `{!Unpredictable W} rs db0 db n db' n' :
  Log db0 db n → serveAll rs db n = (db', n') → Log db0 db' n'.
Proof. intros HL E. pose proof (serveAll_log db0 rs db n HL) as H'. by rewrite E in H'. Qed.

(** Changes that are counted already change nothing. *)
Lemma applyChange_again `{W : World} c db n :
  counted db c →
  (applyChange c db n).2.1 = db ∧
  (Faultless W → is_ok (ValidateChange c) = true → is_ok (applyChange c db n).1 = true).
Proof.
  intros (a & Hw & Ho). unfold applyChange, mbind, M_bind, lift, call, seen.
  destruct (ValidateChange c) as [u|e]; [|done].
  destruct (fault n) eqn:E1; [split; [done|]; intros F; by rewrite F in E1|].
  rewrite Hw. unfold call. destruct (fault (S n)) eqn:E2; [split; [done|]; intros F; by rewrite F in E2|].
  by rewrite bool_decide_true.
Qed.

Lemma applyAlertChanges_again `{W : World} cs db n :
  Forall (counted db) cs →
  (applyAlertChanges cs db n).2.1 = db ∧
  (Faultless W → Forall (λ c, is_ok (ValidateChange c) = true) cs →
   is_ok (applyAlertChanges cs db n).1 = true).
Proof.
  intros Hc. revert n. induction Hc as [|c cs Hc _ IH]; intros n; [done|]. cbn [applyAlertChanges].
  destruct (applyChange_again c db n Hc) as [Hdb Hok]. unfold mbind, M_bind.
  destruct (applyChange c db n) as [[r|e] [db1 n1]]; simpl in *; subst db1.
  - specialize (IH n1). destruct (applyAlertChanges cs db n1) as [[rs|e] [db2 n2]]; simpl in *;
      (split; [apply IH|]); intros F Hv; [done|]. apply (proj2 IH F). by inversion Hv.
  - split; [done|]. intros F Hv. inversion Hv; subst. by rewrite Hok in *.
Qed.

Lemma applyAlertChanges_counts `{W : World} `{!Unpredictable W} cs db0 db n r db' n' :
  Log db0 db n → Forall (λ c, CKind c = "failure"%string) cs →
  applyAlertChanges cs db n = (Ok r, (db', n')) →
  Forall (counted db') cs ∧ Forall (λ c, is_ok (ValidateChange c) = true) cs ∧ Log db0 db' n'.
Proof.
  intros HL Hk. revert db0 db n r HL. induction Hk as [|c cs Hc _ IH]; intros db0 db n r HL Hrun;
    cbn [applyAlertChanges] in Hrun; run_inv; [done|].
  match goal with H : applyChange c _ _ = (_, (?d, ?k)) |- _ => rename d into db1, k into n1, H into H1 end.
  match goal with H : applyAlertChanges _ _ _ = _ |- _ => rename H into H2 end.
  pose proof (applyChange_log _ _ _ _ _ _ _ HL H1) as HL1.
  destruct (IH _ _ _ _ HL1 H2) as (Hcs & Hv & HL2). split_and!; [|constructor; [|done]|done].
  - constructor; [|done].
    pose proof (applyChange_counts _ _ _ _ _ _ _ HL Hc H1) as Hcount.
    destruct (IH _ _ _ _ (Log_now _ _ _ HL1) H2) as (_ & _ & HLg).
    eapply (counted_grows db1); [done|apply HL1|done].
  - unfold applyChange in H1. run_inv.
    match goal with H : ValidateChange c = Ok _ |- _ => by rewrite H end.
Qed.

(** Failures may be delivered again: once a batch of failures was stored,
    storing it again, at any later time, leaves the tables as they are, and
    succeeds unless the database fails. *)
Theorem redelivery_is_ignored `{W : World} `{!Unpredictable W} before cs after db n r db1 n1 db2 n2 :
  serveAll before emptyAlertDB 0 = (db, n) →
  Forall (λ c, CKind c = "failure"%string) cs →
  Apply cs db n = (Ok r, (db1, n1)) →
  serveAll after db1 n1 = (db2, n2) →
  (Apply cs db2 n2).2.1 = db2 ∧ (Faultless W → is_ok (Apply cs db2 n2).1 = true).
Proof.
  intros E0 Hk E1 E2. pose proof (serveAll_from before _ _ _ _ _ empty_log E0) as HL.
  unfold Apply in E1. pose proof (Apply_log _ cs db n (Log_now _ _ _ HL)) as HL1.
  unfold Apply in HL1. rewrite E1 in HL1. simpl in HL1. run_inv.
  match goal with H : applyAlertChanges cs _ _ = _ |- _ => rename H into H1 end.
  assert (Log db db (S n)) as HLn by (apply timeless_succ; by apply (Log_now _ _ _ HL)).
  destruct (applyAlertChanges_counts _ _ _ _ _ _ _ HLn Hk H1) as (Hc & Hv & HLc).
  pose proof (serveAll_from after _ _ _ _ _ (Log_now _ _ _ HL1) E2) as HL2.
  assert (Forall (counted db2) cs) as Hc2.
  { eapply Forall_impl; [exact Hc|]. intros c Hcc. by apply (counted_grows db1 db2 n2); [|apply HL1|]. }
  destruct (applyAlertChanges_again cs db2 (S n2) Hc2) as [Hdb Hok].
  unfold Apply, atomically. destruct (fault n2) eqn:F2; [split; [done|]; intros F; by rewrite F in F2|].
  destruct (applyAlertChanges cs db2 (S n2)) as [[rs'|e] [db3 n3]]; simpl in *.
  - destruct (fault n3) eqn:F3; [split; [done|]; intros F; by rewrite F in F3|done].
  - split; [done|]. intros F. by apply Hok.
Qed.

(** An acknowledgement or a manual resolution is decided on the revision
    the user saw: once one was accepted for a revision of an alert, every later
    one for the same revision is refused, so of two users who act on the same
    revision at most one succeeds. *)
Theorem revision_is_spent `{W : World} `{!Unpredictable W} before m b r after m' b' db n db1 n1 db2 n2 :
  serveAll before emptyAlertDB 0 = (db, n) →
  mutate m b db n = (Ok r, (db1, n1)) →
  serveAll after db1 n1 = (db2, n2) →
  MID m' = MID m → MExpectedRevision m' = MExpectedRevision m →
  is_ok (mutate m' b' db2 n2).1 = false ∧ (mutate m' b' db2 n2).2.1 = db2.
Proof.
  intros E0 E1 E2 Hid Hrev. pose proof (serveAll_from before _ _ _ _ _ empty_log E0) as HL.
  pose proof (mutate_log db m b db n (Log_now _ _ _ HL)) as HL1. rewrite E1 in HL1. simpl in HL1.
  pose proof (serveAll_from after _ _ _ _ _ (Log_now _ _ _ HL1) E2) as HL2.
  assert (∃ a, alerts db1 !! MID m = Some a ∧ (MExpectedRevision m < Revision a)%Z) as (a & Ha & Hlt).
  { unfold mutate, mutateTx, Get in E1. run_inv.
    match goal with H : match ?x with _ => _ end = Ok _ |- _ => destruct x as [?|] eqn:Ha; [|done]; simplify_eq end.
    match type of Ha with _ = Some ?y => rename y into a end.
    match goal with H : mutation _ _ _ _ = Ok _ |- _ => rename H into Hm end.
    destruct (mutation_consistent _ _ _ _ _ _ "" (Note m) Hm (inv_consistent _ (proj1 HL) _ _ Ha))
      as (_ & Hi & Hk & Hr & _).
    rewrite (inv_id _ (proj1 HL) _ _ Ha) in Hi.
    match goal with H : saveAlert _ _ _ = _ |- _ => apply saveAlert_ok in H as (_ & Hs) end.
    match goal with H : recordAlertEvent _ _ _ _ _ _ _ _ = _ |- _ => apply recordAlertEvent_ok in H as (_ & _ & ->) end.
    rewrite (saved_placed _ _ _ ltac:(left; exists a; by rewrite Hi) Hs). simpl. rewrite Hi, lookup_insert_eq.
    exists r. split; [done|]. match goal with H : negb _ = false |- _ => apply negb_false_iff, Z.eqb_eq in H end. lia. }
  destruct (grows_rows _ _ (proj2 (proj2 HL2)) _ _ Ha) as (a2 & Ha2 & _ & Hle).
  unfold mutate, mutateTx, Get, atomically, guard_not, lift, mbind, M_bind.
  destruct (ValidateMutation m'); [|done]. destruct (fault n2); [done|].
  unfold call. destruct (fault (S n2)); [done|]. rewrite Hid, Ha2, Hrev.
  destruct (Z.eqb_spec (Revision a2) (MExpectedRevision m)); [lia|]. done.
Qed.

(** *** Witnesses *)
Definition a_failure : Change :=
  mkChange "failure" (mkKey "stk_1" "deployment" "stack") "web" "op_1" "op_1" "Stack operation failed." 0
    (5 * Second)%Z true.
Definition after_failure : AlertDB * nat := serveAll (W := calm) [RApply [a_failure]] emptyAlertDB 0.
Definition the_alert : string := "alt_2".
Definition an_ack : Mutation := mkMutation the_alert 1 "usr_1" "".

Lemma redelivery_is_ignored_witness :
  (Apply (W := calm) [a_failure] after_failure.1 after_failure.2).2.1 = after_failure.1.
Proof.
  eapply (redelivery_is_ignored (W := calm) [] [a_failure] [] emptyAlertDB 0).
  - reflexivity.
  - repeat constructor.
  - vm_compute. reflexivity.
  - vm_compute. reflexivity.
Defined.

Lemma revision_is_spent_witness :
  let s := serveAll (W := calm) [RApply [a_failure]; RMutate an_ack false] emptyAlertDB 0 in
  is_ok (mutate (W := calm) an_ack true s.1 s.2).1 = false.
Proof.
  eapply (revision_is_spent (W := calm) [RApply [a_failure]] an_ack false _ [] an_ack true after_failure.1 after_failure.2).
  - reflexivity.
  - vm_compute. reflexivity.
  - vm_compute. reflexivity.
  - reflexivity.
  - reflexivity.
Defined.
End AlertLaws.
