(* ===== verification/Database.v ===== *)
(** * The database (src/internal/sqlite/migrations)

    The records that the stores share and the tables they write, with the
    constraints that the schema declares stated where the statements run.  A
    row is the Go value it is scanned into: the JSON columns and the NULLs that
    stand for empty strings, zero numbers and zero times are read back as they
    were written.  The pool has one connection, so transactions do not overlap. *)
From S2P Require Import Prelude GoStrings TimeText Traffic OnDemandPolicy Alerts.

(** ** Values of the packages compose, operation, stack and autoupdate *)
Module Data.

(** compose/update_types.go *)
Record ImageChange := mkImageChange {
  Service : string;
  SourceReference : string;
  TargetReference : string;
  Platform : string;
  BeforeImageID : string;
  AfterImageID : string;
  ManifestDigest : string;
}.
Record ServiceUpdateResult := mkServiceUpdateResult {
  RService : string;
  RBeforeImageID : string;
  RTargetImageID : string;
  ActualImageID : string;
  ROutcome : string;
}.

(** operation/types.go *)
Definition OperationQueued : string := "queued".
Definition OperationRunning : string := "running".
Definition OperationSucceeded : string := "succeeded".
Definition OperationFailed : string := "failed".
Definition OperationCancelled : string := "cancelled".

Record Operation := mkOperation {
  AffectedServices : list string;
  ServiceUpdates : list ServiceUpdateResult;
  OpID : string;
  Kind : string;
  ScopeType : string;
  ScopeID : string;
  RequestKey : string;
  Status : string;
  StartedAt : time;
  CompletedAt : time;
  ExitCode : Z;
  ErrorCode : string;
  Output : string;
  OutputTruncated : bool;
  InitiatedBy : string;
  Trigger : string;
  AlertTargets : list Alert.Key;
  OpStackName : string;
}.

(** operation/deployment_types.go *)
Definition DeploymentSucceeded : string := "succeeded".
Definition DeploymentFailed : string := "failed".
Record Deployment := mkDeployment {
  DepID : string;
  DepStackID : string;
  DepOperationID : string;
  GitCommit : string;
  Dirty : bool;
  DiffDigest : string;
  ComposeDigest : string;
  DepStatus : string;
  DepStartedAt : time;
  DepCompletedAt : time;
  Duration : duration;
  DepErrorCode : string;
}.
Record UpdateCompletion := mkUpdateCompletion {
  UCRunID : string;
  UCDeployment : Deployment;
  Services : list ServiceUpdateResult;
  UCPauseReason : string;
}.

(** operation/operation.go *)
Record OnDemandCompletion := mkOnDemandCompletion {
  CompletionGroupID : string;
  CompletionPhase : string;
  CompletionPauseReason : string;
}.
Record Result := mkResult {
  OnDemand : option OnDemandCompletion;
  Update : option UpdateCompletion;
  ROutput : string;
  RErr : option error;
  RAlerts : list Alert.Change;
}.

(** stack/types.go *)
Record Stack := mkStack {
  StkID : string;
  DirectoryName : string;
  ComposeProjectName : string;
  ArchivedAt : option time;
  CreatedAt : time;
  UpdatedAt : time;
}.

(** autoupdate/types.go *)
Record Policy := mkPolicy {
  PStackID : string;
  PEnabled : bool;
  Expression : string;
  PRevision : Z;
  NextRunAt : time;
  PPausedReason : string;
}.
Record Run := mkRun {
  RunID : string;
  RunStackID : string;
  RunStackName : string;
  PolicyRevision : Z;
  ScheduledAt : time;
  RunPhase : string;
  RunOutcome : string;
  Reason : string;
  RunOperationID : string;
}.
Record PolicyUpdate := mkPolicyUpdate {
  UEnabled : bool; UExpression : string; UExpectedRevision : Z
}.
Record Execution := mkExecution {
  XRunID : string;
  XOperationID : string;
  XPhase : string;
  XSourceDigest : string;
  XChanges : list ImageChange;
  XBaseline : Deployment;
}.
End Data.

Module Database.
Import Data Alert.

(** ** Rows that are not values of their own *)
Record EnvironmentRow := mkEnvironmentRow { EnvValue : string; EnvSecret : bool; EnvUpdatedAt : time }.
Record ContextRow := mkContextRow { CtxTrigger : string; CtxStackName : string; CtxTargets : list Alert.Key }.
Record GroupRow := mkGroupRow {
  g_stack : string;
  g_policy : OnDemandPolicy.Policy;
  g_revision : Z;
  g_phase : string;
  g_hold : string;
  g_paused : string;
  g_evidence : OnDemandPolicy.Evidence;
  g_operation : option string;        (* operation_id *)
  g_last_operation : string;
}.
(** Times as the nanoseconds of [UnixNano]. *)
Record PolicyRow := mkPolicyRow {
  p_enabled : bool;
  p_expression : string;
  p_revision : Z;
  p_next_run : Z;
  p_paused : string;
  p_last_started : Z;
}.
Record ExecutionRow := mkExecutionRow {
  x_operation : string;
  x_phase : string;
  x_source : string;
  x_changes : list ImageChange;
  x_baseline : Deployment;
  x_results : list ServiceUpdateResult;
}.

Record DB := mkDB {
  stacks : gmap string Stack;   (* by id *)
  environment : gmap (string * string) EnvironmentRow;   (* by (stack_id, key) *)
  operations : gmap string Operation;   (* by id *)
  operation_rowids : list string;   (* the ids in insertion order *)
  alert_context : gmap string ContextRow;   (* operation_alert_context, by operation *)
  deployments : gmap string Deployment;   (* by id *)
  groups : gmap string GroupRow;   (* on_demand_groups, by id *)
  members : gmap (string * string) string;   (* on_demand_members: (stack_id, service) to group_id *)
  policies : gmap string PolicyRow;   (* auto_update_policies, by stack *)
  runs : gmap string Run;   (* auto_update_runs, by id *)
  executions : gmap string ExecutionRow;   (* update_executions, by run *)
  images : gmap (string * string) ImageChange;   (* deployment_images, by (stack_id, service) *)
  alert_tables : AlertDB;   (* the three alert tables *)
  users : gset string;   (* the ids of the users *)
}.
Definition emptyDB : DB := mkDB ∅ ∅ ∅ [] ∅ ∅ ∅ ∅ ∅ ∅ ∅ ∅ emptyAlertDB ∅.

Section setters.
Context (db : DB).
Definition set_stacks (x : gmap string Stack) : DB := mkDB x (environment db) (operations db) (operation_rowids db) (alert_context db) (deployments db) (groups db) (members db) (policies db) (runs db) (executions db) (images db) (alert_tables db) (users db).
Definition set_environment (x : gmap (string * string) EnvironmentRow) : DB := mkDB (stacks db) x (operations db) (operation_rowids db) (alert_context db) (deployments db) (groups db) (members db) (policies db) (runs db) (executions db) (images db) (alert_tables db) (users db).
Definition set_operations (x : gmap string Operation) : DB := mkDB (stacks db) (environment db) x (operation_rowids db) (alert_context db) (deployments db) (groups db) (members db) (policies db) (runs db) (executions db) (images db) (alert_tables db) (users db).
Definition set_operation_rowids (x : list string) : DB := mkDB (stacks db) (environment db) (operations db) x (alert_context db) (deployments db) (groups db) (members db) (policies db) (runs db) (executions db) (images db) (alert_tables db) (users db).
Definition set_alert_context (x : gmap string ContextRow) : DB := mkDB (stacks db) (environment db) (operations db) (operation_rowids db) x (deployments db) (groups db) (members db) (policies db) (runs db) (executions db) (images db) (alert_tables db) (users db).
Definition set_deployments (x : gmap string Deployment) : DB := mkDB (stacks db) (environment db) (operations db) (operation_rowids db) (alert_context db) x (groups db) (members db) (policies db) (runs db) (executions db) (images db) (alert_tables db) (users db).
Definition set_groups (x : gmap string GroupRow) : DB := mkDB (stacks db) (environment db) (operations db) (operation_rowids db) (alert_context db) (deployments db) x (members db) (policies db) (runs db) (executions db) (images db) (alert_tables db) (users db).
Definition set_members (x : gmap (string * string) string) : DB := mkDB (stacks db) (environment db) (operations db) (operation_rowids db) (alert_context db) (deployments db) (groups db) x (policies db) (runs db) (executions db) (images db) (alert_tables db) (users db).
Definition set_policies (x : gmap string PolicyRow) : DB := mkDB (stacks db) (environment db) (operations db) (operation_rowids db) (alert_context db) (deployments db) (groups db) (members db) x (runs db) (executions db) (images db) (alert_tables db) (users db).
Definition set_runs (x : gmap string Run) : DB := mkDB (stacks db) (environment db) (operations db) (operation_rowids db) (alert_context db) (deployments db) (groups db) (members db) (policies db) x (executions db) (images db) (alert_tables db) (users db).
Definition set_executions (x : gmap string ExecutionRow) : DB := mkDB (stacks db) (environment db) (operations db) (operation_rowids db) (alert_context db) (deployments db) (groups db) (members db) (policies db) (runs db) x (images db) (alert_tables db) (users db).
Definition set_images (x : gmap (string * string) ImageChange) : DB := mkDB (stacks db) (environment db) (operations db) (operation_rowids db) (alert_context db) (deployments db) (groups db) (members db) (policies db) (runs db) (executions db) x (alert_tables db) (users db).
Definition set_alert_tables (x : AlertDB) : DB := mkDB (stacks db) (environment db) (operations db) (operation_rowids db) (alert_context db) (deployments db) (groups db) (members db) (policies db) (runs db) (executions db) (images db) x (users db).
Definition set_users (x : gset string) : DB := mkDB (stacks db) (environment db) (operations db) (operation_rowids db) (alert_context db) (deployments db) (groups db) (members db) (policies db) (runs db) (executions db) (images db) (alert_tables db) x.
End setters.

#[export] Program Instance alert_lens : Lens DB AlertDB := {| view := alert_tables; put a db := set_alert_tables db a |}.
Next Obligation. done. Qed.
Next Obligation. by intros []. Qed.
Next Obligation. done. Qed.

(** [SELECT 1 FROM stacks WHERE id=? AND archived_at IS NULL] *)
Definition active (db : DB) (stack : string) : bool :=
  match stacks db !! stack with
  | Some s => bool_decide (ArchivedAt s = None)
  | None => false
  end.

Lemma active_stack db stack : active db stack = true → is_Some (stacks db !! stack).
Proof. unfold active. destruct (stacks db !! stack); [eauto|done]. Qed.

(** [time.Time.UnixNano] and its inverse [time.Unix(0, n)]. *)
Definition unixEpoch : time := (62135596800 * Second)%Z.
Definition UnixNano (t : time) : Z := wrap64 (t - unixEpoch).
Definition fromUnixNano (n : Z) : time := (unixEpoch + n)%Z.

(** ** Statements that several stores share *)

(** What the columns of [operations] keep of an operation. *)
Definition operationRow (o : Operation) : Operation :=
  mkOperation [] [] (OpID o) (Kind o) (ScopeType o) (ScopeID o) (RequestKey o) (Status o) (StartedAt o)
    (CompletedAt o) (ExitCode o) (ErrorCode o) (Output o) (OutputTruncated o) (InitiatedBy o) "" [] "".
(** The row is new, its request key, if any, is unique, its user exists. *)
Definition operationAllowed (db : DB) (o : Operation) : bool :=
  bool_decide (operations db !! OpID o = None) &&
  ((RequestKey o =? "")%string
   || bool_decide (Forall (λ p, RequestKey p.2 ≠ RequestKey o) (map_to_list (operations db)))) &&
  ((InitiatedBy o =? "")%string || bool_decide (InitiatedBy o ∈ users db)).

Section statements.
Context `{W : World}.

Definition insertOperation (o : Operation) : M DB unit :=
  call (λ db, if operationAllowed db o
    then Ok (tt, set_operation_rowids (set_operations db (<[OpID o := operationRow o]> (operations db)))
                   (operation_rowids db ++ [OpID o]))
    else Err ErrConstraint).
Definition insertContext (id : string) (c : ContextRow) : M DB unit :=
  call (λ db,
    if alert_context db !! id then Err ErrConstraint
    else if operations db !! id then Ok (tt, set_alert_context db (<[id := c]> (alert_context db)))
    else Err ErrConstraint).

(** The duration is kept in milliseconds. *)
Definition deploymentRow (d : Deployment) : Deployment :=
  mkDeployment (DepID d) (DepStackID d) (DepOperationID d) (GitCommit d) (Dirty d) (DiffDigest d)
    (ComposeDigest d) (DepStatus d) (DepStartedAt d) (DepCompletedAt d)
    (Z.quot (Duration d) Millisecond * Millisecond)%Z (DepErrorCode d).
Definition deploymentAllowed (db : DB) (d : Deployment) : bool :=
  bool_decide (deployments db !! DepID d = None) &&
  bool_decide (Forall (λ p, DepOperationID p.2 ≠ DepOperationID d) (map_to_list (deployments db))) &&
  bool_decide (is_Some (stacks db !! DepStackID d)) &&
  bool_decide (is_Some (operations db !! DepOperationID d)).
Definition insertDeployment (d : Deployment) : M DB unit :=
  call (λ db, if deploymentAllowed db d
    then Ok (tt, set_deployments db (<[DepID d := deploymentRow d]> (deployments db)))
    else Err ErrConstraint).

(** A statement that changes tables and never fails on its own. *)
Definition exec (f : DB → DB) : M DB unit := call (λ db, Ok (tt, f db)).
Definition query {A} (g : DB → A) : M DB A := call (λ db, Ok (g db, db)).
(** An UPDATE of one row followed by a check of RowsAffected. *)
Definition update1 {R} (look : DB → option R) (cond : DB → R → bool) (f : DB → R → DB) (e : error) : M DB unit :=
  call (λ db, match look db with
    | Some r => if cond db r then Ok (tt, f db r) else Err e
    | None => Err e
    end).

Lemma update1_ok {R} (look : DB → option R) cond f e db n u db' n' :
  update1 look cond f e db n = (Ok u, (db', n')) →
  ∃ r, look db = Some r ∧ cond db r = true ∧ db' = f db r ∧ n' = S n.
Proof.
  intros H. unfold update1 in H. apply call_ok in H as [H ->].
  destruct (look db) as [r|]; [|done]. destruct (cond db r) eqn:E; [|done]. simplify_eq. eauto.
Qed.
Lemma exec_ok f db n u db' n' : exec f db n = (Ok u, (db', n')) → db' = f db ∧ n' = S n.
Proof. intros H. unfold exec in H. apply call_ok in H as [H ->]. by simplify_eq. Qed.
Lemma query_ok {A} (g : DB → A) db n b db' n' :
  query g db n = (Ok b, (db', n')) → b = g db ∧ db' = db ∧ n' = S n.
Proof. apply read_ok. Qed.
Lemma insertOperation_ok o db n u db' n' :
  insertOperation o db n = (Ok u, (db', n')) →
  operationAllowed db o = true ∧ n' = S n ∧
  db' = set_operation_rowids (set_operations db (<[OpID o := operationRow o]> (operations db)))
          (operation_rowids db ++ [OpID o]).
Proof. intros H. unfold insertOperation in H. apply call_ok in H as [H ->]. case_match; by simplify_eq. Qed.
Lemma insertContext_ok i c db n u db' n' :
  insertContext i c db n = (Ok u, (db', n')) →
  is_Some (operations db !! i) ∧ n' = S n ∧ db' = set_alert_context db (<[i := c]> (alert_context db)).
Proof. intros H. unfold insertContext in H. apply call_ok in H as [H ->]. repeat case_match; simplify_eq. eauto. Qed.
Lemma insertDeployment_ok d db n u db' n' :
  insertDeployment d db n = (Ok u, (db', n')) →
  deploymentAllowed db d = true ∧ n' = S n ∧ db' = set_deployments db (<[DepID d := deploymentRow d]> (deployments db)).
Proof. intros H. unfold insertDeployment in H. apply call_ok in H as [H ->]. case_match; by simplify_eq. Qed.
End statements.

(** [db_inv] extends [run_inv] with these statements. *)
Ltac db_inv := repeat first [ run_inv_step | match goal with
  | H : update1 _ _ _ _ _ _ = (Ok _, (_, _)) |- _ => apply update1_ok in H; destruct H as (? & ? & ? & -> & ->)
  | H : exec _ _ _ = (Ok _, (_, _)) |- _ => apply exec_ok in H; destruct H as [-> ->]
  | H : query _ _ _ = (Ok _, (_, _)) |- _ => apply query_ok in H; destruct H as (-> & -> & ->)
  | H : insertOperation _ _ _ = (Ok _, (_, _)) |- _ => apply insertOperation_ok in H; destruct H as (? & -> & ->)
  | H : insertContext _ _ _ _ = (Ok _, (_, _)) |- _ => apply insertContext_ok in H; destruct H as (? & -> & ->)
  | H : insertDeployment _ _ _ = (Ok _, (_, _)) |- _ => apply insertDeployment_ok in H; destruct H as (? & -> & ->)
  end ].
End Database.
