(* ===== verification/OnDemandStore.v ===== *)
(** * The on-demand tables (src/internal/sqlite/on_demand_store.go,
    on_demand_interlock.go, on_demand_completion.go)

    A group is a row of [groups] with its rows of [members].  The operations
    are optimistic: an UPDATE names the revision the caller saw, and a
    transition owns the group through [operation_id] until it is completed. *)
From S2P Require Import Prelude GoStrings Netip Traffic OnDemandPolicy Alerts Database.

Module OnDemandStore.
Import Data Database OnDemandPolicy.

(** ** Rows and groups *)
Definition groupOf (id : string) (r : GroupRow) : Group :=
  mkGroup id (g_stack r) (g_policy r) (g_revision r) (g_phase r) (g_hold r) (g_paused r) (g_evidence r).

(** ** Checks *)
Fixpoint checkContainerIDs (seen : list string) (l : list string) : bool :=
  match l with
  | [] => true
  | id :: l' =>
    if (id =? "")%string || (128 <? len id)%Z || bool_decide (id ∈ seen) then false
    else checkContainerIDs (id :: seen) l'
  end.

Definition validateOnDemandEvidence (p : OnDemandPolicy.Policy) (e : Evidence) (phase : Phase) : result unit :=
  let invalid s := ErrWrap OnDemand_ErrInvalid s in
  _ ← reject_if (negb (phase =? Running)%string && negb (phase =? Sleeping)%string)
        (invalid "group must be uniformly running or stopped");
  _ ← reject_if ((SourceDigest e =? "")%string || (128 <? len (SourceDigest e))%Z
                 || negb (bool_decide (length (ContainerIDs e) = length (Members p))))
        (invalid "incomplete runtime identity");
  _ ← reject_if (negb (checkContainerIDs [] (ContainerIDs e))) (invalid "invalid container identity");
  match Traffic.Validate (Traffic.mkConfig 1 (WakeThreshold p) (wrap64 (WakeWindowMS p * Millisecond)) (EvidenceBindings e)) with
  | Ok _ => Ok tt
  | Err _ => Err (invalid "%v")
  end.

(** ** checkOnDemandBounds *)
Definition overlaps (n1 n2 : string) (a o : AddrPort) : bool :=
  (n1 =? n2)%string && (port a =? port o)%Z &&
  (bool_decide (ip a = ip o) || IsUnspecified (ip a) || IsUnspecified (ip o)).

(** The inner loop, against the bindings collected so far. *)
Fixpoint checkOverlap (network : string) (a : AddrPort) (bindings : list Traffic.Binding) : result unit :=
  match bindings with
  | [] => Ok tt
  | other :: l =>
    if negb (network =? Traffic.Network other)%string then checkOverlap network a l
    else match ParseAddrPort (Traffic.Address other) with
    | None => Err (ErrText "invalid AddrPort")
    | Some o =>
      _ ← reject_if (overlaps network (Traffic.Network other) a o)
            (ErrWrap OnDemand_ErrConflict "published endpoint overlaps another group");
      checkOverlap network a l
    end
  end.
Fixpoint checkGroupBindings (bindings : list Traffic.Binding) (l : list Traffic.Binding) : result (list Traffic.Binding) :=
  match l with
  | [] => Ok bindings
  | b :: l' =>
    match ParseAddrPort (Traffic.Address b) with
    | None => Err (ErrText "invalid AddrPort")
    | Some a => _ ← checkOverlap (Traffic.Network b) a bindings; checkGroupBindings (bindings ++ [b]) l'
    end
  end.
Fixpoint checkBounds (n : Z) (bindings : list Traffic.Binding) (rows : list GroupRow) : result unit :=
  match rows with
  | [] => Ok tt
  | r :: rows' =>
    bindings' ← checkGroupBindings bindings (EvidenceBindings (g_evidence r));
    _ ← reject_if ((MaxGroups <? n + 1)%Z || (Traffic.MaxBindings <? Z.of_nat (length bindings'))%Z)
          (ErrWrap OnDemand_ErrInvalid "at most 64 groups and 256 published endpoints");
    checkBounds (n + 1) bindings' rows'
  end.
(** The groups of the stacks that are not archived. *)
Definition activeGroups (db : DB) : list GroupRow :=
  filter (λ r, active db (g_stack r) = true) (map_to_list (groups db)).*2.

Section store.
Context `{W : World}.

Definition checkOnDemandBounds : M DB unit :=
  call (λ db, match checkBounds 0 [] (activeGroups db) with Ok _ => Ok (tt, db) | Err e => Err e end).

(** ** Queries *)
Definition GetGroup (stackID id : string) : M DB Group :=
  call (λ db, match groups db !! id with
    | Some r => if (g_stack r =? stackID)%string && active db stackID then Ok (groupOf id r, db) else Err ErrNoRows
    | None => Err ErrNoRows
    end).

(** ORDER BY stack_id,id LIMIT 65, then the limit of 64. *)
Definition group_order (a b : Group) : Prop :=
  if bool_decide (GroupStackID a = GroupStackID b) then string_le (GroupID a) (GroupID b)
  else string_le (GroupStackID a) (GroupStackID b).
#[global] Instance group_order_dec : RelDecision group_order.
Proof. intros a b. unfold group_order. case_bool_decide; apply _. Defined.
Definition ListGroups (stackID : string) : M DB (list Group) :=
  items ← call (λ db, Ok (take 65 (merge_sort group_order
    (filter (λ g, active db (GroupStackID g) = true ∧ (stackID = ""%string ∨ GroupStackID g = stackID))
       ((λ '(id, r), groupOf id r) <$> map_to_list (groups db)))), db));
  _ ← guard_not (MaxGroups <? Z.of_nat (length items))%Z (ErrWrap OnDemand_ErrUnavailable "group limit exceeded");
  mret items.

(** ** Updates

    An UPDATE .. WHERE id=? AND cond followed by [onDemandRowChanged]. *)
Definition updateGroup (id : string) (cond : DB → GroupRow → bool) (f : GroupRow → GroupRow) : M DB unit :=
  call (λ db, match groups db !! id with
    | Some r => if cond db r then Ok (tt, set_groups db (<[id := f r]> (groups db))) else Err OnDemand_ErrConflict
    | None => Err OnDemand_ErrConflict
    end).
(** stack_id=? AND revision=? AND operation_id IS NULL *)
Definition idle (stackID : string) (revision : Z) (r : GroupRow) : bool :=
  (g_stack r =? stackID)%string && (g_revision r =? revision)%Z && bool_decide (g_operation r = None).

Definition insertGroup (id stackID : string) (p : OnDemandPolicy.Policy) (phase : Phase) (e : Evidence) : M DB unit :=
  call (λ db,
    if groups db !! id then Err ErrConstraint
    else if stacks db !! stackID
    then Ok (tt, set_groups db (<[id := mkGroupRow stackID p 1 phase "" "" e None ""]> (groups db)))
    else Err ErrConstraint).
Definition deleteMembers (id : string) : M DB unit :=
  call (λ db, Ok (tt, set_members db (filter (λ '(_, g), g ≠ id) (members db)))).
Definition insertMember (id stackID member : string) : M DB unit :=
  taken ← call (λ db, Ok (bool_decide (is_Some (members db !! (stackID, member))), db));
  _ ← guard_not taken OnDemand_ErrConflict;
  call (λ db,
    if members db !! (stackID, member) then Err ErrConstraint
    else match groups db !! id with
    | Some r => if (g_stack r =? stackID)%string
                then Ok (tt, set_members db (<[(stackID, member) := id]> (members db))) else Err ErrConstraint
    | None => Err ErrConstraint
    end).
Fixpoint insertMembers (id stackID : string) (l : list string) : M DB unit :=
  match l with
  | [] => mret tt
  | m :: l' => _ ← insertMember id stackID m; insertMembers id stackID l'
  end.
Definition readGroup (id : string) : M DB Group :=
  call (λ db, match groups db !! id with Some r => Ok (groupOf id r, db) | None => Err ErrNoRows end).

Definition SaveGroup (stackID id : string) (update : PolicyUpdate) (evidence : Evidence) (phase : Phase) : M DB Group :=
  _ ← lift (ValidatePolicy (UpdatePolicy update));
  _ ← lift (validateOnDemandEvidence (UpdatePolicy update) evidence phase);
  _ ← guard_not (((id =? "")%string && negb (ExpectedRevision update =? 0)%Z)
                 || (negb (id =? "")%string && (ExpectedRevision update <? 1)%Z)) OnDemand_ErrConflict;
  atomically (
    _ ← call (λ db, if active db stackID then Ok (tt, db) else Err ErrNoRows);
    id ← (if (id =? "")%string then
            r ← rand_text;
            _ ← insertGroup ("odg_" ++ r) stackID (UpdatePolicy update) phase evidence;
            mret ("odg_" ++ r)%string
          else
            _ ← updateGroup id (λ _, idle stackID (ExpectedRevision update)) (λ r,
                  mkGroupRow (g_stack r) (UpdatePolicy update) (g_revision r + 1) (g_phase r) (g_hold r) (g_paused r)
                    evidence (g_operation r) (g_last_operation r));
            mret id);
    _ ← deleteMembers id;
    _ ← insertMembers id stackID (Members (UpdatePolicy update));
    _ ← checkOnDemandBounds;
    readGroup id).

(** The members go with their group (ON DELETE CASCADE). *)
Definition deleteGroup (db : DB) (id : string) : DB :=
  set_members (set_groups db (delete id (groups db))) (filter (λ '(_, g), g ≠ id) (members db)).
Definition DeleteGroup (stackID id : string) (revision : Z) : M DB unit :=
  call (λ db, match groups db !! id with
    | Some r => if idle stackID revision r && active db stackID then Ok (tt, deleteGroup db id) else Err OnDemand_ErrConflict
    | None => Err OnDemand_ErrConflict
    end).

Definition HoldGroup (stackID id : string) (revision : Z) (reason : string) : M DB unit :=
  _ ← guard_not ((TrimSpace reason =? "")%string || (256 <? len reason)%Z) OnDemand_ErrInvalid;
  updateGroup id (λ db r, idle stackID revision r && active db stackID) (λ r,
    mkGroupRow (g_stack r) (g_policy r) (g_revision r + 1) (g_phase r) reason (g_paused r) (g_evidence r)
      (g_operation r) (g_last_operation r)).

Definition PauseGroup (g : Group) (reason : string) : M DB unit :=
  _ ← guard_not ((reason =? "")%string || (256 <? len reason)%Z) OnDemand_ErrInvalid;
  updateGroup (GroupID g) (λ _, idle (GroupStackID g) (Revision g)) (λ r,
    mkGroupRow (g_stack r) (g_policy r) (g_revision r + 1) (g_phase r) (g_hold r) reason (g_evidence r)
      (g_operation r) (g_last_operation r)).

Definition ResumeGroup (stackID id : string) (revision : Z) (evidence : Evidence) (phase : Phase) : M DB Group :=
  g ← GetGroup stackID id;
  _ ← guard_not (negb (Revision g =? revision)%Z) OnDemand_ErrConflict;
  _ ← lift (validateOnDemandEvidence (GroupPolicy g) evidence phase);
  atomically (
    _ ← updateGroup id (λ db r, idle stackID revision r && active db stackID) (λ r,
          mkGroupRow (g_stack r) (g_policy r) (g_revision r + 1) phase "" "" evidence
            (g_operation r) (g_last_operation r));
    _ ← checkOnDemandBounds;
    readGroup id).

(** The phases an action leads from and to. *)
Definition transitionOf (action : Action) : option (Phase * Phase) :=
  if (action =? WakeUp)%string then Some (Sleeping, Starting)
  else if (action =? Sleep)%string then Some (Running, Stopping) else None.

Definition ready (stackID : string) (revision : Z) (from : Phase) (db : DB) (r : GroupRow) : bool :=
  idle stackID revision r && (g_phase r =? from)%string && (g_hold r =? "")%string && (g_paused r =? "")%string
  && Enabled (g_policy r) && active db stackID.
Definition BeginTransition (g : Group) (action : Action) (operationID : string) : M DB unit :=
  _ ← guard_not (operationID =? "")%string OnDemand_ErrInvalid;
  match transitionOf action with
  | None => fail OnDemand_ErrInvalid
  | Some (from, to) =>
    call (λ db, match groups db !! GroupID g with
      | Some r =>
        if ready (GroupStackID g) (Revision g) from db r then
          if operations db !! operationID
          then Ok (tt, set_groups db (<[GroupID g :=
                 mkGroupRow (g_stack r) (g_policy r) (g_revision r) to (g_hold r) (g_paused r) (g_evidence r)
                   (Some operationID) (g_last_operation r)]> (groups db)))
          else Err ErrConstraint
        else Err OnDemand_ErrConflict
      | None => Err OnDemand_ErrConflict
      end)
  end.

Definition interrupted (r : GroupRow) : bool :=
  bool_decide (is_Some (g_operation r)) || (g_phase r =? Starting)%string || (g_phase r =? Stopping)%string.
Definition recoverRow (r : GroupRow) : GroupRow :=
  if interrupted r
  then mkGroupRow (g_stack r) (g_policy r) (g_revision r + 1) Unknown (g_hold r)
         "An on-demand transition was interrupted. Review containers and resume explicitly."
         (g_evidence r) None (g_last_operation r)
  else r.
Definition RecoverInterrupted : M DB unit :=
  call (λ db, Ok (tt, set_groups db (recoverRow <$> groups db))).

(** ** The interlock with manual operations (on_demand_interlock.go) *)
Definition interlocked (o : Operation) : option string :=
  let action := TrimPrefix (TrimPrefix (Kind o) "container_batch_") "container_" in
  if (negb (ScopeType o =? "stack") || negb (Trigger o =? "manual"))%string then None
  else if bool_decide (action ∈ ["stop"; "start"; "restart"; "deploy"; "recreate"])%string then Some action
  else None.
(** WHERE stack_id=? AND operation_id IS NULL [AND id IN (the groups of the services)] *)
Definition affected (o : Operation) (db : DB) (id : string) (r : GroupRow) : bool :=
  (g_stack r =? ScopeID o)%string && bool_decide (g_operation r = None) &&
  (bool_decide (AffectedServices o = []) ||
   existsb (λ s, bool_decide (members db !! (ScopeID o, s) = Some id)) (AffectedServices o)).
Definition holdRow (stop : bool) (r : GroupRow) : GroupRow :=
  mkGroupRow (g_stack r) (g_policy r) (g_revision r + 1) (g_phase r)
    (if stop then "Manually stopped. Resume explicitly to allow automatic wake and sleep." else g_hold r)
    "A manual runtime action requires review and explicit resume."
    (g_evidence r) (g_operation r) (g_last_operation r).
Definition interlockOnDemand (o : Operation) : M DB unit :=
  match interlocked o with
  | None => mret tt
  | Some action =>
    call (λ db, Ok (tt, set_groups db
      (map_imap (λ id r, Some (if affected o db id r then holdRow (action =? "stop")%string r else r)) (groups db))))
  end.

(** ** Completion (on_demand_completion.go) *)
Definition completionFrom (op : Operation) (phase : Phase) : result Phase :=
  if (Kind op =? "on-demand-wake")%string then
    _ ← reject_if (phase =? Sleeping)%string OnDemand_ErrInvalid; Ok Starting
  else if (Kind op =? "on-demand-sleep")%string then
    _ ← reject_if (phase =? Running)%string OnDemand_ErrInvalid; Ok Stopping
  else Err OnDemand_ErrInvalid.
Definition checkCompletion (op : Operation) (c : OnDemandCompletion) : result Phase :=
  let phase := CompletionPhase c in
  _ ← reject_if ((CompletionGroupID c =? "")%string || negb (ScopeType op =? "stack")%string
                 || (256 <? len (CompletionPauseReason c))%Z) OnDemand_ErrInvalid;
  _ ← reject_if (negb (phase =? Running)%string && negb (phase =? Sleeping)%string && negb (phase =? Unknown)%string)
        OnDemand_ErrInvalid;
  _ ← reject_if (negb (Status op =? OperationSucceeded)%string && negb (phase =? Unknown)%string)
        (ErrWrap OnDemand_ErrInvalid "failed transition cannot publish a healthy phase");
  _ ← reject_if ((phase =? Unknown)%string && (CompletionPauseReason c =? "")%string)
        (ErrWrap OnDemand_ErrInvalid "ambiguous transition must pause");
  completionFrom op phase.
Definition completeOnDemand (op : Operation) (completion : option OnDemandCompletion) : M DB unit :=
  match completion with
  | None => mret tt
  | Some c =>
    from ← lift (checkCompletion op c);
    updateGroup (CompletionGroupID c)
      (λ _ r, (g_stack r =? ScopeID op)%string && bool_decide (g_operation r = Some (OpID op)) && (g_phase r =? from)%string)
      (λ r, mkGroupRow (g_stack r) (g_policy r) (g_revision r) (CompletionPhase c) (g_hold r) (CompletionPauseReason c)
              (g_evidence r) None (OpID op))
  end.
End store.
End OnDemandStore.
