(* ===== verification/OnDemandLaws.v ===== *)
(** * The on-demand tables stay consistent

    The invariant of the on-demand tables and its preservation by every
    operation of the store; the ownership of a group by a transition; the
    interlock with manual operations. *)
From S2P Require Import Prelude GoStrings Netip Traffic OnDemandPolicy Alerts Database OnDemandStore.

Module OnDemandLaws.
Import Data Database OnDemandPolicy OnDemandStore.

(** ** Endpoints that do not overlap *)
Definition conflict (b1 b2 : Traffic.Binding) : Prop :=
  ∃ a o, ParseAddrPort (Traffic.Address b1) = Some a ∧ ParseAddrPort (Traffic.Address b2) = Some o ∧
    overlaps (Traffic.Network b1) (Traffic.Network b2) a o = true.

Lemma overlaps_sym n1 n2 a o : overlaps n1 n2 a o = overlaps n2 n1 o a.
Proof.
  unfold overlaps. rewrite (String.eqb_sym n1), (Z.eqb_sym (port a)). f_equal.
  rewrite <- !orb_assoc, (orb_comm (IsUnspecified (ip a))). f_equal. apply bool_decide_ext. naive_solver.
Qed.
Lemma conflict_sym b1 b2 : conflict b1 b2 → conflict b2 b1.
Proof. intros (a & o & ? & ? & ?). exists o, a. by rewrite overlaps_sym. Qed.

(** No two of these bindings (at different places of the list) overlap. *)
Definition apart (bs : list Traffic.Binding) : Prop := ∀ b1 b2, [b1; b2] ⊆+ bs → ¬ conflict b1 b2.

Lemma apart_sub l k : l ⊆+ k → apart k → apart l.
Proof. intros Hl Hk b1 b2 Hb. apply Hk. by etrans. Qed.

Lemma apart_cons b bs : apart bs → (∀ b', b' ∈ bs → ¬ conflict b b') → apart (b :: bs).
Proof.
  intros Ha Hb b1 b2 Hs. apply submseteq_cons_r in Hs as [Hs|(l & Hp & Hs)]; [by apply Ha|].
  assert (∀ x, [x] ⊆+ bs → x ∈ bs) as Hin
    by (intros x Hx; apply (elem_of_submseteq _ _ x) in Hx; [done|by left]).
  apply Permutation_length_2_inv in Hp as [Heq|Heq]; simplify_eq.
  - apply Hb. auto.
  - intros Hc. apply conflict_sym in Hc. by apply (Hb b1); auto.
Qed.

Lemma checkOverlap_ok n a bs u b :
  checkOverlap n a bs = Ok u → ParseAddrPort (Traffic.Address b) = Some a → Traffic.Network b = n →
  ∀ b', b' ∈ bs → ¬ conflict b b'.
Proof.
  intros Hc Ha Hn. revert Hc. induction bs as [|o bs IH]; simpl; intros Hc b' Hin; [by apply elem_of_nil in Hin|].
  apply elem_of_cons in Hin. destruct (String.eqb_spec n (Traffic.Network o)) as [He|Hne]; simpl in Hc.
  - destruct (ParseAddrPort (Traffic.Address o)) as [ao|] eqn:Eo; [|done].
    apply result_bind_ok in Hc as (? & Hr & Hc). apply reject_if_ok in Hr.
    destruct Hin as [->|Hin]; [|by apply IH]. intros (a' & o' & Ha' & Ho' & Hov). simplify_eq. congruence.
  - destruct Hin as [->|Hin]; [|by apply IH]. intros (a' & o' & _ & _ & Hov). unfold overlaps in Hov.
    rewrite Hn in Hov. destruct (String.eqb_spec n (Traffic.Network o)); done.
Qed.

Lemma checkGroupBindings_ok bs l bs' :
  checkGroupBindings bs l = Ok bs' → bs' = bs ++ l ∧ (apart bs → apart bs').
Proof.
  revert bs. induction l as [|b l IH]; intros bs; simpl.
  { intros [= <-]. by rewrite app_nil_r. }
  destruct (ParseAddrPort (Traffic.Address b)) as [a|] eqn:Ea; [|done].
  intros (? & Hov & Hl)%result_bind_ok. destruct (IH _ Hl) as [-> Hap].
  rewrite <- (assoc_L (++)). split; [done|]. intros Hbs. rewrite (assoc_L (++)). apply Hap.
  apply (apart_sub _ (b :: bs)); [by rewrite (comm (++))|].
  apply apart_cons; [done|]. by eapply checkOverlap_ok.
Qed.

Lemma checkBounds_ok n bs rows u :
  checkBounds n bs rows = Ok u → apart bs → (n ≤ MaxGroups)%Z →
  apart (bs ++ (rows ≫= λ r, EvidenceBindings (g_evidence r))) ∧ (n + Z.of_nat (length rows) ≤ MaxGroups)%Z.
Proof.
  revert n bs. induction rows as [|r rows IH]; intros n bs; simpl.
  { rewrite app_nil_r. intros; split; [done|lia]. }
  intros (bs' & Hb & (? & Hr & Hrest)%result_bind_ok)%result_bind_ok Hap Hn.
  apply reject_if_ok, orb_false_iff in Hr as [Hr _]. apply Z.ltb_ge in Hr.
  destruct (checkGroupBindings_ok _ _ _ Hb) as [-> Hap']. specialize (Hap' Hap).
  destruct (IH _ _ Hrest Hap' Hr) as [H1 H2].
  rewrite (assoc_L (++)). split; [done|lia].
Qed.

(** ** The invariant *)
Definition transient (r : GroupRow) : Prop := g_phase r = Starting ∨ g_phase r = Stopping.

Record rowOk (db : DB) (r : GroupRow) : Prop := {
  row_phase : g_phase r ∈ [Running; Sleeping; Starting; Stopping; Unknown];
  row_owner : is_Some (g_operation r) ↔ transient r;
  row_operation : ∀ o, g_operation r = Some o → is_Some (operations db !! o);
  row_unheld : transient r → g_hold r = ""%string ∧ g_paused r = ""%string;
  row_unknown : g_phase r = Unknown → g_paused r ≠ ""%string;
  row_revision : (1 ≤ g_revision r)%Z;
  row_policy : ValidatePolicy (g_policy r) = Ok tt;
  row_evidence : validateOnDemandEvidence (g_policy r) (g_evidence r) Running = Ok tt;
}.

Definition bindingsOf (r : GroupRow) : list Traffic.Binding := EvidenceBindings (g_evidence r).
Definition activeAt (db : DB) (id : string) (r : GroupRow) : Prop :=
  groups db !! id = Some r ∧ active db (g_stack r) = true.

Record Bounded (db : DB) : Prop := {
  bounded_count : (Z.of_nat (length (activeGroups db)) ≤ MaxGroups)%Z;
  bounded_within : ∀ id r, activeAt db id r → apart (bindingsOf r);
  bounded_between : ∀ id1 r1 id2 r2 b1 b2, id1 ≠ id2 → activeAt db id1 r1 → activeAt db id2 r2 →
    b1 ∈ bindingsOf r1 → b2 ∈ bindingsOf r2 → ¬ conflict b1 b2;
}.

Record Inv (db : DB) : Prop := {
  inv_rows : ∀ id r, groups db !! id = Some r → rowOk db r;
  inv_stacks : ∀ id r, groups db !! id = Some r → is_Some (stacks db !! g_stack r);
  inv_members : ∀ id r m, groups db !! id = Some r →
    members db !! (g_stack r, m) = Some id ↔ m ∈ Members (g_policy r);
  inv_owned : ∀ k id, members db !! k = Some id → ∃ r, groups db !! id = Some r ∧ g_stack r = k.1;
  inv_bounded : Bounded db;
}.

Lemma activeGroups_elem db r : r ∈ activeGroups db ↔ ∃ id, activeAt db id r.
Proof.
  unfold activeGroups, activeAt. rewrite list_elem_of_filter, list_elem_of_fmap. split.
  - intros [Ha ([id r'] & -> & Hin)]. apply elem_of_map_to_list in Hin. eauto.
  - intros (id & Hg & Ha). split; [done|]. exists (id, r). split; [done|]. by apply elem_of_map_to_list.
Qed.

Lemma checkBounds_bounded db u : checkBounds 0 [] (activeGroups db) = Ok u → Bounded db.
Proof.
  intros Hc. apply checkBounds_ok in Hc as [Hap Hn]; [|intros b1 b2 Hs|done].
  2:{ apply submseteq_nil_r in Hs. done. }
  simpl in Hap. constructor; [done|..].
  - intros id r Hact. apply (apart_sub _ _ ) with (2 := Hap).
    assert (r ∈ activeGroups db) as Hin by (apply activeGroups_elem; eauto).
    apply list_elem_of_split in Hin as (l1 & l2 & ->). rewrite bind_app. cbn. unfold bindingsOf.
    apply submseteq_inserts_l. by apply submseteq_inserts_r.
  - intros id1 r1 id2 r2 b1 b2 Hne [H1 A1] [H2 A2] Hb1 Hb2.
    apply Hap.
    assert ([r1; r2] ⊆+ activeGroups db) as Hsub.
    { unfold activeGroups. assert ([(id1, r1); (id2, r2)] ⊆+ map_to_list (groups db)) as Hm.
      { apply NoDup_submseteq.
        - apply NoDup_cons. split; [|apply NoDup_singleton]. rewrite list_elem_of_singleton. naive_solver.
        - intros [i r]. rewrite elem_of_map_to_list, !elem_of_cons, elem_of_nil. naive_solver. }
      apply (fmap_submseteq snd) in Hm. simpl in Hm.
      apply (filter_submseteq (λ r, active db (g_stack r) = true)) in Hm.
      by rewrite !filter_cons, !decide_True, filter_nil in Hm by done. }
    apply (bind_submseteq (λ r, EvidenceBindings (g_evidence r))) in Hsub. etrans; [|exact Hsub].
    cbn. rewrite app_nil_r. change [b1; b2] with ([b1] ++ [b2]).
    apply submseteq_app; by apply singleton_submseteq_l.
Qed.

(** *** Preservation of the bounds *)
Definition activeIds (db : DB) : list string :=
  (filter (λ p : string * GroupRow, active db (g_stack p.2) = true) (map_to_list (groups db))).*1.

Lemma activeIds_length db : length (activeIds db) = length (activeGroups db).
Proof.
  unfold activeIds, activeGroups. rewrite length_fmap.
  induction (map_to_list (groups db)) as [|[id r] l IH]; [done|].
  rewrite fmap_cons, !filter_cons. simpl. case_decide; simpl; by rewrite IH.
Qed.
Lemma activeIds_elem db id : id ∈ activeIds db ↔ ∃ r, activeAt db id r.
Proof.
  unfold activeIds, activeAt. rewrite list_elem_of_fmap. split.
  - intros ([i r] & -> & Hin). apply list_elem_of_filter in Hin as [Ha Hin].
    apply elem_of_map_to_list in Hin. eauto.
  - intros (r & Hg & Ha). exists (id, r). split; [done|]. apply list_elem_of_filter.
    split; [done|]. by apply elem_of_map_to_list.
Qed.
Lemma activeIds_NoDup db : NoDup (activeIds db).
Proof.
  unfold activeIds. pose proof (NoDup_fst_map_to_list (groups db)) as Hnd.
  induction (map_to_list (groups db)) as [|[id r] l IH]; [constructor|].
  rewrite filter_cons. apply NoDup_cons in Hnd as [Hid Hnd]. case_decide; [|by apply IH].
  simpl. apply NoDup_cons. split; [|by apply IH]. contradict Hid.
  apply list_elem_of_fmap in Hid as (p & -> & Hp). apply list_elem_of_filter in Hp as [_ Hp].
  apply list_elem_of_fmap. by exists p.
Qed.

Lemma Bounded_mono db db' :
  (∀ id r', activeAt db' id r' → ∃ r, activeAt db id r ∧ g_evidence r = g_evidence r') →
  Bounded db → Bounded db'.
Proof.
  intros Hsub []. constructor.
  - rewrite <- !activeIds_length in *. assert (activeIds db' ⊆+ activeIds db) as Hs.
    { apply NoDup_submseteq; [apply activeIds_NoDup|]. intros id.
      rewrite !activeIds_elem. intros [r' Hr']. destruct (Hsub _ _ Hr') as (r & Hr & _). eauto. }
    apply submseteq_length in Hs. lia.
  - intros id r' Hr'. destruct (Hsub _ _ Hr') as (r & Hr & He). unfold bindingsOf. rewrite <- He. eauto.
  - intros id1 r1 id2 r2 b1 b2 Hne H1 H2. destruct (Hsub _ _ H1) as (r1' & Hr1 & He1).
    destruct (Hsub _ _ H2) as (r2' & Hr2 & He2). unfold bindingsOf. rewrite <- He1, <- He2. eauto.
Qed.

(** *** Preservation by an update of some rows *)

(** A row may be replaced by one of the same stack, policy and endpoints. *)
Definition keeps (r r' : GroupRow) : Prop :=
  g_stack r' = g_stack r ∧ g_policy r' = g_policy r ∧ g_evidence r' = g_evidence r.

Lemma inv_set_groups db gs :
  Inv db →
  (∀ id r', gs !! id = Some r' → ∃ r, groups db !! id = Some r ∧ keeps r r' ∧ rowOk db r') →
  (∀ id, is_Some (groups db !! id) → is_Some (gs !! id)) →
  Inv (set_groups db gs).
Proof.
  intros [] Hrow Hdom. constructor; simpl.
  - intros id r' Hr'. destruct (Hrow _ _ Hr') as (r & _ & _ & []). by constructor.
  - intros id r' Hr'. destruct (Hrow _ _ Hr') as (r & Hr & (Hs & _) & _). rewrite Hs. eauto.
  - intros id r' m Hr'. destruct (Hrow _ _ Hr') as (r & Hr & (Hs & Hp & _) & _). rewrite Hs, Hp. eauto.
  - intros k id Hk. destruct (inv_owned0 _ _ Hk) as (r & Hr & Hs).
    destruct (Hdom id) as [r' Hr']; [eauto|]. exists r'. split; [done|].
    destruct (Hrow _ _ Hr') as (r0 & Hr0 & (Hs' & _) & _). simplify_eq. congruence.
  - apply (Bounded_mono db); [|done]. intros id r' [Hr' Ha]. simpl in Hr'.
    destruct (Hrow _ _ Hr') as (r & Hr & (Hs & _ & He) & _). exists r. split; [|done].
    split; [done|]. by rewrite <- Hs.
Qed.

Lemma inv_set_group db id r r' :
  Inv db → groups db !! id = Some r → keeps r r' → rowOk db r' → Inv (set_groups db (<[id := r']> (groups db))).
Proof.
  intros I Hr Hk Hok. apply inv_set_groups; [done| |].
  - intros i x. rewrite lookup_insert_Some. intros [[<- <-]|[_ Hi]]; [eauto|].
    exists x. split_and!; [done|done|by apply (inv_rows _ I i)].
  - intros i Hi. rewrite lookup_insert_is_Some. destruct (decide (id = i)); auto.
Qed.

Section operations.
Context `{W : World}.

Lemma updateGroup_inv id cond f :
  (∀ db r, Inv db → groups db !! id = Some r → cond db r = true → keeps r (f r) ∧ rowOk db (f r)) →
  maintains (λ db _, Inv db) (updateGroup id cond f).
Proof.
  intros Hf. apply maintains_call; [apply _|]. intros db n u db' I H.
  destruct (groups db !! id) as [r|] eqn:Hr; [|done]. destruct (cond db r) eqn:Hc; [|done]. simplify_eq.
  destruct (Hf _ _ I Hr Hc). by eapply inv_set_group.
Qed.

Lemma idle_true stack rev r :
  idle stack rev r = true → g_stack r = stack ∧ g_revision r = rev ∧ g_operation r = None.
Proof.
  unfold idle. intros [[H1 H2]%andb_prop H3]%andb_prop.
  apply String.eqb_eq in H1. apply Z.eqb_eq in H2. by apply bool_decide_eq_true in H3.
Qed.

(** An idle row may change its hold and be paused. *)
Lemma rowOk_idle db r hold paused :
  rowOk db r → g_operation r = None → (g_phase r = Unknown → paused ≠ ""%string) →
  rowOk db (mkGroupRow (g_stack r) (g_policy r) (g_revision r + 1) (g_phase r) hold paused (g_evidence r)
              (g_operation r) (g_last_operation r)).
Proof.
  intros [] Hop Hp. assert (¬ transient r) as Ht by (rewrite <- row_owner0, Hop; by intros [? ?]).
  constructor; simpl; try done; try lia.
Qed.

Lemma HoldGroup_inv stack id rev reason : maintains (λ db _, Inv db) (HoldGroup stack id rev reason).
Proof.
  apply maintains_bind; [apply maintains_lift|]. intros _. apply updateGroup_inv.
  intros db r I Hr [Hi _]%andb_prop. apply idle_true in Hi as (_ & _ & Ho).
  split; [done|]. pose proof (inv_rows _ I _ _ Hr) as Hok. apply rowOk_idle; [done..|]. apply Hok.
Qed.

Lemma PauseGroup_inv g reason : maintains (λ db _, Inv db) (PauseGroup g reason).
Proof.
  intros db n I. unfold PauseGroup, mbind, M_bind, guard_not, lift.
  destruct (reject_if _ _) as [u|e] eqn:Eg; [|done].
  apply updateGroup_inv; [|done]. clear db n I. intros db r I Hr Hi.
  apply idle_true in Hi as (_ & _ & Ho). split; [done|].
  apply rowOk_idle; [by apply (inv_rows _ I (GroupID g))|done|]. intros _.
  apply reject_if_ok, orb_false_iff in Eg as [Eg _]. by apply String.eqb_neq in Eg.
Qed.

Lemma DeleteGroup_inv stack id rev : maintains (λ db _, Inv db) (DeleteGroup stack id rev).
Proof.
  apply maintains_call; [apply _|]. intros db n u db' I H.
  destruct (groups db !! id) as [r|] eqn:Hr; [|done].
  destruct (idle stack rev r && active db stack); [|done]. simplify_eq. destruct I. constructor; simpl.
  - intros i r' Hr'. apply lookup_delete_Some in Hr' as [_ Hr'].
    destruct (inv_rows0 _ _ Hr'). by constructor.
  - intros i r' Hr'. apply lookup_delete_Some in Hr' as [_ Hr']. eauto.
  - intros i r' m Hr'. apply lookup_delete_Some in Hr' as [Hne Hr'].
    rewrite <- inv_members0 by done. rewrite map_lookup_filter_Some. naive_solver.
  - intros k i. rewrite map_lookup_filter_Some. intros [Hk Hne]. destruct (inv_owned0 _ _ Hk) as (r' & Hr' & Hs).
    exists r'. split; [|done]. by rewrite lookup_delete_ne.
  - apply (Bounded_mono db); [|done]. intros i r' [Hr' Ha]. simpl in Hr'.
    apply lookup_delete_Some in Hr' as [_ Hr']. by exists r'.
Qed.

Lemma RecoverInterrupted_inv : maintains (λ db _, Inv db) RecoverInterrupted.
Proof.
  apply maintains_call; [apply _|]. intros db n u db' I H. simplify_eq. apply inv_set_groups; [done| |].
  - intros id r'. rewrite lookup_fmap, fmap_Some. intros (r & Hr & ->). exists r. split; [done|].
    pose proof (inv_rows _ I _ _ Hr) as []. unfold recoverRow. destruct (interrupted r); [|split; [done|by constructor]].
    split; [done|]. constructor; simpl; try done; [set_solver| | |lia].
    + split; [by intros [? ?]|]. intros [Ht|Ht]; discriminate Ht.
    + intros [Ht|Ht]; discriminate Ht.
  - intros id [r Hr]. rewrite lookup_fmap, Hr. eauto.
Qed.

Lemma interlock_inv o : maintains (λ db _, Inv db) (interlockOnDemand o).
Proof.
  unfold interlockOnDemand. destruct (interlocked o) as [action|]; [|apply maintains_ret].
  apply maintains_call; [apply _|]. intros db n u db' I H. simplify_eq. apply inv_set_groups; [done| |].
  - intros id r'. rewrite map_lookup_imap. destruct (groups db !! id) as [r|] eqn:Hr; simpl; [|done].
    intros [= <-]. exists r. split; [done|]. pose proof (inv_rows _ I _ _ Hr) as Hok.
    destruct (affected o db id r) eqn:Ha; [|done]. split; [done|].
    unfold affected in Ha. apply andb_prop in Ha as [[_ Ha]%andb_prop _]. apply bool_decide_eq_true in Ha.
    by apply rowOk_idle.
  - intros id [r Hr]. rewrite map_lookup_imap, Hr. simpl. eauto.
Qed.

Lemma transitionOf_phases action from to :
  transitionOf action = Some (from, to) →
  (from = Sleeping ∧ to = Starting) ∨ (from = Running ∧ to = Stopping).
Proof. unfold transitionOf. repeat case_match; naive_solver. Qed.

Lemma BeginTransition_inv g action op : maintains (λ db _, Inv db) (BeginTransition g action op).
Proof.
  apply maintains_bind; [apply maintains_lift|]. intros _.
  destruct (transitionOf action) as [[from to]|] eqn:Et; [|apply maintains_fail].
  apply maintains_call; [apply _|]. intros db n u db' I H.
  destruct (groups db !! GroupID g) as [r|] eqn:Hr; [|done].
  destruct (ready _ _ from db r) eqn:Hready; [|done]. destruct (operations db !! op) eqn:Hop; [|done]. simplify_eq.
  unfold ready in Hready. repeat (apply andb_prop in Hready as [Hready ?]).
  repeat match goal with H : (_ =? _)%string = true |- _ => apply String.eqb_eq in H end.
  eapply inv_set_group; [done..|]. pose proof (inv_rows _ I _ _ Hr) as [].
  apply transitionOf_phases in Et. constructor; simpl; try done.
  - destruct Et as [[_ ->]|[_ ->]]; set_solver.
  - split; [|eauto]. intros _. destruct Et as [[_ ->]|[_ ->]]; [by left|by right].
  - intros o0 [= <-]. eauto.
  - destruct Et as [[_ ->]|[_ ->]]; discriminate.
Qed.

Lemma completeOnDemand_inv op c : maintains (λ db _, Inv db) (completeOnDemand op c).
Proof.
  destruct c as [c|]; [|apply maintains_ret]. intros db n I. unfold completeOnDemand, mbind, M_bind, lift.
  destruct (checkCompletion op c) as [from|e] eqn:Ec; [|done].
  apply updateGroup_inv; [|done]. clear db n I. intros db r I Hr Hcond. split; [done|].
  unfold checkCompletion in Ec. guards Ec.
  pose proof (inv_rows _ I _ _ Hr) as [].
  assert (CompletionPhase c = Running ∨ CompletionPhase c = Sleeping ∨ CompletionPhase c = Unknown) as Hphase.
  { destruct (String.eqb_spec (CompletionPhase c) Running); [auto|].
    destruct (String.eqb_spec (CompletionPhase c) Sleeping); [auto|].
    destruct (String.eqb_spec (CompletionPhase c) Unknown); [auto|]. done. }
  constructor; simpl; try done.
  - destruct Hphase as [->|[->| ->]]; set_solver.
  - split; [by intros [? ?]|]. intros [Ht|Ht]; simpl in Ht; rewrite Ht in Hphase; by destruct_or? Hphase.
  - intros [Ht|Ht]; simpl in Ht; rewrite Ht in Hphase; by destruct_or? Hphase.
  - intros Hu. match goal with H : _ && (CompletionPauseReason c =? "")%string = false |- _ =>
      rewrite Hu in H; simpl in H; by apply String.eqb_neq in H end.
Qed.

(** *** Saving and resuming a group *)
Lemma checkOnDemandBounds_ok db n u db' n' :
  checkOnDemandBounds db n = (Ok u, (db', n')) → db' = db ∧ Bounded db.
Proof.
  intros H. unfold checkOnDemandBounds in H. run_inv. case_match eqn:E; simplify_eq.
  split; [done|]. by eapply checkBounds_bounded.
Qed.

Lemma deleteMembers_ok id db n u db' n' :
  deleteMembers id db n = (Ok u, (db', n')) → db' = set_members db (filter (λ '(_, g), g ≠ id) (members db)).
Proof. intros H. unfold deleteMembers in H. run_inv. done. Qed.

Lemma insertMembers_ok id stack l db n u db' n' :
  insertMembers id stack l db n = (Ok u, (db', n')) →
  ∃ ms, db' = set_members db ms ∧
    (∀ k j, ms !! k = Some j ↔ members db !! k = Some j ∨ (j = id ∧ ∃ m, m ∈ l ∧ k = (stack, m))) ∧
    ∀ m, m ∈ l → members db !! (stack, m) = None.
Proof.
  revert db n. induction l as [|m l IH]; intros db n H; simpl in H.
  { run_inv. exists (members db). split; [by destruct db|]. split; [|by intros m ?%elem_of_nil].
    intros k j. split; [auto|]. intros [|(_ & m & Hm & _)]; [done|by apply elem_of_nil in Hm]. }
  unfold insertMember in H. run_inv. repeat (case_match; try discriminate); simplify_eq.
  destruct (IH _ _ H) as (ms & -> & Hms & Hnone). exists ms. split; [by destruct db|].
  match goal with H : members db !! _ = None |- _ => rename H into Hfresh end. split.
  - intros k j. rewrite Hms. simpl. rewrite lookup_insert_Some. split.
    + intros [[[<- <-]|[_ Hk]]|(-> & m' & Hm' & ->)]; [|auto|]; right; (split; [done|]).
      * exists m. split; [by left|done].
      * exists m'. split; [by right|done].
    + intros [Hk|(-> & m' & [->|Hm']%elem_of_cons & ->)]; [|by left; left|].
      * left. right. split; [|done]. intros <-. congruence.
      * right. eauto.
  - intros m' [->|Hm']%elem_of_cons; [done|]. specialize (Hnone m' Hm'). simpl in Hnone.
    apply lookup_insert_None in Hnone. naive_solver.
Qed.

Lemma inv_save db id r' ms :
  Inv db → rowOk db r' → is_Some (stacks db !! g_stack r') →
  (∀ r, groups db !! id = Some r → g_stack r = g_stack r') →
  (∀ k j, ms !! k = Some j ↔ (members db !! k = Some j ∧ j ≠ id) ∨
     (j = id ∧ ∃ m, m ∈ Members (g_policy r') ∧ k = (g_stack r', m))) →
  Bounded (set_members (set_groups db (<[id := r']> (groups db))) ms) →
  Inv (set_members (set_groups db (<[id := r']> (groups db))) ms).
Proof.
  intros [] Hok Hst Hsame Hms Hb. constructor; simpl; [| | | |done].
  - intros i r. rewrite lookup_insert_Some. intros [[<- <-]|[_ Hi]]; [destruct Hok|destruct (inv_rows0 _ _ Hi)]; by constructor.
  - intros i r. rewrite lookup_insert_Some. intros [[<- <-]|[_ Hi]]; eauto.
  - intros i r m. rewrite Hms, lookup_insert_Some. intros [[<- <-]|[Hne Hi]].
    + split; [intros [[_ ?]|(_ & m' & Hm' & ?)]; [done|by simplify_eq]|eauto].
    + rewrite <- (inv_members0 i r) by done. split; [intros [[? _]|[-> _]]; done|auto].
  - intros k i. rewrite Hms. intros [[Hk Hne]|(-> & m & Hm & ->)].
    + destruct (inv_owned0 _ _ Hk) as (r & Hr & Hs). exists r. by rewrite lookup_insert_ne.
    + exists r'. by rewrite lookup_insert_eq.
Qed.

Lemma evidence_any_phase p e ph : validateOnDemandEvidence p e ph = Ok tt → validateOnDemandEvidence p e Running = Ok tt ∧ (ph = Running ∨ ph = Sleeping).
Proof.
  intros H. unfold validateOnDemandEvidence in *. apply result_bind_ok in H as (? & H1 & H).
  apply reject_if_ok in H1. split; [exact H|].
  destruct (String.eqb_spec ph Running); [auto|]. destruct (String.eqb_spec ph Sleeping); [auto|done].
Qed.

Lemma SaveGroup_inv stack id update e phase : maintains (λ db _, Inv db) (SaveGroup stack id update e phase).
Proof.
  intros db n I. unfold SaveGroup, guard_not. rewrite bind_lift.
  destruct (ValidatePolicy (UpdatePolicy update)) as [[]|] eqn:Hpol; [|done]. cbn beta iota. rewrite bind_lift.
  destruct (validateOnDemandEvidence _ _ _) as [[]|] eqn:Hev; [|done]. cbn beta iota. rewrite bind_lift.
  destruct (reject_if _ _); [|done]. cbn beta iota. apply evidence_any_phase in Hev as [Hev Hph].
  match goal with |- Inv (atomically ?m db ?k).2.1 =>
    destruct (atomically_cases m db k) as [->|(g & db' & n' & H & ->)] end; [done|].
  apply bind_ok in H as (? & db1 & n1 & H1 & H).
  apply call_ok in H1 as [H1 ->]. destruct (active db stack) eqn:Hact; [|done]. injection H1 as _ <-.
  apply bind_ok in H as (i & db1 & n1 & H1 & H).
  assert (∃ r', db1 = set_groups db (<[i := r']> (groups db)) ∧ rowOk db r' ∧ g_stack r' = stack ∧
    g_policy r' = UpdatePolicy update ∧ (∀ r, groups db !! i = Some r → g_stack r = stack)) as (r' & -> & Hok & Hs & Hp & Hsame).
  { destruct (id =? "")%string.
    - unfold insertGroup in H1. run_inv. repeat (case_match; try discriminate). simplify_eq.
      eexists. split_and!; [done| |done..|by intros; simplify_eq].
      constructor; simpl; try done; [destruct Hph as [->| ->]; set_solver| |intros ->; by destruct Hph].
      split; [by intros [? ?]|]. intros [Ht|Ht]; simpl in Ht; rewrite Ht in Hph; by destruct Hph.
    - unfold updateGroup in H1. run_inv. case_match eqn:Hr; [|done]. case_match eqn:Hi; [|done]. simplify_eq.
      apply idle_true in Hi as (Hs & _ & Ho). eexists. split_and!; [done| |done..|by intros; simplify_eq].
      pose proof (inv_rows _ I _ _ Hr) as []. constructor; simpl; try done; try lia. }
  apply bind_ok in H as (? & db2 & n2 & H2 & H). apply deleteMembers_ok in H2 as ->.
  apply bind_ok in H as (? & db3 & n3 & H3 & H). apply insertMembers_ok in H3 as (ms & -> & Hms & _).
  apply bind_ok in H as (? & db4 & n4 & H4 & H). apply checkOnDemandBounds_ok in H4 as (-> & Hb).
  clear H1. unfold readGroup in H. apply call_ok in H as [H _]. case_match; [|done]. simplify_eq.
  change (set_members (set_members (set_groups db (<[i:=r']> (groups db))) (filter _ _)) ms)
    with (set_members (set_groups db (<[i:=r']> (groups db))) ms) in *.
  simpl in Hms. apply inv_save; try done.
  - by apply active_stack.
  - intros k j. by rewrite Hp, Hms, map_lookup_filter_Some.
Qed.

Lemma ResumeGroup_inv stack id rev e phase : maintains (λ db _, Inv db) (ResumeGroup stack id rev e phase).
Proof.
  intros db n I. unfold ResumeGroup, GetGroup. unfold mbind at 1, M_bind at 1, call at 1.
  destruct (fault n); [done|]. destruct (groups db !! id) as [r|] eqn:Hr; [|done].
  destruct (_ && _); [|done]. cbn [GroupPolicy groupOf Revision]. unfold guard_not. rewrite bind_lift.
  destruct (reject_if _ _); [|done]. cbn beta iota. rewrite bind_lift.
  destruct (validateOnDemandEvidence _ _ _) as [[]|] eqn:Hev; [|done]. cbn beta iota.
  apply evidence_any_phase in Hev as [Hev Hph].
  match goal with |- Inv (atomically ?m db ?k).2.1 =>
    destruct (atomically_cases m db k) as [->|(g & db' & n' & H & ->)] end; [done|].
  apply bind_ok in H as (? & db1 & n1 & H1 & H). unfold updateGroup in H1. apply call_ok in H1 as [H1 _].
  rewrite Hr in H1. destruct (_ && _) eqn:Hc; [|done]. simplify_eq.
  apply andb_prop in Hc as [Hi Ha]. apply idle_true in Hi as (<- & <- & Ho).
  apply bind_ok in H as (? & db4 & n4 & H4 & H). apply checkOnDemandBounds_ok in H4 as (-> & Hb).
  unfold readGroup in H. apply call_ok in H as [H _]. case_match; [|done]. simplify_eq.
  destruct r as [stk pol rev ph hold paused ev op last]. simpl in *. subst op.
  pose proof (inv_rows _ I _ _ Hr) as Hok.
  match goal with |- Inv (set_groups db (<[id := ?x]> _)) =>
    assert (rowOk db x) as Hok' end.
  { destruct Hok. constructor; simpl in *; try done; [destruct Hph as [->| ->]; set_solver| | |lia].
    - split; [by intros [? ?]|]. intros [Ht|Ht]; simpl in Ht; rewrite Ht in Hph; by destruct Hph.
    - intros ->. by destruct Hph. }
  eapply (inv_save db id _ (members db)) in Hok'; [exact Hok'|done|..]; simpl; try done.
  - exact (inv_stacks _ I _ _ Hr).
  - intros r. by intros; simplify_eq.
  - intros k j. destruct (decide (j = id)) as [->|Hne]; [|naive_solver]. split.
    + intros Hk. right. split; [done|]. destruct (inv_owned _ I _ _ Hk) as (r & Hr' & Hs). simplify_eq.
      destruct k as [st m]. simpl in Hs. subst st. exists m. split; [|done].
      by apply (inv_members _ I _ _ m Hr).
    + intros [[_ ?]|(_ & m & Hmem & ->)]; [done|]. by apply (inv_members _ I _ _ m Hr).
Qed.

(** ** Ownership *)

(** A call that is refused: it reports an error and changes nothing. *)
Definition refused {A} (m : M DB A) (db : DB) : Prop :=
  ∀ n, is_ok (m db n).1 = false ∧ (m db n).2.1 = db.

Lemma refused_lift {A B} (r : result A) (k : A → M DB B) db :
  (∀ a, r = Ok a → refused (k a) db) → refused (lift r ≫= k) db.
Proof. intros Hk n. rewrite bind_lift. destruct r; [by apply Hk|done]. Qed.
Lemma refused_call {A} (f : DB → result (A * DB)) db :
  is_ok (f db) = false → refused (call f) db.
Proof. intros Hf n. unfold call. destruct (fault n); [done|]. by destruct (f db). Qed.
Lemma refused_bind {A B} (m : M DB A) (k : A → M DB B) db :
  refused m db → refused (m ≫= k) db.
Proof.
  intros Hm n. specialize (Hm n). unfold mbind, M_bind. destruct (m db n) as [[a|e] [s k2]]; [by destruct Hm|done].
Qed.
Lemma refused_call_bind {A B} (f : DB → result (A * DB)) (k : A → M DB B) db :
  (∀ a db', f db = Ok (a, db') → db' = db ∧ refused (k a) db) → refused (call f ≫= k) db.
Proof.
  intros Hf n. unfold mbind, M_bind, call. destruct (fault n); [done|].
  destruct (f db) as [[a db']|e]; [|done]. destruct (Hf _ _ eq_refl) as [-> Hk]. apply Hk.
Qed.
Lemma refused_atomically {A} (m : M DB A) db :
  (∀ n, is_ok (m db n).1 = false) → refused (atomically m) db.
Proof.
  intros Hm n. unfold atomically. destruct (fault n); [done|]. specialize (Hm (S n)).
  by destruct (m db (S n)) as [[a|e] [s k]].
Qed.

Lemma owned_not_idle r o stack rev : g_operation r = Some o → idle stack rev r = false.
Proof.
  intros Ho. unfold idle. rewrite Ho. destruct (g_stack r =? stack)%string, (g_revision r =? rev)%Z; done.
Qed.

Lemma refused_updateGroup db id r cond f :
  groups db !! id = Some r → cond db r = false → refused (updateGroup id cond f) db.
Proof. intros Hr Hc. apply refused_call. by rewrite Hr, Hc. Qed.

Lemma refused_ok {A} (m : M DB A) db n : refused m db → is_ok (m db n).1 = false.
Proof. intros H. apply H. Qed.

(** While a transition owns a group nothing else can change it: saving,
    deleting, holding, pausing, resuming it and beginning another transition
    are refused without effect, whatever revision they name, and so is the
    completion of any operation but the owner; only the owner's completion, or
    the recovery after a restart, releases it. *)
Theorem transition_owns_its_group db id r o :
  groups db !! id = Some r → g_operation r = Some o → id ≠ ""%string →
  (∀ stack update e ph, refused (SaveGroup stack id update e ph) db) ∧
  (∀ stack rev, refused (DeleteGroup stack id rev) db) ∧
  (∀ stack rev reason, refused (HoldGroup stack id rev reason) db) ∧
  (∀ g reason, GroupID g = id → refused (PauseGroup g reason) db) ∧
  (∀ stack rev e ph, refused (ResumeGroup stack id rev e ph) db) ∧
  (∀ g action op, GroupID g = id → refused (BeginTransition g action op) db) ∧
  (∀ op c, CompletionGroupID c = id → OpID op ≠ o → refused (completeOnDemand op (Some c)) db).
Proof.
  intros Hr Ho Hid. pose proof (λ stack rev, owned_not_idle r o stack rev Ho) as Hi. split_and!.
  - intros. unfold SaveGroup. repeat (apply refused_lift; intros _ _). apply refused_atomically.
    intros n. apply refused_ok. apply refused_call_bind. intros a db' Ha.
    destruct (active db stack); [|done]. injection Ha as _ <-. split; [done|].
    destruct (String.eqb_spec id ""); [done|]. do 2 apply refused_bind.
    apply (refused_updateGroup _ _ r); [done|apply Hi].
  - intros. apply refused_call. by rewrite Hr, Hi.
  - intros. apply refused_lift. intros _ _. eapply refused_updateGroup; [done|]. by rewrite Hi.
  - intros g reason <-. apply refused_lift. intros _ _. by eapply refused_updateGroup; [|apply Hi].
  - intros. unfold ResumeGroup, GetGroup. apply refused_call_bind. rewrite Hr. intros g db' Hg.
    destruct (_ && _); [|done]. injection Hg as <- <-. split; [done|].
    repeat (apply refused_lift; intros _ _). apply refused_atomically. intros n. apply refused_ok, refused_bind.
    eapply refused_updateGroup; [done|]. by rewrite Hi.
  - intros g action op <-. apply refused_lift. intros _ _.
    destruct (transitionOf action) as [[from to]|]; [|by intros n]. apply refused_call.
    unfold ready. by rewrite Hr, Hi.
  - intros op c <- Hne. apply refused_lift. intros from _. apply (refused_updateGroup _ _ r); [done|].
    rewrite Ho, bool_decide_false by naive_solver. by rewrite andb_false_r.
Qed.

(** A transition that begins also ends: when no call fails, a ready group
    enters the transient phase under the operation, and the operation's
    completion with an admissible outcome returns it to an idle phase with its
    revision, so that the very same policy applies again. *)
Theorem transition_round_trip db g action from to r op c n `{!Faultless W} :
  transitionOf action = Some (from, to) →
  groups db !! GroupID g = Some r → ready (GroupStackID g) (Revision g) from db r = true →
  is_Some (operations db !! OpID op) → OpID op ≠ ""%string →
  Kind op = ("on-demand-" ++ action)%string → ScopeType op = "stack"%string → ScopeID op = GroupStackID g →
  CompletionGroupID c = GroupID g → checkCompletion op c = Ok to →
  ∃ db1 n1 db2 n2 r2,
    BeginTransition g action (OpID op) db n = (Ok tt, (db1, n1)) ∧
    completeOnDemand op (Some c) db1 n1 = (Ok tt, (db2, n2)) ∧
    db2 = set_groups db (<[GroupID g := r2]> (groups db)) ∧
    g_phase r2 = CompletionPhase c ∧ g_paused r2 = CompletionPauseReason c ∧ g_operation r2 = None ∧
    g_last_operation r2 = OpID op ∧ g_revision r2 = Revision g ∧ g_policy r2 = g_policy r.
Proof.
  intros Ht Hr Hready [o Ho] Hne Hk Hst Hsc Hc Hcheck.
  assert (g_stack r = GroupStackID g ∧ g_revision r = Revision g) as [Hstack Hrev].
  { unfold ready in Hready. do 5 (apply andb_prop in Hready as [Hready _]). apply idle_true in Hready. tauto. }
  unfold BeginTransition, guard_not. rewrite bind_lift. destruct (String.eqb_spec (OpID op) ""); [done|].
  simpl. rewrite Ht. unfold call at 1. rewrite no_fault, Hr, Hready, Ho.
  do 5 eexists. split; [done|]. unfold completeOnDemand. rewrite bind_lift, Hcheck.
  unfold updateGroup, call. rewrite no_fault, Hc. simpl. rewrite lookup_insert_eq. simpl.
  rewrite Hstack, Hsc, String.eqb_refl, bool_decide_true, String.eqb_refl by done. simpl.
  split; [done|]. rewrite insert_insert_eq. split; [done|]. by rewrite Hrev.
Qed.
End operations.

(** *** Examples *)
Definition ex_policy : OnDemandPolicy.Policy := OnDemandPolicy.mkPolicy "web" true ["app"] 1 1000 600 120 300 120.
Definition ex_evidence : Evidence := mkEvidence "sha256:1" ["c1"] [Traffic.mkBinding "tcp4" "127.0.0.1:8080"].
Definition ex_row : GroupRow := mkGroupRow "stk_1" ex_policy 3 Sleeping "" "" ex_evidence None "".
Definition ex_operation (id kind : string) : Operation :=
  mkOperation [] [] id kind "stack" "stk_1" "" OperationSucceeded zeroTime zeroTime 0 "" "" false "" "automatic" [] "web".
Definition ex_stack : Stack := mkStack "stk_1" "web" "porty-web" None 1%Z 1%Z.
Definition ex_db : DB :=
  set_members (set_groups (set_operations (set_stacks emptyDB {["stk_1" := ex_stack]})
    {["op_1" := ex_operation "op_1" "on-demand-wake"]}) {["odg_1" := ex_row]}) {[("stk_1", "app") := "odg_1"]}.
Definition ex_wake : Group := groupOf "odg_1" ex_row.
Definition ex_completion : OnDemandCompletion := mkOnDemandCompletion "odg_1" Running "".
Definition ex_owned : DB := (BeginTransition (W := calm) ex_wake WakeUp "op_1" ex_db 0).2.1.

Lemma transition_owns_its_group_witness :
  refused (HoldGroup (W := calm) "stk_1" "odg_1" 3 "maintenance") ex_owned.
Proof.
  assert (∃ r, groups ex_owned !! "odg_1" = Some r ∧ g_operation r = Some "op_1"%string) as (r & Hr & Ho)
    by (eexists; split; vm_compute; reflexivity).
  destruct (transition_owns_its_group (W := calm) ex_owned "odg_1" r "op_1" Hr Ho ltac:(done)) as (_ & _ & H & _).
  apply H.
Defined.

Lemma transition_round_trip_witness :
  ∃ db1 n1 db2 n2 r2,
    BeginTransition (W := calm) ex_wake WakeUp "op_1" ex_db 0 = (Ok tt, (db1, n1)) ∧
    completeOnDemand (W := calm) (ex_operation "op_1" "on-demand-wake") (Some ex_completion) db1 n1 = (Ok tt, (db2, n2)) ∧
    db2 = set_groups ex_db (<["odg_1" := r2]> (groups ex_db)) ∧
    g_phase r2 = Running ∧ g_paused r2 = ""%string ∧ g_operation r2 = None ∧
    g_last_operation r2 = "op_1"%string ∧ g_revision r2 = 3%Z ∧ g_policy r2 = ex_policy.
Proof.
  apply (transition_round_trip (W := calm) ex_db ex_wake WakeUp Sleeping Starting ex_row
    (ex_operation "op_1" "on-demand-wake") ex_completion 0); try reflexivity; [vm_compute; eauto|done].
Defined.
End OnDemandLaws.
