(* ===== verification/AutoUpdateStore.v ===== *)
(** * Automatic updates in the database (src/internal/sqlite/auto_update_store.go,
    update_execution_store.go, src/internal/autoupdate/schedule.go)

    Policies say when a stack is checked; a run is one scheduled check and walks
    through the phases queued, checking, prepared, applying, verifying,
    terminal; an execution is the recovery intent of a run from the moment it
    is prepared. *)
From S2P Require Import Prelude GoStrings TimeText Alerts Database.

(** ** Schedules (autoupdate/schedule.go)

    The parser of cron expressions is a library: a parameter. *)
Class Cron := cron_parse : string → option (time → time).

Module AutoUpdateStore.
Import Data Database.

Definition DefaultExpression : string := "0 0 * * *".

(** The number of fields of [strings.Fields]. *)
Fixpoint countFields (inside : bool) (l : list Z) : Z :=
  match l with
  | [] => 0
  | c :: l' => if IsSpace c then countFields false l'
               else ((if inside then 0 else 1) + countFields true l')%Z
  end.
Definition NextRun `{Cron} (expression : string) (after : time) : result time :=
  if (256 <? len expression)%Z || negb (countFields false (rune <$> runes expression) =? 5)%Z || Contains expression "="
  then Err AutoUpdate_ErrInvalid
  else match cron_parse expression with
  | None => Err AutoUpdate_ErrInvalid
  | Some next =>
    if IsZero (next after) || negb (After (next after) after) then Err AutoUpdate_ErrInvalid else Ok (next after)
  end.

(** ** Rows *)
Definition policyOf (stack : string) (p : PolicyRow) : Policy :=
  mkPolicy stack (p_enabled p) (p_expression p) (p_revision p)
    (if (p_next_run p =? 0)%Z then zeroTime else fromUnixNano (p_next_run p)) (p_paused p).
Definition executionOf (run : string) (x : ExecutionRow) : Execution :=
  mkExecution run (x_operation x) (x_phase x) (x_source x) (x_changes x) (x_baseline x).
Definition zeroRun : Run := mkRun "" "" "" 0 zeroTime "" "" "" "".
Definition setRunPhase (phase : string) (r : Run) : Run :=
  mkRun (RunID r) (RunStackID r) (RunStackName r) (PolicyRevision r) (ScheduledAt r) phase (RunOutcome r)
    (Reason r) (RunOperationID r).
Definition finishRun (outcome reason : string) (r : Run) : Run :=
  mkRun (RunID r) (RunStackID r) (RunStackName r) (PolicyRevision r) (ScheduledAt r) "terminal" outcome
    reason (RunOperationID r).
Definition setExecutionPhase (phase : string) (x : ExecutionRow) : ExecutionRow :=
  mkExecutionRow (x_operation x) phase (x_source x) (x_changes x) (x_baseline x) (x_results x).
(** The columns of [deployment_images]. *)
Definition imageRow (c : ImageChange) : ImageChange :=
  mkImageChange (Service c) (SourceReference c) (TargetReference c) (Platform c) "" (AfterImageID c) "".

Section store.
Context `{W : World} `{Cron}.

(** ** Policies *)
Definition GetPolicy (id : string) : M DB Policy :=
  p ← query (λ db, policyOf id <$> policies db !! id);
  match p with
  | Some p => mret p
  | None =>
    _ ← call (λ db, if stacks db !! id then Ok (tt, db) else Err ErrNoRows);
    mret (mkPolicy id false DefaultExpression 0 zeroTime "")
  end.

Definition SavePolicy (id : string) (update : PolicyUpdate) (now_ : time) : M DB Policy :=
  next ← lift (NextRun (UExpression update) now_);
  _ ← guard_not (UExpectedRevision update <? 0)%Z AutoUpdate_ErrConflict;
  atomically (
    _ ← call (λ db, if active db id then Ok (tt, db) else Err ErrNoRows);
    _ ← (if (UExpectedRevision update =? 0)%Z then
           call (λ db, match policies db !! id with
             | Some _ => Err AutoUpdate_ErrConflict      (* ON CONFLICT DO NOTHING: no row affected *)
             | None => Ok (tt, set_policies db (<[id :=
                 mkPolicyRow (UEnabled update) (UExpression update) 1 (UnixNano next) "" 0]> (policies db)))
             end)
         else
           update1 (λ db, policies db !! id) (λ _ p, (p_revision p =? UExpectedRevision update)%Z)
             (λ db p, set_policies db (<[id := mkPolicyRow (UEnabled update) (UExpression update)
                (p_revision p + 1) (UnixNano next) (p_paused p) (p_last_started p)]> (policies db)))
             AutoUpdate_ErrConflict);
    call (λ db, match policies db !! id with Some p => Ok (policyOf id p, db) | None => Err ErrNoRows end)).

(** p.enabled=1 AND p.paused_reason='' AND s.archived_at IS NULL *)
Definition runnable (db : DB) (stack : string) (p : PolicyRow) : bool :=
  p_enabled p && (p_paused p =? "")%string && active db stack.

(** ORDER BY next_run_at,last_started_at,stack_id *)
Definition due_order (a b : string * PolicyRow) : Prop :=
  (p_next_run a.2 < p_next_run b.2)%Z ∨ (p_next_run a.2 = p_next_run b.2 ∧
    ((p_last_started a.2 < p_last_started b.2)%Z ∨
     (p_last_started a.2 = p_last_started b.2 ∧ string_le a.1 b.1))).
#[global] Instance due_order_dec : RelDecision due_order.
Proof. unfold due_order. intros a b. apply _. Defined.

Definition ListDue (now_ : time) (limit : Z) : M DB (list Policy) :=
  let limit := if (limit <=? 0)%Z || (200 <? limit)%Z then 200%Z else limit in
  query (λ db, (λ '(id, p), policyOf id p) <$> take (Z.to_nat limit)
    (merge_sort due_order (filter (λ '(id, p), runnable db id p = true ∧ (p_next_run p ≤ UnixNano now_)%Z)
       (map_to_list (policies db))))).

Definition pendingOf (db : DB) (stack : string) : Z :=
  Z.of_nat (size (filter (λ '(_, r), RunStackID r = stack ∧ RunPhase r ≠ "terminal"%string) (runs db))).

(** INSERT INTO auto_update_runs .. ON CONFLICT(stack_id,scheduled_at) DO NOTHING: was it inserted? *)
Definition insertRun (r : Run) : M DB bool :=
  call (λ db,
    if bool_decide (map_Exists (λ _ r', RunStackID r' = RunStackID r ∧ ScheduledAt r' = ScheduledAt r) (runs db))
    then Ok (false, db)
    else match runs db !! RunID r with
    | Some _ => Err ErrConstraint
    | None => Ok (true, set_runs db (<[RunID r := r]> (runs db)))
    end).

Definition advance (p : Policy) (next : time) : M DB bool :=
  call (λ db, match policies db !! PStackID p with
    | Some q =>
      if (p_revision q =? PRevision p)%Z && p_enabled q && (p_paused q =? "")%string
         && (p_next_run q =? UnixNano (NextRunAt p))%Z && active db (PStackID p)
      then Ok (true, set_policies db (<[PStackID p := mkPolicyRow (p_enabled q) (p_expression q) (p_revision q)
             (UnixNano next) (p_paused q) (p_last_started q)]> (policies db)))
      else Ok (false, db)
    | None => Ok (false, db)
    end).

Definition Admit (p : Policy) (now_ : time) : M DB (Run * bool) :=
  if negb (PEnabled p) || negb (PPausedReason p =? "")%string || IsZero (NextRunAt p) || After (NextRunAt p) now_
  then mret (zeroRun, false)
  else
    next ← lift (NextRun (Expression p) now_);
    transact (
      n ← advance p next;
      if negb n then mret (zeroRun, false, false)
      else
        name ← call (λ db, match stacks db !! PStackID p with Some s => Ok (DirectoryName s, db) | None => Err ErrNoRows end);
        random_ ← rand_read;
        pending ← query (λ db, pendingOf db (PStackID p));
        let skipped := (0 <? pending)%Z in
        let run := mkRun ("upd_" ++ random_) (PStackID p) name (PRevision p)
                     (fromUnixNano (UnixNano (NextRunAt p)))
                     (if skipped then "terminal" else "queued") (if skipped then "skipped" else "")
                     (if skipped then "overlap" else "") "" in
        inserted ← insertRun run;
        mret (run, inserted && (pending =? 0)%Z, true)).

(** The rows are read first and then updated one by one. *)
Fixpoint resetAll (now_ : time) (l : list (string * PolicyRow)) : M DB unit :=
  match l with
  | [] => mret tt
  | (id, p) :: l' =>
    next ← lift (NextRun (p_expression p) now_);
    _ ← exec (λ db, set_policies db (alter (λ p, mkPolicyRow (p_enabled p) (p_expression p) (p_revision p)
           (UnixNano next) (p_paused p) (p_last_started p)) id (policies db)));
    resetAll now_ l'
  end.
Definition ResetAfterStartup (now_ : time) : M DB unit :=
  atomically (ps ← query (λ db, map_to_list (policies db)); resetAll now_ ps).

Definition pausePolicy (id reason : string) (db : DB) : DB :=
  set_policies db (alter (λ p, mkPolicyRow (p_enabled p) (p_expression p) (p_revision p + 1) (p_next_run p)
    reason (p_last_started p)) id (policies db)).
Definition Pause (id reason : string) : M DB unit := exec (pausePolicy id reason).

(** [min(p.next_run_at)] of the runnable policies. *)
Definition NextScheduled : M DB time :=
  query (λ db,
    match filter (λ '(id, p), runnable db id p = true) (map_to_list (policies db)) with
    | [] => zeroTime
    | (_, p) :: l => fromUnixNano (foldr (λ q, Z.min (p_next_run q.2)) (p_next_run p) l)
    end).

(** ** Runs *)
Definition run_order (a b : Run) : Prop :=
  (ScheduledAt a < ScheduledAt b)%Z ∨ (ScheduledAt a = ScheduledAt b ∧ string_le (RunID a) (RunID b)).
#[global] Instance run_order_dec : RelDecision run_order.
Proof. unfold run_order. intros a b. apply _. Defined.
Definition PendingRuns : M DB (list Run) :=
  query (λ db, merge_sort run_order (filter (λ r, RunPhase r ≠ "terminal"%string) (map_to_list (runs db)).*2)).
Definition LatestRun (id : string) : M DB Run :=
  call (λ db, match last (merge_sort run_order (filter (λ r, RunStackID r = id) (map_to_list (runs db)).*2)) with
    | Some r => Ok (r, db)
    | None => Err ErrNoRows
    end).

Definition currentPolicy (db : DB) (stack : string) (revision : Z) : bool :=
  match policies db !! stack with
  | Some p => p_enabled p && (p_paused p =? "")%string && (p_revision p =? revision)%Z
  | None => false
  end.

Definition MarkChecking (run : Run) (now_ : time) : M DB unit :=
  atomically (
    _ ← update1 (λ db, runs db !! RunID run)
          (λ db r, (RunPhase r =? "queued")%string && currentPolicy db (RunStackID run) (PolicyRevision run)
                   && active db (RunStackID run))
          (λ db r, set_runs db (<[RunID run := setRunPhase "checking" r]> (runs db))) AutoUpdate_ErrConflict;
    exec (λ db, set_policies db (alter (λ p, mkPolicyRow (p_enabled p) (p_expression p) (p_revision p)
      (p_next_run p) (p_paused p) (UnixNano now_)) (RunStackID run) (policies db)))).

(** The execution of a run moves from one phase to another (no row need match). *)
Definition moveExecution (id from to : string) (db : DB) : DB :=
  set_executions db (alter (λ x, if (x_phase x =? from)%string then setExecutionPhase to x else x) id (executions db)).

Definition FinishRun (id outcome reason : string) (changes : list Alert.Change) : M DB unit :=
  transact (
    n ← call (λ db, match runs db !! id with
      | Some r => if (RunPhase r =? "terminal")%string then Ok (false, db)
                  else Ok (true, set_runs db (<[id := finishRun outcome reason r]> (runs db)))
      | None => Ok (false, db)
      end);
    if negb n then mret (tt, false)
    else
      changes ← zoom (AlertStore.currentAlertChanges changes);
      _ ← zoom (AlertStore.applyAlertChanges changes);
      _ ← exec (moveExecution id "prepared" "terminal");
      mret (tt, true)).

(** ** Executions *)
Definition SavePrepared (run : Run) (operation : Operation) (source : string) (changes : list ImageChange)
    (baseline : Deployment) : M DB unit :=
  atomically (
    _ ← update1 (λ db, runs db !! RunID run)
          (λ db r, ((RunPhase r =? "queued")%string || (RunPhase r =? "checking")%string)
                   && currentPolicy db (RunStackID run) (PolicyRevision run))
          (λ db r, set_runs db (<[RunID run := mkRun (RunID r) (RunStackID r) (RunStackName r) (PolicyRevision r)
             (ScheduledAt r) "prepared" (RunOutcome r) (Reason r) (OpID operation)]> (runs db)))
          AutoUpdate_ErrConflict;
    call (λ db,
      if executions db !! RunID run then Err ErrConstraint
      else if bool_decide (map_Exists (λ _ x, x_operation x = OpID operation) (executions db)) then Err ErrConstraint
      else if operations db !! OpID operation
      then Ok (tt, set_executions db (<[RunID run :=
             mkExecutionRow (OpID operation) "prepared" source changes baseline []]> (executions db)))
      else Err ErrConstraint)).

Definition MarkApplying (id : string) (revision : Z) : M DB unit :=
  atomically (
    _ ← update1 (λ db, runs db !! id)
          (λ db r, (RunPhase r =? "prepared")%string && (PolicyRevision r =? revision)%Z
                   && currentPolicy db (RunStackID r) revision && active db (RunStackID r))
          (λ db r, set_runs db (<[id := setRunPhase "applying" r]> (runs db))) AutoUpdate_ErrConflict;
    exec (moveExecution id "prepared" "applying")).

Definition moveRun (id from to : string) (db : DB) : DB :=
  set_runs db (alter (λ r, if (RunPhase r =? from)%string then setRunPhase to r else r) id (runs db)).
Definition MarkVerifying (id : string) : M DB unit :=
  atomically (_ ← exec (moveRun id "applying" "verifying"); exec (moveExecution id "applying" "verifying")).

Definition execution_order (a b : Execution) : Prop := string_le (XRunID a) (XRunID b).
#[global] Instance execution_order_dec : RelDecision execution_order.
Proof. unfold execution_order. intros a b. apply _. Defined.
Definition PendingExecutions : M DB (list Execution) :=
  query (λ db, merge_sort execution_order ((λ '(id, x), executionOf id x) <$>
    filter (λ '(_, x), x_phase x ≠ "terminal"%string) (map_to_list (executions db)))).

(** ** Images *)
Definition imagesOf (db : DB) (stack : string) : gmap string ImageChange :=
  list_to_map ((λ '((_, service), c), (service, c)) <$> filter (λ p, p.1.1 = stack) (map_to_list (images db))).
Definition EffectiveImages (id : string) : M DB (gmap string ImageChange) := query (λ db, imagesOf db id).
Definition deleteImages (id : string) (db : DB) : DB :=
  set_images db (filter (λ p, p.1.1 ≠ id) (images db)).
Definition InvalidateImages (id : string) : M DB unit := exec (deleteImages id).
Definition PruneImages (id : string) (sources : gmap string string) : M DB unit :=
  atomically (
    stale ← query (λ db, filter (λ c, default "" (sources !! Service c) ≠ SourceReference c) (map_to_list (imagesOf db id)).*2);
    foldr (λ c m, _ ← exec (λ db, set_images db (delete (id, Service c) (images db))); m) (mret tt) stale).

Definition verified (results : list ServiceUpdateResult) (change : ImageChange) : bool :=
  existsb (λ r, (RService r =? Service change) && (ROutcome r =? "verified") && (ActualImageID r =? AfterImageID change))%string
    results.
(** INSERT .. ON CONFLICT(stack_id,service) DO UPDATE *)
Definition upsertImage (stack : string) (c : ImageChange) : M DB unit :=
  call (λ db, if stacks db !! stack
    then Ok (tt, set_images db (<[(stack, Service c) := imageRow c]> (images db))) else Err ErrConstraint).
Fixpoint recordImages (stack : string) (results : list ServiceUpdateResult) (changes : list ImageChange) : M DB unit :=
  match changes with
  | [] => mret tt
  | c :: changes' =>
    _ ← guard_not (negb (verified results c)) (ErrText "missing verified image result");
    _ ← upsertImage stack c;
    recordImages stack results changes'
  end.

Definition completeUpdate (operation : Operation) (completion : option UpdateCompletion) : M DB unit :=
  match completion with
  | None => mret tt
  | Some c =>
    x ← call (λ db, match executions db !! UCRunID c with
      | Some x => if (x_operation x =? OpID operation)%string then Ok (x, db) else Err ErrNoRows
      | None => Err ErrNoRows
      end);
    if (x_phase x =? "terminal")%string then mret tt
    else
      _ ← guard_not (negb (x_phase x =? "applying")%string && negb (x_phase x =? "verifying")%string)
            (ErrText "update has not entered mutation phase");
      let d := UCDeployment c in
      _ ← guard_not (negb (DepOperationID d =? OpID operation)%string || negb (DepStackID d =? ScopeID operation)%string)
            (ErrText "update completion ownership mismatch");
      _ ← insertDeployment d;
      let updated := ((Status operation =? OperationSucceeded) && (DepStatus d =? DeploymentSucceeded)
                      && (UCPauseReason c =? ""))%string in
      _ ← (if updated then recordImages (DepStackID d) (Services c) (x_changes x) else mret tt);
      _ ← (if negb (UCPauseReason c =? "")%string then exec (pausePolicy (DepStackID d) (UCPauseReason c)) else mret tt);
      _ ← exec (λ db, set_executions db (alter (λ x, mkExecutionRow (x_operation x) "terminal" (x_source x) (x_changes x)
            (x_baseline x) (Services c)) (UCRunID c) (executions db)));
      exec (λ db, set_runs db (alter (finishRun (if updated then "updated" else "failed") (UCPauseReason c))
            (UCRunID c) (runs db)))
  end.

(** ** Manual recovery *)
Definition ResumePolicy (id : string) (revision : Z) (now_ : time) (actor : string) (baseline : Deployment)
    (images_ : list ImageChange) (changes : list Alert.Change) : M DB unit :=
  atomically (
    expression ← call (λ db, match policies db !! id with
      | Some p => if (p_revision p =? revision)%Z && negb (p_paused p =? "")%string
                  then Ok (p_expression p, db) else Err AutoUpdate_ErrConflict
      | None => Err AutoUpdate_ErrConflict
      end);
    next ← lift (NextRun expression now_);
    _ ← exec (λ db, set_policies db (alter (λ p,
          if (p_revision p =? revision)%Z
          then mkPolicyRow (p_enabled p) (p_expression p) (p_revision p + 1) (UnixNano next) "" (p_last_started p)
          else p) id (policies db)));
    _ ← insertOperation (mkOperation [] [] (DepOperationID baseline) "verify_recovery" "stack" id "" OperationSucceeded
          now_ now_ 0 "" "Manual recovery verified; future scheduled updates may resume according to the saved policy."
          false actor "" [] "");
    _ ← call (λ db, match stacks db !! id with
          | Some s =>
            if alert_context db !! DepOperationID baseline then Err ErrConstraint
            else Ok (tt, set_alert_context db (<[DepOperationID baseline :=
                   mkContextRow "manual" (DirectoryName s) []]> (alert_context db)))
          | None => Err ErrConstraint
          end);
    _ ← insertDeployment (mkDeployment (DepID baseline) id (DepOperationID baseline) (GitCommit baseline) (Dirty baseline)
          (DiffDigest baseline) (ComposeDigest baseline) DeploymentSucceeded now_ now_ 0%Z "");
    _ ← exec (deleteImages id);
    _ ← foldr (λ c m, _ ← call (λ db,
           if images db !! (id, Service c) then Err ErrConstraint
           else if stacks db !! id then Ok (tt, set_images db (<[(id, Service c) := imageRow c]> (images db)))
           else Err ErrConstraint); m) (mret tt) images_;
    changes ← zoom (AlertStore.currentAlertChanges changes);
    _ ← zoom (AlertStore.applyAlertChanges changes);
    mret tt).
End store.
End AutoUpdateStore.
