(* ===== verification/AutoUpdateLaws.v ===== *)
(** * Runs and executions stay consistent

    The invariant of the update tables, its preservation by every operation of
    the store, and what the completion of an update records. *)
From S2P Require Import Prelude GoStrings TimeText Alerts Database AutoUpdateStore.

Module AutoUpdateLaws.
Import Data Database AutoUpdateStore.

(** ** The invariant *)
Definition rank (phase : string) : option nat :=
  if (phase =? "queued")%string then Some 0
  else if (phase =? "checking")%string then Some 1
  else if (phase =? "prepared")%string then Some 2
  else if (phase =? "applying")%string then Some 3
  else if (phase =? "verifying")%string then Some 4
  else if (phase =? "terminal")%string then Some 5
  else None.
Definition pending (r : Run) : Prop := RunPhase r ≠ "terminal"%string.

(** The rows of one run: it and its execution are in the same phase unless the
    run is over; a run that mutates has an execution. *)
Definition slotOk (db : DB) (i : string) : Prop :=
  match runs db !! i with
  | None => executions db !! i = None
  | Some r =>
    RunID r = i ∧ is_Some (rank (RunPhase r)) ∧
    match executions db !! i with
    | None => RunPhase r ∉ ["prepared"; "applying"; "verifying"]%string
    | Some x =>
      x_phase x ∈ ["prepared"; "applying"; "verifying"; "terminal"]%string ∧
      RunOperationID r = x_operation x ∧ (RunPhase r = x_phase x ∨ RunPhase r = "terminal"%string) ∧
      is_Some (operations db !! x_operation x)
    end
  end.

Record Inv (db : DB) : Prop := {
  inv_slot : ∀ i, slotOk db i;
  inv_one : ∀ i j r1 r2, runs db !! i = Some r1 → runs db !! j = Some r2 →
    RunStackID r1 = RunStackID r2 → pending r1 → pending r2 → i = j;
  inv_schedule : ∀ i j r1 r2, runs db !! i = Some r1 → runs db !! j = Some r2 →
    RunStackID r1 = RunStackID r2 → ScheduledAt r1 = ScheduledAt r2 → i = j;
  inv_operation : ∀ i j x1 x2, executions db !! i = Some x1 → executions db !! j = Some x2 →
    x_operation x1 = x_operation x2 → i = j;
  inv_policy : ∀ s p, policies db !! s = Some p → is_Some (stacks db !! s) ∧ (1 ≤ p_revision p)%Z;
}.

(** Time passes: no run disappears or goes back to an earlier phase. *)
Definition rank_le (a b : string) : Prop :=
  match rank a, rank b with Some n, Some m => n ≤ m | _, _ => False end.
Definition advances (db db' : DB) : Prop :=
  ∀ i r, runs db !! i = Some r → ∃ r', runs db' !! i = Some r' ∧
    RunStackID r' = RunStackID r ∧ ScheduledAt r' = ScheduledAt r ∧ rank_le (RunPhase r) (RunPhase r').

Lemma rank_le_trans a b c : rank_le a b → rank_le b c → rank_le a c.
Proof. unfold rank_le. destruct (rank a), (rank b), (rank c); try done. lia. Qed.
Lemma rank_le_refl a : is_Some (rank a) → rank_le a a.
Proof. unfold rank_le. by intros [n ->]. Qed.
Lemma rank_terminal a : rank_le "terminal" a → a = "terminal"%string.
Proof.
  unfold rank_le, rank. simpl. repeat case_match; simplify_eq; try lia.
  by match goal with H : (_ =? "terminal")%string = true |- _ => apply String.eqb_eq in H end.
Qed.

Lemma advances_trans db1 db2 db3 : advances db1 db2 → advances db2 db3 → advances db1 db3.
Proof.
  intros H1 H2 i r Hr. destruct (H1 _ _ Hr) as (r2 & Hr2 & ? & ? & ?).
  destruct (H2 _ _ Hr2) as (r3 & Hr3 & ? & ? & ?). exists r3. split_and!; [done|congruence..|].
  by eapply rank_le_trans.
Qed.
Lemma advances_same db db' : Inv db → runs db' = runs db → advances db db'.
Proof.
  intros I He i r Hr. exists r. rewrite He. split_and!; [done..|]. apply rank_le_refl.
  pose proof (inv_slot _ I i) as Hs. unfold slotOk in Hs. rewrite Hr in Hs. apply Hs.
Qed.

(** ** Tables that do not concern runs *)
Definition policiesOk (db : DB) : Prop :=
  ∀ s p, policies db !! s = Some p → is_Some (stacks db !! s) ∧ (1 ≤ p_revision p)%Z.

Lemma inv_elsewhere db db' :
  Inv db → runs db' = runs db → executions db' = executions db →
  (∀ o, is_Some (operations db !! o) → is_Some (operations db' !! o)) → policiesOk db' → Inv db'.
Proof.
  intros I Hr Hx Ho Hp. constructor; rewrite ?Hr, ?Hx; try apply I; [|exact Hp].
  intros i. pose proof (inv_slot _ I i) as Hs. unfold slotOk in *. rewrite Hr, Hx.
  destruct (runs db !! i); [|done]. destruct (executions db !! i); [|done]. naive_solver.
Qed.

(** ** A change of one run *)
Lemma inv_change db db' i :
  Inv db →
  (∀ j, j ≠ i → runs db' !! j = runs db !! j ∧ executions db' !! j = executions db !! j) →
  (∀ o, is_Some (operations db !! o) → is_Some (operations db' !! o)) → policiesOk db' →
  slotOk db' i →
  (∀ r, runs db !! i = Some r → is_Some (runs db' !! i)) →
  (∀ r', runs db' !! i = Some r' → ∃ r, runs db !! i = Some r ∧
     RunStackID r' = RunStackID r ∧ ScheduledAt r' = ScheduledAt r ∧ rank_le (RunPhase r) (RunPhase r')) →
  (∀ x' j x, executions db' !! i = Some x' → j ≠ i → executions db !! j = Some x → x_operation x ≠ x_operation x') →
  Inv db' ∧ advances db db'.
Proof.
  intros I Helse Hops Hpol Hslot Hkeep Hrun Hexec.
  assert (∀ j r', runs db' !! j = Some r' → ∃ r, runs db !! j = Some r ∧
     RunStackID r' = RunStackID r ∧ ScheduledAt r' = ScheduledAt r ∧ (pending r' → pending r)) as Hback.
  { intros j r' Hr'. destruct (decide (j = i)) as [->|Hne].
    - destruct (Hrun _ Hr') as (r & Hr & ? & ? & Hle). exists r. split_and!; [done..|].
      intros Hp Ht. rewrite Ht in Hle. apply Hp. by apply rank_terminal in Hle.
    - rewrite (proj1 (Helse _ Hne)) in Hr'. eauto. }
  split.
  - constructor; [| | | |exact Hpol].
    + intros j. destruct (decide (j = i)) as [->|Hne]; [done|].
      pose proof (inv_slot _ I j) as Hs. unfold slotOk in *. destruct (Helse _ Hne) as [-> ->].
      destruct (runs db !! j); [|done]. destruct (executions db !! j); [|done]. naive_solver.
    + intros j k r1 r2 H1 H2 Hst P1 P2. destruct (Hback _ _ H1) as (s1 & R1 & E1 & _ & Q1).
      destruct (Hback _ _ H2) as (s2 & R2 & E2 & _ & Q2). apply (inv_one _ I j k s1 s2); auto; congruence.
    + intros j k r1 r2 H1 H2 Hst Hsc. destruct (Hback _ _ H1) as (s1 & R1 & E1 & C1 & _).
      destruct (Hback _ _ H2) as (s2 & R2 & E2 & C2 & _). apply (inv_schedule _ I j k s1 s2); auto; congruence.
    + intros j k x1 x2 H1 H2 Ho. destruct (decide (j = i)) as [->|Hj], (decide (k = i)) as [->|Hk]; [done|..].
      * rewrite (proj2 (Helse _ Hk)) in H2. by destruct (Hexec _ _ _ H1 Hk H2).
      * rewrite (proj2 (Helse _ Hj)) in H1. by destruct (Hexec _ _ _ H2 Hj H1).
      * rewrite (proj2 (Helse _ Hj)) in H1. rewrite (proj2 (Helse _ Hk)) in H2. by apply (inv_operation _ I j k x1 x2).
  - intros j r Hr. destruct (decide (j = i)) as [->|Hne].
    + destruct (Hkeep _ Hr) as [r' Hr']. destruct (Hrun _ Hr') as (r0 & Hr0 & ? & ? & ?). simplify_eq. eauto.
    + exists r. rewrite (proj1 (Helse _ Hne)). split_and!; [done..|]. apply rank_le_refl.
      pose proof (inv_slot _ I j) as Hs. unfold slotOk in Hs. rewrite Hr in Hs. apply Hs.
Qed.

(** A new run. *)
Lemma inv_insert db i r :
  Inv db → runs db !! i = None → RunID r = i →
  (RunPhase r = "queued"%string ∨ RunPhase r = "terminal"%string) →
  (pending r → ∀ j r', runs db !! j = Some r' → RunStackID r' = RunStackID r → ¬ pending r') →
  (∀ j r', runs db !! j = Some r' → ¬ (RunStackID r' = RunStackID r ∧ ScheduledAt r' = ScheduledAt r)) →
  Inv (set_runs db (<[i := r]> (runs db))) ∧ advances db (set_runs db (<[i := r]> (runs db))).
Proof.
  intros I Hnone Hid Hphase Hpend Hsched. split.
  - constructor; simpl; [|intros j k r1 r2; rewrite !lookup_insert_Some..| |]; try apply I.
    + intros j. pose proof (inv_slot _ I j) as Hs. unfold slotOk in *. simpl.
      destruct (decide (j = i)) as [->|Hne]; [|by rewrite lookup_insert_ne].
      rewrite lookup_insert_eq. rewrite Hnone in Hs. rewrite Hs. split; [done|].
      destruct Hphase as [-> | ->]; (split; [vm_compute; eauto|set_solver]).
    + intros [[<- <-]|[? H1]] [[<- <-]|[? H2]] Hst P1 P2; [done|..].
      * by destruct (Hpend P1 _ _ H2).
      * by destruct (Hpend P2 _ _ H1).
      * by apply (inv_one _ I j k r1 r2).
    + intros [[<- <-]|[? H1]] [[<- <-]|[? H2]] Hst Hsc; [done|..].
      * by destruct (Hsched _ _ H2).
      * by destruct (Hsched _ _ H1).
      * by apply (inv_schedule _ I j k r1 r2).
  - intros j r0 Hr0. exists r0. simpl. rewrite lookup_insert_ne by congruence. split_and!; [done..|].
    apply rank_le_refl. pose proof (inv_slot _ I j) as Hs. unfold slotOk in Hs. rewrite Hr0 in Hs. apply Hs.
Qed.

(** ** The operations *)
Definition keepsRuns (db0 db : DB) (_ : nat) : Prop := Inv db ∧ advances db0 db.

Section operations.
Context `{W : World} `{C : Cron}.

Lemma keepsRuns_call {A} db0 (f : DB → result (A * DB)) :
  (∀ db a db', Inv db → f db = Ok (a, db') → Inv db' ∧ advances db db') → maintains (keepsRuns db0) (call f).
Proof.
  intros Hf. apply maintains_call; [by intros ???|]. intros db n a db' [I Hadv] H.
  destruct (Hf _ _ _ I H). split; [done|]. by eapply advances_trans.
Qed.
Lemma keepsRuns_atomically {A} db0 (m : M DB A) :
  (∀ db n a db' n', Inv db → m db n = (Ok a, (db', n')) → Inv db' ∧ advances db db') →
  maintains (keepsRuns db0) (atomically m).
Proof.
  intros Hm db n [I Hadv]. destruct (atomically_cases m db n) as [->|(a & db' & n' & H & ->)]; [done|].
  destruct (Hm _ _ _ _ _ I H). split; [done|]. by eapply advances_trans.
Qed.
Lemma keepsRuns_transact {A} db0 (m : M DB (A * bool)) :
  (∀ db n a db' n', Inv db → m db n = (Ok (a, true), (db', n')) → Inv db' ∧ advances db db') →
  maintains (keepsRuns db0) (transact m).
Proof.
  intros Hm db n [I Hadv]. destruct (transact_cases m db n) as [->|(a & db' & n' & H & ->)]; [done|].
  destruct (Hm _ _ _ _ _ I H). split; [done|]. by eapply advances_trans.
Qed.

(** Statements on other tables. *)
Lemma elsewhere db db' :
  Inv db → runs db' = runs db → executions db' = executions db →
  (∀ o, is_Some (operations db !! o) → is_Some (operations db' !! o)) → policiesOk db' →
  Inv db' ∧ advances db db'.
Proof. intros I Hr Hx Ho Hp. split; [by eapply inv_elsewhere|by apply advances_same]. Qed.

Lemma policiesOk_alter db ps f s :
  Inv db → ps = alter f s (policies db) → (∀ p, p_revision p ≤ p_revision (f p))%Z →
  ∀ t p, ps !! t = Some p → is_Some (stacks db !! t) ∧ (1 ≤ p_revision p)%Z.
Proof.
  intros I -> Hf t p. rewrite lookup_alter_Some. intros [(<- & q & Hq & ->)|[_ Hq]]; [|by apply I].
  destruct (inv_policy _ I _ _ Hq). split; [done|]. specialize (Hf q). lia.
Qed.

Lemma Pause_keeps db0 id reason : maintains (keepsRuns db0) (Pause id reason).
Proof.
  apply keepsRuns_call. intros db a db' I [= _ <-]. apply elsewhere; [done..|].
  intros t p. apply (policiesOk_alter db _ _ id I eq_refl). simpl. lia.
Qed.

Lemma SavePolicy_keeps db0 id update t : maintains (keepsRuns db0) (SavePolicy id update t).
Proof.
  apply maintains_bind; [apply maintains_lift|]. intros next. apply maintains_bind; [apply maintains_lift|]. intros _.
  apply keepsRuns_atomically. intros db n a db' n' I H.
  apply bind_ok in H as (? & ? & ? & H1 & H). apply call_ok in H1 as [H1 ->].
  destruct (active db id) eqn:Hact; [|done]. injection H1 as _ <-.
  apply bind_ok in H as (? & db1 & n1 & H1 & H). apply call_ok in H as [H _].
  assert (db1 = db') as -> by (case_match; by simplify_eq). clear H.
  apply active_stack in Hact as Hst.
  assert (∀ q, (1 ≤ p_revision q)%Z → policiesOk (set_policies db (<[id := q]> (policies db)))) as Hok.
  { intros q Hq s p. simpl. rewrite lookup_insert_Some. intros [[<- <-]|[_ Hp]]; [done|]. by apply I. }
  destruct (UExpectedRevision update =? 0)%Z; db_inv.
  - destruct (policies db !! id); [done|]. simplify_eq. apply elsewhere; [done..|]. by apply Hok.
  - apply elsewhere; [done..|]. apply Hok. simpl.
    match goal with H : policies db !! id = Some _ |- _ => apply (inv_policy _ I) in H end. lia.
Qed.

Lemma ResetAfterStartup_keeps db0 t : maintains (keepsRuns db0) (ResetAfterStartup t).
Proof.
  apply keepsRuns_atomically. intros db n a db' n' I H. db_inv.
  revert H. generalize (map_to_list (policies db)) as l, (S n) as k. intros l. revert db I.
  induction l as [|[id p] l IH]; intros db I k H; simpl in H; db_inv; [by apply elsewhere; [..|exact (inv_policy _ I)]|].
  match type of H with resetAll _ _ ?d _ = _ =>
    assert (Inv d ∧ advances db d) as [I1 H1]; [|destruct (IH d I1 _ H); split; [done|by apply (advances_trans _ d)]] end.
  apply elsewhere; [done..|]. intros s q. apply (policiesOk_alter db _ _ id I eq_refl). simpl. lia.
Qed.

Lemma Admit_keeps db0 p t : maintains (keepsRuns db0) (Admit p t).
Proof.
  unfold Admit. destruct (_ || _); [apply maintains_ret|]. apply maintains_bind; [apply maintains_lift|]. intros next.
  apply keepsRuns_transact. intros db n a db' n' I H.
  apply bind_ok in H as (b & db1 & n1 & H1 & H). destruct b; simpl in H; [|db_inv].
  assert (∃ ps, db1 = set_policies db ps ∧ policiesOk db1) as (ps & -> & Hps).
  { clear H. unfold advance in H1. db_inv. case_match eqn:Hq; simplify_eq. case_match; simplify_eq.
    eexists. split; [done|]. intros s q. simpl. rewrite lookup_insert_Some.
    intros [[<- <-]|[_ Hs]]; [|by apply I]. by apply (inv_policy _ I _ _ Hq). }
  clear H1. db_inv. destruct (stacks (set_policies db ps) !! PStackID p); [|done]. simplify_eq.
  match goal with H : insertRun _ _ _ = _ |- _ => rename H into Hins end. apply call_ok in Hins as [Hins ->].
  assert (Inv (set_policies db ps) ∧ advances db (set_policies db ps)) as [I1 A1] by (by apply elsewhere).
  case_bool_decide as Hex; simplify_eq; [done|].
  match type of Hins with (match ?y with _ => _ end) = _ => destruct y eqn:Hnone; [done|] end. simplify_eq.
  match goal with |- Inv (set_runs (set_policies db ps) (<[?i := ?r]> _)) ∧ _ =>
    destruct (inv_insert (set_policies db ps) i r I1 Hnone eq_refl) as [I2 A2] end.
  - simpl. case_match; auto.
  - unfold pending. simpl. intros Hp j r' Hj Hstk Hpend.
    destruct (Z.ltb_spec 0 (pendingOf (set_policies db ps) (PStackID p))) as [|Hle]; [done|].
    unfold pendingOf in Hle. simpl in Hle.
    assert (filter (λ '(_, r), RunStackID r = PStackID p ∧ RunPhase r ≠ "terminal"%string) (runs db) = ∅) as He
      by (apply map_size_empty_inv; lia).
    assert (filter (λ '(_, r), RunStackID r = PStackID p ∧ RunPhase r ≠ "terminal"%string) (runs db) !! j = Some r') as Hf
      by (apply map_lookup_filter_Some; done).
    by rewrite He, lookup_empty in Hf.
  - simpl. intros j r' Hj [Hs Hsc]. apply Hex. exists j, r'. done.
  - split; [done|]. by apply (advances_trans _ (set_policies db ps)).
Qed.

(** A change of the phase of one run, and of its execution with it. *)
Lemma phase_change db db' i r r' g :
  Inv db → runs db !! i = Some r →
  db' = set_executions (set_runs db (<[i := r']> (runs db))) (alter g i (executions db)) →
  RunStackID r' = RunStackID r → ScheduledAt r' = ScheduledAt r → RunID r' = RunID r →
  RunOperationID r' = RunOperationID r → rank_le (RunPhase r) (RunPhase r') →
  (∀ x, x_operation (g x) = x_operation x) →
  (∀ x, executions db !! i = Some x → RunPhase r = x_phase x ∨ RunPhase r = "terminal"%string →
     x_phase x ∈ ["prepared"; "applying"; "verifying"; "terminal"]%string →
     x_phase (g x) ∈ ["prepared"; "applying"; "verifying"; "terminal"]%string ∧
     (RunPhase r' = x_phase (g x) ∨ RunPhase r' = "terminal"%string)) →
  (executions db !! i = None → RunPhase r ∉ ["prepared"; "applying"; "verifying"]%string →
     RunPhase r' ∉ ["prepared"; "applying"; "verifying"]%string) →
  Inv db' ∧ advances db db'.
Proof.
  intros I Hr -> Hs Hsc Hid Hop Hle Hxop Hx Hnx.
  pose proof (inv_slot _ I i) as Hslot. unfold slotOk in Hslot. rewrite Hr in Hslot.
  destruct Hslot as (Hri & Hrank & Hexec).
  apply (inv_change _ _ i); simpl; try done.
  - intros j Hne. by rewrite lookup_insert_ne, lookup_alter_ne.
  - exact (inv_policy _ I).
  - unfold slotOk. simpl. rewrite lookup_insert_eq, lookup_alter_eq. split; [congruence|]. split.
    { unfold rank_le in Hle. destruct (rank (RunPhase r)), (rank (RunPhase r')); eauto; done. }
    destruct (executions db !! i) as [x|] eqn:Ex; simpl; [|by apply Hnx].
    destruct Hexec as (Hxp & Hxo & Hph & Hops). destruct (Hx x eq_refl Hph Hxp). rewrite Hxop, Hop. done.
  - intros r0 _. rewrite lookup_insert_eq. eauto.
  - intros r0. rewrite lookup_insert_eq. intros [= <-]. eauto.
  - intros x' j x. rewrite lookup_alter_eq. destruct (executions db !! i) as [y|] eqn:Ey; [|done].
    simpl. intros [= <-] Hne Hj. rewrite Hxop. intros Heq. apply Hne. by apply (inv_operation _ I j i x y).
Qed.

Lemma alter_same {A} (m : gmap string A) i f :
  (∀ x, m !! i = Some x → f x = x) → alter f i m = m.
Proof.
  intros Hf. apply map_eq. intros j. destruct (decide (j = i)) as [->|]; [|by rewrite lookup_alter_ne].
  rewrite lookup_alter_eq. destruct (m !! i) eqn:E; simpl; [by rewrite Hf|done].
Qed.

(** The phases are strings: comparisons in hypotheses become equations. *)
Ltac phases := repeat match goal with
  | H : (_ && _) = true |- _ => apply andb_prop in H as [? ?]
  | H : (_ =? _)%string = true |- _ => apply String.eqb_eq in H
  | H : (_ =? _)%Z = true |- _ => apply Z.eqb_eq in H
  | H : (_ || _) = true |- _ => apply orb_prop in H
  end.

Lemma rank_step a b : (∃ n m, rank a = Some n ∧ rank b = Some m ∧ n ≤ m) → rank_le a b.
Proof. intros (n & m & Ha & Hb & ?). unfold rank_le. by rewrite Ha, Hb. Qed.

Lemma inv_executions_phase db i r x :
  Inv db → runs db !! i = Some r → executions db !! i = Some x →
  x_phase x ∈ ["prepared"; "applying"; "verifying"; "terminal"]%string ∧
  RunOperationID r = x_operation x ∧ (RunPhase r = x_phase x ∨ RunPhase r = "terminal"%string).
Proof.
  intros I Hr Hx. pose proof (inv_slot _ I i) as Hs. unfold slotOk in Hs. rewrite Hr, Hx in Hs.
  destruct Hs as (_ & _ & ? & ? & ? & _). done.
Qed.

Lemma set_executions_same db : set_executions db (executions db) = db.
Proof. by destruct db. Qed.

Lemma MarkChecking_keeps db0 run t : maintains (keepsRuns db0) (MarkChecking run t).
Proof.
  apply keepsRuns_atomically. intros db n a db' n' I H. db_inv. phases.
  match goal with H : runs db !! _ = Some ?q |- _ => rename H into Hr; rename q into r end.
  pose (db1 := set_runs db (<[RunID run := setRunPhase "checking" r]> (runs db))).
  assert (Inv db1 ∧ advances db db1) as [I1 A1].
  { apply (phase_change db db1 (RunID run) r (setRunPhase "checking" r) (λ x, x)); try done.
    - rewrite alter_same by done. unfold db1. by destruct db.
    - simpl. match goal with H : RunPhase r = _ |- _ => rewrite H end. vm_compute. lia.
    - intros y Hx Hp Hin. simpl. exfalso.
      match goal with H : RunPhase r = _ |- _ => rewrite H in Hp end.
      destruct Hp as [Hp|]; [|done]. rewrite <- Hp in Hin. set_solver.
    - intros _ _. simpl. set_solver. }
  match goal with |- Inv ?d ∧ _ => assert (Inv d ∧ advances db1 d) as [I2 A2] end.
  { apply elsewhere; [done..|]. intros s p. apply (policiesOk_alter db1 _ _ (RunStackID run) I1 eq_refl). simpl. lia. }
  split; [done|]. by apply (advances_trans _ db1).
Qed.

Lemma MarkApplying_keeps db0 id rev : maintains (keepsRuns db0) (MarkApplying id rev).
Proof.
  apply keepsRuns_atomically. intros db n a db' n' I H. db_inv. phases.
  match goal with H : runs db !! _ = Some ?q |- _ => rename H into Hr; rename q into r end.
  match goal with H : RunPhase r = _ |- _ => rename H into Hp end.
  apply (phase_change db _ id r (setRunPhase "applying" r)
    (λ x, if (x_phase x =? "prepared")%string then setExecutionPhase "applying" x else x)); try done.
  - simpl. rewrite Hp. vm_compute. lia.
  - intros y. by case_match.
  - intros y Hx Hph Hin. rewrite Hp in Hph. destruct Hph as [Hph|]; [|done]. rewrite <- Hph. simpl. split; [set_solver|auto].
  - intros _. rewrite Hp. set_solver.
Qed.

Lemma MarkVerifying_keeps db0 id : maintains (keepsRuns db0) (MarkVerifying id).
Proof.
  apply keepsRuns_atomically. intros db n a db' n' I H. db_inv. unfold moveExecution, moveRun. simpl.
  destruct (runs db !! id) as [r|] eqn:Hr.
  - set (r' := if (RunPhase r =? "applying")%string then setRunPhase "verifying" r else r).
    apply (phase_change db _ id r r'
      (λ x, if (x_phase x =? "applying")%string then setExecutionPhase "verifying" x else x));
      try done; unfold r'; clear r'; try (by case_match).
    + f_equal. f_equal. apply map_eq. intros j. destruct (decide (j = id)) as [->|Hne];
        [by rewrite lookup_alter_eq, lookup_insert_eq, Hr|by rewrite lookup_alter_ne, lookup_insert_ne].
    + destruct (String.eqb_spec (RunPhase r) "applying") as [He|]; simpl.
      * rewrite He. vm_compute. lia.
      * apply rank_le_refl. pose proof (inv_slot _ I id) as Hs. unfold slotOk in Hs. rewrite Hr in Hs. apply Hs.
    + intros y. by case_match.
    + intros y Hx Hph Hin. destruct (String.eqb_spec (x_phase y) "applying") as [He|He]; simpl.
      * split; [set_solver|]. rewrite He in Hph. destruct Hph as [Hph|Hph]; rewrite Hph; simpl; auto.
      * split; [done|]. destruct Hph as [Hph | Hph]; rewrite Hph; simpl; [|auto].
        destruct (String.eqb_spec (x_phase y) "applying"); [done|]. auto.
    + intros _ Hn. destruct (String.eqb_spec (RunPhase r) "applying") as [He|He]; [rewrite He in Hn; set_solver|done].
  - assert (executions db !! id = None) as Hx.
    { pose proof (inv_slot _ I id) as Hs. unfold slotOk in Hs. by rewrite Hr in Hs. }
    rewrite !alter_same by congruence. apply elsewhere; [done..|]. exact (inv_policy _ I).
Qed.

(** The alert tables are elsewhere. *)
Lemma elsewhere_alerts {X} (m : M Alert.AlertDB X) db n a db' n' :
  Inv db → (zoom m : M DB X) db n = (Ok a, (db', n')) → Inv db' ∧ advances db db'.
Proof. intros I H. apply zoom_ok in H as (x & H & ->). apply elsewhere; [done..|]. exact (inv_policy _ I). Qed.

Lemma elsewhere_same db db' :
  Inv db → runs db' = runs db → executions db' = executions db → operations db' = operations db →
  policies db' = policies db → stacks db' = stacks db → Inv db' ∧ advances db db'.
Proof.
  intros I Hr Hx Ho Hp Hs. apply elsewhere; [done..|by rewrite Ho|]. intros s p. rewrite Hp, Hs. apply I.
Qed.

(** A chain of steps. *)
Lemma keeps_trans db1 db2 db3 :
  advances db1 db2 → Inv db3 ∧ advances db2 db3 → Inv db3 ∧ advances db1 db3.
Proof. intros H12 [I3 H23]. split; [done|]. by eapply advances_trans. Qed.

Lemma lookup_slot db i r : Inv db → runs db !! i = Some r → RunID r = i ∧ is_Some (rank (RunPhase r)).
Proof. intros I Hr. pose proof (inv_slot _ I i) as Hs. unfold slotOk in Hs. rewrite Hr in Hs. tauto. Qed.

Lemma rank_le_terminal a : is_Some (rank a) → rank_le a "terminal".
Proof.
  intros [k Hk]. apply rank_step. exists k, 5. split_and!; [done..|].
  unfold rank in Hk. repeat case_match; simplify_eq; lia.
Qed.

(** A run ends. *)
Lemma finish_keeps db db' id r outcome reason :
  Inv db → runs db !! id = Some r →
  db' = set_runs db (<[id := finishRun outcome reason r]> (runs db)) → Inv db' ∧ advances db db'.
Proof.
  intros I Hr ->. destruct (lookup_slot _ _ _ I Hr) as [Hid Hrank].
  apply (phase_change db _ id r (finishRun outcome reason r) (λ x, x)); try done.
  - rewrite alter_same by done. by destruct db.
  - by apply rank_le_terminal.
  - simpl. auto.
  - intros _ _. simpl. set_solver.
Qed.

(** The execution of a run that is over ends. *)
Lemma end_execution_keeps db db' id r g :
  Inv db → runs db !! id = Some r → RunPhase r = "terminal"%string →
  (∀ x, x_operation (g x) = x_operation x) →
  (∀ x, executions db !! id = Some x → x_phase (g x) ∈ ["prepared"; "applying"; "verifying"; "terminal"]%string) →
  db' = set_executions db (alter g id (executions db)) → Inv db' ∧ advances db db'.
Proof.
  intros I Hr Ht Hop Hg ->. apply (phase_change db _ id r r g); try done.
  - rewrite insert_id by done. by destruct db.
  - apply rank_le_refl. rewrite Ht. vm_compute. eauto.
  - intros x Hx _ _. split; [by apply Hg|auto].
Qed.

Lemma FinishRun_keeps db0 id outcome reason changes : maintains (keepsRuns db0) (FinishRun id outcome reason changes).
Proof.
  apply keepsRuns_transact. intros db n a db' n' I H.
  apply bind_ok in H as (b & db1 & n1 & H1 & H). apply call_ok in H1 as [H1 ->].
  destruct (runs db !! id) as [r|] eqn:Hr; [destruct (RunPhase r =? "terminal")%string|]; simplify_eq; simpl in H;
    try by db_inv.
  destruct (finish_keeps db _ id r outcome reason I Hr eq_refl) as [I1 A1]. revert H I1 A1.
  set (db1 := set_runs db _). intros H I1 A1.
  apply bind_ok in H as (cs & db2 & n2 & H2 & H). destruct (elsewhere_alerts _ _ _ _ _ _ I1 H2) as [I2 A2].
  apply bind_ok in H as (al & db3 & n3 & H3 & H). destruct (elsewhere_alerts _ _ _ _ _ _ I2 H3) as [I3 A3].
  db_inv.
  assert (∀ d, runs d = runs db1 → ∃ r', runs d !! id = Some r' ∧ RunPhase r' = "terminal"%string) as Hrun.
  { intros d ->. eexists. split; [apply lookup_insert_eq|done]. }
  match goal with |- Inv (moveExecution _ _ _ ?d) ∧ _ => destruct (Hrun d eq_refl) as (r' & Hr' & Ht);
    apply (keeps_trans _ d); [by apply (advances_trans _ db1)|] end.
  eapply (end_execution_keeps _ _ id r'); [exact I3|exact Hr'|done| | |reflexivity].
  - intros y. cbn beta. by destruct (x_phase y =? "prepared")%string.
  - intros y Hx. destruct (inv_executions_phase _ _ _ _ I3 Hr' Hx) as (Hin & _).
    cbn beta. destruct (x_phase y =? "prepared")%string; [simpl; set_solver|done].
Qed.

Lemma SavePrepared_keeps db0 run op source cs base :
  maintains (keepsRuns db0) (SavePrepared run op source cs base).
Proof.
  apply keepsRuns_atomically. intros db n a db' n' I H. db_inv. phases. simpl in *.
  match goal with H : runs db !! _ = Some ?q |- _ => rename H into Hr; rename q into r end.
  destruct (executions db !! RunID run) eqn:Hx; [done|]. case_bool_decide as Huniq; [done|].
  destruct (operations db !! OpID op) eqn:Hop; [|done]. simplify_eq.
  destruct (lookup_slot _ _ _ I Hr) as [Hid Hrank].
  apply (inv_change _ _ (RunID run)); simpl; try done.
  - intros j Hne. by rewrite !lookup_insert_ne.
  - exact (inv_policy _ I).
  - unfold slotOk. simpl. rewrite !lookup_insert_eq. simpl. split; [done|]. split; [vm_compute; eauto|].
    split_and!; [set_solver|done|auto|by rewrite Hop].
  - intros r' _. rewrite lookup_insert_eq. eauto.
  - intros r'. rewrite lookup_insert_eq. intros [= <-]. exists r. split_and!; [done..|]. simpl.
    match goal with H : _ ∨ _ |- _ => destruct H as [Hp|Hp]; phases; rewrite Hp end; vm_compute; lia.
  - intros x' j y. rewrite lookup_insert_eq. intros [= <-] _ Hj. simpl. intros Heq. apply Huniq. by exists j, y.
Qed.

Lemma recordImages_ok stack results cs db n u db' n' :
  recordImages stack results cs db n = (Ok u, (db', n')) →
  Forall (λ c, verified results c = true) cs ∧
  db' = set_images db (foldl (λ m c, <[(stack, Service c) := imageRow c]> m) (images db) cs).
Proof.
  revert db n. induction cs as [|c cs IH]; intros db n H; simpl in H.
  { db_inv. split; [constructor|by destruct db]. }
  db_inv. match goal with H : upsertImage _ _ _ _ = _ |- _ => apply call_ok in H as [Hup ->] end.
  destruct (stacks db !! stack) in Hup; [|done]. simplify_eq. apply IH in H as [Hv ->].
  split; [|by destruct db]. constructor; [|done].
  match goal with H : negb _ = false |- _ => by apply negb_false_iff in H end.
Qed.

(** The images that [recordImages] leaves behind. *)
Lemma recorded_other (stack : string) (cs : list ImageChange) (m : gmap (string * string) ImageChange) (s : string) :
  s ∉ Service <$> cs →
  foldl (λ m c, <[(stack, Service c) := imageRow c]> m) m cs !! (stack, s) = m !! (stack, s).
Proof.
  revert m. induction cs as [|c cs IH]; intros m Hs; [done|].
  rewrite fmap_cons in Hs. apply not_elem_of_cons in Hs as [Hne Hs]. cbn [foldl].
  rewrite IH by done. rewrite lookup_insert_ne; [done|]. congruence.
Qed.
Lemma recorded_images (stack : string) (cs : list ImageChange) (m : gmap (string * string) ImageChange) c :
  NoDup (Service <$> cs) → c ∈ cs →
  foldl (λ m c, <[(stack, Service c) := imageRow c]> m) m cs !! (stack, Service c) = Some (imageRow c).
Proof.
  revert m. induction cs as [|c0 cs IH]; intros m Hnd Hin; [by apply elem_of_nil in Hin|].
  rewrite fmap_cons in Hnd. apply NoDup_cons in Hnd as [Hni Hnd]. cbn [foldl].
  apply elem_of_cons in Hin as [->|Hin]; [|by apply IH].
  rewrite recorded_other by done. by rewrite lookup_insert_eq.
Qed.

(** What the completion of an update wrote. *)
Lemma completeUpdate_ok operation c x db n u db' n' :
  completeUpdate operation (Some c) db n = (Ok u, (db', n')) →
  executions db !! UCRunID c = Some x → x_phase x ≠ "terminal"%string →
  let d := UCDeployment c in
  let updated := ((Status operation =? OperationSucceeded) && (DepStatus d =? DeploymentSucceeded)
                  && (UCPauseReason c =? ""))%string in
  x_operation x = OpID operation ∧ (x_phase x = "applying" ∨ x_phase x = "verifying")%string ∧
  DepOperationID d = OpID operation ∧ DepStackID d = ScopeID operation ∧ deploymentAllowed db d = true ∧
  (updated = true → Forall (λ ch, verified (Services c) ch = true) (x_changes x)) ∧
  db' =
    let db1 := set_deployments db (<[DepID d := deploymentRow d]> (deployments db)) in
    let db2 := if updated
      then set_images db1 (foldl (λ m ch, <[(DepStackID d, Service ch) := imageRow ch]> m) (images db) (x_changes x))
      else db1 in
    let db3 := if (UCPauseReason c =? "")%string then db2 else pausePolicy (DepStackID d) (UCPauseReason c) db2 in
    let db4 := set_executions db3 (<[UCRunID c := mkExecutionRow (x_operation x) "terminal" (x_source x) (x_changes x)
      (x_baseline x) (Services c)]> (executions db)) in
    set_runs db4 (alter (finishRun (if updated then "updated" else "failed") (UCPauseReason c)) (UCRunID c) (runs db)).
Proof.
  intros H Hx Hph d updated. unfold completeUpdate in H. apply bind_ok in H as (y & db1 & n1 & H1 & H).
  apply call_ok in H1 as [H1 ->]. rewrite Hx in H1. destruct (String.eqb_spec (x_operation x) (OpID operation)) as [Hop|]; [|done].
  injection H1 as <- <-. destruct (String.eqb_spec (x_phase x) "terminal"); [done|].
  fold d updated in H. apply bind_ok in H as (? & ? & ? & H1 & H). apply guard_not_ok in H1 as (Hg1 & -> & ->).
  apply bind_ok in H as (? & ? & ? & H1 & H). apply guard_not_ok in H1 as (Hg2 & -> & ->).
  apply bind_ok in H as (? & ? & ? & H1 & H). apply insertDeployment_ok in H1 as (Hd & -> & ->).
  apply bind_ok in H as (? & db2 & n2 & H2 & H). apply bind_ok in H as (? & db3 & n3 & H3 & H).
  apply orb_false_iff in Hg2 as [Hg2 Hg3]. apply negb_false_iff, String.eqb_eq in Hg2, Hg3.
  assert (x_phase x = "applying" ∨ x_phase x = "verifying")%string as Hphase.
  { destruct (String.eqb_spec (x_phase x) "applying"); [auto|].
    destruct (String.eqb_spec (x_phase x) "verifying"); [auto|done]. }
  assert (∀ db, alter (λ x, mkExecutionRow (x_operation x) "terminal" (x_source x) (x_changes x) (x_baseline x) (Services c))
    (UCRunID c) (executions db) = match executions db !! UCRunID c with
      | Some x => <[UCRunID c := mkExecutionRow (x_operation x) "terminal" (x_source x) (x_changes x) (x_baseline x) (Services c)]> (executions db)
      | None => executions db end) as Halter.
  { clear. intros db. apply map_eq. intros j. destruct (decide (j = UCRunID c)) as [->|Hne].
    - rewrite lookup_alter_eq. destruct (executions db !! UCRunID c) eqn:E; simpl; [by rewrite lookup_insert_eq|done].
    - rewrite lookup_alter_ne by done. destruct (executions db !! UCRunID c); [by rewrite lookup_insert_ne|done]. }
  split_and!; [done..| |].
  - intros Hu. rewrite Hu in H2. by apply recordImages_ok in H2 as [Hv _].
  - db_inv. destruct updated; [apply recordImages_ok in H2 as [_ ->]|]; db_inv;
      destruct (UCPauseReason c =? "")%string; simpl in H3; db_inv; rewrite Halter; simpl; by rewrite Hx.
Qed.

Lemma alter_lookup {A} (m : gmap string A) i f x : m !! i = Some x → alter f i m = <[i := f x]> m.
Proof.
  intros Hx. apply map_eq. intros j. destruct (decide (j = i)) as [->|Hne].
  - by rewrite lookup_alter_eq, lookup_insert_eq, Hx.
  - by rewrite lookup_alter_ne, lookup_insert_ne.
Qed.

Lemma completeUpdate_keeps operation c db n u db' n' :
  Inv db → completeUpdate operation c db n = (Ok u, (db', n')) → Inv db' ∧ advances db db'.
Proof.
  intros I H. destruct c as [c|]; [|simpl in H; db_inv; apply elsewhere_same; done].
  destruct (executions db !! UCRunID c) as [x|] eqn:Hx.
  2:{ unfold completeUpdate in H. apply bind_ok in H as (? & ? & ? & H1 & _). apply call_ok in H1 as [H1 _].
      by rewrite Hx in H1. }
  destruct (decide (x_phase x = "terminal"%string)) as [Ht|Ht].
  { unfold completeUpdate in H. apply bind_ok in H as (y & ? & ? & H1 & H). apply call_ok in H1 as [H1 _].
    rewrite Hx in H1. destruct (_ =? _)%string; [|done]. injection H1 as <- <-.
    rewrite Ht in H. simpl in H. db_inv. by apply elsewhere_same. }
  destruct (completeUpdate_ok _ _ _ _ _ _ _ _ H Hx Ht) as (_ & _ & _ & _ & _ & _ & ->).
  match goal with |- Inv (let db1 := _ in let db2 := _ in let db3 := @?f db1 db2 in _) ∧ _ => idtac | |- _ => idtac end.
  cbv zeta. match goal with |- Inv (set_runs (set_executions ?d _) _) ∧ _ => set (db3 := d) end.
  assert (Inv db3 ∧ advances db db3 ∧ runs db3 = runs db ∧ executions db3 = executions db) as (I3 & A3 & Hr3 & Hx3).
  { assert (∀ d, runs d = runs db → executions d = executions db → operations d = operations db →
      stacks d = stacks db → policies d = policies db ∨ (∃ id r, policies d = policies (pausePolicy id r db)) →
      Inv d ∧ advances db d ∧ runs d = runs db ∧ executions d = executions db) as Hd.
    { intros d Hr He Ho Hs Hp. assert (Inv d ∧ advances db d) as [? ?]; [|by split_and!].
      apply elsewhere; [done..|by rewrite Ho|].
      intros s p. rewrite Hs. destruct Hp as [-> | (id & r & ->)]; [apply I|].
      apply (policiesOk_alter db _ _ id I eq_refl). simpl. lia. }
    unfold db3. destruct (UCPauseReason c =? "")%string; destruct (_ && _); apply Hd; simpl; eauto. }
  apply (keeps_trans _ db3 _ A3).
  pose proof (inv_slot _ I (UCRunID c)) as Hs. unfold slotOk in Hs. rewrite Hx in Hs.
  destruct (runs db !! UCRunID c) as [r|] eqn:Hr; [|done]. destruct Hs as (Hid & Hrank & _).
  rewrite <- Hr3, <- Hx3 in *.
  apply (phase_change db3 _ (UCRunID c) r
    (finishRun (if (Status operation =? OperationSucceeded)%string && (DepStatus (UCDeployment c) =? DeploymentSucceeded)%string
                   && (UCPauseReason c =? "")%string then "updated" else "failed") (UCPauseReason c) r)
    (λ y, mkExecutionRow (x_operation y) "terminal" (x_source x) (x_changes x) (x_baseline x) (Services c))); try done.
  - rewrite (alter_lookup _ _ _ _ Hr), (alter_lookup _ _ _ _ Hx). by destruct db3.
  - by apply rank_le_terminal.
  - intros y _ _ _. simpl. split; [set_solver|auto].
  - intros _ _. simpl. set_solver.
Qed.

(** A scheduled check is admitted at most once: when [Admit] accepted a
    policy, the stack had no other unfinished run, the new run is queued in its
    slot, and at any later time the same policy snapshot is not accepted again,
    whatever happened in between. *)
Theorem admitted_at_most_once p t t' db n run db1 n1 db2 n2 :
  Inv db → Admit p t db n = (Ok (run, true), (db1, n1)) →
  runs db1 !! RunID run = Some run ∧ RunPhase run = "queued"%string ∧
  RunStackID run = PStackID p ∧ ScheduledAt run = fromUnixNano (UnixNano (NextRunAt p)) ∧
  (∀ j r, runs db !! j = Some r → RunStackID r = PStackID p → RunPhase r = "terminal"%string) ∧
  (Inv db2 → advances db1 db2 → ∀ run' db3 n3, Admit p t' db2 n2 ≠ (Ok (run', true), (db3, n3))).
Proof.
  assert (∀ db n t run db1 n1, Admit p t db n = (Ok (run, true), (db1, n1)) →
    pendingOf db (PStackID p) = 0%Z ∧ RunPhase run = "queued"%string ∧ RunStackID run = PStackID p ∧
    ScheduledAt run = fromUnixNano (UnixNano (NextRunAt p)) ∧
    ¬ map_Exists (λ _ r', RunStackID r' = RunStackID run ∧ ScheduledAt r' = ScheduledAt run) (runs db) ∧
    runs db1 !! RunID run = Some run) as Hrun.
  { clear. intros db n t run db1 n1 H. unfold Admit in H. destruct (_ || _); [by db_inv|].
    apply bind_ok in H as (next & ? & ? & H1 & H). apply lift_ok in H1 as (_ & -> & ->).
    unfold transact in H. destruct (fault n); [done|].
    match type of H with (match ?m with _ => _ end) = _ => destruct m as [[[[r acc] []]|e] [s k]] eqn:Em; [|simplify_eq|done] end.
    2:{ apply bind_ok in Em as (b & dbx & nx & H1 & Em). destruct b; simpl in Em; db_inv. }
    destruct (fault k); [done|]. simplify_eq.
    apply bind_ok in Em as (b & dbx & nx & H1 & Em). destruct b; simpl in Em; [|db_inv].
    assert (runs dbx = runs db) as Hrx.
    { unfold advance in H1. apply call_ok in H1 as [H1 _]. destruct (policies db !! PStackID p); [|done].
      destruct (_ && active db (PStackID p)); [|done]. by simplify_eq. }
    apply bind_ok in Em as (name & ? & ? & H2 & Em). apply call_ok in H2 as [H2 ->].
    destruct (stacks dbx !! PStackID p); [|done]. injection H2 as _ <-.
    apply bind_ok in Em as (rnd & ? & ? & H2 & Em). apply rand_read_ok in H2 as (-> & -> & _).
    apply bind_ok in Em as (pend & ? & ? & H2 & Em). apply query_ok in H2 as (-> & -> & ->).
    apply bind_ok in Em as (ins & dby & ny & H2 & Em). apply ret_ok in Em as (Em & -> & ->).
    injection Em as <- Hacc. apply andb_prop in Hacc as [-> Hpend]. apply Z.eqb_eq in Hpend.
    unfold insertRun in H2. apply call_ok in H2 as [H2 _]. case_bool_decide as Hex; [by simplify_eq|].
    destruct (runs dbx !! _) in H2; [done|]. simplify_eq.
    unfold pendingOf in *. rewrite Hrx in *. rewrite Hpend. simpl. split_and!; try done. by rewrite lookup_insert_eq. }
  intros I H. destruct (Hrun _ _ _ _ _ _ H) as (Hp & Hq & Hs & Hsc & _ & Hin). split_and!; try done.
  - intros j r Hj Hst. destruct (decide (RunPhase r = "terminal"%string)) as [|Hne]; [done|].
    unfold pendingOf in Hp.
    assert (filter (λ '(_, r), RunStackID r = PStackID p ∧ RunPhase r ≠ "terminal"%string) (runs db) = ∅) as He
      by (apply map_size_empty_inv; lia).
    assert (filter (λ '(_, r), RunStackID r = PStackID p ∧ RunPhase r ≠ "terminal"%string) (runs db) !! j = Some r) as Hf
      by (apply map_lookup_filter_Some; done).
    by rewrite He, lookup_empty in Hf.
  - intros I2 A run' db3 n3 H'. destruct (Hrun _ _ _ _ _ _ H') as (_ & _ & Hs' & Hsc' & Hex & _).
    destruct (A _ _ Hin) as (r2 & Hr2 & Hst2 & Hsc2 & _). apply Hex. exists (RunID run), r2. split; [done|]. split; congruence.
Qed.

(** An update is recorded as done only if every image was verified: when
    the completion of a mutating update succeeds, its deployment is stored, its
    run and its execution are over, and either the operation and the deployment
    succeeded without a reason to pause, every prepared change is matched by a
    result that verified exactly the prepared image, these images are in effect
    and the outcome is "updated"; or no image changed and the outcome is
    "failed".  A pause reason pauses the policy under a new revision. *)
Theorem update_recorded_iff_verified operation c x db n u db' n' :
  Inv db → completeUpdate operation (Some c) db n = (Ok u, (db', n')) →
  executions db !! UCRunID c = Some x → x_phase x ≠ "terminal"%string →
  let d := UCDeployment c in
  deployments db' !! DepID d = Some (deploymentRow d) ∧
  (∃ x', executions db' !! UCRunID c = Some x' ∧ x_phase x' = "terminal"%string ∧ x_results x' = Services c) ∧
  (∃ r', runs db' !! UCRunID c = Some r' ∧ RunPhase r' = "terminal"%string ∧ Reason r' = UCPauseReason c ∧
     ((RunOutcome r' = "updated"%string ∧ Status operation = OperationSucceeded ∧ DepStatus d = DeploymentSucceeded ∧
       UCPauseReason c = ""%string ∧
       (∀ ch, ch ∈ x_changes x → ∃ res, res ∈ Services c ∧ RService res = Service ch ∧
          ROutcome res = "verified"%string ∧ ActualImageID res = AfterImageID ch) ∧
       (∀ ch, ch ∈ x_changes x → NoDup (Service <$> x_changes x) →
          images db' !! (DepStackID d, Service ch) = Some (imageRow ch)))
      ∨ (RunOutcome r' = "failed"%string ∧ images db' = images db))) ∧
  (UCPauseReason c ≠ ""%string → ∀ q, policies db !! DepStackID d = Some q →
     ∃ q', policies db' !! DepStackID d = Some q' ∧ p_paused q' = UCPauseReason c ∧ p_revision q' = (p_revision q + 1)%Z).
Proof.
  intros I H Hx Ht d. destruct (completeUpdate_ok _ _ _ _ _ _ _ _ H Hx Ht) as (_ & _ & _ & _ & _ & Hv & ->).
  fold d in Hv |- *. cbv zeta.
  pose proof (inv_slot _ I (UCRunID c)) as Hs. unfold slotOk in Hs. rewrite Hx in Hs.
  destruct (runs db !! UCRunID c) as [r|] eqn:Hr; [|done]. clear Hs.
  set (updated := (_ && _ && _)) in *. rewrite (alter_lookup _ _ _ _ Hr).
  split_and!.
  - destruct (UCPauseReason c =? "")%string, updated; simpl; by rewrite lookup_insert_eq.
  - eexists. destruct (UCPauseReason c =? "")%string, updated; simpl; rewrite lookup_insert_eq; by split_and!.
  - eexists. split; [simpl; by rewrite lookup_insert_eq|]. simpl. split_and!; [done..|].
    destruct updated eqn:Hu; [left|right; split; [done|]; by destruct (UCPauseReason c =? "")%string].
    pose proof (Hv eq_refl) as Hv'. unfold updated in Hu. apply andb_prop in Hu as [[Hu1 Hu2]%andb_prop Hu3].
    apply String.eqb_eq in Hu1, Hu2, Hu3. split_and!; [done..| |].
    + intros ch Hch. rewrite Forall_forall in Hv'. specialize (Hv' _ Hch). unfold verified in Hv'.
      apply existsb_exists in Hv' as (res & Hin & Hres). apply andb_prop in Hres as [[R1 R2]%andb_prop R3].
      apply String.eqb_eq in R1, R2, R3. exists res. rewrite list_elem_of_In. done.
    + intros ch Hch Hnd. rewrite Hu3. simpl. by apply recorded_images.
  - intros Hp q Hq. destruct (String.eqb_spec (UCPauseReason c) ""); [done|].
    destruct updated; simpl; rewrite lookup_alter_eq, Hq; simpl; eauto.
Qed.

Lemma deleteImages_keeps db id : Inv db → Inv (deleteImages id db) ∧ advances db (deleteImages id db).
Proof. intros I. by apply elsewhere_same. Qed.

Lemma PruneImages_keeps db0 id sources : maintains (keepsRuns db0) (PruneImages id sources).
Proof.
  apply keepsRuns_atomically. intros db n a db' n' I H. db_inv. revert H.
  generalize (filter (λ c, default "" (sources !! Service c) ≠ SourceReference c)%string (map_to_list (imagesOf db id)).*2) as l, (S n) as k.
  intros l. revert db I. induction l as [|c l IH]; intros db I k H; simpl in H; db_inv; [by apply elsewhere_same|].
  match type of H with foldr _ _ _ ?d _ = _ =>
    assert (Inv d ∧ advances db d) as [I1 A1] by (by apply elsewhere_same); apply (keeps_trans _ d _ A1) end.
  by apply (IH _ I1 _ H).
Qed.

Lemma insertImages_keeps id imgs db n u db' n' :
  Inv db →
  foldr (λ c m, _ ← call (λ db,
     if images db !! (id, Service c) then Err ErrConstraint
     else if stacks db !! id then Ok (tt, set_images db (<[(id, Service c) := imageRow c]> (images db)))
     else Err ErrConstraint); m) (mret tt) imgs db n = (Ok u, (db', n')) → Inv db' ∧ advances db db'.
Proof.
  revert db n. induction imgs as [|c l IH]; intros db n I H; simpl in H; [db_inv; by apply elsewhere_same|].
  apply bind_ok in H as (? & d & ? & H1 & H). apply call_ok in H1 as [H1 ->].
  assert (Inv d ∧ advances db d) as [I1 A1].
  { repeat case_match; simplify_eq. by apply elsewhere_same. }
  apply (keeps_trans _ d _ A1). by apply (IH _ _ I1 H).
Qed.

Lemma operations_grow db o q :
  is_Some (operations db !! q) → is_Some (<[OpID o := operationRow o]> (operations db) !! q).
Proof. intros. apply lookup_insert_is_Some'. by right. Qed.

Lemma ResumePolicy_keeps db0 id rev t actor base imgs cs :
  maintains (keepsRuns db0) (ResumePolicy id rev t actor base imgs cs).
Proof.
  apply keepsRuns_atomically. intros db n a db' n' I H.
  apply bind_ok in H as (expr & ? & ? & H1 & H). apply call_ok in H1 as [H1 ->].
  assert (x = db) as -> by (repeat case_match; by simplify_eq).
  apply bind_ok in H as (next & ? & ? & H2 & H). apply lift_ok in H2 as (_ & -> & ->).
  apply bind_ok in H as (? & db1 & ? & H2 & H). apply exec_ok in H2 as [H2 ->].
  assert (Inv db1 ∧ advances db db1) as [I1 A1].
  { subst db1. apply elsewhere; [done..|]. intros s p. apply (policiesOk_alter db _ _ id I eq_refl).
    intros q. destruct (p_revision q =? rev)%Z; simpl; lia. }
  apply (keeps_trans _ db1 _ A1). clear H1 H2 A1 I. clear db.
  apply bind_ok in H as (? & db2 & ? & H2 & H). apply insertOperation_ok in H2 as (_ & -> & H2).
  assert (Inv db2 ∧ advances db1 db2) as [I2 A2].
  { subst db2. apply elsewhere; [done..| |exact (inv_policy _ I1)]. intros q. apply operations_grow. }
  apply (keeps_trans _ db2 _ A2). clear H2 A2 I1. clear db1.
  apply bind_ok in H as (? & db3 & ? & H2 & H). apply call_ok in H2 as [H2 ->].
  assert (Inv db3 ∧ advances db2 db3) as [I3 A3] by (repeat case_match; simplify_eq; by apply elsewhere_same).
  apply (keeps_trans _ db3 _ A3). clear H2 A3 I2. clear db2.
  apply bind_ok in H as (? & db4 & ? & H2 & H). apply insertDeployment_ok in H2 as (_ & -> & H2).
  assert (Inv db4 ∧ advances db3 db4) as [I4 A4] by (subst db4; by apply elsewhere_same).
  apply (keeps_trans _ db4 _ A4). clear H2 A4 I3. clear db3.
  apply bind_ok in H as (? & db5 & ? & H2 & H). apply exec_ok in H2 as [-> ->].
  destruct (deleteImages_keeps _ id I4) as [I5 A5]. apply (keeps_trans _ _ _ A5). clear A5 I4.
  apply bind_ok in H as (? & db6 & n6 & H2 & H). destruct (insertImages_keeps _ _ _ _ _ _ _ I5 H2) as [I6 A6].
  apply (keeps_trans _ _ _ A6). clear A6 I5 H2.
  apply bind_ok in H as (? & db7 & n7 & H2 & H). destruct (elsewhere_alerts _ _ _ _ _ _ I6 H2) as [I7 A7].
  apply (keeps_trans _ _ _ A7). clear A7 I6 H2.
  apply bind_ok in H as (? & db8 & n8 & H2 & H). destruct (elsewhere_alerts _ _ _ _ _ _ I7 H2) as [I8 A8].
  apply (keeps_trans _ _ _ A8). db_inv. by apply elsewhere_same.
Qed.
End operations.

(** ** Examples *)
Definition daily : Cron := λ _, Some (λ t, t + 86400 * Second)%Z.
Definition ex_policyRow : PolicyRow := mkPolicyRow true DefaultExpression 1 (86400 * Second)%Z "" 0.
Definition ex_stackRow : Stack := mkStack "stk_1" "web" "porty-web" None 1%Z 1%Z.
Definition ex_db : DB :=
  set_policies (set_stacks emptyDB {["stk_1" := ex_stackRow]}) {["stk_1" := ex_policyRow]}.
Definition ex_now : time := (unixEpoch + 86401 * Second)%Z.

Lemma ex_db_inv : Inv ex_db.
Proof.
  assert (∀ i, runs ex_db !! i = None) as Hr by (intros; apply lookup_empty).
  assert (∀ i, executions ex_db !! i = None) as Hx by (intros; apply lookup_empty).
  constructor; try (intros *; rewrite ?Hr, ?Hx; by intros).
  simpl. intros s p [<- <-]%lookup_singleton_Some. split; [by vm_compute; eauto|done].
Qed.

Definition ex_admitted : result (Run * bool) * (DB * nat) :=
  Admit (W := calm) (H := daily) (policyOf "stk_1" ex_policyRow) ex_now ex_db 0.

Lemma admitted_at_most_once_witness :
  ∃ run db1 n1, ex_admitted = (Ok (run, true), (db1, n1)) ∧ RunPhase run = "queued"%string.
Proof.
  eexists _, _, _. split; [vm_compute; reflexivity|].
  eapply (admitted_at_most_once (W := calm) (C := daily) (policyOf "stk_1" ex_policyRow) ex_now ex_now ex_db 0 _ _ _ ex_db 0
    ex_db_inv). vm_compute. reflexivity.
Defined.

Definition ex_change : ImageChange := mkImageChange "app" "app:1" "app@sha256:2" "linux/amd64" "img1" "img2" "sha256:2".
Definition ex_deployment : Deployment :=
  mkDeployment "dep_op_1" "stk_1" "op_1" "" false "" "" DeploymentSucceeded 1%Z 2%Z 1%Z "".
Definition ex_execution : ExecutionRow := mkExecutionRow "op_1" "verifying" "sha256:1" [ex_change] ex_deployment [].
Definition ex_run : Run := mkRun "upd_1" "stk_1" "web" 1 0%Z "verifying" "" "" "op_1".
Definition ex_op : Operation :=
  mkOperation [] [] "op_1" "auto_update" "stack" "stk_1" "" OperationSucceeded 1%Z 2%Z 0 "" "" false "" "scheduled" [] "web".
Definition ex_verifying : DB :=
  set_executions (set_runs (set_operations ex_db {["op_1" := operationRow ex_op]}) {["upd_1" := ex_run]}) {["upd_1" := ex_execution]}.
Definition ex_done : UpdateCompletion :=
  mkUpdateCompletion "upd_1" ex_deployment [mkServiceUpdateResult "app" "img1" "img2" "img2" "verified"] "".

Lemma ex_verifying_inv : Inv ex_verifying.
Proof.
  constructor; simpl.
  - intros i. unfold slotOk. simpl. destruct (decide (i = "upd_1"%string)) as [->|Hne].
    + rewrite !lookup_singleton_eq. split; [done|]. split; [by vm_compute; eauto|].
      split_and!; [set_solver|done|auto|by vm_compute; eauto].
    + by rewrite !lookup_singleton_ne.
  - by intros i j r1 r2 [<- _]%lookup_singleton_Some [<- _]%lookup_singleton_Some.
  - by intros i j r1 r2 [<- _]%lookup_singleton_Some [<- _]%lookup_singleton_Some.
  - by intros i j r1 r2 [<- _]%lookup_singleton_Some [<- _]%lookup_singleton_Some.
  - intros s p [<- <-]%lookup_singleton_Some. split; [by vm_compute; eauto|done].
Qed.

Lemma update_recorded_iff_verified_witness :
  ∃ db' n' r', completeUpdate (W := calm) ex_op (Some ex_done) ex_verifying 0 = (Ok tt, (db', n')) ∧
    runs db' !! "upd_1"%string = Some r' ∧ RunPhase r' = "terminal"%string.
Proof.
  destruct (completeUpdate (W := calm) ex_op (Some ex_done) ex_verifying 0) as [[[]|e] [db' n']] eqn:E;
    [|by vm_compute in E].
  destruct (update_recorded_iff_verified (W := calm) ex_op ex_done ex_execution ex_verifying 0 tt db' n'
    ex_verifying_inv E eq_refl ltac:(done)) as (_ & _ & (r' & Hr & Hp & _) & _).
  exists db', n', r'. done.
Defined.
End AutoUpdateLaws.
