(* ===== verification/OperationStore.v ===== *)
(** * Operations, deployments and stacks in the database
    (src/internal/sqlite/operation_store.go, deployment_store.go, stack_store.go
    and [RecoverExecution] of update_execution_store.go)

    The completion of an operation is one transaction over the update tables,
    the on-demand tables, the operation itself and the alerts. *)
From S2P Require Import Prelude GoStrings TimeText OnDemandPolicy Alerts Database OnDemandStore AutoUpdateStore.

Module OperationStore.
Import Data Database.

Section store.
Context `{W : World}.

(** ** Operations *)
(** The columns of the INSERT. *)
Definition createdRow (o : Operation) : Operation :=
  mkOperation [] [] (OpID o) (Kind o) (ScopeType o) (ScopeID o) (RequestKey o) (Status o) zeroTime zeroTime 0
    "" "" (OutputTruncated o) (InitiatedBy o) "" [] "".
Definition CreateOperation (o : Operation) : M DB unit :=
  atomically (
    _ ← insertOperation (createdRow o);
    _ ← insertContext (OpID o) (mkContextRow (Trigger o) (OpStackName o) (AlertTargets o));
    OnDemandStore.interlockOnDemand o).

Definition updateOperation (o : Operation) : M DB unit :=
  update1 (λ db, operations db !! OpID o) (λ _ _, true)
    (λ db r, set_operations db (<[OpID o := mkOperation [] [] (OpID r) (Kind r) (ScopeType r) (ScopeID r) (RequestKey r)
       (Status o) (StartedAt o) (CompletedAt o) (ExitCode o) (ErrorCode o) (Output o) (OutputTruncated o) (InitiatedBy r)
       "" [] ""]> (operations db)))
    (ErrText "operation not found").
Definition UpdateOperation (o : Operation) : M DB unit := updateOperation o.

(** [loadOperationDetails]: the alert context and the results of an update. *)
Definition loadAlertContext (o : Operation) : M DB Operation :=
  query (λ db, match alert_context db !! OpID o with
    | None => o
    | Some c => mkOperation (AffectedServices o) (ServiceUpdates o) (OpID o) (Kind o) (ScopeType o) (ScopeID o) (RequestKey o)
        (Status o) (StartedAt o) (CompletedAt o) (ExitCode o) (ErrorCode o) (Output o) (OutputTruncated o) (InitiatedBy o)
        (CtxTrigger c) (CtxTargets c) (CtxStackName c)
    end).
Definition loadOperationDetails (o : Operation) : M DB Operation :=
  o ← loadAlertContext o;
  query (λ db, match filter (λ x, x_operation x = OpID o) (map_to_list (executions db)).*2 with
    | [] => o
    | x :: _ => mkOperation (AffectedServices o) (x_results x) (OpID o) (Kind o) (ScopeType o) (ScopeID o) (RequestKey o)
        (Status o) (StartedAt o) (CompletedAt o) (ExitCode o) (ErrorCode o) (Output o) (OutputTruncated o) (InitiatedBy o)
        (Trigger o) (AlertTargets o) (OpStackName o)
    end).
Definition Operation_ (id : string) : M DB Operation :=
  o ← call (λ db, match operations db !! id with Some o => Ok (o, db) | None => Err ErrNoRows end);
  loadOperationDetails o.

(** [limit] and [offset] as the pages of the stores bound them. *)
Definition pageBounds (limit offset : Z) : Z * Z :=
  (if (limit <=? 0)%Z || (200 <? limit)%Z then 50%Z else limit, if (offset <? 0)%Z then 0%Z else offset).
(** ORDER BY COALESCE(started_at, '') DESC, rowid DESC *)
Definition startedText (o : Operation) : string := if IsZero (StartedAt o) then "" else TimeText.encodeTime (StartedAt o).
Definition recent_first (a b : nat * Operation) : Prop :=
  if bool_decide (startedText a.2 = startedText b.2) then b.1 ≤ a.1 else string_le (startedText b.2) (startedText a.2).
#[global] Instance recent_first_dec : RelDecision recent_first.
Proof. intros a b. unfold recent_first. case_bool_decide; apply _. Defined.
Definition OperationsPage (limit offset : Z) : M DB (list Operation) :=
  let '(limit, offset) := pageBounds limit offset in
  rows ← query (λ db, AlertStore.page limit offset (merge_sort recent_first
    (imap (λ i id, (i, default (createdRow (mkOperation [] [] id "" "" "" "" "" zeroTime zeroTime 0 "" "" false "" "" [] ""))
       (operations db !! id))) (operation_rowids db))));
  foldr (λ '(_, o) m, d ← loadOperationDetails o; l ← m; mret (d :: l)) (mret []) rows.

(** ** Restart *)
Definition unfinished (db : DB) (o : Operation) : bool :=
  ((Status o =? OperationQueued) || (Status o =? OperationRunning))%string &&
  negb (bool_decide (map_Exists (λ _ x, x_operation x = OpID o ∧ x_phase x ≠ "terminal"%string) (executions db))).
Definition interruptedChanges (db : DB) (at_ : time) : list Alert.Change :=
  filter (λ p : string * Operation, unfinished db p.2 = true) (map_to_list (operations db)) ≫= λ p,
    match alert_context db !! p.1 with
    | None => []
    | Some c => (λ k, Alert.mkChange "failure" k (CtxStackName c) p.1 p.1
        "Operation interrupted by server restart. Verify the stack before retrying." 0 at_ true) <$> CtxTargets c
    end.
Definition failInterrupted (at_ : time) (db : DB) (o : Operation) : Operation :=
  if unfinished db o
  then mkOperation [] [] (OpID o) (Kind o) (ScopeType o) (ScopeID o) (RequestKey o) OperationFailed (StartedAt o) at_
         (ExitCode o) "server_restarted" (Output o) (OutputTruncated o) (InitiatedBy o) "" [] ""
  else o.
Definition FailInterrupted (at_ : time) : M DB unit :=
  atomically (
    changes ← query (λ db, interruptedChanges db at_);
    _ ← zoom (AlertStore.applyAlertChanges changes);
    exec (λ db, set_operations db (failInterrupted at_ db <$> operations db))).

(** ** Completion *)
Definition completeOperation (o : Operation) (result_ : Result) : M DB (list Alert.Alert) :=
  _ ← AutoUpdateStore.completeUpdate o (Update result_);
  _ ← OnDemandStore.completeOnDemand o (OnDemand result_);
  _ ← updateOperation o;
  changes ← zoom (AlertStore.currentAlertChanges (RAlerts result_));
  zoom (AlertStore.applyAlertChanges changes).
Definition CompleteOperation (o : Operation) (result_ : Result) : M DB (list Alert.Alert) :=
  atomically (completeOperation o result_).

(** ** Recovery of an update (update_execution_store.go) *)
Definition recoverPrepared (e : Execution) : M DB unit :=
  atomically (
    _ ← exec (AutoUpdateStore.moveExecution (XRunID e) "prepared" "terminal");
    _ ← exec (λ db, set_runs db (alter (AutoUpdateStore.finishRun "interrupted" "restart_before_mutation") (XRunID e) (runs db)));
    t ← now;
    exec (λ db, set_operations db (alter (λ o, mkOperation [] [] (OpID o) (Kind o) (ScopeType o) (ScopeID o) (RequestKey o)
      OperationCancelled (StartedAt o) t (ExitCode o) "server_restarted" (Output o) (OutputTruncated o) (InitiatedBy o)
      "" [] "") (XOperationID e) (operations db)))).
Definition interruptedCompletion (e : Execution) (services : list ServiceUpdateResult) (o : Operation) (t : time)
    : Operation * Result :=
  let o' := mkOperation (AffectedServices o) (ServiceUpdates o) (OpID o) (Kind o) (ScopeType o) (ScopeID o) (RequestKey o)
    OperationFailed (StartedAt o) t (ExitCode o) "update_interrupted"
    "Update interrupted after mutation began. Inspect and recover the stack before resuming automatic updates."
    (OutputTruncated o) (InitiatedBy o) (Trigger o) (AlertTargets o) (OpStackName o) in
  let started := if IsZero (StartedAt o) then t else StartedAt o in
  let d := mkDeployment ("dep_" ++ OpID o) (ScopeID o) (OpID o) (GitCommit (XBaseline e)) (Dirty (XBaseline e))
    (DiffDigest (XBaseline e)) (XSourceDigest e) DeploymentFailed started t (Sub t started) "update_interrupted" in
  (o', mkResult None (Some (mkUpdateCompletion (XRunID e) d services "interrupted_update")) "" None
     [Alert.mkChange "failure" (Alert.mkKey (ScopeID o) "deployment" "stack") (OpStackName o) (OpID o) (OpID o)
        "Automatic update interrupted; manual recovery required." 0 t true]).
Definition RecoverExecution (e : Execution) (services : list ServiceUpdateResult) : M DB unit :=
  phase ← call (λ db, match executions db !! XRunID e with Some x => Ok (x_phase x, db) | None => Err ErrNoRows end);
  if (phase =? "terminal")%string then mret tt
  else if (phase =? "prepared")%string then recoverPrepared e
  else
    _ ← guard_not (negb (phase =? "applying")%string && negb (phase =? "verifying")%string)
          (ErrText "unknown update recovery phase");
    o ← Operation_ (XOperationID e);
    t ← now;
    let '(o', r) := interruptedCompletion e services o t in
    _ ← CompleteOperation o' r;
    mret tt.

(** ** Deployments (deployment_store.go) *)
Definition SaveDeployment (d : Deployment) : M DB unit := atomically (insertDeployment d).
Definition deploymentsOf (db : DB) (stack : string) : list Deployment :=
  filter (λ d, DepStackID d = stack) (map_to_list (deployments db)).*2.
Definition newest_first (a b : Deployment) : Prop :=
  if bool_decide (TimeText.encodeTime (DepStartedAt a) = TimeText.encodeTime (DepStartedAt b))
  then string_le (DepID b) (DepID a) else TimeText.text_le (DepStartedAt b) (DepStartedAt a) = true.
#[global] Instance newest_first_dec : RelDecision newest_first.
Proof. intros a b. unfold newest_first. case_bool_decide; apply _. Defined.
Definition LatestSuccessfulDeployment (id : string) : M DB Deployment :=
  call (λ db, match merge_sort newest_first (filter (λ d, DepStatus d = DeploymentSucceeded) (deploymentsOf db id)) with
    | d :: _ => Ok (d, db)
    | [] => Err ErrNoRows
    end).
(** Of deployments that began at the same moment the query may return any; here
    it is the one with the last identifier. *)
Definition LatestDeployment (id : string) : M DB Deployment :=
  call (λ db, match merge_sort newest_first (deploymentsOf db id) with
    | d :: _ => Ok (d, db)
    | [] => Err ErrNoRows
    end).
Definition LatestDeploymentTimes : M DB (gmap string time) :=
  query (λ db, map_imap (λ id s, match ArchivedAt s with
    | Some _ => None
    | None => DepStartedAt <$> head (merge_sort newest_first (deploymentsOf db id))
    end) (stacks db)).
Definition HasSuccessfulDeployment (id : string) : M DB bool :=
  query (λ db, existsb (λ d, (DepStatus d =? DeploymentSucceeded)%string) (deploymentsOf db id)).
Definition DeploymentsPage (id : string) (limit offset : Z) : M DB (list Deployment) :=
  let '(limit, offset) := pageBounds limit offset in
  query (λ db, AlertStore.page limit offset (merge_sort newest_first (deploymentsOf db id))).

(** ** Stacks (stack_store.go) *)
Definition Create (s : Stack) : M DB unit :=
  call (λ db,
    if bool_decide (is_Some (stacks db !! StkID s)) ||
       bool_decide (map_Exists (λ _ s', DirectoryName s' = DirectoryName s
                                        ∨ ComposeProjectName s' = ComposeProjectName s) (stacks db))
    then Err ErrConstraint
    else Ok (tt, set_stacks db (<[StkID s := mkStack (StkID s) (DirectoryName s) (ComposeProjectName s) None
           (CreatedAt s) (CreatedAt s)]> (stacks db)))).
Definition ByDirectory (directory : string) : M DB Stack :=
  call (λ db, match filter (λ s, DirectoryName s = directory) (map_to_list (stacks db)).*2 with
    | s :: _ => Ok (s, db)
    | [] => Err ErrNoRows
    end).
Definition ByID (id : string) : M DB Stack :=
  call (λ db, match stacks db !! id with Some s => Ok (s, db) | None => Err ErrNoRows end).
Definition by_directory (a b : Stack) : Prop := string_le (DirectoryName a) (DirectoryName b).
#[global] Instance by_directory_dec : RelDecision by_directory.
Proof. unfold by_directory. intros a b. apply _. Defined.
Definition Active : M DB (list Stack) :=
  query (λ db, merge_sort by_directory (filter (λ s, ArchivedAt s = None) (map_to_list (stacks db)).*2)).

Definition archive (at_ : time) (s : Stack) : Stack :=
  mkStack (StkID s) (DirectoryName s) (ComposeProjectName s) (Some at_) (CreatedAt s) at_.
Definition Archive (id : string) (at_ : time) : M DB unit :=
  exec (λ db, set_stacks db (alter (archive at_) id (stacks db))).
Definition Rename (id directory : string) (at_ : time) : M DB unit :=
  call (λ db, match stacks db !! id with
    | Some s =>
      if bool_decide (ArchivedAt s = None) then
        if bool_decide (map_Exists (λ i s', i ≠ id ∧ DirectoryName s' = directory) (stacks db)) then Err ErrConstraint
        else Ok (tt, set_stacks db (<[id := mkStack (StkID s) directory (ComposeProjectName s) None (CreatedAt s) at_]> (stacks db)))
      else Ok (tt, db)
    | None => Ok (tt, db)
    end).

(** Deleting a stack takes along what references it with ON DELETE CASCADE. *)
Definition deleteStack (id : string) (db : DB) : DB :=
  let db := set_stacks db (delete id (stacks db)) in
  let db := set_environment db (filter (λ p, p.1.1 ≠ id) (environment db)) in
  let db := set_policies db (delete id (policies db)) in
  let db := set_images db (filter (λ p, p.1.1 ≠ id) (images db)) in
  let db := set_groups db (filter (λ p, g_stack p.2 ≠ id) (groups db)) in
  set_members db (filter (λ p, p.1.1 ≠ id) (members db)).
Definition Purge (id : string) : M DB unit :=
  atomically (
    _ ← exec (λ db, set_deployments db (filter (λ p, DepStackID p.2 ≠ id) (deployments db)));
    call (λ db, match stacks db !! id with
      | Some s => if bool_decide (ArchivedAt s = None) then Err (ErrText "archived stack not found")
                  else Ok (tt, deleteStack id db)
      | None => Err (ErrText "archived stack not found")
      end)).

Definition SetEnvironment (id key value : string) : M DB unit :=
  t ← now;
  call (λ db, match stacks db !! id with
    | None => Err ErrConstraint
    | Some _ =>
      let secret := match environment db !! (id, key) with Some r => EnvSecret r | None => false end in
      Ok (tt, set_environment db (<[(id, key) := mkEnvironmentRow value secret t]> (environment db)))
    end).
(** INSERT .. ON CONFLICT DO UPDATE .. WHERE secret=excluded.secret *)
Definition SetEnvironmentWithSecret (id key value : string) (secret : bool) : M DB unit :=
  t ← now;
  call (λ db, match stacks db !! id with
    | None => Err ErrConstraint
    | Some _ =>
      match environment db !! (id, key) with
      | Some r => if eqb (EnvSecret r) secret
          then Ok (tt, set_environment db (<[(id, key) := mkEnvironmentRow value secret t]> (environment db)))
          else Err Stack_ErrEnvironmentSecretImmutable
      | None => Ok (tt, set_environment db (<[(id, key) := mkEnvironmentRow value secret t]> (environment db)))
      end
    end).
Definition EnvironmentValue (id key : string) : M DB (string * bool) :=
  call (λ db, match stacks db !! id, environment db !! (id, key) with
    | Some _, Some r => Ok ((EnvValue r, EnvSecret r), db)
    | _, _ => Err ErrNoRows
    end).
Definition DeleteEnvironment (id key : string) : M DB unit :=
  exec (λ db, set_environment db (delete (id, key) (environment db))).
Definition environmentOf (db : DB) (id : string) : gmap string string :=
  list_to_map ((λ '((_, key), r), (key, EnvValue r)) <$> filter (λ p, p.1.1 = id) (map_to_list (environment db))).
Definition Environment (id : string) : M DB (gmap string string) :=
  _ ← call (λ db, if stacks db !! id then Ok (tt, db) else Err ErrNoRows);
  query (λ db, environmentOf db id).
End store.
End OperationStore.
