(* ===== verification/Reading.v ===== *)
(** * The operations of the stores that only read

    They leave the database as it is, whatever they answer. *)
From S2P Require Import Prelude GoStrings Alerts Database OnDemandStore AutoUpdateStore OperationStore.

Module Reading.
Import Data Database.
Section reading.
Context `{W : World}.
Ltac reading := intros db x db' Hf; repeat case_match; by simplify_eq.
Lemma still_query {A} (g : DB → A) : still (query g).
Proof. apply still_call. reading. Qed.
Lemma still_Find key : still (AlertStore.Find key).
Proof. apply still_call. reading. Qed.
Lemma still_ByID i : still (OperationStore.ByID i).
Proof. apply still_call. reading. Qed.
Lemma still_LatestDeployment i : still (OperationStore.LatestDeployment i).
Proof. apply still_call. reading. Qed.
Lemma still_LatestSuccessfulDeployment i : still (OperationStore.LatestSuccessfulDeployment i).
Proof. apply still_call. reading. Qed.
Lemma still_HasSuccessfulDeployment i : still (OperationStore.HasSuccessfulDeployment i).
Proof. apply still_query. Qed.
Lemma still_Environment i : still (OperationStore.Environment i).
Proof. unfold OperationStore.Environment. quietly ltac:(first [apply still_query|apply still_call; reading]). Qed.
Lemma still_GetGroup s i : still (OnDemandStore.GetGroup s i).
Proof. apply still_call. reading. Qed.
Lemma still_ListGroups i : still (OnDemandStore.ListGroups i).
Proof. unfold OnDemandStore.ListGroups. quietly ltac:(apply still_query). Qed.
Lemma still_GetPolicy i : still (AutoUpdateStore.GetPolicy i).
Proof. unfold AutoUpdateStore.GetPolicy. quietly ltac:(first [apply still_query|apply still_call; reading]). Qed.
Lemma still_PendingRuns : still AutoUpdateStore.PendingRuns.
Proof. apply still_query. Qed.
Lemma still_PendingExecutions : still AutoUpdateStore.PendingExecutions.
Proof. apply still_query. Qed.
Lemma still_EffectiveImages i : still (AutoUpdateStore.EffectiveImages i).
Proof. apply still_query. Qed.
End reading.
#[export] Hint Resolve still_query still_Find still_ByID still_LatestDeployment still_LatestSuccessfulDeployment
  still_HasSuccessfulDeployment still_Environment still_GetGroup still_ListGroups still_GetPolicy still_PendingRuns
  still_PendingExecutions still_EffectiveImages : still.
End Reading.
