(* ===== verification/DatabaseLaws.v ===== *)
(** * The database as a whole

    Every call of every store, in any order and with any failures, keeps the
    on-demand tables, the update tables and the alert tables consistent; what
    the creation, the completion and the restart do to operations. *)
From S2P Require Import Prelude GoStrings TimeText OnDemandPolicy Alerts Database OnDemandStore AutoUpdateStore.
From S2P Require Import OperationStore OnDemandLaws AutoUpdateLaws.

Module DatabaseLaws.
Import Data Database.

(** ** All calls *)
Section calls.
Context `{W : World} `{C : Cron}.

(** The calls that write, one constructor each. *)
Inductive store_call : ∀ {A}, M DB A → Prop :=
| c_SaveGroup s i u e p : store_call (OnDemandStore.SaveGroup s i u e p)
| c_DeleteGroup s i r : store_call (OnDemandStore.DeleteGroup s i r)
| c_HoldGroup s i r h : store_call (OnDemandStore.HoldGroup s i r h)
| c_PauseGroup g h : store_call (OnDemandStore.PauseGroup g h)
| c_ResumeGroup s i r e p : store_call (OnDemandStore.ResumeGroup s i r e p)
| c_BeginTransition g a o : store_call (OnDemandStore.BeginTransition g a o)
| c_RecoverInterrupted : store_call OnDemandStore.RecoverInterrupted
| c_SavePolicy i u t : store_call (AutoUpdateStore.SavePolicy i u t)
| c_Admit p t : store_call (AutoUpdateStore.Admit p t)
| c_ResetAfterStartup t : store_call (AutoUpdateStore.ResetAfterStartup t)
| c_Pause i r : store_call (AutoUpdateStore.Pause i r)
| c_MarkChecking r t : store_call (AutoUpdateStore.MarkChecking r t)
| c_FinishRun i o r cs : store_call (AutoUpdateStore.FinishRun i o r cs)
| c_SavePrepared r o s cs b : store_call (AutoUpdateStore.SavePrepared r o s cs b)
| c_MarkApplying i r : store_call (AutoUpdateStore.MarkApplying i r)
| c_MarkVerifying i : store_call (AutoUpdateStore.MarkVerifying i)
| c_InvalidateImages i : store_call (AutoUpdateStore.InvalidateImages i)
| c_PruneImages i s : store_call (AutoUpdateStore.PruneImages i s)
| c_ResumePolicy i r t a b imgs cs : store_call (AutoUpdateStore.ResumePolicy i r t a b imgs cs)
| c_CreateOperation o : store_call (OperationStore.CreateOperation o)
| c_UpdateOperation o : store_call (OperationStore.UpdateOperation o)
| c_FailInterrupted t : store_call (OperationStore.FailInterrupted t)
| c_CompleteOperation o r : store_call (OperationStore.CompleteOperation o r)
| c_RecoverExecution e s : store_call (OperationStore.RecoverExecution e s)
| c_SaveDeployment d : store_call (OperationStore.SaveDeployment d)
| c_Create s : store_call (OperationStore.Create s)
| c_Archive i t : store_call (OperationStore.Archive i t)
| c_Rename i d t : store_call (OperationStore.Rename i d t)
| c_Purge i : store_call (OperationStore.Purge i)
| c_SetEnvironment i k v : store_call (OperationStore.SetEnvironment i k v)
| c_SetEnvironmentWithSecret i k v b : store_call (OperationStore.SetEnvironmentWithSecret i k v b)
| c_DeleteEnvironment i k : store_call (OperationStore.DeleteEnvironment i k)
| c_Apply cs : store_call (zoom (AlertStore.Apply cs) : M DB (list Alert.Alert))
| c_mutate m b : store_call (zoom (AlertStore.mutate m b) : M DB Alert.Alert).

(** One call after another, each of which may fail at any of its statements. *)
Inductive step : DB * nat → DB * nat → Prop :=
| step_call {A} (m : M DB A) db n db' n' r : store_call m → m db n = (r, (db', n')) → step (db, n) (db', n').

End calls.

(** ** On-demand tables: calls that concern other tables *)
Definition OD (db : DB) : Prop := OnDemandLaws.Inv db.

Lemma od_elsewhere db db' :
  OD db → groups db' = groups db → members db' = members db →
  (∀ s, is_Some (stacks db !! s) → is_Some (stacks db' !! s)) →
  (∀ id r, groups db !! id = Some r → active db' (g_stack r) = true → active db (g_stack r) = true) →
  (∀ o, is_Some (operations db !! o) → is_Some (operations db' !! o)) → OD db'.
Proof.
  intros [] Hg Hm Hst Ha Ho. constructor; rewrite ?Hg, ?Hm; try done.
  - intros id r Hr. destruct (inv_rows _ _ Hr). constructor; try done. naive_solver.
  - intros id r Hr. eauto.
  - apply (OnDemandLaws.Bounded_mono db); [|done]. intros id r [Hr Hact]. rewrite Hg in Hr.
    exists r. split; [|done]. split; [done|]. by eapply Ha.
Qed.

Lemma od_same db db' :
  OD db → groups db' = groups db → members db' = members db → stacks db' = stacks db →
  (∀ o, is_Some (operations db !! o) → is_Some (operations db' !! o)) → OD db'.
Proof.
  intros I Hg Hm Hs Ho. apply (od_elsewhere db); try done; [by rewrite Hs|].
  intros id r _. unfold active. by rewrite Hs.
Qed.

Lemma alter_is_Some {A} (m : gmap string A) i f o : is_Some (m !! o) → is_Some (alter f i m !! o).
Proof. intros [x Hx]. apply lookup_alter_is_Some. eauto. Qed.
Lemma insert_is_Some {A} (m : gmap string A) i x o : is_Some (m !! o) → is_Some (<[i := x]> m !! o).
Proof. intros. apply lookup_insert_is_Some'. by right. Qed.
Lemma fmap_is_Some {A} (f : A → A) (m : gmap string A) o : is_Some (m !! o) → is_Some ((f <$> m) !! o).
Proof. intros [x Hx]. rewrite lookup_fmap, Hx. eauto. Qed.
Create HintDb grow.
Create HintDb od.
#[export] Hint Resolve alter_is_Some insert_is_Some fmap_is_Some : grow.

(** Everything moves forward in time. *)
#[export] Hint Resolve AlertLaws.forward_applyAlertChanges : pres.
Lemma forward_currentAlertChanges `{W : World} cs : forward (AlertStore.currentAlertChanges cs).
Proof. induction cs as [|c cs IH]; simpl; fwd. Qed.
Lemma forward_recordImages `{W : World} s rs cs : forward (AutoUpdateStore.recordImages s rs cs).
Proof. induction cs as [|c cs IH]; simpl; fwd. Qed.
#[export] Hint Resolve forward_currentAlertChanges forward_recordImages : pres.
Lemma forward_completeUpdate `{W : World} o c : forward (AutoUpdateStore.completeUpdate o c).
Proof. unfold AutoUpdateStore.completeUpdate. fwd. Qed.
Lemma forward_completeOnDemand `{W : World} o c : forward (OnDemandStore.completeOnDemand o c).
Proof. unfold OnDemandStore.completeOnDemand. fwd. Qed.
#[export] Hint Resolve forward_completeUpdate forward_completeOnDemand : pres.

Section od.
Context `{W : World} `{C : Cron}.

Lemma od_zoom {X} (m : M Alert.AlertDB X) : maintains (λ db _, OD db) (zoom m : M DB X).
Proof.
  intros db n I. unfold zoom. destruct (m (view db) n) as [r [a k]]. simpl.
  by apply (od_same db).
Qed.
Lemma od_exec f :
  (∀ db, groups (f db) = groups db ∧ members (f db) = members db ∧ stacks (f db) = stacks db ∧
     ∀ o, is_Some (operations db !! o) → is_Some (operations (f db) !! o)) →
  maintains (λ db _, OD db) (exec f).
Proof.
  intros Hf. apply maintains_call; [apply _|]. intros db n a db' I [= _ <-].
  destruct (Hf db) as (?&?&?&?). by apply (od_same db).
Qed.
Lemma od_query {A} (g : DB → A) : maintains (λ db _, OD db) (query g).
Proof. apply maintains_call; [apply _|]. by intros db n a db' I [= _ <-]. Qed.

(** A call on other tables. *)
Ltac od_call :=
  apply maintains_call; [apply _|];
  let I := fresh "I" in let H := fresh "H" in intros ? ? ? ? I H; simpl in H;
  repeat (case_match; try discriminate); simplify_eq; try done;
  (eapply od_same; [exact I|done|done|done|]); simpl; auto with grow.
Ltac od_leaf :=
  lazymatch goal with
  | |- maintains _ (zoom _) => apply od_zoom
  | |- maintains _ (query _) => apply od_query
  | |- maintains _ (exec _) => apply od_exec; intros; split_and!; simpl; auto with grow
  | |- maintains _ (call _) => od_call
  | |- maintains _ (update1 _ _ _ _) => unfold update1; od_call
  | |- maintains _ (insertOperation _) => unfold insertOperation; od_call
  | |- maintains _ (insertContext _ _) => unfold insertContext; od_call
  | |- maintains _ (insertDeployment _) => unfold insertDeployment; od_call
  | |- _ => auto with od
  end.
Ltac od := walk ltac:(idtac; od_leaf).

(** *** Automatic updates *)
Lemma od_SavePolicy id u t : maintains (λ db _, OD db) (AutoUpdateStore.SavePolicy id u t).
Proof. unfold AutoUpdateStore.SavePolicy. od. Qed.
Lemma od_Admit p t : maintains (λ db _, OD db) (AutoUpdateStore.Admit p t).
Proof. unfold AutoUpdateStore.Admit, AutoUpdateStore.advance, AutoUpdateStore.insertRun. od. Qed.
Lemma od_resetAll t l : maintains (λ db _, OD db) (AutoUpdateStore.resetAll t l).
Proof. induction l as [|[id p] l IH]; simpl; od. Qed.
#[local] Hint Resolve od_resetAll : od.
Lemma od_ResetAfterStartup t : maintains (λ db _, OD db) (AutoUpdateStore.ResetAfterStartup t).
Proof. unfold AutoUpdateStore.ResetAfterStartup. od. Qed.
Lemma od_Pause id r : maintains (λ db _, OD db) (AutoUpdateStore.Pause id r).
Proof. unfold AutoUpdateStore.Pause. od. Qed.
Lemma od_MarkChecking r t : maintains (λ db _, OD db) (AutoUpdateStore.MarkChecking r t).
Proof. unfold AutoUpdateStore.MarkChecking. od. Qed.
Lemma od_FinishRun id o r cs : maintains (λ db _, OD db) (AutoUpdateStore.FinishRun id o r cs).
Proof. unfold AutoUpdateStore.FinishRun. od. Qed.
Lemma od_SavePrepared r o s cs b : maintains (λ db _, OD db) (AutoUpdateStore.SavePrepared r o s cs b).
Proof. unfold AutoUpdateStore.SavePrepared. od. Qed.
Lemma od_MarkApplying id r : maintains (λ db _, OD db) (AutoUpdateStore.MarkApplying id r).
Proof. unfold AutoUpdateStore.MarkApplying. od. Qed.
Lemma od_MarkVerifying id : maintains (λ db _, OD db) (AutoUpdateStore.MarkVerifying id).
Proof. unfold AutoUpdateStore.MarkVerifying. od. Qed.
Lemma od_InvalidateImages id : maintains (λ db _, OD db) (AutoUpdateStore.InvalidateImages id).
Proof. unfold AutoUpdateStore.InvalidateImages. od. Qed.
Lemma od_PruneImages id s : maintains (λ db _, OD db) (AutoUpdateStore.PruneImages id s).
Proof.
  unfold AutoUpdateStore.PruneImages. apply maintains_tx, maintains_bind; [od|]. intros l.
  induction l as [|c l IH]; simpl; od.
Qed.
Lemma od_ResumePolicy id r t a b imgs cs : maintains (λ db _, OD db) (AutoUpdateStore.ResumePolicy id r t a b imgs cs).
Proof.
  unfold AutoUpdateStore.ResumePolicy. od. induction imgs as [|c l IH]; simpl; od.
Qed.
Lemma od_recordImages s rs cs : maintains (λ db _, OD db) (AutoUpdateStore.recordImages s rs cs).
Proof. induction cs as [|c l IH]; simpl; unfold AutoUpdateStore.upsertImage; od. Qed.
#[local] Hint Resolve od_recordImages : od.
Lemma od_completeUpdate o c : maintains (λ db _, OD db) (AutoUpdateStore.completeUpdate o c).
Proof. unfold AutoUpdateStore.completeUpdate. od. Qed.
#[local] Hint Resolve od_completeUpdate : od.

(** *** Operations *)
Lemma od_interlock o : maintains (λ db _, OD db) (OnDemandStore.interlockOnDemand o).
Proof. apply OnDemandLaws.interlock_inv. Qed.
Lemma od_completeOnDemand o c : maintains (λ db _, OD db) (OnDemandStore.completeOnDemand o c).
Proof. apply OnDemandLaws.completeOnDemand_inv. Qed.
#[local] Hint Resolve od_interlock od_completeOnDemand : od.
Lemma od_CreateOperation o : maintains (λ db _, OD db) (OperationStore.CreateOperation o).
Proof. unfold OperationStore.CreateOperation. od. Qed.
Lemma od_UpdateOperation o : maintains (λ db _, OD db) (OperationStore.UpdateOperation o).
Proof. unfold OperationStore.UpdateOperation, OperationStore.updateOperation. od. Qed.
#[local] Hint Resolve od_UpdateOperation : od.
Lemma od_FailInterrupted t : maintains (λ db _, OD db) (OperationStore.FailInterrupted t).
Proof. unfold OperationStore.FailInterrupted. od. Qed.
Lemma od_CompleteOperation o r : maintains (λ db _, OD db) (OperationStore.CompleteOperation o r).
Proof. unfold OperationStore.CompleteOperation, OperationStore.completeOperation. od. Qed.
#[local] Hint Resolve od_CompleteOperation : od.
Lemma od_RecoverExecution e s : maintains (λ db _, OD db) (OperationStore.RecoverExecution e s).
Proof.
  unfold OperationStore.RecoverExecution, OperationStore.recoverPrepared, OperationStore.Operation_,
    OperationStore.loadOperationDetails, OperationStore.loadAlertContext. od.
Qed.
Lemma od_SaveDeployment d : maintains (λ db _, OD db) (OperationStore.SaveDeployment d).
Proof. unfold OperationStore.SaveDeployment. od. Qed.

(** *** Stacks and their environment *)
Lemma od_insert_stack db s :
  OD db → stacks db !! StkID s = None → OD (set_stacks db (<[StkID s := s]> (stacks db))).
Proof.
  intros I Hnew. apply (od_elsewhere db); simpl; auto with grow.
  intros id r Hr. destruct (OnDemandLaws.inv_stacks _ I _ _ Hr) as [x Hx].
  unfold active. simpl. by rewrite lookup_insert_ne by congruence.
Qed.
Lemma od_Create s : maintains (λ db _, OD db) (OperationStore.Create s).
Proof.
  apply maintains_call; [apply _|]. intros db n a db' I H. case_match eqn:E; simplify_eq.
  apply orb_false_iff in E as [E _]. apply bool_decide_eq_false, eq_None_not_Some in E.
  by apply (od_insert_stack _ (mkStack (StkID s) _ _ _ _ _)).
Qed.
Lemma od_Archive id t : maintains (λ db _, OD db) (OperationStore.Archive id t).
Proof.
  apply maintains_call; [apply _|]. intros db n a db' I [= _ <-].
  apply (od_elsewhere db); simpl; auto with grow. intros _ r _. unfold active. simpl.
  destruct (decide (id = g_stack r)) as [->|]; [|by rewrite lookup_alter_ne].
  rewrite lookup_alter_eq. by destruct (stacks db !! g_stack r).
Qed.
Lemma od_Rename id d t : maintains (λ db _, OD db) (OperationStore.Rename id d t).
Proof.
  apply maintains_call; [apply _|]. intros db n a db' I H. repeat case_match; simplify_eq; try done.
  apply (od_elsewhere db); simpl; auto with grow. intros _ r _. unfold active. simpl.
  destruct (decide (id = g_stack r)) as [->|]; [|by rewrite lookup_insert_ne].
  intros _. by match goal with H : stacks db !! _ = Some _ |- _ => rewrite H end.
Qed.
Lemma od_deleteStack id db : OD db → OD (OperationStore.deleteStack id db).
Proof.
  intros I. destruct I as [Hrow Hst Hmem Hown Hb]. constructor; simpl.
  - intros i r [Hr _]%map_lookup_filter_Some. destruct (Hrow _ _ Hr). by constructor.
  - intros i r [Hr Hne]%map_lookup_filter_Some. rewrite lookup_delete_ne by (simpl in Hne; congruence). eauto.
  - intros i r m [Hr Hne]%map_lookup_filter_Some. simpl in Hne. rewrite map_lookup_filter_Some. simpl.
    rewrite <- (Hmem i r m Hr). tauto.
  - intros k i [Hk Hne]%map_lookup_filter_Some. simpl in Hne. destruct (Hown _ _ Hk) as (r & Hr & Hs).
    exists r. split; [|done]. rewrite map_lookup_filter_Some. simpl. by rewrite Hs.
  - apply (OnDemandLaws.Bounded_mono db); [|done]. intros i r [[Hr Hne]%map_lookup_filter_Some Ha].
    simpl in Hne. exists r. split; [|done]. split; [done|]. unfold active in *. simpl in Ha.
    by rewrite lookup_delete_ne in Ha by congruence.
Qed.
Lemma od_Purge id : maintains (λ db _, OD db) (OperationStore.Purge id).
Proof.
  unfold OperationStore.Purge. apply maintains_tx, maintains_bind; [od|]. intros _.
  apply maintains_call; [apply _|]. intros db n a db' I H. repeat case_match; simplify_eq.
  by apply od_deleteStack.
Qed.
Lemma od_SetEnvironment id k v : maintains (λ db _, OD db) (OperationStore.SetEnvironment id k v).
Proof. unfold OperationStore.SetEnvironment. od. Qed.
Lemma od_SetEnvironmentWithSecret id k v b : maintains (λ db _, OD db) (OperationStore.SetEnvironmentWithSecret id k v b).
Proof. unfold OperationStore.SetEnvironmentWithSecret. od. Qed.
Lemma od_DeleteEnvironment id k : maintains (λ db _, OD db) (OperationStore.DeleteEnvironment id k).
Proof. unfold OperationStore.DeleteEnvironment. od. Qed.
End od.

(** ** Update tables: calls that concern other tables *)
Section ru.
Context `{W : World} `{C : Cron} (db0 : DB).
Definition RU (db : DB) (n : nat) : Prop := AutoUpdateLaws.keepsRuns db0 db n.

Lemma RU_next db db' n m :
  RU db n → AutoUpdateLaws.Inv db' ∧ AutoUpdateLaws.advances db db' → RU db' m.
Proof. intros [I A] [I' A']. split; [done|]. by eapply AutoUpdateLaws.advances_trans. Qed.
Lemma ru_same db db' n :
  RU db n → runs db' = runs db → executions db' = executions db → policies db' = policies db →
  (∀ s, is_Some (stacks db !! s) → is_Some (stacks db' !! s)) →
  (∀ o, is_Some (operations db !! o) → is_Some (operations db' !! o)) → RU db' n.
Proof.
  intros H Hr Hx Hp Hs Ho. apply (RU_next db _ n); [done|]. destruct H as [I _].
  apply AutoUpdateLaws.elsewhere; [done..|]. intros s p. rewrite Hp. intros Hsp.
  destruct (AutoUpdateLaws.inv_policy _ I _ _ Hsp). eauto.
Qed.
#[global] Instance RU_timeless : Timeless RU.
Proof. by intros db n. Qed.

Ltac ru_call :=
  apply maintains_call; [apply _|];
  let I := fresh "I" in let H := fresh "H" in intros ? ? ? ? I H; simpl in H;
  repeat (case_match; try discriminate); simplify_eq; try done;
  (eapply ru_same; [exact I|done|done|done|..]); simpl; auto with grow.
Lemma ru_zoom {X} (m : M Alert.AlertDB X) : maintains RU (zoom m : M DB X).
Proof.
  intros db n I. unfold zoom. destruct (m (view db) n) as [r [a k]]. simpl. by apply (ru_same db).
Qed.
Ltac ru_leaf :=
  lazymatch goal with
  | |- secures _ _ => apply secures_maintains; ru_leaf
  | |- maintains _ (zoom _) => apply ru_zoom
  | |- maintains _ (query _) => unfold query; ru_call
  | |- maintains _ (exec _) => unfold exec; ru_call
  | |- maintains _ (call _) => ru_call
  | |- maintains _ (update1 _ _ _ _) => unfold update1; ru_call
  | |- maintains _ (insertOperation _) => unfold insertOperation; ru_call
  | |- maintains _ (insertContext _ _) => unfold insertContext; ru_call
  | |- maintains _ (insertDeployment _) => unfold insertDeployment; ru_call
  | |- _ => auto with od
  end.
Ltac ru := seal ltac:(idtac; ru_leaf).

(** *** On-demand groups *)
Lemma ru_checkOnDemandBounds : maintains RU OnDemandStore.checkOnDemandBounds.
Proof. unfold OnDemandStore.checkOnDemandBounds. ru. Qed.
Lemma ru_insertMembers id s l : maintains RU (OnDemandStore.insertMembers id s l).
Proof. induction l as [|m l IH]; simpl; unfold OnDemandStore.insertMember; ru. Qed.
#[local] Hint Resolve ru_checkOnDemandBounds ru_insertMembers : od.
Lemma ru_updateGroup id c f : maintains RU (OnDemandStore.updateGroup id c f).
Proof. unfold OnDemandStore.updateGroup. ru. Qed.
Lemma ru_insertGroup i s p ph e : maintains RU (OnDemandStore.insertGroup i s p ph e).
Proof. unfold OnDemandStore.insertGroup. ru. Qed.
Lemma ru_deleteMembers i : maintains RU (OnDemandStore.deleteMembers i).
Proof. unfold OnDemandStore.deleteMembers. ru. Qed.
Lemma ru_readGroup i : maintains RU (OnDemandStore.readGroup i).
Proof. unfold OnDemandStore.readGroup. ru. Qed.
Lemma ru_GetGroup s i : maintains RU (OnDemandStore.GetGroup s i).
Proof. unfold OnDemandStore.GetGroup. ru. Qed.
#[local] Hint Resolve ru_updateGroup ru_insertGroup ru_deleteMembers ru_readGroup ru_GetGroup : od.
Lemma forward_insertMembers id s l : forward (OnDemandStore.insertMembers id s l).
Proof. induction l as [|m l IH]; simpl; unfold OnDemandStore.insertMember; fwd. Qed.
#[local] Hint Resolve forward_insertMembers : pres.
Lemma ru_SaveGroup s i u e p : maintains RU (OnDemandStore.SaveGroup s i u e p).
Proof. unfold OnDemandStore.SaveGroup. ru. Qed.
Lemma ru_DeleteGroup s i r : maintains RU (OnDemandStore.DeleteGroup s i r).
Proof. unfold OnDemandStore.DeleteGroup. ru. Qed.
Lemma ru_HoldGroup s i r h : maintains RU (OnDemandStore.HoldGroup s i r h).
Proof. unfold OnDemandStore.HoldGroup. ru. Qed.
Lemma ru_PauseGroup g h : maintains RU (OnDemandStore.PauseGroup g h).
Proof. unfold OnDemandStore.PauseGroup. ru. Qed.
Lemma ru_ResumeGroup s i r e p : maintains RU (OnDemandStore.ResumeGroup s i r e p).
Proof. unfold OnDemandStore.ResumeGroup. ru. Qed.
Lemma ru_BeginTransition g a o : maintains RU (OnDemandStore.BeginTransition g a o).
Proof. unfold OnDemandStore.BeginTransition. ru. Qed.
Lemma ru_RecoverInterrupted : maintains RU OnDemandStore.RecoverInterrupted.
Proof. unfold OnDemandStore.RecoverInterrupted. ru. Qed.
Lemma ru_interlock o : maintains RU (OnDemandStore.interlockOnDemand o).
Proof. unfold OnDemandStore.interlockOnDemand. ru. Qed.
Lemma ru_completeOnDemand o c : maintains RU (OnDemandStore.completeOnDemand o c).
Proof. unfold OnDemandStore.completeOnDemand. ru. Qed.
#[local] Hint Resolve ru_interlock ru_completeOnDemand : od.

(** *** Operations *)
Lemma forward_interlock o : forward (OnDemandStore.interlockOnDemand o).
Proof. unfold OnDemandStore.interlockOnDemand. fwd. Qed.
#[local] Hint Resolve forward_interlock : pres.
Lemma ru_CreateOperation o : maintains RU (OperationStore.CreateOperation o).
Proof. unfold OperationStore.CreateOperation. ru. Qed.
Lemma ru_UpdateOperation o : maintains RU (OperationStore.UpdateOperation o).
Proof. unfold OperationStore.UpdateOperation, OperationStore.updateOperation. ru. Qed.
Lemma ru_FailInterrupted t : maintains RU (OperationStore.FailInterrupted t).
Proof. unfold OperationStore.FailInterrupted. ru. Qed.
Lemma ru_completeUpdate o c : secures RU (AutoUpdateStore.completeUpdate o c).
Proof.
  intros db n u db' n' HR H. apply (RU_next db _ n); [done|].
  by apply (AutoUpdateLaws.completeUpdate_keeps _ _ _ _ _ _ _ (proj1 HR) H).
Qed.
#[local] Hint Resolve ru_UpdateOperation : od.
Lemma ru_CompleteOperation o r : maintains RU (OperationStore.CompleteOperation o r).
Proof.
  unfold OperationStore.CompleteOperation, OperationStore.completeOperation.
  apply maintains_atomically_secures; [apply _|fwd|].
  apply secures_bind; [apply ru_completeUpdate|]. intros _.
  stride ltac:(idtac; ru_leaf).
Qed.
#[local] Hint Resolve ru_CompleteOperation : od.

(** A run that did not get to change anything. *)
Definition abandoned (i : string) (outcome reason : string) (db : DB) : DB :=
  set_runs (AutoUpdateStore.moveExecution i "prepared" "terminal" db)
    (alter (AutoUpdateStore.finishRun outcome reason) i (runs db)).
Lemma abandoned_keeps i outcome reason db :
  AutoUpdateLaws.Inv db →
  AutoUpdateLaws.Inv (abandoned i outcome reason db) ∧ AutoUpdateLaws.advances db (abandoned i outcome reason db).
Proof.
  intros I. destruct (runs db !! i) as [r|] eqn:Hr.
  - apply (AutoUpdateLaws.phase_change db _ i r (AutoUpdateStore.finishRun outcome reason r)
      (λ x, if (x_phase x =? "prepared")%string then AutoUpdateStore.setExecutionPhase "terminal" x else x)); try done.
    + unfold abandoned, AutoUpdateStore.moveExecution. by rewrite (AutoUpdateLaws.alter_lookup _ _ _ _ Hr).
    + apply AutoUpdateLaws.rank_le_terminal. by apply (AutoUpdateLaws.lookup_slot db i).
    + intros x. by destruct (x_phase x =? "prepared")%string.
    + intros x _ _ Hx. split; [|by right]. destruct (x_phase x =? "prepared")%string; [simpl; set_solver|done].
    + intros _ _. simpl. set_solver.
  - unfold abandoned, AutoUpdateStore.moveExecution.
    pose proof (AutoUpdateLaws.inv_slot _ I i) as Hs. unfold AutoUpdateLaws.slotOk in Hs. rewrite Hr in Hs.
    rewrite !AutoUpdateLaws.alter_same by congruence. by apply AutoUpdateLaws.elsewhere_same.
Qed.
Lemma ru_recoverPrepared e : maintains RU (OperationStore.recoverPrepared e).
Proof.
  apply maintains_atomically_secures; [apply _|unfold OperationStore.recoverPrepared; fwd|].
  intros db n u db' n' HR H. db_inv.
  apply (ru_same (abandoned (XRunID e) "interrupted" "restart_before_mutation" db) _ n); simpl; auto with grow.
  apply (RU_next db _ n); [done|]. apply abandoned_keeps, HR.
Qed.
#[local] Hint Resolve ru_recoverPrepared : od.
Lemma ru_RecoverExecution e s : maintains RU (OperationStore.RecoverExecution e s).
Proof.
  unfold OperationStore.RecoverExecution, OperationStore.Operation_, OperationStore.loadOperationDetails,
    OperationStore.loadAlertContext. ru.
Qed.
Lemma ru_SaveDeployment d : maintains RU (OperationStore.SaveDeployment d).
Proof. unfold OperationStore.SaveDeployment. ru. Qed.

(** *** Stacks and images *)
Lemma ru_Create s : maintains RU (OperationStore.Create s).
Proof. unfold OperationStore.Create. ru. Qed.
Lemma ru_Archive i t : maintains RU (OperationStore.Archive i t).
Proof. unfold OperationStore.Archive. ru. Qed.
Lemma ru_Rename i d t : maintains RU (OperationStore.Rename i d t).
Proof. unfold OperationStore.Rename. ru. Qed.
Lemma ru_Purge i : maintains RU (OperationStore.Purge i).
Proof.
  unfold OperationStore.Purge. apply maintains_atomically_secures; [apply _|fwd|].
  apply secures_bind; [ru|]. intros _. apply secures_call; [apply _|].
  intros db n a db' HR H. repeat case_match; simplify_eq. apply (RU_next db _ n); [done|].
  apply AutoUpdateLaws.elsewhere; [apply HR|done..|]. intros k p. simpl. rewrite lookup_delete_Some.
  intros [Hne Hp]. rewrite lookup_delete_ne by done. by apply (AutoUpdateLaws.inv_policy _ (proj1 HR)).
Qed.
Lemma ru_SetEnvironment i k v : maintains RU (OperationStore.SetEnvironment i k v).
Proof. unfold OperationStore.SetEnvironment. ru. Qed.
Lemma ru_SetEnvironmentWithSecret i k v b : maintains RU (OperationStore.SetEnvironmentWithSecret i k v b).
Proof. unfold OperationStore.SetEnvironmentWithSecret. ru. Qed.
Lemma ru_DeleteEnvironment i k : maintains RU (OperationStore.DeleteEnvironment i k).
Proof. unfold OperationStore.DeleteEnvironment. ru. Qed.
Lemma ru_InvalidateImages i : maintains RU (AutoUpdateStore.InvalidateImages i).
Proof. unfold AutoUpdateStore.InvalidateImages. ru. Qed.
End ru.

(** ** Alert tables: only reports and mutations write them *)
Section lg.
Context `{W : World} `{!Unpredictable W} `{C : Cron} (alerts0 : Alert.AlertDB).
Definition LG (db : DB) (n : nat) : Prop := AlertLaws.Log alerts0 (alert_tables db) n.

#[global] Instance LG_timeless : Timeless LG.
Proof. intros db n. apply AlertLaws.Log_timeless. Qed.

Ltac lg_call :=
  apply maintains_call; [apply _|];
  let I := fresh "I" in let H := fresh "H" in intros ? ? ? ? I H; simpl in H;
  repeat (case_match; try discriminate); simplify_eq; exact I.
Lemma lg_zoom {X} (m : M Alert.AlertDB X) : maintains (AlertLaws.Log alerts0) m → maintains LG (zoom m : M DB X).
Proof. intros Hm s n. exact (maintains_zoom (AlertLaws.Log alerts0) m Hm s n). Qed.
Lemma lg_apply cs : secures LG (zoom (AlertStore.applyAlertChanges cs) : M DB (list Alert.Alert)).
Proof. intros db n a db' n' HL H. apply zoom_ok in H as (x & H & ->). by eapply AlertLaws.applyAlertChanges_log. Qed.
Lemma lg_current cs : secures LG (zoom (AlertStore.currentAlertChanges cs) : M DB (list Alert.Change)).
Proof.
  apply secures_maintains, lg_zoom. induction cs as [|c cs IH]; simpl; [by apply maintains_ret|].
  apply maintains_bind; [|intros; apply maintains_bind; [done|intros; apply maintains_ret]].
  case_match; [|apply maintains_ret]. apply maintains_call; [apply _|]. by intros ? ? ? ? ? [= _ <-].
Qed.
Ltac lg_leaf :=
  lazymatch goal with
  | |- secures _ (zoom (AlertStore.applyAlertChanges _)) => apply lg_apply
  | |- secures _ (zoom (AlertStore.currentAlertChanges _)) => apply lg_current
  | |- secures _ _ => first [by auto with od | apply secures_maintains; lg_leaf]
  | |- maintains _ (query _) => unfold query; lg_call
  | |- maintains _ (exec _) => unfold exec; lg_call
  | |- maintains _ (call _) => lg_call
  | |- maintains _ (update1 _ _ _ _) => unfold update1; lg_call
  | |- maintains _ (insertOperation _) => unfold insertOperation; lg_call
  | |- maintains _ (insertContext _ _) => unfold insertContext; lg_call
  | |- maintains _ (insertDeployment _) => unfold insertDeployment; lg_call
  | |- _ => auto with od
  end.
Ltac lg := seal ltac:(idtac; lg_leaf).

Lemma lg_Apply cs : maintains LG (zoom (AlertStore.Apply cs) : M DB (list Alert.Alert)).
Proof. by apply lg_zoom, AlertLaws.Apply_log. Qed.
Lemma lg_mutate m b : maintains LG (zoom (AlertStore.mutate m b) : M DB Alert.Alert).
Proof. by apply lg_zoom, AlertLaws.mutate_log. Qed.
Lemma lg_FinishRun id o r cs : maintains LG (AutoUpdateStore.FinishRun id o r cs).
Proof. unfold AutoUpdateStore.FinishRun. lg. Qed.
Lemma forward_insertImages id (imgs : list ImageChange) :
  forward (foldr (λ c (m : M DB unit), _ ← call (λ db,
           if images db !! (id, Service c) then Err ErrConstraint
           else if stacks db !! id then Ok (tt, set_images db (<[(id, Service c) := AutoUpdateStore.imageRow c]> (images db)))
           else Err ErrConstraint); m) (mret tt) imgs).
Proof. induction imgs; simpl; fwd. Qed.
#[local] Hint Resolve forward_insertImages : pres.
Lemma lg_ResumePolicy id r t a b imgs cs : maintains LG (AutoUpdateStore.ResumePolicy id r t a b imgs cs).
Proof. unfold AutoUpdateStore.ResumePolicy. lg. induction imgs as [|c l IH]; simpl; lg. Qed.
Lemma lg_FailInterrupted t : maintains LG (OperationStore.FailInterrupted t).
Proof. unfold OperationStore.FailInterrupted. lg. Qed.
Lemma lg_recordImages s rs cs : maintains LG (AutoUpdateStore.recordImages s rs cs).
Proof. induction cs as [|c cs IH]; simpl; unfold AutoUpdateStore.upsertImage; lg. Qed.
#[local] Hint Resolve lg_recordImages : od.
Lemma lg_CompleteOperation o r : maintains LG (OperationStore.CompleteOperation o r).
Proof.
  unfold OperationStore.CompleteOperation, OperationStore.completeOperation, AutoUpdateStore.completeUpdate,
    OnDemandStore.completeOnDemand, OnDemandStore.updateGroup, OperationStore.updateOperation. lg.
Qed.
#[local] Hint Resolve lg_CompleteOperation : od.
Lemma lg_RecoverExecution e s : maintains LG (OperationStore.RecoverExecution e s).
Proof.
  unfold OperationStore.RecoverExecution, OperationStore.recoverPrepared, OperationStore.Operation_,
    OperationStore.loadOperationDetails, OperationStore.loadAlertContext. lg.
Qed.

(** *** The calls that do not touch them *)
Lemma lg_resetAll t l : maintains LG (AutoUpdateStore.resetAll t l).
Proof. induction l as [|[id p] l IH]; simpl; lg. Qed.
Lemma forward_resetAll t l : forward (AutoUpdateStore.resetAll t l).
Proof. induction l as [|[id p] l IH]; simpl; fwd. Qed.
Lemma lg_insertMembers id s l : maintains LG (OnDemandStore.insertMembers id s l).
Proof. induction l as [|m l IH]; simpl; unfold OnDemandStore.insertMember; lg. Qed.
#[local] Hint Resolve lg_resetAll forward_resetAll lg_insertMembers forward_insertMembers forward_interlock : od pres.
Lemma lg_PruneImages id src : maintains LG (AutoUpdateStore.PruneImages id src).
Proof.
  unfold AutoUpdateStore.PruneImages.
  assert (∀ l : list ImageChange, let m := foldr (λ c (m : M DB unit), _ ← exec (λ db, set_images db (delete (id, Service c) (images db))); m)
     (mret tt) l in forward m ∧ maintains LG m) as Hl.
  { intros l m. subst m. induction l as [|c l [IHf IH]]; simpl; (split; [fwd|lg]). }
  apply maintains_atomically_secures; [apply _| |].
  - apply forward_bind; [fwd|]. intros l. apply Hl.
  - apply secures_bind; [lg|]. intros l. apply secures_maintains, Hl.
Qed.
#[local] Hint Resolve lg_Apply lg_mutate lg_FinishRun lg_ResumePolicy lg_FailInterrupted lg_RecoverExecution
  lg_PruneImages : od.
Lemma lg_step s s' : LG s.1 s.2 → step s s' → LG s'.1 s'.2.
Proof.
  intros HL H. destruct H as [A m db n db' n' r Hm E]. simpl in *.
  assert (maintains LG m) as Hk.
  { destruct Hm; auto with od;
      unfold OnDemandStore.SaveGroup, OnDemandStore.DeleteGroup, OnDemandStore.HoldGroup, OnDemandStore.PauseGroup,
        OnDemandStore.ResumeGroup, OnDemandStore.GetGroup, OnDemandStore.BeginTransition, OnDemandStore.RecoverInterrupted,
        OnDemandStore.updateGroup, OnDemandStore.insertGroup, OnDemandStore.deleteMembers, OnDemandStore.readGroup,
        OnDemandStore.checkOnDemandBounds,
        AutoUpdateStore.SavePolicy, AutoUpdateStore.Admit, AutoUpdateStore.advance, AutoUpdateStore.insertRun,
        AutoUpdateStore.ResetAfterStartup, AutoUpdateStore.Pause, AutoUpdateStore.MarkChecking,
        AutoUpdateStore.SavePrepared, AutoUpdateStore.MarkApplying, AutoUpdateStore.MarkVerifying,
        AutoUpdateStore.InvalidateImages, OperationStore.CreateOperation, OperationStore.UpdateOperation,
        OperationStore.updateOperation, OperationStore.SaveDeployment, OperationStore.Create, OperationStore.Archive,
        OperationStore.Rename, OperationStore.Purge, OperationStore.SetEnvironment,
        OperationStore.SetEnvironmentWithSecret, OperationStore.DeleteEnvironment,
        OnDemandStore.interlockOnDemand; lg. }
  specialize (Hk db n HL). by rewrite E in Hk.
Qed.
End lg.

(** ** Every call *)
Section system.
Context `{W : World} `{C : Cron}.
#[local] Hint Resolve od_SavePolicy od_Admit od_ResetAfterStartup od_Pause od_MarkChecking od_FinishRun
  od_SavePrepared od_MarkApplying od_MarkVerifying od_InvalidateImages od_PruneImages od_ResumePolicy
  od_CreateOperation od_UpdateOperation od_FailInterrupted od_CompleteOperation od_RecoverExecution
  od_SaveDeployment od_Create od_Archive od_Rename od_Purge od_SetEnvironment od_SetEnvironmentWithSecret
  od_DeleteEnvironment od_zoom OnDemandLaws.SaveGroup_inv OnDemandLaws.DeleteGroup_inv OnDemandLaws.HoldGroup_inv
  OnDemandLaws.PauseGroup_inv OnDemandLaws.ResumeGroup_inv OnDemandLaws.BeginTransition_inv
  OnDemandLaws.RecoverInterrupted_inv : od.
Lemma od_step s s' : OD s.1 → step s s' → OD s'.1.
Proof.
  intros I H. destruct H as [A m db n db' n' r Hm E]. simpl in *.
  assert (maintains (λ db _, OD db) m) as Hk by (destruct Hm; auto with od).
  specialize (Hk db n I). by rewrite E in Hk.
Qed.

#[local] Hint Resolve AutoUpdateLaws.SavePolicy_keeps AutoUpdateLaws.Admit_keeps AutoUpdateLaws.ResetAfterStartup_keeps
  AutoUpdateLaws.Pause_keeps AutoUpdateLaws.MarkChecking_keeps AutoUpdateLaws.FinishRun_keeps
  AutoUpdateLaws.SavePrepared_keeps AutoUpdateLaws.MarkApplying_keeps AutoUpdateLaws.MarkVerifying_keeps
  AutoUpdateLaws.PruneImages_keeps AutoUpdateLaws.ResumePolicy_keeps ru_InvalidateImages ru_SaveGroup
  ru_DeleteGroup ru_HoldGroup ru_PauseGroup ru_ResumeGroup ru_BeginTransition ru_RecoverInterrupted ru_CreateOperation
  ru_UpdateOperation ru_FailInterrupted ru_CompleteOperation ru_RecoverExecution ru_SaveDeployment ru_Create ru_Archive
  ru_Rename ru_Purge ru_SetEnvironment ru_SetEnvironmentWithSecret ru_DeleteEnvironment ru_zoom : od.
Lemma ru_step db0 s s' : RU db0 s.1 s.2 → step s s' → RU db0 s'.1 s'.2.
Proof.
  intros I H. destruct H as [A m db n db' n' r Hm E]. simpl in *.
  assert (maintains (RU db0) m) as Hk by (unfold RU; destruct Hm; auto with od).
  specialize (Hk db n I). by rewrite E in Hk.
Qed.

(** The states of the database, from the empty one. *)
Definition reachable (db : DB) (n : nat) : Prop := star step (emptyDB, 0) (db, n).

Lemma od_empty : OD emptyDB.
Proof.
  constructor; simpl; [by intros * ?%lookup_empty_Some..|].
  constructor; simpl.
  - unfold OnDemandStore.activeGroups, OnDemandPolicy.MaxGroups. simpl. rewrite map_to_list_empty. simpl. lia.
  - by intros id r [? _].
  - by intros id1 r1 id2 r2 b1 b2 _ [? _].
Qed.
Lemma au_empty : AutoUpdateLaws.Inv emptyDB.
Proof. constructor; simpl; [done|by intros * ?%lookup_empty_Some..]. Qed.

Lemma reachable_od db n : reachable db n → OD db.
Proof. intros H. apply (star_invariant step (λ s, OD s.1) od_step _ _ H), od_empty. Qed.
Lemma later_runs db0 n0 db n :
  AutoUpdateLaws.Inv db0 → star step (db0, n0) (db, n) → RU db0 db n.
Proof.
  intros I H. apply (star_invariant step (λ s, RU db0 s.1 s.2) (ru_step db0) _ _ H).
  split; [done|]. by apply AutoUpdateLaws.advances_same.
Qed.
Lemma reachable_runs db n : reachable db n → AutoUpdateLaws.Inv db.
Proof. intros H. apply (later_runs _ _ _ _ au_empty H). Qed.
Lemma reachable_log `{!Unpredictable W} db n : reachable db n → AlertLaws.Log Alert.emptyAlertDB (alert_tables db) n.
Proof.
  intros H. apply (star_invariant step (λ s, LG Alert.emptyAlertDB s.1 s.2) (lg_step _) _ _ H).
  apply AlertLaws.empty_log.
Qed.
End system.

(** C1: whatever calls the stores served, in whatever order, and whichever of
    their statements failed: a group is starting or stopping exactly while an
    existing operation owns it, and then it is neither held nor paused; a group
    in an unknown phase is paused; a service of a stack belongs to a group
    exactly when the group's policy names it; at most 64 groups of active
    stacks exist and the endpoints of two of them never overlap. *)
Theorem on_demand_tables_consistent `{W : World} `{C : Cron} db n :
  reachable db n →
  (∀ id r, groups db !! id = Some r →
     (is_Some (g_operation r) ↔ g_phase r = OnDemandPolicy.Starting ∨ g_phase r = OnDemandPolicy.Stopping) ∧
     (∀ o, g_operation r = Some o → is_Some (operations db !! o) ∧ g_hold r = ""%string ∧ g_paused r = ""%string) ∧
     (g_phase r = OnDemandPolicy.Unknown → g_paused r ≠ ""%string) ∧
     (∀ m, members db !! (g_stack r, m) = Some id ↔ m ∈ OnDemandPolicy.Members (g_policy r)) ∧
     OnDemandPolicy.ValidatePolicy (g_policy r) = Ok tt) ∧
  (Z.of_nat (length (OnDemandStore.activeGroups db)) ≤ OnDemandPolicy.MaxGroups)%Z ∧
  (∀ id1 r1 id2 r2 b1 b2, id1 ≠ id2 → groups db !! id1 = Some r1 → groups db !! id2 = Some r2 →
     active db (g_stack r1) = true → active db (g_stack r2) = true →
     b1 ∈ OnDemandPolicy.EvidenceBindings (g_evidence r1) → b2 ∈ OnDemandPolicy.EvidenceBindings (g_evidence r2) →
     ¬ OnDemandLaws.conflict b1 b2).
Proof.
  intros H. destruct (reachable_od _ _ H) as [Hrow Hst Hmem Hown [Hc _ Hb]]. split_and!; [|done|].
  - intros id r Hr. destruct (Hrow _ _ Hr) as [_ Howner Hop Hun Hunk _ Hpol _]. split_and!; [done| |done|eauto|done].
    intros o Ho. split; [eauto|]. apply Hun, Howner. eauto.
  - intros id1 r1 id2 r2 b1 b2 Hne H1 H2 A1 A2. apply (Hb id1 r1 id2 r2); done.
Qed.

(** C2: in every state of the database two unfinished runs belong to different
    stacks, a run that is prepared, applying or verifying has an execution in
    that phase whose operation exists, every execution belongs to a run, and
    from then on no run disappears or goes back to an earlier phase. *)
Theorem runs_only_move_forward `{W : World} `{C : Cron} db n :
  reachable db n →
  (∀ i j r1 r2, runs db !! i = Some r1 → runs db !! j = Some r2 → RunStackID r1 = RunStackID r2 →
     RunPhase r1 ≠ "terminal"%string → RunPhase r2 ≠ "terminal"%string → i = j) ∧
  (∀ i r, runs db !! i = Some r → RunPhase r ∈ ["prepared"; "applying"; "verifying"]%string →
     ∃ x, executions db !! i = Some x ∧ x_phase x = RunPhase r ∧ x_operation x = RunOperationID r ∧
          is_Some (operations db !! x_operation x)) ∧
  (∀ i, is_Some (executions db !! i) → is_Some (runs db !! i)) ∧
  (∀ db' n', star step (db, n) (db', n') → AutoUpdateLaws.advances db db').
Proof.
  intros H. pose proof (reachable_runs _ _ H) as I. split_and!.
  - intros i j r1 r2 H1 H2 Hs P1 P2. by apply (AutoUpdateLaws.inv_one _ I i j r1 r2).
  - intros i r Hr Hp. pose proof (AutoUpdateLaws.inv_slot _ I i) as Hs. unfold AutoUpdateLaws.slotOk in Hs.
    rewrite Hr in Hs. destruct Hs as (_ & _ & Hs). destruct (executions db !! i) as [x|]; [|done].
    destruct Hs as (_ & Ho & [Hph|Ht] & Hop); [by exists x|]. rewrite Ht in Hp. set_solver.
  - intros i [x Hx]. pose proof (AutoUpdateLaws.inv_slot _ I i) as Hs. unfold AutoUpdateLaws.slotOk in Hs.
    destruct (runs db !! i); [eauto|congruence].
  - intros db' n' Hlater. apply (later_runs _ _ _ _ I Hlater).
Qed.

(** C35: in every state of the database an alert's revision is the number of
    its events, its count the number of failures of its current episode (never
    zero), it is resolved, or acknowledged, exactly when its current episode has
    such an event, and no two alerts describe the same problem. *)
Theorem alerts_match_their_history `{W : World} `{!Unpredictable W} `{C : Cron} db n i a :
  reachable db n → Alert.alerts (alert_tables db) !! i = Some a →
  AlertLaws.consistent (AlertLaws.history i (Alert.events (alert_tables db))) a ∧ (1 ≤ Alert.Count a)%Z ∧
  ∀ j b, Alert.alerts (alert_tables db) !! j = Some b → Alert.AKey b = Alert.AKey a → j = i.
Proof.
  intros H Ha. destruct (reachable_log _ _ H) as (I & _ & _).
  split_and!; [by apply I|by eapply (AlertLaws.inv_counted _ I)|].
  intros j b Hb Hk. by apply (AlertLaws.inv_key _ I b a).
Qed.

(** *** Operations *)

(** C36: a manual stop, start, restart, deployment or recreation that is
    recorded suspends the automation it interferes with, in the same
    transaction: every idle group it affects (all of the stack, or those of the
    services it names) is paused at the next revision, held as well if it stops
    containers, and a transition decided on the old revision is refused; the
    other groups, and all groups if the operation is not recorded, stay as they are. *)
Theorem manual_operation_suspends_automation `{W : World} o action db n r db' n' :
  OnDemandStore.interlocked o = Some action → OperationStore.CreateOperation o db n = (r, (db', n')) →
  if is_ok r then
    operations db' !! OpID o = Some (OperationStore.createdRow o) ∧
    ∀ id g, groups db !! id = Some g → ∃ g', groups db' !! id = Some g' ∧
      if (g_stack g =? ScopeID o)%string && bool_decide (g_operation g = None) &&
         (bool_decide (AffectedServices o = []) ||
          existsb (λ s, bool_decide (members db !! (ScopeID o, s) = Some id)) (AffectedServices o))
      then g_paused g' ≠ ""%string ∧ g_revision g' = (g_revision g + 1)%Z ∧ g_policy g' = g_policy g ∧
           (g_hold g' ≠ ""%string ↔ action = "stop"%string ∨ g_hold g ≠ ""%string) ∧
           ∀ a op m, is_ok (OnDemandStore.BeginTransition (OnDemandStore.groupOf id g) a op db' m).1 = false
      else g' = g
  else db' = db.
Proof.
  intros Hi H. destruct r as [u|e]; simpl; [|by eapply atomically_err].
  unfold OperationStore.CreateOperation in H. apply atomically_ok in H as (k & H).
  apply bind_ok in H as (? & db1 & n1 & H1 & H). apply insertOperation_ok in H1 as (_ & _ & ->).
  apply bind_ok in H as (? & db2 & n2 & H2 & H). apply insertContext_ok in H2 as (_ & _ & ->).
  unfold OnDemandStore.interlockOnDemand in H. rewrite Hi in H. apply call_ok in H as [[= _ <-] _]. simpl.
  split; [by rewrite lookup_insert_eq|]. intros id g Hg. rewrite map_lookup_imap, Hg. simpl.
  eexists. split; [done|]. unfold OnDemandStore.affected. simpl.
  set (b := _ && _ && (_ || _)). destruct b eqn:Hb; [|done]. simpl. split_and!; [done..| |].
  - destruct (String.eqb_spec action "stop") as [->|Hne]; split; naive_solver.
  - intros a op m. apply OnDemandLaws.refused_ok. unfold OnDemandStore.BeginTransition.
    unfold OnDemandLaws.refused. intros k'. unfold guard_not, lift, mbind, M_bind.
    destruct (op =? "")%string; [done|]. simpl. destruct (OnDemandStore.transitionOf a) as [[from to]|]; [|done].
    unfold call. destruct (fault k'); [done|]. simpl. rewrite map_lookup_imap, Hg. simpl.
    unfold OnDemandStore.affected. simpl. fold b. rewrite Hb. unfold OnDemandStore.ready, OnDemandStore.idle. simpl.
    destruct (Z.eqb_spec (g_revision g + 1) (g_revision g)) as [|_]; [lia|]. by rewrite andb_false_r.
Qed.

(** After a restart no operation is left queued or running, except those
    that recover an update whose execution is not over; the interrupted ones
    are failed with the code server_restarted, the others untouched, and every
    alert target of an interrupted operation has that failure on record. *)
Theorem restart_settles_operations `{W : World} `{!Unpredictable W} `{C : Cron} t db n u db' n' :
  reachable db n → OperationStore.FailInterrupted t db n = (Ok u, (db', n')) →
  (∀ id o', operations db' !! id = Some o' → OperationStore.unfinished db' o' = false) ∧
  (∀ id o, operations db !! id = Some o → ∃ o', operations db' !! id = Some o' ∧
     if OperationStore.unfinished db o
     then Status o' = OperationFailed ∧ CompletedAt o' = t ∧ ErrorCode o' = "server_restarted"%string
     else o' = o) ∧
  (∀ id o c k, operations db !! id = Some o → OperationStore.unfinished db o = true →
     alert_context db !! id = Some c → k ∈ CtxTargets c →
     ∃ a, Alert.withKey k (alert_tables db') = Some a ∧ (Alert.ID a, id) ∈ Alert.occurrences (alert_tables db')).
Proof.
  intros HR H. pose proof (reachable_log _ _ HR) as HL. unfold OperationStore.FailInterrupted in H.
  apply atomically_ok in H as (k & H). apply bind_ok in H as (cs & ? & ? & H1 & H).
  apply query_ok in H1 as (-> & -> & ->). apply bind_ok in H as (? & ? & ? & H1 & H).
  apply zoom_ok in H1 as (tables & H1 & ->). apply exec_ok in H as [-> ->]. simpl. split_and!.
  - intros id o'. rewrite lookup_fmap, fmap_Some. intros (o & Ho & ->). unfold OperationStore.failInterrupted.
    destruct (OperationStore.unfinished _ o) eqn:E; [done|exact E].
  - intros id o Ho. eexists. rewrite lookup_fmap, Ho. split; [done|].
    change (OperationStore.unfinished db o) with (OperationStore.unfinished (set_alert_tables db tables) o).
    unfold OperationStore.failInterrupted. by destruct (OperationStore.unfinished _ o).
  - intros id o c key Ho Hun Hc Hk.
    assert (Forall (λ c, Alert.CKind c = "failure"%string) (OperationStore.interruptedChanges db t)) as Hf.
    { apply Forall_forall. intros ch. unfold OperationStore.interruptedChanges. rewrite list_elem_of_bind.
      intros (p & Hin & _). destruct (alert_context db !! p.1); [|by apply elem_of_nil in Hin].
      apply list_elem_of_fmap in Hin as (? & -> & _). done. }
    assert (AlertLaws.Log (alert_tables db) (alert_tables db) (S (S n))) as HL'.
    { do 2 apply timeless_succ. by apply (AlertLaws.Log_now Alert.emptyAlertDB). }
    destruct (AlertLaws.applyAlertChanges_counts _ _ _ _ _ _ _ HL' Hf H1) as (Hcount & _ & _).
    rewrite Forall_forall in Hcount.
    match type of Hcount with ∀ ch, ch ∈ _ → _ => edestruct (Hcount (Alert.mkChange "failure" key (CtxStackName c) id id
        "Operation interrupted by server restart. Verify the stack before retrying." 0 t true)) as (a & Ha & Hocc) end.
    + unfold OperationStore.interruptedChanges. rewrite list_elem_of_bind. exists (id, o). split.
      * simpl. rewrite Hc. apply list_elem_of_fmap. by exists key.
      * apply list_elem_of_filter. split; [done|]. by apply elem_of_map_to_list.
    + by exists a.
Qed.

(** What the two completions leave alone, and what they do. *)
Lemma completed_elsewhere `{W : World} o c db n u db' n' :
  AutoUpdateStore.completeUpdate o c db n = (Ok u, (db', n')) →
  groups db' = groups db ∧ operations db' = operations db.
Proof.
  intros H. destruct c as [c|]; [|simpl in H; by db_inv].
  destruct (executions db !! UCRunID c) as [x|] eqn:Hx.
  2:{ unfold AutoUpdateStore.completeUpdate in H. apply bind_ok in H as (? & ? & ? & H1 & _).
      apply call_ok in H1 as [H1 _]. by rewrite Hx in H1. }
  destruct (decide (x_phase x = "terminal"%string)) as [Ht|Ht].
  - unfold AutoUpdateStore.completeUpdate in H. apply bind_ok in H as (y & ? & ? & H1 & H).
    apply call_ok in H1 as [H1 ->]. rewrite Hx in H1. destruct (String.eqb_spec (x_operation x) (OpID o)); [|done]. simplify_eq. rewrite Ht in H. simpl in H.
    by db_inv.
  - destruct (AutoUpdateLaws.completeUpdate_ok _ _ _ _ _ _ _ _ H Hx Ht) as (_ & _ & _ & _ & _ & _ & ->).
    simpl. by repeat case_match.
Qed.
Lemma completed `{W : World} o c db n u db' n' :
  AutoUpdateLaws.Inv db → AutoUpdateStore.completeUpdate o (Some c) db n = (Ok u, (db', n')) →
  ∃ run x, runs db' !! UCRunID c = Some run ∧ RunPhase run = "terminal"%string ∧
    executions db' !! UCRunID c = Some x ∧ x_phase x = "terminal"%string ∧ x_operation x = OpID o.
Proof.
  intros I H. destruct (executions db !! UCRunID c) as [x|] eqn:Hx.
  2:{ unfold AutoUpdateStore.completeUpdate in H. apply bind_ok in H as (? & ? & ? & H1 & _).
      apply call_ok in H1 as [H1 _]. by rewrite Hx in H1. }
  pose proof (AutoUpdateLaws.inv_slot _ I (UCRunID c)) as Hs. unfold AutoUpdateLaws.slotOk in Hs. rewrite Hx in Hs.
  destruct (runs db !! UCRunID c) as [run|] eqn:Hr; [|done]. destruct Hs as (_ & _ & _ & _ & Hph & _).
  destruct (decide (x_phase x = "terminal"%string)) as [Ht|Ht].
  - unfold AutoUpdateStore.completeUpdate in H. apply bind_ok in H as (y & ? & ? & H1 & H).
    apply call_ok in H1 as [H1 ->]. rewrite Hx in H1. destruct (String.eqb_spec (x_operation x) (OpID o)); [|done].
    simplify_eq. rewrite Ht in H. simpl in H. db_inv. exists run, y. split_and!; try done. destruct Hph; congruence.
  - destruct (AutoUpdateLaws.completeUpdate_ok _ _ _ _ _ _ _ _ H Hx Ht) as (Hop & _ & _ & _ & _ & _ & ->). simpl.
    rewrite lookup_alter_eq, lookup_insert_eq, Hr. simpl. eexists _, _. split_and!; done.
Qed.
Lemma released_elsewhere `{W : World} o c db n u db' n' :
  OnDemandStore.completeOnDemand o c db n = (Ok u, (db', n')) →
  operations db' = operations db ∧ runs db' = runs db ∧ executions db' = executions db.
Proof.
  intros H. destruct c as [c|]; simpl in H; [|by db_inv]. apply bind_ok in H as (from & ? & ? & H1 & H).
  apply lift_ok in H1 as (_ & -> & ->). apply call_ok in H as [H _]. repeat case_match; by simplify_eq.
Qed.
Lemma released `{W : World} o c db n u db' n' :
  OnDemandStore.completeOnDemand o (Some c) db n = (Ok u, (db', n')) →
  ∃ g g', groups db !! CompletionGroupID c = Some g ∧ g_operation g = Some (OpID o) ∧
    groups db' !! CompletionGroupID c = Some g' ∧ g_phase g' = CompletionPhase c ∧ g_operation g' = None ∧
    g_last_operation g' = OpID o ∧ g_paused g' = CompletionPauseReason c ∧ g_revision g' = g_revision g.
Proof.
  intros H. simpl in H. apply bind_ok in H as (from & ? & ? & H1 & H).
  apply lift_ok in H1 as (_ & -> & ->). apply call_ok in H as [H _].
  destruct (groups db !! CompletionGroupID c) as [g|] eqn:Hg; [|done]. case_match eqn:E; [|done]. simplify_eq.
  apply andb_prop in E as [[_ E]%andb_prop _]. apply bool_decide_eq_true in E.
  exists g. eexists. simpl. rewrite lookup_insert_eq. done.
Qed.

(** C23: a completion is one step: it either changes nothing, or the operation
    has its final status, times, output and error code, the on-demand group of
    the result has left its transition in the phase the result names and
    remembers the operation, and the run and the execution of the result's
    update are over. *)
Theorem completion_is_all_or_nothing `{W : World} `{C : Cron} o result_ db n r db' n' :
  reachable db n → OperationStore.CompleteOperation o result_ db n = (r, (db', n')) →
  if is_ok r then
    (∃ q, operations db !! OpID o = Some q ∧ ∃ q', operations db' !! OpID o = Some q' ∧
       Kind q' = Kind q ∧ Status q' = Status o ∧ CompletedAt q' = CompletedAt o ∧ Output q' = Output o ∧
       ErrorCode q' = ErrorCode o) ∧
    (∀ c, OnDemand result_ = Some c → ∃ g g',
       groups db !! CompletionGroupID c = Some g ∧ g_operation g = Some (OpID o) ∧
       groups db' !! CompletionGroupID c = Some g' ∧
       g_phase g' = CompletionPhase c ∧ g_operation g' = None ∧ g_last_operation g' = OpID o ∧
       g_paused g' = CompletionPauseReason c ∧ g_revision g' = g_revision g) ∧
    (∀ c, Update result_ = Some c → ∃ run x,
       runs db' !! UCRunID c = Some run ∧ RunPhase run = "terminal"%string ∧
       executions db' !! UCRunID c = Some x ∧ x_phase x = "terminal"%string ∧ x_operation x = OpID o)
  else db' = db.
Proof.
  intros HR H. destruct r as [alerts|e]; simpl; [|by eapply atomically_err].
  pose proof (reachable_runs _ _ HR) as I. unfold OperationStore.CompleteOperation in H.
  apply atomically_ok in H as (k & H). unfold OperationStore.completeOperation in H.
  apply bind_ok in H as (u1 & db1 & n1 & H1 & H). apply bind_ok in H as (u2 & db2 & n2 & H2 & H).
  apply bind_ok in H as (u3 & db3 & n3 & H3 & H). apply bind_ok in H as (cs & db4 & n4 & H4 & H).
  apply zoom_ok in H as (t1 & _ & ->). apply zoom_ok in H4 as (t2 & _ & ->). simpl.
  apply update1_ok in H3 as (q & Hq & _ & -> & _). simpl.
  destruct (completed_elsewhere _ _ _ _ _ _ _ H1) as (Eg1 & Eo1).
  destruct (released_elsewhere _ _ _ _ _ _ _ H2) as (Eo2 & Er2 & Ex2).
  rewrite Eo2, Eo1 in Hq. split_and!.
  - exists q. split; [done|]. eexists. rewrite lookup_insert_eq. done.
  - intros c Hc. rewrite Hc in H2. destruct (released _ _ _ _ _ _ _ H2) as (g & g' & Hg & Hrest).
    exists g, g'. by rewrite <- Eg1.
  - intros c Hc. rewrite Er2, Ex2. rewrite Hc in H1. by apply (completed _ _ _ _ _ _ _ I H1).
Qed.

(** ** Examples: the first calls of a server *)
Section examples.
#[local] Existing Instance calm.
#[local] Existing Instance AutoUpdateLaws.daily.

Definition ex_key : Alert.Key := Alert.mkKey "stk_1" "deployment" "stack".
Definition ex_stop : Operation :=
  mkOperation [] [] "op_1" "stop" "stack" "stk_1" "" OperationQueued zeroTime zeroTime 0 "" "" false "" "manual" [ex_key] "web".
Definition ex_transition : Operation :=
  mkOperation [] [] "op_2" "on-demand-sleep" "stack" "stk_1" "" OperationQueued zeroTime zeroTime 0 "" "" false "" "automatic" [] "web".
Definition ex_update : OnDemandPolicy.PolicyUpdate :=
  OnDemandPolicy.mkPolicyUpdate OnDemandLaws.ex_policy 0.

(** A stack, an on-demand group, a policy, a scheduled check and an alert. *)
Definition after {A} (m : M DB A) (s : DB * nat) : DB * nat := (m s.1 s.2).2.
Lemma after_later {A} (m : M DB A) s0 s : store_call m → star step s0 (s.1, s.2) → star step s0 ((after m s).1, (after m s).2).
Proof.
  intros Hm Hs. apply (star_trans _ _ _ _ Hs). destruct s as [db n]. unfold after. simpl.
  destruct (m db n) as [r [db' n']] eqn:E. simpl. apply (star_step _ _ (db', n') _); [|apply star_refl]. by apply (step_call m _ _ _ _ r).
Qed.
Definition ex1 : DB * nat := after (OperationStore.Create OnDemandLaws.ex_stack) (emptyDB, 0).
Definition ex2 : DB * nat :=
  after (OnDemandStore.SaveGroup "stk_1" "" ex_update OnDemandLaws.ex_evidence OnDemandPolicy.Running) ex1.
Definition ex3 : DB * nat := after (AutoUpdateStore.SavePolicy "stk_1" (mkPolicyUpdate true AutoUpdateStore.DefaultExpression 0) unixEpoch) ex2.
Definition ex4 : DB * nat :=
  after (AutoUpdateStore.Admit (mkPolicy "stk_1" true AutoUpdateStore.DefaultExpression 1 (unixEpoch + 86400 * Second)%Z "")
           (unixEpoch + 86401 * Second)%Z) ex3.
Definition ex5 : DB * nat := after (zoom (AlertStore.Apply [AlertLaws.a_failure]) : M DB (list Alert.Alert)) ex4.
Definition ex6 : DB * nat := after (OperationStore.CreateOperation ex_stop) ex5.
(** The same server, letting the group sleep instead of stopping it by hand. *)
Definition ex_group : OnDemandPolicy.Group :=
  OnDemandPolicy.mkGroup "odg_3" "stk_1" OnDemandLaws.ex_policy 1 OnDemandPolicy.Running "" "" OnDemandLaws.ex_evidence.
Definition ex7 : DB * nat := after (OperationStore.CreateOperation ex_transition) ex5.
Definition ex8 : DB * nat := after (OnDemandStore.BeginTransition ex_group OnDemandPolicy.Sleep "op_2") ex7.
Definition ex_slept : Operation :=
  mkOperation [] [] "op_2" "on-demand-sleep" "stack" "stk_1" "" OperationSucceeded 1%Z 2%Z 0 "" "done" false "" "automatic" [] "web".
Definition ex_result : Result :=
  mkResult (Some (mkOnDemandCompletion "odg_3" OnDemandPolicy.Sleeping "")) None "done" None [].

Lemma ex5_reachable : reachable ex5.1 ex5.2.
Proof.
  apply (after_later _ _ ex4 (c_Apply _)), (after_later _ _ ex3 (c_Admit _ _)), (after_later _ _ ex2 (c_SavePolicy _ _ _)),
    (after_later _ _ ex1 (c_SaveGroup _ _ _ _ _)), (after_later _ _ (emptyDB, 0) (c_Create _)). apply star_refl.
Qed.
Lemma ex6_reachable : reachable ex6.1 ex6.2.
Proof. apply (after_later _ _ ex5 (c_CreateOperation _)). apply ex5_reachable. Qed.
Lemma ex8_later : star step (ex5.1, ex5.2) (ex8.1, ex8.2).
Proof.
  apply (after_later _ _ ex7 (c_BeginTransition _ _ _)), (after_later _ _ ex5 (c_CreateOperation _)). apply star_refl.
Qed.
Lemma ex8_reachable : reachable ex8.1 ex8.2.
Proof. apply (star_trans _ _ _ _ ex5_reachable ex8_later). Qed.

#[local] Opaque ex1 ex2 ex3 ex4 ex5 ex6 ex7 ex8.

Lemma on_demand_tables_consistent_witness :
  ∃ r, groups ex8.1 !! "odg_3" = Some r ∧ g_phase r = OnDemandPolicy.Stopping ∧
    members ex8.1 !! ("stk_1", "app")%string = Some "odg_3"%string ∧ is_Some (g_operation r).
Proof.
  assert (∃ r, groups ex8.1 !! "odg_3" = Some r ∧ g_phase r = OnDemandPolicy.Stopping ∧ g_stack r = "stk_1"%string ∧
    "app"%string ∈ OnDemandPolicy.Members (g_policy r)) as (r & Hr & Hp & Hs & Hm).
  { eexists. split; [vm_compute; reflexivity|]. split_and!; [reflexivity|reflexivity|simpl; set_solver]. }
  destruct (on_demand_tables_consistent ex8.1 ex8.2 ex8_reachable) as (Hall & _).
  destruct (Hall _ _ Hr) as (Ho & _ & _ & Hmem & _). exists r. split_and!; [done|done| |].
  - rewrite <- Hs. by apply Hmem.
  - apply Ho. by right.
Defined.

Lemma runs_only_move_forward_witness :
  ∃ i r, runs ex5.1 !! i = Some r ∧ RunPhase r = "queued"%string ∧
    ∃ r', runs ex8.1 !! i = Some r' ∧ RunStackID r' = RunStackID r.
Proof.
  assert (∃ i r, runs ex5.1 !! i = Some r ∧ RunPhase r = "queued"%string) as (i & r & Hr & Hp).
  { exists "upd_19"%string. eexists. split; [vm_compute; reflexivity|reflexivity]. }
  exists i, r. split; [exact Hr|]. split; [exact Hp|].
  destruct (runs_only_move_forward ex5.1 ex5.2 ex5_reachable) as (_ & _ & _ & H).
  specialize (H ex8.1 ex8.2 ex8_later i r Hr) as (r' & Hr' & Hs & _). exists r'. split; [exact Hr'|exact Hs].
Defined.

Lemma alerts_match_their_history_witness :
  ∃ i a, Alert.alerts (alert_tables ex5.1) !! i = Some a ∧
    AlertLaws.consistent (AlertLaws.history i (Alert.events (alert_tables ex5.1))) a.
Proof.
  assert (∃ i, is_Some (Alert.alerts (alert_tables ex5.1) !! i)) as (i & a & Ha).
  { exists "alt_25"%string. vm_compute. eauto. }
  exists i, a. split; [exact Ha|].
  exact (proj1 (alerts_match_their_history ex5.1 ex5.2 i a ex5_reachable Ha)).
Defined.

Lemma manual_operation_suspends_automation_witness :
  ∃ g', groups (OperationStore.CreateOperation ex_stop ex5.1 ex5.2).2.1 !! "odg_3" = Some g' ∧
    g_paused g' ≠ ""%string ∧ g_hold g' ≠ ""%string.
Proof.
  assert (is_ok (OperationStore.CreateOperation ex_stop ex5.1 ex5.2).1 = true) as Hr by (vm_compute; reflexivity).
  destruct (OperationStore.CreateOperation ex_stop ex5.1 ex5.2) as [r [db' n']] eqn:E. cbn [fst] in Hr.
  pose proof (manual_operation_suspends_automation ex_stop "stop" ex5.1 ex5.2 r db' n' eq_refl E) as H.
  rewrite Hr in H. destruct H as [_ H]. cbn [fst snd].
  assert (∃ g, groups ex5.1 !! "odg_3" = Some g ∧ g_stack g = "stk_1"%string ∧ g_operation g = None) as (g & Hg & Hs & Ho).
  { eexists. split; [vm_compute; reflexivity|]. split; reflexivity. }
  destruct (H _ _ Hg) as (g' & Hg' & Hif). rewrite Hs, Ho in Hif. simpl in Hif. destruct Hif as (Hp & _ & _ & Hh & _).
  exists g'. split; [exact Hg'|]. split; [exact Hp|]. apply Hh. left. reflexivity.
Defined.

Lemma restart_settles_operations_witness :
  ∃ o', operations (OperationStore.FailInterrupted 9%Z ex6.1 ex6.2).2.1 !! "op_1" = Some o' ∧ Status o' = OperationFailed.
Proof.
  assert (is_ok (OperationStore.FailInterrupted 9%Z ex6.1 ex6.2).1 = true) as Hr by (vm_compute; reflexivity).
  destruct (OperationStore.FailInterrupted 9%Z ex6.1 ex6.2) as [r [db' n']] eqn:E. cbn [fst] in Hr.
  destruct r as [u|]; [|done].
  destruct (restart_settles_operations 9%Z ex6.1 ex6.2 u db' n' ex6_reachable E) as (_ & H & _).
  assert (∃ o, operations ex6.1 !! "op_1" = Some o ∧ OperationStore.unfinished ex6.1 o = true) as (o & Ho & Hu).
  { eexists. split; vm_compute; reflexivity. }
  destruct (H _ _ Ho) as (o' & Ho' & Hif). rewrite Hu in Hif. destruct Hif as (Hst & _). exists o'. split; [exact Ho'|exact Hst].
Defined.

Lemma completion_is_all_or_nothing_witness :
  ∃ g', groups (OperationStore.CompleteOperation ex_slept ex_result ex8.1 ex8.2).2.1 !! "odg_3" = Some g' ∧
    g_phase g' = OnDemandPolicy.Sleeping ∧ g_operation g' = None.
Proof.
  assert (is_ok (OperationStore.CompleteOperation ex_slept ex_result ex8.1 ex8.2).1 = true) as Hr by (vm_compute; reflexivity).
  destruct (OperationStore.CompleteOperation ex_slept ex_result ex8.1 ex8.2) as [r [db' n']] eqn:E. cbn [fst] in Hr.
  pose proof (completion_is_all_or_nothing ex_slept ex_result ex8.1 ex8.2 r db' n' ex8_reachable E) as H.
  rewrite Hr in H. destruct H as (_ & H & _).
  specialize (H (mkOnDemandCompletion "odg_3" OnDemandPolicy.Sleeping "") eq_refl).
  destruct H as (g & g' & H). exists g'. cbn [fst snd]. split; [exact (proj1 (proj2 (proj2 H)))|].
  split; [exact (proj1 (proj2 (proj2 (proj2 H))))|exact (proj1 (proj2 (proj2 (proj2 (proj2 H)))))].
Defined.
End examples.
End DatabaseLaws.
