(* ===== verification/Redaction.v ===== *)
(** * Redaction (src/internal/operation/operation.go, [strings.ReplaceAll])

    What replacing secrets by a marker leaves of them.  A secret can only come
    back where the marker is, so a secret that cannot touch the marker is gone
    for good, whatever else is replaced afterwards. *)
From S2P Require Import Prelude GoStrings.

Module Redaction.

(** [t] occurs somewhere in [s]. *)
Definition occurs (t s : string) : Prop := ∃ u v, s = u +:+ t +:+ v.

Fixpoint suffixes (s : string) : list string :=
  match s with
  | EmptyString => []
  | String _ s' => s :: suffixes s'
  end.
Definition comparable (a b : string) : bool := String.prefix a b || String.prefix b a.
(** An occurrence of [t] in [u ++ m ++ v] can overlap the marker [m]. *)
Definition touches (m t : string) : bool :=
  existsb (λ w, comparable w t) (suffixes m) || existsb (λ w, comparable w m) (suffixes t).

(** ** Strings *)
Lemma append_assoc (a b c : string) : (a +:+ b) +:+ c = a +:+ (b +:+ c).
Proof. induction a as [|x a IH]; [done|]. by change (String x ((a +:+ b) +:+ c) = String x (a +:+ b +:+ c)); rewrite IH. Qed.
Lemma append_nil (a : string) : a +:+ "" = a.
Proof. induction a as [|x a IH]; [done|]. by change (String x (a +:+ "") = String x a); rewrite IH. Qed.
Lemma append_empty (a b : string) : a +:+ b = ""%string → a = ""%string ∧ b = ""%string.
Proof. by destruct a. Qed.
Lemma prefix_spec (a b : string) : String.prefix a b = true ↔ ∃ v, b = a +:+ v.
Proof.
  revert b. induction a as [|x a IH]; intros b; simpl; [split; [by exists b|by destruct b]|].
  destruct b as [|y b]; [split; [done|by intros [v Hv]]|]. simpl. destruct (ascii_dec x y) as [->|Hne].
  - rewrite IH. split; intros [v Hv]; exists v; [by rewrite Hv|by injection Hv].
  - split; [done|]. intros [v Hv]. by injection Hv as Heq _.
Qed.
(** Two prefixes of one string. *)
Lemma prefixes_comparable (a b c d : string) : a +:+ b = c +:+ d → comparable a c = true.
Proof.
  unfold comparable. revert c. induction a as [|x a IH]; intros c Heq; [by destruct c|].
  destruct c as [|y c]; [by rewrite orb_true_r|]. injection Heq as -> Heq. specialize (IH _ Heq).
  simpl. by destruct (ascii_dec y y).
Qed.
(** Cutting one string at two places. *)
Lemma append_cut (a b c d : string) :
  a +:+ b = c +:+ d → (∃ w, w ≠ ""%string ∧ a = c +:+ w ∧ d = w +:+ b) ∨ (∃ w, c = a +:+ w ∧ b = w +:+ d).
Proof.
  revert c. induction a as [|x a IH]; intros c Heq; [right; by exists c|].
  destruct c as [|y c]; [left; by exists (String x a)|]. injection Heq as -> Heq.
  destruct (IH _ Heq) as [(w & Hw & -> & ->)|(w & -> & ->)]; [left|right]; by exists w.
Qed.
Lemma suffix_in (u w : string) : w ≠ ""%string → w ∈ suffixes (u +:+ w).
Proof.
  intros Hw. induction u as [|x u IH]; [destruct w; [done|apply list_elem_of_here]|].
  apply list_elem_of_further, IH.
Qed.

Lemma untouched m t : touches m t = false →
  (∀ u w, w ≠ ""%string → m = u +:+ w → comparable w t = false) ∧
  (∀ u w, w ≠ ""%string → t = u +:+ w → comparable w m = false).
Proof.
  intros [H1 H2]%orb_false_iff. split; intros u w Hw ->.
  - destruct (comparable w t) eqn:E; [|done]. rewrite <- H1. symmetry. apply existsb_exists.
    exists w. split; [by apply list_elem_of_In, suffix_in|done].
  - destruct (comparable w m) eqn:E; [|done]. rewrite <- H2. symmetry. apply existsb_exists.
    exists w. split; [by apply list_elem_of_In, suffix_in|done].
Qed.

(** ** Replacement *)
Inductive replaced (old new : string) : string → string → Prop :=
| replaced_nil : replaced old new "" ""
| replaced_hit s r : replaced old new s r → replaced old new (old +:+ s) (new +:+ r)
| replaced_copy c s r : String.prefix old (String c s) = false → replaced old new s r →
    replaced old new (String c s) (String c r).

Lemma replace_from_skip old new (p s : string) :
  replace_from old new (String.length p) (p +:+ s) = replace_from old new 0 s.
Proof. induction p as [|x p IH]; [done|exact IH]. Qed.
Lemma length_append (a b : string) : String.length (a +:+ b) = String.length a + String.length b.
Proof. induction a as [|x a IH]; [done|]. change (S (String.length (a +:+ b)) = S (String.length a) + String.length b). lia. Qed.

Lemma ReplaceAll_replaced old new s : old ≠ ""%string → replaced old new s (ReplaceAll s old new).
Proof.
  intros Hold. unfold ReplaceAll. remember (String.length s) as k eqn:Hk. revert s Hk.
  induction (lt_wf k) as [k _ IH]. intros [|c s] ->; [constructor|].
  cbn [replace_from]. destruct (String.prefix old (String c s)) eqn:E.
  - apply prefix_spec in E as [v E]. destruct old as [|x old]; [done|]. injection E as -> ->.
    cbn [String.length pred]. rewrite replace_from_skip. apply (replaced_hit (String x old)).
    apply (IH (String.length v)); [|done]. simpl. rewrite length_append. lia.
  - apply replaced_copy; [done|]. by apply (IH (String.length s)); [simpl; lia|].
Qed.

(** The tail of an occurrence that starts before the replacement does. *)
Lemma replaced_prefix old new p t s r v :
  touches new (p +:+ t) = false → replaced old new s r → r = t +:+ v → ∃ v', s = t +:+ v'.
Proof.
  intros Ht Hr. revert p t v Ht. induction Hr as [|s r Hr IH|c s r Hp Hr IH]; intros p t v Ht Heq.
  - symmetry in Heq. apply append_empty in Heq as [-> _]. by exists ""%string.
  - destruct t as [|x t]; [by eexists|]. apply prefixes_comparable in Heq.
    destruct (untouched _ _ Ht) as [_ Hu]. specialize (Hu p (String x t) ltac:(done) eq_refl).
    unfold comparable in *. rewrite orb_comm in Hu. congruence.
  - destruct t as [|x t]; [by eexists|]. injection Heq as -> Heq.
    destruct (IH (p +:+ String x "") t v) as [v' ->]; [by rewrite append_assoc|done|by exists v'].
Qed.

Lemma replaced_occurs old new t s r :
  t ≠ ""%string → touches new t = false → replaced old new s r → occurs t r → t ≠ old ∧ occurs t s.
Proof.
  intros Hne Ht Hr. induction Hr as [|s r Hr IH|c s r Hp Hr IH]; intros (u & v & Heq).
  - symmetry in Heq. by apply append_empty in Heq as [_ [-> _]%append_empty].
  - apply append_cut in Heq as [(w & Hw & -> & Heq)|(w & -> & Heq)].
    + symmetry in Heq. apply prefixes_comparable in Heq. destruct (untouched _ _ Ht) as [Hu _].
      rewrite (Hu u w Hw eq_refl) in Heq. done.
    + destruct IH as [? (u' & v' & ->)]; [by exists w, v|]. split; [done|]. exists (old +:+ u'), v'.
      by rewrite append_assoc.
  - destruct u as [|x u].
    + destruct (replaced_prefix old new "" t _ _ v Ht (replaced_copy _ _ _ _ _ Hp Hr) Heq) as [v' Hv].
      split; [|by exists ""%string, v']. intros ->.
      assert (String.prefix old (String c s) = true) as Hpre by (apply prefix_spec; by exists v').
      congruence.
    + injection Heq as -> Heq. destruct IH as [? (u' & v' & ->)]; [by exists u, v|].
      split; [done|]. by exists (String x u'), v'.
Qed.

(** ** The loop over the secrets of a request *)
Definition marker : string := "[REDACTED]".
Definition redact (secrets : list string) (s : string) : string :=
  foldl (λ out secret, if (secret =? "")%string then out else ReplaceAll out secret marker) s secrets.

Lemma redact_cons secret secrets s :
  redact (secret :: secrets) s =
  redact secrets (if (secret =? "")%string then s else ReplaceAll s secret marker).
Proof. done. Qed.

Lemma redact_occurs t secrets s :
  t ≠ ""%string → touches marker t = false → occurs t (redact secrets s) → t ∉ secrets ∧ occurs t s.
Proof.
  intros Hne Ht. revert s. induction secrets as [|k secrets IH]; intros s Ho; [split; [set_solver|done]|].
  rewrite redact_cons in Ho. apply IH in Ho as [Hnot Ho]. destruct (String.eqb_spec k "") as [->|Hk].
  - split; [set_solver|done].
  - destruct (replaced_occurs k marker t _ _ Hne Ht (ReplaceAll_replaced k marker s Hk) Ho). set_solver.
Qed.

Lemma occurs_cut t n s : occurs t (String.substring 0 n s) → occurs t s.
Proof.
  intros (u & v & Heq). assert (∃ w, s = String.substring 0 n s +:+ w) as [w Hw].
  { clear. revert s. induction n as [|n IH]; intros [|c s]; simpl; [by exists ""%string..|by exists (String c s)| |].
    - by exists ""%string.
    - destruct (IH s) as [w Hw]. exists w. change (String c s = String c (String.substring 0 n s +:+ w)). by rewrite <- Hw. }
  rewrite Hw, Heq. exists u, (v +:+ w). by rewrite !append_assoc.
Qed.
End Redaction.
