(* ===== verification/Operation.v ===== *)
(** * Operations (src/internal/operation/operation.go, deployment.go)

    An accepted operation is executed in the background: its running state is
    saved, the work is done, its result is redacted, cut and classified, and the
    completion is saved together with the alerts.  A deployment is the work of
    most operations.  The store is the database; the runtime and the text of an
    error are parameters. *)
From S2P Require Import Prelude GoStrings TimeText OnDemandPolicy Alerts Database OnDemandStore AutoUpdateStore.
From S2P Require Import OperationStore OnDemandLaws AutoUpdateLaws DatabaseLaws Coordinator Redaction.

Module Operations.
Import Data Database Redaction.

(** ** The service's surroundings: what it calls, and what else its callers'
    work and release closures may touch *)
Record Env {X : Type} := mkEnv {
  store : DB;
  publishedOps : list Operation;        (* PublishOperation *)
  publishedAlerts : list Alert.Alert;   (* PublishAlert *)
  released : nat;                       (* calls of the release closure *)
  rest : X;
}.
#[global] Arguments Env : clear implicits.
#[global] Arguments mkEnv {X}.
#[export] Program Instance env_store {X} : Lens (Env X) DB := {|
  view := store;
  put db e := mkEnv db (publishedOps e) (publishedAlerts e) (released e) (rest e) |}.
Next Obligation. done. Qed.
Next Obligation. by intros ? []. Qed.
Next Obligation. done. Qed.
#[export] Program Instance env_rest {X} : Lens (Env X) X := {|
  view := rest;
  put x e := mkEnv (store e) (publishedOps e) (publishedAlerts e) (released e) x |}.
Next Obligation. done. Qed.
Next Obligation. by intros ? []. Qed.
Next Obligation. done. Qed.

Record OperationRequest := mkOperationRequest {
  RAffectedServices : list string;
  Timeout : duration;
  RequestID : string;
  RKind : string;
  RScopeType : string;
  RScopeID : string;
  RRequestKey : string;
  RInitiatedBy : string;
  Secrets : list string;
  DiscardOutput : bool;
  RAlertTargets : list Alert.Key;
  RTrigger : string;
  RStackName : string;
}.

Section service.
Context {X : Type} `{W : World} (Error : error → string).
(** The fields of the service: whether there is a publisher and whether it
    publishes alerts too, and the limit on the output. *)
Context (publisher : option bool) (maxOutput : Z).

Definition publish (o : Operation) : M (Env X) unit := λ e n,
  (Ok tt, (if publisher then mkEnv (store e) (publishedOps e ++ [o]) (publishedAlerts e) (released e) (rest e) else e, n)).
Definition publishAlerts (l : list Alert.Alert) : M (Env X) unit := λ e n,
  (Ok tt, (if publisher is Some true then mkEnv (store e) (publishedOps e) (publishedAlerts e ++ l) (released e) (rest e) else e, n)).
Definition release (f : X → X) (e : Env X) : Env X :=
  mkEnv (store e) (publishedOps e) (publishedAlerts e) (S (released e)) (f (rest e)).
(** [if release != nil { defer release() }] *)
Definition releasing (f : option (X → X)) : Env X → Env X := match f with Some f => release f | None => id end.

(** ** execute *)
Definition setRunning (o : Operation) (t : time) : Operation :=
  mkOperation (AffectedServices o) (ServiceUpdates o) (OpID o) (Kind o) (ScopeType o) (ScopeID o) (RequestKey o)
    OperationRunning t (CompletedAt o) (ExitCode o) (ErrorCode o) (Output o) (OutputTruncated o) (InitiatedBy o)
    (Trigger o) (AlertTargets o) (OpStackName o).

(** Status, exit code and error code for the error of a run. *)
Definition classify (o : Operation) (e : option error) : string * Z * string :=
  match e with
  | None => (OperationSucceeded, ExitCode o, ErrorCode o)
  | Some e =>
    if Is e Context_Canceled || Is e Context_DeadlineExceeded
    then (OperationCancelled, ExitCode o, "operation_cancelled"%string)
    else (OperationFailed, 1%Z, "operation_failed"%string)
  end.
Definition outputText (result_ : Result) : string :=
  match RErr result_ with
  | Some e => if (TrimSpace (ROutput result_) =? "")%string then Error e else ROutput result_
  | None => ROutput result_
  end.
Definition failureAlert (o : Operation) (at_ : time) (k : Alert.Key) : Alert.Change :=
  Alert.mkChange "failure" k (OpStackName o) (OpID o) (OpID o) "Stack operation failed. See operation details." 0 at_ true.
Definition redactChange (secrets : list string) (c : Alert.Change) : Alert.Change :=
  Alert.mkChange (Alert.CKind c) (Alert.CKey c) (Alert.CStackName c) (Alert.OccurrenceID c) (Alert.COperationID c)
    (redact secrets (Alert.CSummary c)) (Alert.CExpectedRevision c) (Alert.ObservedAt c) (Alert.CCanResolveManually c).

(** What is made of the result of a run. *)
Definition conclude (o : Operation) (secrets : list string) (discard : bool) (result_ : Result) (at_ : time)
    : Operation * Result :=
  let output := redact secrets (outputText result_) in
  let truncated := (maxOutput <? len output)%Z in
  let output := if truncated then String.substring 0 (Z.to_nat maxOutput) output else output in
  let saved := if discard then Output o else output in
  let '(status, code, errorCode) := classify o (RErr result_) in
  let alerts := if bool_decide (is_Some (RErr result_)) && bool_decide (RAlerts result_ = [])
                then failureAlert o at_ <$> AlertTargets o else RAlerts result_ in
  (mkOperation (AffectedServices o)
     (match Update result_ with Some u => Services u | None => ServiceUpdates o end)
     (OpID o) (Kind o) (ScopeType o) (ScopeID o) (RequestKey o) status (StartedAt o) at_
     code errorCode saved (truncated || OutputTruncated o) (InitiatedBy o)
     (Trigger o) (AlertTargets o) (OpStackName o),
   mkResult (OnDemand result_) (Update result_) saved (RErr result_) (redactChange secrets <$> alerts)).

(** The work: it may do anything to the store and to the rest. *)
Definition Work : Type := DB → X → nat → Result * (DB * X * nat).
Definition callback (run : Work) : M (Env X) Result := λ e n,
  let '(r, (db, x, n')) := run (store e) (rest e) n in (Ok r, (put db (put x e), n')).

(** The operation it leaves with and the error of the store, if any. *)
Definition execute (o : Operation) (secrets : list string) (discard : bool) (run : Work)
    (releases : option (X → X)) : M (Env X) (Operation * option error) :=
  deferred (releasing releases) (
    t ← now;
    let o := setRunning o t in
    r ← attempt (zoom (OperationStore.UpdateOperation o));
    match r with
    | Err e => mret (o, Some e)
    | Ok _ =>
      _ ← publish o;
      result_ ← callback run;
      t ← now;
      let '(o, result_) := conclude o secrets discard result_ t in
      changed ← attempt (zoom (OperationStore.CompleteOperation o result_));
      match changed with
      | Err e => mret (o, Some e)
      | Ok alerts => _ ← publish o; _ ← publishAlerts alerts; mret (o, None)
      end
    end).

(** ** The jobs

    A job is a heap cell that its goroutine and the map share. *)
Record Job := mkJob { done : bool; jobResult : option (Operation * option error); cancelled : bool }.
Record Service := mkService {
  stopped : bool;
  jobs : gmap string nat;      (* the address of the job of an operation *)
  completed : list string;
  heap : list Job;
}.
Definition NewService : Service := mkService false ∅ [] [].

(** The limits of [NewOperationService] and of the context of a job. *)
Definition serviceTimeout (timeout : duration) : duration := if (timeout <=? 0)%Z then (10 * Minute)%Z else timeout.
Definition serviceOutput (max : Z) : Z := if (max <=? 0)%Z then Z.shiftl 256 10 else max.
Definition jobTimeout (default_ : duration) (r : OperationRequest) : duration :=
  let timeout := if (Timeout r <=? 0)%Z then default_ else Timeout r in
  if (20 * Minute <? timeout)%Z then (20 * Minute)%Z else timeout.

Definition newOperation (id : string) (r : OperationRequest) : Operation :=
  mkOperation (RAffectedServices r) [] id (RKind r) (RScopeType r) (RScopeID r) (RRequestKey r) OperationQueued zeroTime
    zeroTime 0 "" "" false (RInitiatedBy r) (if (RTrigger r =? "")%string then "manual" else RTrigger r)
    (RAlertTargets r) (RStackName r).
Definition addJob (id : string) (s : Service) : Service :=
  mkService (stopped s) (<[id := length (heap s)]> (jobs s)) (completed s) (heap s ++ [mkJob false None false]).

(** Up to [go func]: the locked section and the first publication. *)
Definition StartTracked (r : OperationRequest) (s : Service) : M (Env X) (Service * Operation) :=
  id ← (if (RequestID r =? "")%string then t ← rand_text; mret ("op_" ++ t)%string else mret (RequestID r));
  let o := newOperation id r in
  _ ← guard_not (stopped s) Operation_ErrShuttingDown;
  _ ← zoom (OperationStore.CreateOperation o);
  _ ← publish o;
  mret (addJob id s, o).

(** The locked section at the end of the goroutine: the caller of [Wait] gets
    the status without the output; closing a closed channel would panic. *)
Definition withoutOutput (o : Operation) : Operation :=
  mkOperation (AffectedServices o) (ServiceUpdates o) (OpID o) (Kind o) (ScopeType o) (ScopeID o) (RequestKey o) (Status o)
    (StartedAt o) (CompletedAt o) (ExitCode o) (ErrorCode o) "" (OutputTruncated o) (InitiatedBy o) (Trigger o)
    (AlertTargets o) (OpStackName o).
Definition finishJob (p : nat) (id : string) (o : Operation) (e : option error) (s : Service) : Service * outcome :=
  match heap s !! p with
  | None => (s, Panicked)
  | Some j =>
    if done j then (s, Panicked)
    else
      let heap' := <[p := mkJob true (Some (withoutOutput o, e)) (cancelled j)]> (heap s) in
      match completed s ++ [id] with
      | first :: rest =>
        if bool_decide (128 < length (completed s ++ [id]))
        then (mkService (stopped s) (delete first (jobs s)) rest heap', Done)
        else (mkService (stopped s) (jobs s) (completed s ++ [id]) heap', Done)
      | [] => (s, Panicked)
      end
  end.

(** What [Wait] may return ([None]: it blocks), by the state of the context. *)
Inductive Wait (s : Service) (id : string) (ctx : option error) : option (result Operation) → Prop :=
| wait_unavailable : jobs s !! id = None → Wait s id ctx (Some (Err (ErrText "tracked operation unavailable")))
| wait_context e p : jobs s !! id = Some p → ctx = Some e → Wait s id ctx (Some (Err e))
| wait_done p j o e : jobs s !! id = Some p → heap s !! p = Some j → done j = true → jobResult j = Some (o, e) →
    Wait s id ctx (Some (match e with None => Ok o | Some e => Err e end))
| wait_blocks p j : jobs s !! id = Some p → heap s !! p = Some j → done j = false → ctx = None → Wait s id ctx None.

(** [Shutdown]: the locked section, and what it does when its context ends. *)
Definition stop (s : Service) : Service := mkService true (jobs s) (completed s) (heap s).
Definition shutdownJobs (s : Service) : list nat := (map_to_list (jobs s)).*2.
Definition cancelJobs (ps : list nat) (s : Service) : Service :=
  mkService (stopped s) (jobs s) (completed s)
    (imap (λ p j, if bool_decide (p ∈ ps) then mkJob (done j) (jobResult j) true else j) (heap s)).
End service.
End Operations.

(** ** Deployments (deployment.go)

    The calls of the compose runtime and their errors are recorded. *)
Module Deployments.
Import Data Database.

Record ComposeRequest := mkComposeRequest {
  CStackDir : string; CProjectName : string; CEnvironment : gmap string string;
  CImageOverrides : gmap string string; CImagePlatforms : gmap string string;
}.
(** The interface the service is given; an outcome may depend on the moment. *)
Class ComposeRuntime := {
  Validate : ComposeRequest → nat → option error;
  Digest : ComposeRequest → nat → result string;
  Deploy_ : ComposeRequest → bool → nat → option error;
}.
Record DeployRequest := mkDeployRequest {
  ImageOverrides : gmap string string;
  ImagePlatforms : gmap string string;
  DStackID : string;
  DOperationID : string;
  StackDir : string;
  ProjectName : string;
  DEnvironment : gmap string string;
  DGitCommit : string;
  DDirty : bool;
  DDiffDigest : string;
  Recreate : bool;
}.

Inductive call_kind := CallValidate | CallDigest | CallDeploy (recreate : bool).
Record Env := mkEnv {
  store : DB;
  coordinator : Coordinator.Coordinator;
  calls : list (call_kind * ComposeRequest * option error);
}.
#[export] Program Instance env_store : Lens Env DB := {|
  view := store; put db e := mkEnv db (coordinator e) (calls e) |}.
Next Obligation. done. Qed.
Next Obligation. by intros []. Qed.
Next Obligation. done. Qed.

Section service.
Context `{W : World} `{R : ComposeRuntime}.

Definition invoke {A} (k : call_kind) (request : ComposeRequest) (f : nat → result A) : M Env (result A) := λ e n,
  (Ok (f n), (mkEnv (store e) (coordinator e)
     (calls e ++ [(k, request, match f n with Ok _ => None | Err x => Some x end)]), S n)).
Definition of_option (o : option error) : result unit := match o with None => Ok tt | Some e => Err e end.

Definition setError (code : string) (d : Deployment) : Deployment :=
  mkDeployment (DepID d) (DepStackID d) (DepOperationID d) (GitCommit d) (Dirty d) (DiffDigest d) (ComposeDigest d)
    (DepStatus d) (DepStartedAt d) (DepCompletedAt d) (Duration d) code.
Definition setDigest (digest : string) (d : Deployment) : Deployment :=
  mkDeployment (DepID d) (DepStackID d) (DepOperationID d) (GitCommit d) (Dirty d) (DiffDigest d) digest
    (DepStatus d) (DepStartedAt d) (DepCompletedAt d) (Duration d) (DepErrorCode d).
Definition setStatus (status : string) (d : Deployment) : Deployment :=
  mkDeployment (DepID d) (DepStackID d) (DepOperationID d) (GitCommit d) (Dirty d) (DiffDigest d) (ComposeDigest d)
    status (DepStartedAt d) (DepCompletedAt d) (Duration d) (DepErrorCode d).
Definition completeAt (t : time) (d : Deployment) : Deployment :=
  mkDeployment (DepID d) (DepStackID d) (DepOperationID d) (GitCommit d) (Dirty d) (DiffDigest d) (ComposeDigest d)
    (DepStatus d) (DepStartedAt d) t (Sub t (DepStartedAt d)) (DepErrorCode d).

Definition finish (d : Deployment) (operationErr : option error) : M Env (Deployment * option error) :=
  t ← now;
  let d := completeAt t d in
  r ← attempt (zoom (OperationStore.SaveDeployment d));
  mret (d, match r, operationErr with
           | Err e, Some e0 => Some (ErrJoin e0 e)
           | Err e, None => Some e
           | Ok _, _ => operationErr
           end).

Definition DeployLocked (r : DeployRequest) : M Env (Deployment * option error) :=
  started ← now;
  operationID ← (if (DOperationID r =? "")%string then t ← rand_text; mret ("op_" ++ t)%string else mret (DOperationID r));
  id ← rand_text;
  let d := mkDeployment ("dep_" ++ id) (DStackID r) operationID (DGitCommit r) (DDirty r) (DDiffDigest r) ""
             DeploymentFailed started zeroTime 0%Z "" in
  let request := mkComposeRequest (StackDir r) (ProjectName r) (DEnvironment r) (ImageOverrides r) (ImagePlatforms r) in
  v ← invoke CallValidate request (λ n, of_option (Validate request n));
  match v with
  | Err e => finish (setError "compose_validation_failed" d) (Some e)
  | Ok _ =>
    g ← invoke CallDigest request (Digest request);
    match g with
    | Err e => finish (setError "compose_digest_failed" d) (Some e)
    | Ok digest =>
      let d := setDigest digest d in
      p ← invoke (CallDeploy (Recreate r)) request (λ n, of_option (Deploy_ request (Recreate r) n));
      match p with
      | Err e => finish (setError "compose_deploy_failed" d) (Some e)
      | Ok _ => finish (setStatus DeploymentSucceeded d) None
      end
    end
  end.

Definition zeroDeployment : Deployment := mkDeployment "" "" "" "" false "" "" "" zeroTime zeroTime 0%Z "".
Definition setCoordinator (c : Coordinator.Coordinator) (e : Env) : Env := mkEnv (store e) c (calls e).
Definition Deploy (r : DeployRequest) : M Env (Deployment * option error) := λ e n,
  match Coordinator.Try (coordinator e) false (DStackID r) with
  | (c, Err x) => (Ok (zeroDeployment, Some x), (setCoordinator c e, n))
  | (c, Ok g) => deferred (λ e, setCoordinator (Coordinator.release (coordinator e) g) e) (DeployLocked r) (setCoordinator c e) n
  end.
End service.
End Deployments.
