(* ===== verification/OperationLaws.v ===== *)
(** * What the execution of operations guarantees

    Redaction, the report of an execution, the bookkeeping of the jobs and the
    record of a deployment. *)
From S2P Require Import Prelude GoStrings TimeText OnDemandPolicy Alerts Database OnDemandStore AutoUpdateStore.
From S2P Require Import OperationStore OnDemandLaws AutoUpdateLaws DatabaseLaws Coordinator Redaction Operation.

Module OperationLaws.
Import Data Database Redaction Operations.

(** ** Redaction *)
Lemma redacted t secrets s : t ∈ secrets → t ≠ ""%string → touches marker t = false → ¬ occurs t (redact secrets s).
Proof. intros Hin Hne Ht Ho. by destruct (redact_occurs t secrets s Hne Ht Ho). Qed.

(** C19: whatever a run prints, returns as an error or reports as alerts, a
    secret of the request that cannot overlap the text [REDACTED] occurs neither
    in the output that is saved and published nor in the summary of an alert,
    however the output is cut. *)
Theorem secrets_do_not_survive Error maxOutput o secrets discard result_ at_ t :
  Output o = ""%string → t ∈ secrets → t ≠ ""%string → touches marker t = false →
  let '(o', result') := conclude Error maxOutput o secrets discard result_ at_ in
  ¬ occurs t (Output o') ∧ ¬ occurs t (ROutput result') ∧
  Forall (λ c, ¬ occurs t (Alert.CSummary c)) (RAlerts result').
Proof.
  intros Hout Hin Hne Ht. unfold conclude. destruct (classify _ _) as [[status code] errorCode]. simpl.
  set (out := if (maxOutput <? _)%Z then _ else _).
  assert (¬ occurs t out) as Ho.
  { subst out. case_match; [intros Hc%occurs_cut; revert Hc|]; by apply redacted. }
  assert (¬ occurs t (if discard then Output o else out)) as Hsaved.
  { destruct discard; [|done]. rewrite Hout. intros (u & v & Heq). symmetry in Heq.
    by apply append_empty in Heq as [_ [-> _]%append_empty]. }
  split_and!; [done..|]. apply Forall_forall. intros c (c0 & -> & _)%list_elem_of_fmap. simpl. by apply redacted.
Qed.

(** ** execute *)
Section execute.
Context {X : Type} `{W : World} (Error : error → string) (publisher : option bool) (maxOutput : Z).

Lemma UpdateOperation_ok o db n u db' n' :
  OperationStore.UpdateOperation o db n = (Ok u, (db', n')) → is_Some (operations db' !! OpID o).
Proof. intros (q & _ & _ & -> & _)%update1_ok. simpl. rewrite lookup_insert_eq. eauto. Qed.
Lemma UpdateOperation_err o db n e db' n' :
  OperationStore.UpdateOperation o db n = (Err e, (db', n')) → db' = db.
Proof.
  unfold OperationStore.UpdateOperation, OperationStore.updateOperation, update1, call. intros H.
  destruct (fault n); [by simplify_eq|]. by destruct (operations db !! OpID o); simplify_eq.
Qed.
Lemma CompleteOperation_row o r db n alerts db' n' :
  OperationStore.CompleteOperation o r db n = (Ok alerts, (db', n')) →
  ∃ q, operations db' !! OpID o = Some q ∧ Status q = Status o ∧ Output q = Output o ∧ ErrorCode q = ErrorCode o ∧
    ExitCode q = ExitCode o ∧ StartedAt q = StartedAt o ∧ CompletedAt q = CompletedAt o.
Proof.
  intros H. unfold OperationStore.CompleteOperation in H. apply atomically_ok in H as (k & H).
  unfold OperationStore.completeOperation in H.
  apply bind_ok in H as (? & db1 & n1 & _ & H). apply bind_ok in H as (? & db2 & n2 & _ & H).
  apply bind_ok in H as (? & db3 & n3 & H3 & H). apply bind_ok in H as (cs & db4 & n4 & H4 & H).
  apply zoom_ok in H as (t1 & _ & ->). apply zoom_ok in H4 as (t2 & _ & ->).
  apply update1_ok in H3 as (q & _ & _ & -> & _). simpl. rewrite lookup_insert_eq. by eexists.
Qed.

Lemma zoomed {Y} (m : M DB Y) (e : Env X) n :
  (zoom m : M (Env X) Y) e n = ((m (store e) n).1, (mkEnv (m (store e) n).2.1 (publishedOps e) (publishedAlerts e) (released e) (rest e),
    (m (store e) n).2.2)).
Proof. unfold zoom. simpl. by destruct (m (store e) n) as [r [a k]]. Qed.

Lemma conclude_spec o secrets discard result_ at_ o2 r2 :
  conclude Error maxOutput o secrets discard result_ at_ = (o2, r2) →
  OpID o2 = OpID o ∧ CompletedAt o2 = at_ ∧
  Status o2 = match RErr result_ with
    | None => OperationSucceeded
    | Some x => if Is x Context_Canceled || Is x Context_DeadlineExceeded then OperationCancelled else OperationFailed
    end.
Proof.
  unfold conclude, classify. destruct (RErr result_) as [x|];
    [destruct (Is x Context_Canceled || Is x Context_DeadlineExceeded)|]; by intros [= <- <-].
Qed.

(** What an execution does, step by step. *)
Lemma execute_account o secrets discard (run : Work) releases (e : Env X) n :
  ∃ o' err e' n',
  execute Error publisher maxOutput o secrets discard run releases e n = (Ok (o', err), (e', n')) ∧
  released e' = released e + (if releases then 1 else 0) ∧
  let after := default id releases in
  let running := setRunning o (clock n) in
  let published l := if publisher then publishedOps e ++ l else publishedOps e in
  match OperationStore.UpdateOperation running (store e) (S n) with
  | (Err x, _) => o' = running ∧ err = Some x ∧ store e' = store e ∧ rest e' = after (rest e) ∧ publishedOps e' = publishedOps e
  | (Ok _, (db1, n1)) =>
    let '(result_, (db2, x2, n2)) := run db1 (rest e) n1 in
    let '(o2, result2) := conclude Error maxOutput running secrets discard result_ (clock n2) in
    o' = o2 ∧ rest e' = after x2 ∧
    match OperationStore.CompleteOperation o2 result2 db2 (S n2) with
    | (Err x, _) => err = Some x ∧ store e' = db2 ∧ publishedOps e' = published [running]
    | (Ok alerts, (db3, _)) =>
      err = None ∧ store e' = db3 ∧ publishedOps e' = published [running; o'] ∧
      publishedAlerts e' = publishedAlerts e ++ (if publisher is Some true then alerts else [])
    end
  end.
Proof.
  unfold execute, deferred, attempt, callback. unfold mbind, M_bind, mret, M_ret, now. cbn beta iota. rewrite zoomed.
  set (running := setRunning o (clock n)).
  assert (∀ x : Env X, released (releasing releases x) = released x + (if releases then 1 else 0)) as Hrel.
  { intros x. destruct releases; simpl; lia. }
  assert (∀ x : Env X, store (releasing releases x) = store x ∧ rest (releasing releases x) = default id releases (rest x) ∧
    publishedOps (releasing releases x) = publishedOps x ∧
    publishedAlerts (releasing releases x) = publishedAlerts x) as Hsame by by destruct releases.
  destruct (OperationStore.UpdateOperation running (store e) (S n)) as [[u|x] [db1 n1]] eqn:E1; cbn [fst snd].
  2:{ apply UpdateOperation_err in E1 as ->. do 4 eexists. split; [done|]. split; [by rewrite Hrel|].
      match goal with |- context [store (releasing _ ?x)] => destruct (Hsame x) as (-> & -> & -> & _) end. done. }
  unfold publish, publishAlerts. simpl. destruct (run db1 (rest e) n1) as [result_ [[db2 x2] n2]] eqn:Er.
  destruct (conclude Error maxOutput running secrets discard result_ (clock n2)) as [o2 result2] eqn:Ec.
  destruct (OperationStore.CompleteOperation o2 result2 db2 (S n2)) as [[alerts|x] [db3 n3]] eqn:E3.
  - destruct publisher as [[]|]; simpl; rewrite Er; simpl; rewrite Ec, zoomed; simpl; rewrite E3; simpl;
      (do 4 eexists; split; [done|]; split; [by rewrite Hrel|]); match goal with |- context [store (_ ?x)] => destruct (Hsame x) as (-> & -> & -> & ->) end;
      simpl; split_and!; rewrite ?app_nil_r, <- ?app_assoc; done.
  - pose proof (atomically_err _ _ _ _ _ _ E3) as ->.
    destruct publisher as [[]|]; simpl; rewrite Er; simpl; rewrite Ec, zoomed; simpl; rewrite E3; simpl;
      (do 4 eexists; split; [done|]; split; [by rewrite Hrel|]); match goal with |- context [store (_ ?x)] => destruct (Hsame x) as (-> & -> & -> & _) end; done.
Qed.
(** C28: an execution always returns and runs the release closure exactly once.
    If it reports no error, the work was done once and the operation carries the
    status, codes and output that follow from its result, and exactly this is
    saved and published, after the running state; otherwise the running state
    could not be saved, and the work was not begun, or the completion could not,
    and the store is as the work left it. *)
Theorem execution_reports_faithfully o secrets discard (run : Work) releases (e : Env X) n :
  ∃ o' err e' n',
  execute Error publisher maxOutput o secrets discard run releases e n = (Ok (o', err), (e', n')) ∧
  released e' = released e + (if releases then 1 else 0) ∧
  let after := default id releases in
  let running := setRunning o (clock n) in
  let published l := if publisher then publishedOps e ++ l else publishedOps e in
  match OperationStore.UpdateOperation running (store e) (S n) with
  | (Err x, _) => o' = running ∧ err = Some x ∧ store e' = store e ∧ rest e' = after (rest e) ∧ publishedOps e' = publishedOps e
  | (Ok _, (db1, n1)) =>
    let '(result_, (db2, x2, n2)) := run db1 (rest e) n1 in
    let '(o2, result2) := conclude Error maxOutput running secrets discard result_ (clock n2) in
    o' = o2 ∧ rest e' = after x2 ∧
    match OperationStore.CompleteOperation o2 result2 db2 (S n2) with
    | (Err x, _) => err = Some x ∧ store e' = db2 ∧ publishedOps e' = published [running]
    | (Ok alerts, (db3, _)) =>
      err = None ∧ store e' = db3 ∧ publishedOps e' = published [running; o'] ∧
      publishedAlerts e' = publishedAlerts e ++ (if publisher is Some true then alerts else []) ∧
      ∃ q, operations db3 !! OpID o = Some q ∧ Status q = Status o' ∧ Output q = Output o' ∧ ErrorCode q = ErrorCode o' ∧
        ExitCode q = ExitCode o' ∧ CompletedAt q = clock n2 ∧
        Status q = match RErr result_ with
                   | None => OperationSucceeded
                   | Some x => if Is x Context_Canceled || Is x Context_DeadlineExceeded then OperationCancelled else OperationFailed
                   end
    end
  end.
Proof.
  destruct (execute_account o secrets discard run releases e n) as (o' & err & e' & n' & E & Hr & H).
  exists o', err, e', n'. split; [done|]. split; [done|]. revert H. cbv zeta. set (running := setRunning o (clock n)).
  destruct (OperationStore.UpdateOperation running (store e) (S n)) as [[u|x] [db1 n1]]; [|done].
  destruct (run db1 (rest e) n1) as [result_ [[db2 x2] n2]].
  destruct (conclude Error maxOutput running secrets discard result_ (clock n2)) as [o2 result2] eqn:Ec.
  destruct (conclude_spec _ _ _ _ _ _ _ Ec) as (Hid & Hat & Hst). intros (-> & Hx & H). split; [done|]. split; [done|].
  destruct (OperationStore.CompleteOperation o2 result2 db2 (S n2)) as [[alerts|x] [db3 n3]] eqn:E3; [|done].
  destruct H as (H1 & H2 & H3 & H4). split_and!; [done..|].
  destruct (CompleteOperation_row _ _ _ _ _ _ _ E3) as (q & Hq & Hs & Ho & Hc & Hxc & _ & Hca).
  rewrite Hid in Hq. change (OpID running) with (OpID o) in Hq. exists q. split_and!; congruence.
Qed.
End execute.

(** ** The jobs *)
Section jobs.
Context {X : Type} `{W : World} (publisher : option bool).

(** The service, its surroundings and the goroutines that have not reached
    their last section, each with the address of its job. *)
Record System := mkSystem {
  service : Service; env : Env X; goroutines : list (nat * string); panicked : bool;
}.
Definition initial (e : Env X) : System := mkSystem NewService e [] false.

Inductive step : System → System → Prop :=
| step_start r s e n s' o e' n' g :
    StartTracked publisher r s e n = (Ok (s', o), (e', n')) →
    step (mkSystem s e g false) (mkSystem s' e' ((length (heap s), OpID o) :: g) false)
| step_refuse r s e n x e' n' g :
    StartTracked publisher r s e n = (Err x, (e', n')) → step (mkSystem s e g false) (mkSystem s e' g false)
| step_finish p id o x s e s' out g1 g2 :
    finishJob p id o x s = (s', out) →
    step (mkSystem s e (g1 ++ (p, id) :: g2) false)
         (mkSystem s' e (g1 ++ g2) (if decide (out = Panicked) then true else false))
| step_elsewhere s (e e' : Env X) g :     (* goroutines and other parts of the server at work on the store *)
    (∀ o, is_Some (operations (store e) !! o) → is_Some (operations (store e') !! o)) →
    step (mkSystem s e g false) (mkSystem s e' g false)
| step_shutdown s e g : step (mkSystem s e g false) (mkSystem (stop s) e g false)
| step_cancel ps s e g : step (mkSystem s e g false) (mkSystem (cancelJobs ps s) e g false).

Record Jobs (y : System) : Prop := {
  jobs_calm : panicked y = false;
  jobs_running : ∀ p id, (p, id) ∈ goroutines y →
    jobs (service y) !! id = Some p ∧ ∃ j, heap (service y) !! p = Some j ∧ done j = false;
  jobs_completed : ∀ id, id ∈ completed (service y) → ∃ p j r,
    jobs (service y) !! id = Some p ∧ heap (service y) !! p = Some j ∧ done j = true ∧ jobResult j = Some r;
  jobs_known : ∀ id p, jobs (service y) !! id = Some p → (p, id) ∈ goroutines y ∨ id ∈ completed (service y);
  jobs_stored : ∀ id, is_Some (jobs (service y) !! id) → is_Some (operations (store (env y)) !! id);
  jobs_distinct : ∀ i1 i2 p, jobs (service y) !! i1 = Some p → jobs (service y) !! i2 = Some p → i1 = i2;
  jobs_once : NoDup (goroutines y) ∧ NoDup (completed (service y));
  jobs_few : length (completed (service y)) ≤ 128;
}.

Lemma StartTracked_ok r s (e : Env X) n s' o e' n' :
  StartTracked publisher r s e n = (Ok (s', o), (e', n')) →
  stopped s = false ∧ s' = addJob (OpID o) s ∧ operations (store e) !! OpID o = None ∧
  is_Some (operations (store e') !! OpID o) ∧
  (∀ q, is_Some (operations (store e) !! q) → is_Some (operations (store e') !! q)).
Proof.
  intros H. unfold StartTracked in H. apply bind_ok in H as (id & e1 & n1 & H1 & H).
  assert (e1 = e) as -> by (case_match; run_inv; congruence).
  apply bind_ok in H as (? & ? & ? & H2 & H). apply guard_not_ok in H2 as (Hs & -> & ->).
  apply bind_ok in H as (? & e2 & n2 & H2 & H). apply zoom_ok in H2 as (db & H2 & ->).
  apply bind_ok in H as (? & e3 & n3 & H3 & H). apply ret_ok in H as (H & -> & ->). injection H as <- <-.
  assert (store e3 = db) as He3 by (unfold publish in H3; simplify_eq; by destruct publisher).
  unfold OperationStore.CreateOperation in H2. apply atomically_ok in H2 as (k & H2).
  apply bind_ok in H2 as (? & db1 & m1 & G1 & H2). apply insertOperation_ok in G1 as (Ha & _ & ->).
  apply bind_ok in H2 as (? & db2 & m2 & G2 & H2). apply insertContext_ok in G2 as (_ & _ & ->).
  assert (operations db = <[id := operationRow (OperationStore.createdRow (newOperation id r))]> (operations (store e))) as Hops.
  { unfold OnDemandStore.interlockOnDemand in H2. destruct (OnDemandStore.interlocked _); [apply call_ok in H2 as [[= _ <-] _]|apply ret_ok in H2 as (_ & -> & _)]; done. }
  rewrite He3, Hops. split_and!; [done|done| |rewrite lookup_insert_eq; eauto|].
  - unfold operationAllowed in Ha. apply andb_prop in Ha as [[Ha _]%andb_prop _]. by apply bool_decide_eq_true in Ha.
  - intros q Hq. apply lookup_insert_is_Some'. by right.
Qed.
Lemma StartTracked_err r s (e : Env X) n x e' n' :
  StartTracked publisher r s e n = (Err x, (e', n')) → store e' = store e.
Proof.
  unfold StartTracked, mbind, M_bind. intros H.
  assert (∃ id k, (if (RequestID r =? "")%string then t ← rand_text; mret ("op_" ++ t)%string else mret (RequestID r) : M (Env X) string) e n = (Ok id, (e, k)))
    as (id & k & E) by (destruct (RequestID r =? "")%string; do 2 eexists; reflexivity).
  unfold mbind, M_bind in E. rewrite E in H. unfold guard_not, lift in H. destruct (stopped s); simpl in H; [by simplify_eq|].
  rewrite zoomed in H. destruct (OperationStore.CreateOperation (newOperation id r) (store e) k) as [[?|?] [db m]] eqn:Ec; simpl in H.
  - unfold publish in H. by destruct publisher.
  - apply atomically_err in Ec as ->. by simplify_eq.
Qed.

Lemma Jobs_initial e : Jobs (initial e).
Proof.
  constructor; simpl; [done|by intros * ?%elem_of_nil..| | | | |lia].
  - by intros * ?%lookup_empty_Some.
  - by intros id [p ?%lookup_empty_Some].
  - by intros * ?%lookup_empty_Some.
  - by split; constructor.
Qed.

Lemma Jobs_start s (e : Env X) g (e' : Env X) id :
  Jobs (mkSystem s e g false) → operations (store e) !! id = None →
  is_Some (operations (store e') !! id) →
  (∀ q, is_Some (operations (store e) !! q) → is_Some (operations (store e') !! q)) →
  Jobs (mkSystem (addJob id s) e' ((length (heap s), id) :: g) false).
Proof.
  intros [_ Hrun Hcom Hknown Hst Hdist [Hg Hc] Hfew] Hnone Hnew Hmono. simpl in *.
  assert (jobs s !! id = None) as Hfree.
  { destruct (jobs s !! id) eqn:E; [|done]. destruct (Hst id) as [? ?]; [eauto|]. congruence. }
  assert (∀ i p, jobs s !! i = Some p → p < length (heap s)) as Hlt.
  { intros i p Hp. destruct (Hknown _ _ Hp) as [Hin|Hin].
    - destruct (Hrun _ _ Hin) as (_ & j & Hj & _). by apply lookup_lt_Some in Hj.
    - destruct (Hcom _ Hin) as (p' & j & r & Hp' & Hj & _). simplify_eq. by apply lookup_lt_Some in Hj. }
  assert (∀ p j, heap s !! p = Some j → (heap s ++ [mkJob false None false]) !! p = Some j) as Hheap.
  { intros p j Hj. by apply lookup_app_l_Some. }
  constructor; simpl; try done.
  - intros p i Hin. apply elem_of_cons in Hin as [[= -> ->]|Hin].
    + rewrite lookup_insert_eq. split; [done|]. eexists. rewrite lookup_app_r, Nat.sub_diag by lia. done.
    + destruct (Hrun _ _ Hin) as (Hp & j & Hj & Hd). rewrite lookup_insert_ne by congruence. eauto.
  - intros i Hin. destruct (Hcom _ Hin) as (p & j & r & Hp & Hj & Hd & Hr). exists p, j, r.
    rewrite lookup_insert_ne by congruence. auto.
  - intros i p. rewrite lookup_insert_Some. intros [[<- <-]|[_ Hp]]; [left; apply list_elem_of_here|].
    destruct (Hknown _ _ Hp); [left; by apply list_elem_of_further|by right].
  - intros i [p Hp]. apply lookup_insert_Some in Hp as [[<- _]|[_ Hp]]; [done|]. apply Hmono, Hst. eauto.
  - intros i1 i2 p. rewrite !lookup_insert_Some. intros [[<- <-]|[_ H1]] [[<- Hl]|[_ H2]]; try done.
    + apply Hlt in H2. lia.
    + apply Hlt in H1. lia.
    + eauto.
  - split; [|done]. constructor; [|done]. intros Hin. destruct (Hrun _ _ Hin). congruence.
Qed.

(** Finishing never panics: the job is there and its channel is open. *)
Lemma Jobs_finish s e g1 p id g2 o x s' out :
  Jobs (mkSystem s e (g1 ++ (p, id) :: g2) false) → finishJob p id o x s = (s', out) →
  out = Done ∧ Jobs (mkSystem s' e (g1 ++ g2) false).
Proof.
  intros [_ Hrun Hcom Hknown Hst Hdist [Hg Hc] Hfew] H. simpl in *.
  destruct (Hrun p id) as (Hp & j & Hj & Hd); [set_solver|]. unfold finishJob in H. rewrite Hj, Hd in H.
  assert ((p, id) ∉ g1 ++ g2) as Hgone.
  { apply NoDup_app in Hg as (_ & Hg1 & [Hg2 _]%NoDup_cons). rewrite elem_of_app. intros [Hin|Hin]; [|done].
    apply (Hg1 _ Hin). apply list_elem_of_here. }
  assert (id ∉ completed s) as Hnew.
  { intros Hin. destruct (Hcom _ Hin) as (p' & j' & r & Hp' & Hj' & Hd' & _). congruence. }
  assert (NoDup (completed s ++ [id])) as Hc'.
  { apply NoDup_app. split_and!; [done| |apply NoDup_singleton]. intros i Hi ->%list_elem_of_singleton. done. }
  set (heap' := <[p := mkJob true (Some (withoutOutput o, x)) (cancelled j)]> (heap s)) in *.
  assert (∀ q jq, q ≠ p → heap s !! q = Some jq → heap' !! q = Some jq) as Hother.
  { intros q jq Hne Hq. subst heap'. by rewrite list_lookup_insert_ne. }
  assert (heap' !! p = Some (mkJob true (Some (withoutOutput o, x)) (cancelled j))) as Hmine.
  { apply list_lookup_insert_eq. by apply lookup_lt_Some in Hj. }
  assert (∀ q i, (q, i) ∈ g1 ++ g2 → q ≠ p ∧ jobs s !! i = Some q ∧ ∃ jq, heap' !! q = Some jq ∧ done jq = false) as Hrun'.
  { intros q i Hin. destruct (Hrun q i) as (Hq & jq & Hjq & Hdq); [set_solver|].
    assert (q ≠ p) as Hne. { intros ->. by rewrite (Hdist i id p Hq Hp) in Hin. }
    split_and!; [done|done|]. exists jq. auto. }
  assert (∀ i, i ∈ completed s ++ [id] → ∃ q jq r, jobs s !! i = Some q ∧ heap' !! q = Some jq ∧ done jq = true ∧ jobResult jq = Some r) as Hcom'.
  { intros i Hin. apply elem_of_app in Hin as [Hin| ->%list_elem_of_singleton]; [|by eexists _, _, _].
    destruct (Hcom _ Hin) as (q & jq & r & Hq & Hjq & Hdq & Hr). exists q, jq, r. split_and!; try done.
    apply Hother; [|done]. intros ->. by rewrite (Hdist i id p Hq Hp) in Hin. }
  assert (∀ i q, jobs s !! i = Some q → (q, i) ∈ g1 ++ g2 ∨ i ∈ completed s ++ [id]) as Hknown'.
  { intros i q Hq. destruct (Hknown _ _ Hq) as [Hin|Hin]; [|set_solver].
    apply elem_of_app in Hin as [Hin|Hin]; [set_solver|]. apply elem_of_cons in Hin as [[= -> ->]|Hin]; set_solver. }
  assert (NoDup (g1 ++ g2)) as Hg'.
  { apply NoDup_app in Hg as (Hg1 & Hg12 & [_ Hg2]%NoDup_cons). apply NoDup_app. split_and!; [done| |done].
    intros y Hy Hy2. apply (Hg12 _ Hy). by apply list_elem_of_further. }
  destruct (completed s ++ [id]) as [|first rest] eqn:El; [by destruct (completed s)|].
  assert (length (first :: rest) ≤ 129) as Hlen by (rewrite <- El, length_app; simpl; lia). simpl in Hlen.
  apply NoDup_cons in Hc' as [Hfirst Hrest].
  case_bool_decide as Hbig; injection H as <- <-; (split; [done|]); constructor; simpl; try done.
  - intros q i Hin. destruct (Hrun' _ _ Hin) as (_ & Hq & jq & Hjq & Hdq). split; [|by exists jq].
    rewrite lookup_delete_ne; [done|]. intros ->. destruct (Hcom' i) as (q' & jq' & r & Hq' & Hjq' & Hdq' & _); [set_solver|].
    congruence.
  - intros i Hin. destruct (Hcom' i) as (q & jq & r & Hq & ?); [set_solver|]. exists q, jq, r.
    rewrite lookup_delete_ne; [done|]. by intros ->.
  - intros i q [Hne Hq]%lookup_delete_Some. destruct (Hknown' _ _ Hq) as [|Hin]; [by left|].
    apply elem_of_cons in Hin as [->|]; [done|by right].
  - intros i [q [_ Hq]%lookup_delete_Some]. eauto.
  - intros i1 i2 q [_ H1]%lookup_delete_Some [_ H2]%lookup_delete_Some. eauto.
  - lia.
  - intros q i Hin. destruct (Hrun' _ _ Hin) as (_ & ? & ?). done.
  - split; [done|]. by constructor.
  - simpl in Hbig. lia.
Qed.

Lemma Jobs_elsewhere s s' (e e' : Env X) g :
  Jobs (mkSystem s e g false) → jobs s' = jobs s → completed s' = completed s →
  (∀ p j, heap s !! p = Some j → ∃ j', heap s' !! p = Some j' ∧ done j' = done j ∧ jobResult j' = jobResult j) →
  (∀ q, is_Some (operations (store e) !! q) → is_Some (operations (store e') !! q)) →
  Jobs (mkSystem s' e' g false).
Proof.
  intros [_ Hrun Hcom Hknown Hst Hdist Honce Hfew] Hj Hc Hh Ho. simpl in *. constructor; simpl; rewrite ?Hj, ?Hc; try done.
  - intros p i Hin. destruct (Hrun _ _ Hin) as (Hp & j & Hjj & Hd). destruct (Hh _ _ Hjj) as (j' & ? & ? & _).
    split; [done|]. exists j'. split; [done|congruence].
  - intros i Hin. destruct (Hcom _ Hin) as (p & j & r & Hp & Hjj & Hd & Hr). destruct (Hh _ _ Hjj) as (j' & ? & ? & ?).
    exists p, j', r. split_and!; congruence.
  - auto.
Qed.

Lemma Jobs_step y y' : Jobs y → step y y' → Jobs y'.
Proof.
  intros I H. destruct H as [r s e n s' o e' n' g H|r s e n x e' n' g H|p id o x s e s' out g1 g2 H|s e e' g H|s e g|ps s e g].
  - destruct (StartTracked_ok _ _ _ _ _ _ _ _ H) as (_ & -> & Hnone & Hnew & Hmono).
    by apply (Jobs_start s e).
  - apply StartTracked_err in H. apply (Jobs_elsewhere s s e); [done..|eauto|]. intros q. by rewrite H.
  - destruct (Jobs_finish _ _ _ _ _ _ _ _ _ _ I H) as [-> I']. by rewrite decide_False by done.
  - apply (Jobs_elsewhere s s e); [done..|eauto|done].
  - apply (Jobs_elsewhere s (stop s) e); [done..|eauto|done].
  - apply (Jobs_elsewhere s (cancelJobs ps s) e); [done..| |done]. intros p j Hj. simpl. rewrite list_lookup_imap, Hj. simpl.
    eexists. split; [done|]. by case_bool_decide.
Qed.

(** Whatever operations are started and in whatever order they finish, no
    channel is closed twice; every accepted operation is executed by one
    goroutine and can be waited for until it is done, and then its result is
    kept until 128 later ones are done; after a shutdown nothing is accepted
    any more, and when the jobs it waits for are done no work is left. *)
Theorem jobs_are_tracked e y :
  star step (initial e) y →
  panicked y = false ∧ length (completed (service y)) ≤ 128 ∧ NoDup (goroutines y) ∧
  (∀ p id, (p, id) ∈ goroutines y → ∀ r, Wait (service y) id None r → r = None) ∧
  (∀ id, id ∈ completed (service y) → ∃ o x, Wait (service y) id None (Some (match x with None => Ok o | Some x => Err x end))) ∧
  (∀ s, stopped s = true → ∀ r (e1 : Env X) n, is_ok (StartTracked publisher r s e1 n).1 = false) ∧
  (Forall (λ p, ∃ j, heap (service y) !! p = Some j ∧ done j = true) (shutdownJobs (service y)) → goroutines y = []).
Proof.
  intros H. pose proof (star_invariant step Jobs Jobs_step _ _ H (Jobs_initial e)) as [Hcalm Hrun Hcom _ _ _ [Hg _] Hfew].
  split_and!; try done.
  - intros p id Hin r Hw. destruct (Hrun _ _ Hin) as (Hp & j & Hj & Hd). inversion Hw; subst; try congruence.
  - intros id Hin. destruct (Hcom _ Hin) as (p & j & [o x] & Hp & Hj & Hd & Hr). exists o, x. by eapply wait_done.
  - intros s Hs r e1 n. destruct (StartTracked publisher r s e1 n) as [[[s' o]|x] [e' n']] eqn:E; [|done].
    apply StartTracked_ok in E as (Hst & _). congruence.
  - intros Hall. destruct (goroutines y) as [|[p id] g] eqn:Eg; [done|]. destruct (Hrun p id) as (Hp & j & Hj & Hd); [set_solver|].
    rewrite Forall_forall in Hall. destruct (Hall p) as (j' & Hj' & Hd'); [|congruence].
    unfold shutdownJobs. apply list_elem_of_fmap. exists (id, p). split; [done|]. by apply elem_of_map_to_list.
Qed.
End jobs.

(** *** Examples *)
Definition ex_request : OperationRequest :=
  mkOperationRequest [] 0%Z "op_1" "deploy" "stack" "stk_1" "" "" ["hunter2"] false [] "" "web".
Definition ex_env : Env unit := mkEnv emptyDB [] [] 0 tt.
Definition ex_failed : Result :=
  mkResult None None "login with hunter2 failed" (Some (ErrText "exit status 1")) [].

Lemma secrets_do_not_survive_witness :
  let '(o', _) := conclude (λ _, ""%string) 256 (newOperation "op_1" ex_request) ["hunter2"]%string false ex_failed 7%Z in
  Output o' = "login with [REDACTED] failed"%string ∧ ¬ occurs "hunter2" (Output o').
Proof.
  pose proof (secrets_do_not_survive (λ _, ""%string) 256 (newOperation "op_1" ex_request) ["hunter2"]%string false ex_failed 7%Z
    "hunter2" eq_refl ltac:(set_solver) ltac:(done) ltac:(vm_compute; reflexivity)) as H.
  split; [vm_compute; reflexivity|exact (proj1 H)].
Defined.

Definition ex_run := StartTracked (W := calm) None ex_request NewService ex_env 0.
Definition ex_service : Service := match ex_run.1 with Ok (s, _) => s | Err _ => NewService end.
Definition ex_system : System :=
  mkSystem (finishJob 0 "op_1" (newOperation "op_1" ex_request) None ex_service).1 ex_run.2.1 [] false.

Lemma jobs_are_tracked_witness :
  completed (service ex_system) = ["op_1"%string] ∧
  ∃ o x, Wait (service ex_system) "op_1" None (Some (match x with None => Ok o | Some x => Err x end)).
Proof.
  split; [vm_compute; reflexivity|].
  assert (star (step (W := calm) None) (initial ex_env) ex_system) as H.
  { eapply star_step.
    - apply (step_start (W := calm) None ex_request NewService ex_env 0 ex_service (newOperation "op_1" ex_request) ex_run.2.1 ex_run.2.2).
      vm_compute. reflexivity.
    - eapply star_step; [|apply star_refl].
      apply (step_finish (W := calm) None 0 "op_1" (newOperation "op_1" ex_request) None ex_service ex_run.2.1 _ Done [] []).
      vm_compute. reflexivity. }
  destruct (jobs_are_tracked (W := calm) None ex_env ex_system H) as (_ & _ & _ & _ & Hdone & _).
  apply Hdone. vm_compute. left.
Defined.
End OperationLaws.

(** ** Deployments *)
Module DeploymentLaws.
Import Data Database Deployments.

Definition code (k : call_kind) : string :=
  match k with
  | CallValidate => "compose_validation_failed"
  | CallDigest => "compose_digest_failed"
  | CallDeploy _ => "compose_deploy_failed"
  end.
Definition sequences (recreate : bool) : list (list call_kind * call_kind) :=
  [([], CallValidate); ([CallValidate], CallDigest); ([CallValidate; CallDigest], CallDeploy recreate)].
Definition requestOf (r : DeployRequest) : ComposeRequest :=
  mkComposeRequest (StackDir r) (ProjectName r) (DEnvironment r) (ImageOverrides r) (ImagePlatforms r).

Lemma Is_refl e : Is e e = true.
Proof.
  assert (bool_decide (e = e) = true) as H by (by apply bool_decide_eq_true_2).
  destruct e; cbn [Is]; by rewrite H.
Qed.

Section laws.
Context `{W : World} `{R : ComposeRuntime}.

(** What [finish] does with a deployment and the error of the runtime. *)
Definition saved (d : Deployment) (x err : option error) (db db' : DB) : Prop :=
  (err = x ∧ deployments db !! DepID d = None ∧
   db' = set_deployments db (<[DepID d := deploymentRow d]> (deployments db))) ∨
  (db' = db ∧ ∃ y, err = Some y ∧ match x with Some x0 => Is y x0 = true | None => True end).

Lemma finish_spec d x e n :
  ∃ err e' n', finish d x e n = (Ok (completeAt (clock n) d, err), (e', n')) ∧
    calls e' = calls e ∧ coordinator e' = coordinator e ∧ saved (completeAt (clock n) d) x err (store e) (store e').
Proof.
  unfold finish, attempt, mbind, M_bind, now, zoom. simpl.
  destruct (OperationStore.SaveDeployment (completeAt (clock n) d) (store e) (S n)) as [[u|y] [db k]] eqn:E; simpl.
  - do 3 eexists. split; [done|]. split_and!; [done..|]. left. unfold OperationStore.SaveDeployment in E.
    apply atomically_ok in E as (m & E). apply insertDeployment_ok in E as (Ha & _ & ->). split; [done|]. split; [|done].
    unfold deploymentAllowed in Ha. do 3 apply andb_prop in Ha as [Ha _]. by apply bool_decide_eq_true in Ha.
  - apply atomically_err in E as ->. do 3 eexists. split; [done|]. split_and!; [done..|]. right. split; [done|].
    destruct x as [x|]; eexists; (split; [done|]); [|done]. simpl. by rewrite Is_refl, orb_true_r.
Qed.

Definition recorded (r : DeployRequest) (e e' : Env) (d : Deployment) (err : option error) : Prop :=
  ∃ cs k x,
    calls e' = calls e ++ cs ++ [(k, requestOf r, x)] ∧ (cs.*1.*1, k) ∈ sequences (Recreate r) ∧
    Forall (λ c, c.1.2 = requestOf r ∧ c.2 = None) cs ∧
    match x with
    | None => k = CallDeploy (Recreate r) ∧ DepStatus d = DeploymentSucceeded ∧ DepErrorCode d = ""%string
    | Some _ => DepStatus d = DeploymentFailed ∧ DepErrorCode d = code k
    end ∧
    DepStackID d = DStackID r ∧ (DOperationID r ≠ ""%string → DepOperationID d = DOperationID r) ∧
    Duration d = Sub (DepCompletedAt d) (DepStartedAt d) ∧
    saved d x err (store e) (store e').

Ltac finish_with cs k x :=
  match goal with |- context [finish ?d ?y ?e ?n] =>
    let E := fresh in let Hc := fresh in let Hl := fresh in let Hs := fresh in
    destruct (finish_spec d y e n) as (? & ? & ? & E & Hc & Hl & Hs); rewrite E; clear E;
    do 4 eexists; (split; [reflexivity|]); (split; [|exact Hl]); exists cs, k, x;
    split_and!; try done; first [by repeat constructor|by rewrite Hc; simpl; rewrite <- ?app_assoc|
                                 by unfold sequences; simpl; set_solver]
  end.
Lemma DeployLocked_recorded r e n :
  ∃ d err e' n', DeployLocked r e n = (Ok (d, err), (e', n')) ∧ recorded r e e' d err ∧ coordinator e' = coordinator e.
Proof.
  unfold DeployLocked, mbind, M_bind. cbn beta iota delta [now].
  assert (∃ id k, (if (DOperationID r =? "")%string then t ← rand_text; mret ("op_" ++ t)%string else mret (DOperationID r) : M Env string)
    e (S n) = (Ok id, (e, k)) ∧ (DOperationID r ≠ ""%string → id = DOperationID r)) as (id & k & E & Hid).
  { destruct (String.eqb_spec (DOperationID r) ""); do 2 eexists; (split; [reflexivity|done]). }
  unfold mbind, M_bind in E. rewrite E. clear E. cbn beta iota delta [rand_text]. fold (requestOf r).
  unfold invoke at 1. cbn [fst snd].
  destruct (Validate (requestOf r) (S k)) as [x|] eqn:E1; cbn [of_option].
  { finish_with (@nil (call_kind * ComposeRequest * option error)) CallValidate (Some x). }
  unfold invoke at 1. cbn [fst snd]. destruct (Digest (requestOf r) (S (S k))) as [digest|x] eqn:E2.
  2:{ finish_with [(CallValidate, requestOf r, @None error)] CallDigest (Some x). }
  unfold invoke at 1. cbn [fst snd]. destruct (Deploy_ (requestOf r) (Recreate r) (S (S (S k)))) as [x|] eqn:E3; cbn [of_option].
  - finish_with [(CallValidate, requestOf r, @None error); (CallDigest, requestOf r, @None error)] (CallDeploy (Recreate r)) (Some x).
  - finish_with [(CallValidate, requestOf r, @None error); (CallDigest, requestOf r, @None error)] (CallDeploy (Recreate r)) (@None error).
Qed.

(** A deployment validates, computes the digest and deploys, in this order
    and no further than the first failure; it succeeded exactly when all three
    did, and the error code names the one that failed.  It is stored exactly as
    it is returned, with the runtime's error, or, if it cannot be stored, the
    caller learns of both.  [Deploy] asks the coordinator first, calls nothing
    when it refuses, and leaves the coordinator as it was. *)
Theorem deployment_is_recorded r e n :
  (∃ d err e' n', DeployLocked r e n = (Ok (d, err), (e', n')) ∧ recorded r e e' d err) ∧
  (DStackID r ≠ ""%string → coordinator (Deploy r e n).2.1 = coordinator e) ∧
  (is_ok (Coordinator.Try (coordinator e) false (DStackID r)).2 = false →
   calls (Deploy r e n).2.1 = calls e ∧ store (Deploy r e n).2.1 = store e ∧
   ∃ x, (Deploy r e n).1 = Ok (zeroDeployment, Some x)).
Proof.
  split; [|split].
  - destruct (DeployLocked_recorded r e n) as (d & err & e' & n' & E & Hrec & _). by exists d, err, e', n'.
  - intros Hne. unfold Deploy. destruct (Coordinator.Try (coordinator e) false (DStackID r)) as [c [g|x]] eqn:Et; simpl.
    + unfold deferred. destruct (DeployLocked_recorded r (setCoordinator c e) n) as (d & err & e' & n' & -> & _ & Hc).
      simpl. rewrite Hc. simpl. unfold Coordinator.Try in Et. destruct (coordinator e) as [repo ss] eqn:Ee. simpl in Et.
      destruct repo; [done|]. rewrite (proj2 (String.eqb_neq _ _) Hne) in Et. simpl in Et. case_bool_decide as Hin; [done|].
      injection Et as <- <-. unfold Coordinator.release. simpl. f_equal. set_solver.
    + unfold Coordinator.Try in Et. destruct (coordinator e) as [repo ss]. simpl in Et.
      destruct repo; [by simplify_eq|]. destruct (negb _); [|done]. case_bool_decide; by simplify_eq.
  - unfold Deploy. destruct (Coordinator.Try (coordinator e) false (DStackID r)) as [c [g|x]]; [done|].
    intros _. split_and!; [done..|by exists x].
Qed.
End laws.
End DeploymentLaws.
