(* ===== verification/Tracked.v ===== *)
(** * Work that its caller waits for (src/internal/operation/operation.go,
    deployment.go as the control plane uses them)

    The control plane takes the lock of a stack, starts an operation that gives
    it back, and waits for the operation's end.  This is that course of events
    for any surroundings that contain the lock and the operation service, and
    an account of what it does. *)
From S2P Require Import Prelude GoStrings Alerts Database OnDemandStore OperationStore Coordinator Locking Operation DatabaseLaws OperationLaws.

Module Tracked.
Import Data Database.
#[export] Existing Instances Operations.env_store Operations.env_rest.

(** Two parts of a state that do not overlap. *)
Class Apart (S : Type) {A B : Type} (LA : Lens S A) (LB : Lens S B) : Prop :=
  apart (a : A) (s : S) : view (Lens := LB) (put (Lens := LA) a s) = view (Lens := LB) s.

#[export] Program Instance env_coordinator {X} `{LX : !Lens X Coordinator.Coordinator} : Lens (Operations.Env X) Coordinator.Coordinator := {|
  view e := view (Operations.rest e);
  put c e := Operations.mkEnv (Operations.store e) (Operations.publishedOps e) (Operations.publishedAlerts e) (Operations.released e)
    (put c (Operations.rest e)) |}.
Next Obligation. intros. apply view_put. Qed.
Next Obligation. intros X LX []. cbn. by rewrite put_view. Qed.
Next Obligation. intros. cbn. by rewrite put_put. Qed.

Section tracked.
Context {X : Type} `{W : World} {LC : Lens X Coordinator.Coordinator} {LS : Lens X Operations.Service}.
(** The operation service's fields. *)
Context (Error : error → string) (publisher : option bool) (maxOutput : Z).
Notation Env := (Operations.Env X).
Notation IO := (M Env).
Definition with_service (s : Operations.Service) (e : Env) : Env :=
  Operations.mkEnv (Operations.store e) (Operations.publishedOps e) (Operations.publishedAlerts e) (Operations.released e)
    (put s (Operations.rest e)).

(** ** The lock: until the operation is accepted, its caller gives it back *)
Definition giveBack (gr : Coordinator.Grant) (x : X) : X := put (Coordinator.release (view x) gr) x.
Definition admitted (repo : bool) (id : string) : IO Coordinator.Grant := λ e n,
  match Coordinator.Try (view e) repo id with
  | (c, Err x) => (Err x, (put c e, n))
  | (c, Ok gr) => (Ok gr, (put c e, n))
  end.
Definition releases (gr : Coordinator.Grant) : IO unit := zoom ((λ x n, (Ok tt, (giveBack gr x, n))) : M X unit).
Definition held {A} (gr : Coordinator.Grant) (m : IO A) : IO A := catch m (λ x, _ ← releases gr; fail x).

(** ** The operation *)
Definition startTracked (request : Operations.OperationRequest) : IO Operation := λ e n,
  match Operations.StartTracked publisher request (view (Operations.rest e)) e n with
  | (Ok (s, o), (e', n')) => (Ok o, (with_service s e', n'))
  | (Err x, (e', n')) => (Err x, (e', n'))
  end.
(** The end of the operation's goroutine, and what [Wait] then returns. *)
Definition finished (o : Operation) (err : option error) : IO unit := λ e n,
  let s : Operations.Service := view (Operations.rest e) in
  match Operations.jobs s !! OpID o with
  | Some p => (Ok tt, (with_service (Operations.finishJob p (OpID o) o err s).1 e, n))
  | None => (Ok tt, (e, n))
  end.
Definition waited (id : string) (s : Operations.Service) : option (result Operation) :=
  match Operations.jobs s !! id with
  | None => Some (Err (ErrText "tracked operation unavailable"))
  | Some p =>
    j ← Operations.heap s !! p;
    '(o, e) ← Operations.jobResult j;
    if Operations.done j then Some (match e with None => Ok o | Some x => Err x end) else None
  end.
Definition wait (id : string) : IO (option (result Operation)) := λ e n, (Ok (waited id (view (Operations.rest e))), (e, n)).
(** The operation's work, as a computation on the database and the rest. *)
#[export] Program Instance pair_store : Lens (DB * X) DB := {| view := fst; put db s := (db, s.2) |}.
Next Obligation. done. Qed.
Next Obligation. by intros []. Qed.
Next Obligation. done. Qed.
#[export] Program Instance pair_rest : Lens (DB * X) X := {| view := snd; put r s := (s.1, r) |}.
Next Obligation. done. Qed.
Next Obligation. by intros []. Qed.
Next Obligation. done. Qed.
#[export] Instance pair_apart : Apart (DB * X) pair_store pair_rest.
Proof. done. Qed.
#[export] Instance pair_apart' : Apart (DB * X) pair_rest pair_store.
Proof. done. Qed.
#[export] Instance env_apart : Apart Env Operations.env_store Operations.env_rest.
Proof. done. Qed.
#[export] Instance env_apart' : Apart Env Operations.env_rest Operations.env_store.
Proof. done. Qed.
Definition asWork (m : M (DB * X) Result) : Operations.Work := λ db r n,
  match m (db, r) n with
  | (Ok x, (s, n')) => (x, (s.1, s.2, n'))
  | (Err x, (s, n')) => (mkResult None None "" (Some x) [], (s.1, s.2, n'))
  end.
(** Its execution to the end, and the answer of [Wait]; [None] would be a caller
    that waits on, see [carried_out]. *)
Definition carryOut (request : Operations.OperationRequest) (work : Operations.Work) (o : Operation) (gr : Coordinator.Grant)
    : IO (option (result Operation)) :=
  '(o', err) ← Operations.execute Error publisher maxOutput o (Operations.Secrets request) (Operations.DiscardOutput request)
                 work (Some (giveBack gr));
  _ ← finished o' err;
  wait (OpID o).
End tracked.

(** ** What happens *)
Section laws.
Context {X : Type} `{W : World} {LC : Lens X Coordinator.Coordinator} {LS : Lens X Operations.Service}.
Context (Error : error → string) (publisher : option bool) (maxOutput : Z).
Notation Env := (Operations.Env X).
Notation IO := (M Env).

(** An accepted operation that is not manual leaves the other tables alone. *)
Lemma StartTracked_quiet {Y} r s (e : Operations.Env Y) n s' o e' n' :
  Operations.StartTracked publisher r s e n = (Ok (s', o), (e', n')) →
  Operations.RTrigger r ≠ "manual"%string → Operations.RTrigger r ≠ ""%string → Operations.RequestID r ≠ ""%string →
  o = Operations.newOperation (Operations.RequestID r) r ∧ s' = Operations.addJob (Operations.RequestID r) s ∧
  Operations.rest e' = Operations.rest e ∧
  let db := Operations.store e in let db' := Operations.store e' in
  groups db' = groups db ∧ stacks db' = stacks db ∧ policies db' = policies db ∧ runs db' = runs db ∧
  executions db' = executions db ∧ is_Some (operations db' !! Operations.RequestID r).
Proof.
  intros H Hm Hne Hid. unfold Operations.StartTracked in H. apply bind_ok in H as (id & e1 & n1 & H1 & H).
  destruct (String.eqb_spec (Operations.RequestID r) ""); [done|]. apply ret_ok in H1 as (<- & -> & ->).
  apply bind_ok in H as (? & ? & ? & H2 & H). apply guard_not_ok in H2 as (Hs & -> & ->).
  apply bind_ok in H as (? & e2 & n2 & H2 & H). apply zoom_ok in H2 as (db & H2 & ->).
  apply bind_ok in H as (? & e3 & n3 & H3 & H). apply ret_ok in H as (H & -> & ->). injection H as <- <-.
  assert (let db0 := Operations.store e in groups db = groups db0 ∧ stacks db = stacks db0 ∧ policies db = policies db0 ∧
    runs db = runs db0 ∧ executions db = executions db0 ∧ is_Some (operations db !! Operations.RequestID r)) as Hdb.
  { unfold OperationStore.CreateOperation in H2. apply atomically_ok in H2 as (k & H2).
    apply bind_ok in H2 as (? & db1 & m1 & G1 & H2). apply insertOperation_ok in G1 as (_ & _ & ->).
    apply bind_ok in H2 as (? & db2 & m2 & G2 & H2). apply insertContext_ok in G2 as (_ & _ & ->).
    unfold OnDemandStore.interlockOnDemand, OnDemandStore.interlocked in H2. cbn [ScopeType Trigger Operations.newOperation] in H2.
    destruct (String.eqb_spec (Operations.RTrigger r) "") as [|_]; [done|].
    destruct (String.eqb_spec (Operations.RTrigger r) "manual") as [|_]; [done|]. cbn [negb] in H2. rewrite orb_true_r in H2.
    apply ret_ok in H2 as (_ & -> & _). cbn. split_and!; try done. rewrite lookup_insert_eq. by eexists. }
  unfold Operations.publish in H3. injection H3 as _ <- _. destruct publisher; simpl; split_and!; try done; apply Hdb.
Qed.
Lemma StartTracked_refused {Y} r s (e : Operations.Env Y) n x e' n' :
  Operations.StartTracked publisher r s e n = (Err x, (e', n')) →
  Operations.store e' = Operations.store e ∧ Operations.rest e' = Operations.rest e.
Proof.
  intros H. split; [by eapply OperationLaws.StartTracked_err|]. unfold Operations.StartTracked, mbind, M_bind in H.
  destruct (Operations.RequestID r =? "")%string; cbn in H; destruct (Operations.stopped s); cbn in H;
    try (by injection H as _ <- _); rewrite OperationLaws.zoomed in H;
    match type of H with context [OperationStore.CreateOperation ?o ?d ?k] => destruct (OperationStore.CreateOperation o d k) as [[?|?] [db m]] end;
    cbn in H; try (by injection H as _ <- _); unfold Operations.publish in H; by destruct publisher.
Qed.
Lemma StartTracked_accepted {Y} r s (e : Operations.Env Y) n s' o e' n' :
  Operations.StartTracked publisher r s e n = (Ok (s', o), (e', n')) →
  Operations.rest e' = Operations.rest e ∧ o = Operations.newOperation (OpID o) r.
Proof.
  intros H. unfold Operations.StartTracked in H. apply bind_ok in H as (id & e1 & n1 & H1 & H).
  assert (e1 = e) as -> by (case_match; db_inv; congruence).
  apply bind_ok in H as (? & ? & ? & H2 & H). apply guard_not_ok in H2 as (Hs & -> & ->).
  apply bind_ok in H as (? & e2 & n2 & H2 & H). apply zoom_ok in H2 as (db & _ & ->).
  apply bind_ok in H as (? & e3 & n3 & H3 & H). apply ret_ok in H as (H & -> & ->). injection H as <- <-.
  unfold Operations.publish in H3. injection H3 as _ <- _. by destruct publisher.
Qed.
(** The answer that [Wait] gives once the goroutine of a new job is done. *)
Lemma waited_after id o err s0 :
  id ∉ Operations.completed s0 →
  let s := Operations.addJob id s0 in
  ∃ p, Operations.jobs s !! id = Some p ∧
    waited id (Operations.finishJob p id o err s).1 = Some (match err with None => Ok (Operations.withoutOutput o) | Some x => Err x end).
Proof.
  intros Hnew s. exists (length (Operations.heap s0)). split; [by simpl; rewrite lookup_insert_eq|].
  unfold Operations.finishJob. simpl. rewrite lookup_app_r, Nat.sub_diag by lia. simpl.
  set (heap' := <[length (Operations.heap s0) := _]> _).
  assert (heap' !! length (Operations.heap s0) = Some (Operations.mkJob true (Some (Operations.withoutOutput o, err)) false)) as Hh.
  { apply list_lookup_insert_eq. rewrite length_app. simpl. lia. }
  destruct (Operations.completed s0 ++ [id]) as [|first rest] eqn:El; [by destruct (Operations.completed s0)|].
  case_bool_decide as Hbig; unfold waited; simpl.
  - assert (first ≠ id) as Hne.
    { intros ->. destruct (Operations.completed s0) as [|x l]; simpl in El.
      - injection El as <-. simpl in Hbig. lia.
      - injection El as -> _. apply Hnew. left. }
    rewrite lookup_delete_ne, lookup_insert_eq by done. simpl. rewrite Hh. simpl. by destruct err.
  - rewrite lookup_insert_eq. simpl. rewrite Hh. simpl. by destruct err.
Qed.

(** An admission is refused without a trace, or holds the stack until it is
    given back. *)
Lemma admitted_cases repo id (e : Env) n :
  (∃ x, admitted repo id e n = (Err x, (e, n))) ∨
  ∃ c gr, admitted repo id e n = (Ok gr, (put c e, n)) ∧
    (repo = true ∨ id ≠ "" → Coordinator.release c gr = view e)%string ∧ (id ≠ "" → id ∈ Coordinator.stacks c)%string.
Proof.
  unfold admitted. destruct (Coordinator.Try (view e) repo id) as [c [gr|x]] eqn:Et.
  - right. exists c, gr. split; [done|]. split; [intros Hid; by eapply Locking.Try_release|].
    intros Hid. unfold Coordinator.Try in Et.
    destruct (if repo then _ else _) as [c1|]; [|done]. destruct (String.eqb_spec id "") as [|_]; [done|]. cbn in Et.
    case_bool_decide; [done|]. injection Et as <- _. cbn. set_solver.
  - left. apply Locking.Try_refused in Et as [-> ->]. rewrite put_view. by eexists.
Qed.
Lemma releases_undo c gr (e : Env) n : Coordinator.release c gr = view e → releases gr (put c e) n = (Ok tt, (e, n)).
Proof.
  intros Hr. unfold releases, zoom, giveBack. cbn. rewrite view_put, Hr. do 2 f_equal. destruct e; cbn. by rewrite put_put, put_view.
Qed.

Context `{LI : !Apart X LC LS}.
(** The execution of an operation ends and is waited for: an account of what
    its work, its completion and the lock leave behind. *)
Lemma carried_out request work o gr (e : Env) n s0 :
  OpID o ∉ Operations.completed s0 → view (Operations.rest e) = Operations.addJob (OpID o) s0 →
  (∀ db k, view (work db (Operations.rest e) k).2.1.2 = view (A := Operations.Service) (Operations.rest e)) →
  ∃ answer e' n' s',
    carryOut Error publisher maxOutput request work o gr e n = (Ok (Some answer), (e', n')) ∧
    match OperationStore.UpdateOperation (Operations.setRunning o (clock n)) (Operations.store e) (S n) with
    | (Err x, _) => answer = Err x ∧ Operations.store e' = Operations.store e ∧
        Operations.rest e' = put s' (giveBack gr (Operations.rest e))
    | (Ok _, (db1, n1)) =>
      let '(result_, (db2, x2, n2)) := work db1 (Operations.rest e) n1 in
      let '(o2, result2) := Operations.conclude Error maxOutput (Operations.setRunning o (clock n)) (Operations.Secrets request)
            (Operations.DiscardOutput request) result_ (clock n2) in
      OpID o2 = OpID o ∧ Operations.rest e' = put s' (giveBack gr x2) ∧
      match OperationStore.CompleteOperation o2 result2 db2 (S n2) with
      | (Err x, _) => answer = Err x ∧ Operations.store e' = db2
      | (Ok _, (db3, _)) => answer = Ok (Operations.withoutOutput o2) ∧ Operations.store e' = db3
      end
    end.
Proof using All.
  intros Hnew Hs Hwork.
  destruct (OperationLaws.execute_account Error publisher maxOutput o (Operations.Secrets request) (Operations.DiscardOutput request)
    work (Some (giveBack gr)) e n) as (o1 & err & e1 & n1 & E & _ & Hacc).
  assert (view (Operations.rest e1) = Operations.addJob (OpID o) s0 ∧ OpID o1 = OpID o) as [Hs1 Hid].
  { cbn beta iota zeta in Hacc.
    destruct (OperationStore.UpdateOperation (Operations.setRunning o (clock n)) (Operations.store e) (S n)) as [[u|x] [db1 m1]].
    2:{ destruct Hacc as (-> & _ & _ & -> & _). split; [|done]. cbn. unfold giveBack. by rewrite apart. }
    specialize (Hwork db1 m1). destruct (work db1 (Operations.rest e) m1) as [x [[db2 r2] m2]].
    destruct (Operations.conclude _ _ _ _ _ _ _) as [o2 x2] eqn:Ec. apply OperationLaws.conclude_spec in Ec as (Hid & _ & _).
    destruct Hacc as (-> & -> & _). split; [|by rewrite Hid]. cbn in *. unfold giveBack. rewrite apart. congruence. }
  destruct (waited_after (OpID o) o1 err s0 Hnew) as (p & Hp & Hw).
  set (s' := (Operations.finishJob p (OpID o) o1 err (Operations.addJob (OpID o) s0)).1) in *.
  exists (match err with None => Ok (Operations.withoutOutput o1) | Some x => Err x end), (with_service s' e1), n1, s'.
  split.
  { unfold carryOut, mbind, M_bind. rewrite E. cbn beta iota. unfold finished, wait. rewrite Hs1, Hid, Hp. cbn [fst snd].
    fold s'. change (view (Operations.rest (with_service s' e1))) with (view (A := Operations.Service) (put s' (Operations.rest e1))).
    by rewrite view_put, Hw. }
  cbn beta iota zeta in Hacc.
  destruct (OperationStore.UpdateOperation (Operations.setRunning o (clock n)) (Operations.store e) (S n)) as [[u|x] [db1 m1]].
  2:{ destruct Hacc as (_ & -> & Hst & Hr & _). cbn. by rewrite Hst, Hr. }
  destruct (work db1 (Operations.rest e) m1) as [x [[db2 r2] m2]].
  destruct (Operations.conclude _ _ _ _ _ _ _) as [o2 x2]. destruct Hacc as (-> & Hr & Hacc). split; [done|].
  split; [cbn; by rewrite Hr|].
  destruct (OperationStore.CompleteOperation o2 x2 db2 (S m2)) as [[alerts|y] [db3 m3]].
  - destruct Hacc as (-> & Hst & _). by split.
  - destruct Hacc as (-> & Hst & _). by split.
Qed.
End laws.
End Tracked.
