(* ===== verification/ContainerStates.v ===== *)
(** * What the containers of a stack say about it (src/internal/control/state.go,
    on_demand_status.go, containers.go)

    The state of a stack is made of the states of its containers and of its
    last deployment; an intentional stop by an on-demand group is shown as
    sleep, but only if the whole group is as it was put to sleep. *)
From S2P Require Import Prelude GoStrings OnDemandPolicy.

Module ContainerStates.
Import OnDemandPolicy.

(** ** Rows (api.ContainerSummary of docker/compose, as far as it is read) *)
Record PortPublisher := mkPublisher { URL : string; TargetPort : Z; PublishedPort : Z; Protocol : string }.
Record ContainerSummary := mkSummary {
  SumID : string; SumName : string; Project : string; SumService : string; State : string; Health : string;
  SumImage : string; Labels : gmap string string; SumNetworks : list string; Publishers : list PortPublisher;
}.
(** [strings.ToLower] of ASCII letters; [strings.EqualFold] with a word whose
    letters have no other case folding (it has neither k nor s). *)
Definition ToLower (s : string) : string := string_of_list_ascii (ToLowerByte <$> list_ascii_of_string s).
Definition EqualFold (s word : string) : bool := (ToLower s =? word)%string.

(** ** state.go *)
Inductive DeploymentFreshness := DeploymentNever | DeploymentCurrent | DeploymentChangesPending | DeploymentDeploying | DeploymentUnverifiable.
Record DeploymentSnapshot := mkDeploymentSnapshot { SnapStatus : string; SnapComposeDigest : string; SnapGitCommit : string }.
Definition ClassifyDeployment (last : option DeploymentSnapshot) (desiredDigest : string) (active : bool) : DeploymentFreshness :=
  if active then DeploymentDeploying
  else match last with
  | None => DeploymentNever
  | Some last =>
    if negb (SnapStatus last =? "succeeded")%string || (desiredDigest =? "")%string then DeploymentUnverifiable
    else if (SnapComposeDigest last =? desiredDigest)%string then DeploymentCurrent
    else DeploymentChangesPending
  end.

Inductive ContainerState := ContainerRunning | ContainerStopped | ContainerSleeping | ContainerUnhealthy.
#[export] Instance ContainerState_eq_dec : EqDecision ContainerState.
Proof. solve_decision. Defined.
Inductive RuntimeState := RuntimeRunning | RuntimeStopped | RuntimeSleeping | RuntimeOnDemand | RuntimePartial | RuntimeUnhealthy.
#[export] Instance RuntimeState_eq_dec : EqDecision RuntimeState.
Proof. solve_decision. Defined.
(** The loop of AggregateRuntime; [None] is its early return. *)
Fixpoint tally (running sleeping : nat) (containers : list ContainerState) : option (nat * nat) :=
  match containers with
  | [] => Some (running, sleeping)
  | ContainerUnhealthy :: _ => None
  | ContainerRunning :: rest => tally (S running) sleeping rest
  | ContainerSleeping :: rest => tally running (S sleeping) rest
  | ContainerStopped :: rest => tally running sleeping rest
  end.
Definition AggregateRuntime (containers : list ContainerState) : RuntimeState :=
  if (length containers =? 0)%nat then RuntimeStopped
  else match tally 0 0 containers with
  | None => RuntimeUnhealthy
  | Some (running, sleeping) =>
    if (running =? length containers)%nat then RuntimeRunning
    else if (sleeping =? length containers)%nat then RuntimeSleeping
    else if (0 <? sleeping)%nat then
      if (running + sleeping =? length containers)%nat then RuntimeOnDemand else RuntimePartial
    else if (running =? 0)%nat then RuntimeStopped
    else RuntimePartial
  end.

(** ** control.go: the states of rows *)
Definition parseContainerState (row : ContainerSummary) : ContainerState :=
  if EqualFold (Health row) "unhealthy" then ContainerUnhealthy
  else if EqualFold (State row) "running" then ContainerRunning
  else ContainerStopped.
Definition parseContainerStates (rows : list ContainerSummary) : list ContainerState := parseContainerState <$> rows.
Definition ownedBy (project : string) (rows : list ContainerSummary) : list ContainerSummary :=
  filter (λ row, Project row = project) rows.
(** The states shown: what an on-demand group put to sleep, sleeps. *)
Definition shownState (sleeping : gset string) (row : ContainerSummary) : ContainerState :=
  if bool_decide (SumID row ∈ sleeping) then ContainerSleeping else parseContainerState row.

(** ** on_demand_status.go *)
Definition asleep (id : string) (g : Group) : bool :=
  (GroupStackID g =? id)%string && Enabled (GroupPolicy g) && (GroupPhase g =? Sleeping)%string
  && (HoldReason g =? "")%string && (PausedReason g =? "")%string
  && negb (length (Members (GroupPolicy g)) =? 0)%nat
  && (length (Members (GroupPolicy g)) =? length (ContainerIDs (GroupEvidence g)))%nat.
(** The containers by member; [None] where the code finds the group invalid. *)
Fixpoint membership (g : Group) (members : gmap string string) (rows : list ContainerSummary) : option (gmap string string) :=
  match rows with
  | [] => Some members
  | row :: rest =>
    if negb (bool_decide (SumService row ∈ Members (GroupPolicy g))) then membership g members rest
    else if negb (default "" (members !! SumService row) =? "")%string || negb (EqualFold (State row) "exited")
            || negb (bool_decide (SumID row ∈ ContainerIDs (GroupEvidence g))) then None
    else membership g (<[SumService row := SumID row]> members) rest
  end.
Definition sleepersOf (id : string) (rows : list ContainerSummary) (g : Group) : gset string :=
  if asleep id g then
    match membership g ∅ rows with
    | Some members =>
      if (size members =? length (Members (GroupPolicy g)))%nat then list_to_set (map_to_list members).*2 else ∅
    | None => ∅
    end
  else ∅.
Definition sleepingContainerIDs (id : string) (groups : list Group) (rows : list ContainerSummary) : gset string :=
  ⋃ (sleepersOf id rows <$> groups).

(** ** containers.go: the list of containers *)
Record ContainerPort := mkPort { Host : string; PortTarget : Z; PortPublished : Z; PortProtocol : string }.
Record Container := mkContainer {
  CtrID : string; CtrName : string; CtrService : string; CtrState : string; CtrHealth : string; CtrImage : string;
  CtrNetworks : list string; Ports : list ContainerPort; OnDemandSleeping : bool;
}.
(** A lexicographic comparison by one more key. *)
Definition thenBy {A} (lt : A → A → bool) (eq : A → A → bool) (next : bool) (a b : A) : bool := if eq a b then next else lt a b.
Definition string_lt (a b : string) : bool := negb (String.leb b a).
Definition port_less (a b : ContainerPort) : bool :=
  thenBy Z.ltb Z.eqb (thenBy Z.ltb Z.eqb (thenBy string_lt String.eqb (string_lt (Host a) (Host b)) (PortProtocol a) (PortProtocol b))
    (PortPublished a) (PortPublished b)) (PortTarget a) (PortTarget b).
Definition container_less (a b : Container) : bool :=
  thenBy string_lt String.eqb (thenBy string_lt String.eqb (string_lt (CtrID a) (CtrID b)) (CtrName a) (CtrName b))
    (CtrService a) (CtrService b).
(** [sort.Slice]; elements that are equal in all keys have no order. *)
Definition no_greater {A} (less : A → A → bool) (a b : A) : Prop := less b a = false.
#[export] Instance no_greater_dec {A} (less : A → A → bool) : RelDecision (no_greater less).
Proof. unfold no_greater. intros a b. apply _. Defined.
Definition sortSlice {A} (less : A → A → bool) (l : list A) : list A := merge_sort (no_greater less) l.
Definition containerFromSummary (row : ContainerSummary) : Container :=
  mkContainer (SumID row) (SumName row) (SumService row) (ToLower (State row)) (ToLower (Health row)) (SumImage row)
    (SortStrings (SumNetworks row))
    (sortSlice port_less ((λ p, mkPort (URL p) (TargetPort p) (PublishedPort p) (Protocol p)) <$> Publishers row)) false.
Definition setSleeping (sleeping : gset string) (c : Container) : Container :=
  mkContainer (CtrID c) (CtrName c) (CtrService c) (CtrState c) (CtrHealth c) (CtrImage c) (CtrNetworks c) (Ports c)
    (bool_decide (CtrID c ∈ sleeping)).
Definition containerActionAllowed (state action : string) : bool :=
  if (action =? "start")%string then (state =? "created")%string || (state =? "exited")%string
  else if (action =? "stop")%string || (action =? "restart")%string then (state =? "running")%string
  else false.

(** ** The state of a stack *)
Definition count (x : ContainerState) (l : list ContainerState) : nat := length (filter (x =.) l).
Lemma count_bound x l : count x l ≤ length l.
Proof. apply length_filter. Qed.
Lemma count_all x l : count x l = length l ↔ ∀ y, y ∈ l → y = x.
Proof.
  unfold count. induction l as [|z l IH]; [split; [by intros _ y ?%elem_of_nil|done]|]. rewrite filter_cons. cbn [length].
  case_decide as Hz; cbn [length].
  - rewrite Nat.succ_inj_wd, IH. setoid_rewrite elem_of_cons. naive_solver.
  - pose proof (length_filter (x =.) l). split; [lia|]. intros Hl. destruct Hz. symmetry. apply Hl. left.
Qed.
Lemma count_none x l : count x l = 0 ↔ x ∉ l.
Proof.
  unfold count. rewrite length_zero_iff_nil. induction l as [|z l IH]; [split; [by intros _ ?%elem_of_nil|done]|].
  rewrite filter_cons, not_elem_of_cons. case_decide; naive_solver.
Qed.
Lemma tally_spec r s l :
  tally r s l = if bool_decide (ContainerUnhealthy ∈ l) then None
                else Some (r + count ContainerRunning l, s + count ContainerSleeping l).
Proof.
  revert r s. induction l as [|x l IH]; intros r s.
  - rewrite bool_decide_false by apply not_elem_of_nil. cbn. by rewrite !Nat.add_0_r.
  - destruct x; cbn [tally]; [rewrite IH..|by rewrite bool_decide_true by left];
      (repeat case_bool_decide; [done|set_solver|set_solver|]); unfold count; rewrite !filter_cons; repeat (case_decide; try done); cbn; do 2 f_equal; lia.
Qed.
(** What the state of a stack means. *)
Definition stateOf (l : list ContainerState) : RuntimeState :=
  if bool_decide (ContainerUnhealthy ∈ l) then RuntimeUnhealthy
  else if bool_decide (Forall (λ x, x = ContainerStopped) l) then RuntimeStopped
  else if bool_decide (Forall (λ x, x = ContainerRunning) l) then RuntimeRunning
  else if bool_decide (Forall (λ x, x = ContainerSleeping) l) then RuntimeSleeping
  else if bool_decide (Forall (λ x, x ≠ ContainerStopped) l) then RuntimeOnDemand
  else RuntimePartial.
Lemma count_kinds l : ContainerUnhealthy ∉ l →
  count ContainerRunning l + count ContainerSleeping l + count ContainerStopped l = length l.
Proof.
  unfold count. induction l as [|x l IH]; [done|]. rewrite not_elem_of_cons. intros [Hx Hl]. specialize (IH Hl).
  rewrite !filter_cons. destruct x; repeat (case_decide; try done); cbn; lia.
Qed.
(** C10. The state of a stack is unhealthy if one of its containers is; otherwise
    it is stopped, running or sleeping if all are, which an empty stack counts
    as stopped, on demand if some sleep and the others run, and partial if some
    are stopped; the order of the containers does not matter. *)
Theorem runtime_state_is_what_containers_say (l : list ContainerState) :
  AggregateRuntime l = stateOf l ∧ ∀ l', l' ≡ₚ l → AggregateRuntime l' = AggregateRuntime l.
Proof.
  assert (∀ l, AggregateRuntime l = stateOf l) as H.
  { clear l. intros l. unfold AggregateRuntime, stateOf. rewrite tally_spec.
    pose proof (count_all ContainerRunning l) as Hr. pose proof (count_all ContainerSleeping l) as Hs.
    pose proof (count_all ContainerStopped l) as Ht. pose proof (count_none ContainerStopped l) as Hn.
    pose proof (count_kinds l) as Hk. setoid_rewrite <-Forall_forall in Hr. setoid_rewrite <-Forall_forall in Hs. setoid_rewrite <-Forall_forall in Ht.
    assert (Forall (λ x, x ≠ ContainerStopped) l ↔ ContainerStopped ∉ l) as Hf by (rewrite Forall_forall; naive_solver).
    rewrite (bool_decide_ext _ _ Hf), (bool_decide_ext _ _ (iff_sym Hn)), <-!(bool_decide_ext _ _ Hr), <-!(bool_decide_ext _ _ Hs), <-!(bool_decide_ext _ _ Ht).
    destruct (Nat.eqb_spec (length l) 0) as [H0|H0].
    - apply nil_length_inv in H0 as ->. done.
    - case_bool_decide as Hu; [done|]. specialize (Hk Hu). cbn [Nat.add].
      repeat match goal with |- context [(?a =? ?b)%nat] => destruct (Nat.eqb_spec a b) end;
        repeat match goal with |- context [(?a <? ?b)%nat] => destruct (Nat.ltb_spec a b) end;
        repeat case_bool_decide; try done; lia. }
  split; [apply H|]. intros l' Hp. rewrite !H. unfold stateOf.
  assert (∀ y : ContainerState, bool_decide (Forall (λ x, x = y) l') = bool_decide (Forall (λ x, x = y) l)) as He
    by (intros; apply bool_decide_ext; by rewrite Hp).
  rewrite !He, (bool_decide_ext (ContainerUnhealthy ∈ l') (ContainerUnhealthy ∈ l)) by (by rewrite Hp).
  by rewrite (bool_decide_ext (Forall (λ x, x ≠ ContainerStopped) l') (Forall (λ x, x ≠ ContainerStopped) l)) by (by rewrite Hp).
Qed.

(** ** Sleep *)
Definition membersIn (g : Group) (rows : list ContainerSummary) : list ContainerSummary :=
  filter (λ row, SumService row ∈ Members (GroupPolicy g)) rows.
(** A container as the group left it. *)
Definition left_by (g : Group) (row : ContainerSummary) : Prop :=
  EqualFold (State row) "exited" = true ∧ SumID row ∈ ContainerIDs (GroupEvidence g).
Definition entry (row : ContainerSummary) : string * string := (SumService row, SumID row).
Lemma entry_services rows : (entry <$> rows).*1 = SumService <$> rows.
Proof. by rewrite <-list_fmap_compose. Qed.
Lemma membership_spec g rows : Forall (λ row, SumID row ≠ ""%string) rows → ∀ m m', map_Forall (λ _ i, i ≠ ""%string) m →
  membership g m rows = Some m' ↔
    Forall (left_by g) (membersIn g rows) ∧ NoDup (SumService <$> membersIn g rows) ∧
    Forall (λ row, m !! SumService row = None) (membersIn g rows) ∧ m' = list_to_map (entry <$> membersIn g rows) ∪ m.
Proof.
  induction 1 as [|row rows Hrow _ IH]; intros m m' Hm.
  { cbn. rewrite (left_id_L ∅ (∪)). split; [intros [= ->]; split_and!; constructor|by intros (_ & _ & _ & ->)]. }
  cbn [membership]. unfold membersIn. rewrite filter_cons. fold (membersIn g rows). case_decide as Hs.
  2:{ rewrite bool_decide_false by done. cbn [negb]. by apply IH. }
  rewrite bool_decide_true by done. cbn [negb].
  destruct (m !! SumService row) as [i|] eqn:Ei; cbn [default from_option id].
  { pose proof (Hm _ _ Ei) as Hi. cbn in Hi. destruct (String.eqb_spec i ""); [done|]. cbn. split; [done|].
    intros (_ & _ & [Hn _]%Forall_cons & _). congruence. }
  cbn [negb orb String.eqb]. destruct (EqualFold (State row) "exited") eqn:Ex; cbn [negb orb].
  2:{ split; [done|]. intros ([[Hx _] _]%Forall_cons & _). congruence. }
  case_bool_decide as Hid; cbn [negb].
  2:{ split; [done|]. by intros ([[_ Hx] _]%Forall_cons & _). }
  rewrite IH by (apply map_Forall_insert_2; done). rewrite !Forall_cons, fmap_cons, NoDup_cons.
  change (list_to_map (entry <$> row :: membersIn g rows)) with
    (<[SumService row := SumID row]> (list_to_map (entry <$> membersIn g rows) : gmap string string)).
  split.
  - intros (H1 & H2 & H3 & ->).
    assert (SumService row ∉ SumService <$> membersIn g rows) as Hn.
    { intros (r & Hr & Hin)%list_elem_of_fmap. rewrite Forall_forall in H3. specialize (H3 _ Hin).
      by rewrite <-Hr, lookup_insert_eq in H3. }
    split_and!; try done.
    + eapply Forall_impl; [exact H3|]. cbn. intros r Hr. by apply lookup_insert_None in Hr as [].
    + rewrite <-insert_union_l. symmetry. apply insert_union_r. apply not_elem_of_list_to_map. by rewrite entry_services.
  - intros ([_ H1] & [Hn H2] & [_ H3] & ->). split_and!; try done.
    + rewrite Forall_forall in H3 |- *. intros r Hr. rewrite lookup_insert_ne; [by apply H3|].
      intros E. apply Hn. rewrite E. by apply list_elem_of_fmap_2.
    + rewrite <-insert_union_l. apply insert_union_r. apply not_elem_of_list_to_map. by rewrite entry_services.
Qed.
(** C11. A container is shown as sleeping exactly if it belongs to an enabled
    group of the stack that sleeps, is neither held nor paused, and of which
    every member has one container, exited, that the group itself has put to
    sleep: a group that is not whole is not shown as sleeping in any part. *)
Theorem sleep_is_shown_of_whole_groups (id : string) groups rows c :
  Forall (λ row, SumID row ≠ ""%string) rows →
  c ∈ sleepingContainerIDs id groups rows ↔
  ∃ g, g ∈ groups ∧ asleep id g = true ∧ NoDup (Members (GroupPolicy g)) ∧
    SumService <$> membersIn g rows ≡ₚ Members (GroupPolicy g) ∧ Forall (left_by g) (membersIn g rows) ∧
    c ∈ SumID <$> membersIn g rows.
Proof.
  intros Hids. unfold sleepingContainerIDs. rewrite elem_of_union_list.
  assert (∀ g, c ∈ sleepersOf id rows g ↔ asleep id g = true ∧ NoDup (Members (GroupPolicy g)) ∧
    SumService <$> membersIn g rows ≡ₚ Members (GroupPolicy g) ∧ Forall (left_by g) (membersIn g rows) ∧
    c ∈ SumID <$> membersIn g rows) as Hg.
  2:{ split.
      - intros (X & (g & -> & Hin)%list_elem_of_fmap & Hc). exists g. by rewrite <-Hg.
      - intros (g & Hin & Hc%Hg). exists (sleepersOf id rows g). split; [by apply list_elem_of_fmap_2|done]. }
  intros g. unfold sleepersOf. destruct (asleep id g); [|set_solver].
  assert (∀ m' : gmap string string, NoDup (SumService <$> membersIn g rows) → m' = list_to_map (entry <$> membersIn g rows) ∪ ∅ →
    size m' = length (membersIn g rows) ∧ (c ∈ (map_to_list m').*2 ↔ c ∈ SumID <$> membersIn g rows)) as Hmap.
  { intros m' Hnd ->. rewrite (right_id_L ∅ (∪)). rewrite <-entry_services in Hnd.
    assert (map_to_list (list_to_map (M := gmap string string) (entry <$> membersIn g rows)) ≡ₚ entry <$> membersIn g rows) as Hp
      by by apply map_to_list_to_map.
    split.
    - by rewrite <-length_map_to_list, Hp, length_fmap.
    - rewrite Hp, <-list_fmap_compose. done. }
  assert (SumService <$> membersIn g rows ⊆ Members (GroupPolicy g)) as Hsub.
  { intros s (r & -> & Hr)%list_elem_of_fmap. by apply list_elem_of_filter in Hr as []. }
  split.
  - destruct (membership g ∅ rows) as [m|] eqn:Em; [|set_solver].
    apply (membership_spec g rows Hids ∅ m (map_Forall_empty _)) in Em as (H1 & H2 & _ & ->).
    destruct (Hmap _ H2 eq_refl) as [Hsize Hc]. destruct (Nat.eqb_spec (size (list_to_map (M := gmap string string) (entry <$> membersIn g rows) ∪ ∅))
      (length (Members (GroupPolicy g)))) as [Hl|]; [|set_solver].
    rewrite elem_of_list_to_set, Hc. intros Hin.
    assert (SumService <$> membersIn g rows ≡ₚ Members (GroupPolicy g)) as Hp.
    { apply submseteq_length_Permutation; [by apply NoDup_submseteq|]. rewrite length_fmap. lia. }
    split_and!; try done. by rewrite <-Hp.
  - intros (_ & Hnd & Hp & Hleft & Hin). rewrite <-Hp in Hnd.
    destruct (membership g ∅ rows) as [m|] eqn:Em.
    + apply (membership_spec g rows Hids ∅ m (map_Forall_empty _)) in Em as (_ & _ & _ & Hm).
      destruct (Hmap _ Hnd Hm) as [Hsize Hc]. rewrite Hsize, <-Hp, length_fmap, Nat.eqb_refl. by rewrite elem_of_list_to_set, Hc.
    + assert (membership g ∅ rows = Some (list_to_map (entry <$> membersIn g rows) ∪ ∅)) as Em2; [|by rewrite Em2 in Em].
      apply (membership_spec g rows Hids ∅ _ (map_Forall_empty _)). split_and!; try done. apply Forall_forall. intros. apply lookup_empty.
Qed.
Definition ex_group : Group :=
  mkGroup "odg_1" "stk_1" (OnDemandPolicy.mkPolicy "night" true ["app"%string] 1 1000 60 60 60 10) 1 Sleeping "" ""
    (mkEvidence "sha256:1" ["c1"%string] []).
Definition ex_exited : ContainerSummary := mkSummary "c1" "web-app-1" "porty-web" "app" "exited" "" "app:1" ∅ [] [].
Lemma sleep_is_shown_of_whole_groups_witness :
  Forall (λ row, SumID row ≠ ""%string) [ex_exited] ∧ "c1"%string ∈ sleepingContainerIDs "stk_1" [ex_group] [ex_exited].
Proof.
  assert (Forall (λ row, SumID row ≠ ""%string) [ex_exited]) as Hn by (constructor; [discriminate|constructor]).
  split; [exact Hn|]. apply (sleep_is_shown_of_whole_groups "stk_1" [ex_group] [ex_exited] "c1" Hn). exists ex_group.
  split; [left|]. split; [reflexivity|]. split; [apply NoDup_singleton|]. split; [reflexivity|]. split; [|left].
  constructor; [|constructor]. split; [reflexivity|left].
Defined.
End ContainerStates.
