(* ===== verification/Monitoring.v ===== *)
(** * Monitoring (src/internal/monitoring/model.go, service.go, history.go)

    Sources deliver batches of devices, series and readings; the service checks
    and bounds them, joins them into one inventory, records a sample of all
    readings every two seconds and answers clients that follow the history with
    a cursor.  How the sources themselves are run is [MonitoringSources]. *)
From Stdlib Require Import SpecFloat.
From S2P Require Import Prelude GoStrings Netip ContainerStates.

Module Monitoring.
Import ContainerStates(string_lt, sortSlice).

(** ** model.go *)
Definition SampleInterval : duration := (2 * Second)%Z.
Definition HistoryWindow : duration := (5 * Minute)%Z.
Definition StaleAfter : duration := (6 * Second)%Z.
Definition maxSamples : nat := 151.
Definition maxStoredBytes : Z := Z.shiftl 64 20.
Definition maxResponseBytes : Z := Z.shiftl 8 20.
Definition maxSeries : nat := 4096.
Definition maxSources : nat := 512.

Definition StateCollecting : string := "collecting".
Definition StateAvailable : string := "available".
Definition StateUnavailable : string := "unavailable".
Definition StateStale : string := "stale".
Definition UnitPercent : string := "percent".
Definition UnitBytes : string := "bytes".
Definition UnitRate : string := "bytes_per_second".
Definition UnitCelsius : string := "celsius".

(** A float64 is a binary64 value: 53 bits of precision, exponents below 1024. *)
Record float64 := mkFloat64 { sf : spec_float; binary64 : valid_binary 53 1024 sf = true }.
#[export] Instance spec_float_eq_dec : EqDecision spec_float.
Proof. solve_decision. Defined.
#[export] Instance float64_eq_dec : EqDecision float64.
Proof.
  intros [x Hx] [y Hy]. destruct (decide (x = y)) as [->|Hne]; [left; f_equal; apply proof_irrel|right; congruence].
Defined.
Record Reading := mkReading {
  Value : option float64; State : string; Reason : string; SampledAt : time; LastSuccessAt : option time;
}.
Record Series := mkSeries { SeriesID : string; DeviceID : string; Metric : string; Unit_ : string }.
Record Device := mkDevice {
  DevID : string; ParentID : string; Kind : string; DevName : string; Driver : string; MountPaths : list string;
  Default : bool; UtilizationBasis : string;
}.
Record Coverage := mkCoverage { CovSource : string; Omitted : Z; Partial : bool; CovReason : string }.
Record Inventory := mkInventory { Revision : string; Devices : list Device; SeriesList : list Series }.
Record HostInfo := mkHostInfo { HostName : string; OS : string; BootTime : option time }.
Record Sample := mkSample { SampleSequence : string; CapturedAt : time; Readings : gmap string Reading }.
Record Snapshot := mkSnapshot {
  SnapGeneration : string; SnapCursor : string; Reset_ : bool; ServerTime : time; WindowStart : time; SnapHost : HostInfo;
  SnapInventory : option Inventory; Current : Sample; Samples : list Sample; SnapCoverage : list Coverage;
}.
Record Batch := mkBatch {
  BDevices : list Device; BSeries : list Series; BReadings : gmap string Reading; BCoverage : list Coverage;
}.
Definition emptyBatch : Batch := mkBatch [] [] ∅ [].
Definition available (value : float64) (now : time) : Reading := mkReading (Some value) StateAvailable "" now (Some now).
Definition unavailable (reason : string) (now : time) : Reading := mkReading None StateUnavailable reason now None.

(** ** The forms that encoding/json and encoding/base64 make, and SHA-256 *)
Record cursor := mkCursor { Generation : string; Sequence : string; InventoryRevision : string }.
Class Codec := {
  marshalBatch : Batch → string;
  marshalInventory : Inventory → string;
  copyInventory : Inventory → result Inventory;     (* Marshal, then Unmarshal *)
  marshalSample : Sample → result string;
  unmarshalSample : string → result Sample;
  marshalSnapshot : Snapshot → result string;
  encodeCursor : cursor → string;                   (* base64.RawURLEncoding of the JSON form *)
  parseCursor : string → option cursor;             (* its strict reading *)
  sha256hex : string → string;
}.

(** ** service.go: checks of what a source delivers *)
Definition isOneOf (s : string) (l : list string) : bool := bool_decide (s ∈ l).
Definition validID (id : string) : bool :=
  (0 <? String.length id)%nat && (String.length id <=? 128)%nat && negb (existsb (λ r, IsControl (rune r)) (runes id)).
(** strings.ToValidUTF8 with U+FFFD: one for each run of invalid bytes. *)
Definition replacement : Rune := mkRune 65533 true (Ascii.ascii_of_nat <$> [239; 191; 189]).
Fixpoint toValid (inRun : bool) (l : list Rune) : list Rune :=
  match l with
  | [] => []
  | r :: rest =>
    if rune_valid r then r :: toValid false rest
    else if inRun then toValid true rest else replacement :: toValid true rest
  end.
Definition space : Rune := mkRune 32 true [" "%char].
Definition safeLabel (value : string) : string :=
  string_of_runes ((λ r, if IsControl (rune r) then space else r) <$> take 256 (toValid false (runes value))).
Definition safeReason (reason : string) : string :=
  if isOneOf reason [""; "collecting"; "unsupported"; "build_unsupported"; "no_device"; "permission_denied"; "source_missing";
    "read_failed"; "invalid_data"; "collection_delayed"; "counter_reset"; "limit_exceeded"; "disabled"; "partial_coverage";
    "host_mount_unavailable"]%string then reason else "read_failed".
Definition validMetric (metric unit : string) : bool :=
  if isOneOf metric ["cpu_busy"; "memory_percent"; "gpu_busy"; "engine_busy"; "filesystem_percent"]%string then (unit =? UnitPercent)%string
  else if isOneOf metric ["memory_total"; "memory_available"; "memory_used"; "swap_total"; "swap_used"; "gpu_memory_total";
    "gpu_memory_used"; "filesystem_total"; "filesystem_used"; "filesystem_available"]%string then (unit =? UnitBytes)%string
  else if isOneOf metric ["network_receive_rate"; "network_send_rate"; "disk_read_rate"; "disk_write_rate"]%string then (unit =? UnitRate)%string
  else if (metric =? "temperature")%string then (unit =? UnitCelsius)%string
  else false.
(** The block inventory has one derived aggregate besides 64 devices. *)
Definition deviceLimits (kind : string) : nat :=
  default 0 (list_to_map (M := gmap string nat) [("host", 1); ("cpu", 256); ("memory", 1); ("interface", 64); ("block", 65);
    ("filesystem", 64); ("sensor", 128); ("gpu", 16); ("gpu_engine", 256)]%string !! kind).
Definition sourceReason (err : error) : string :=
  if Is err Os_ErrPermission then "permission_denied"
  else if Is err Os_ErrNotExist then "source_missing"
  else if Is err Monitoring_errSourceLimit then "limit_exceeded"
  else if Is err Monitoring_errInvalidData then "invalid_data"
  else "read_failed".

(** *** normalizeBatch *)
Definition normalDevice (d : Device) : Device :=
  mkDevice (DevID d) (if negb (ParentID d =? "")%string && negb (validID (ParentID d)) then "" else ParentID d) (Kind d)
    (safeLabel (DevName d)) (safeLabel (Driver d)) (safeLabel <$> take 16 (MountPaths d)) (Default d)
    (if isOneOf (UtilizationBasis d) ["vendor"; "busiest_engine"]%string then UtilizationBasis d else "").
Fixpoint normalDevices (have : nat) (l : list Device) : list Device :=
  match l with
  | [] => []
  | d :: rest =>
    if (1024 <=? have)%nat then []
    else if negb (validID (DevID d)) || (deviceLimits (Kind d) =? 0)%nat then normalDevices have rest
    else normalDevice d :: normalDevices (S have) rest
  end.
Definition zero : float64 := mkFloat64 (S754_zero false) eq_refl.
(** 100 in binary64: 25 * 2^2, with a mantissa of 53 bits. *)
Definition hundred : float64 := mkFloat64 (S754_finite false 7036874417766400 (-46)) eq_refl.
Definition isNaN (x : float64) : bool := match sf x with S754_nan => true | _ => false end.
Definition isInf (x : float64) : bool := match sf x with S754_infinity _ => true | _ => false end.
Definition less (x y : float64) : bool := SFltb (sf x) (sf y).
Definition invalidValue (unit : string) (x : float64) : bool :=
  isNaN x || isInf x || negb (unit =? UnitCelsius)%string && less x zero || (unit =? UnitPercent)%string && less hundred x.
Definition normalReading (unit : string) (r : Reading) : Reading :=
  let r := mkReading (Value r) (State r) (safeReason (Reason r)) (SampledAt r) (LastSuccessAt r) in
  let r := if isOneOf (State r) [StateAvailable; StateStale; StateCollecting; StateUnavailable] then r
           else unavailable "invalid_data" (SampledAt r) in
  match Value r with
  | Some value => if invalidValue unit value then unavailable "invalid_data" (SampledAt r) else r
  | None => if (State r =? StateAvailable)%string then unavailable "invalid_data" (SampledAt r) else r
  end.
Fixpoint normalSeries (readings : gmap string Reading) (acc : list Series * gmap string Reading) (l : list Series)
    : list Series * gmap string Reading :=
  match l with
  | [] => acc
  | s :: rest =>
    if (maxSeries <=? length acc.1)%nat then acc
    else if negb (validID (SeriesID s)) || negb (validID (DeviceID s)) || negb (validMetric (Metric s) (Unit_ s)) then normalSeries readings acc rest
    else normalSeries readings
           (acc.1 ++ [s], match readings !! SeriesID s with
                          | Some r => <[SeriesID s := normalReading (Unit_ s) r]> acc.2
                          | None => acc.2
                          end) rest
  end.
Definition normalCoverage (c : Coverage) : Coverage :=
  mkCoverage (safeLabel (CovSource c)) (Z.max 0 (Omitted c)) (Partial c) (safeReason (CovReason c)).
Definition normalizeBatch (b : Batch) : Batch :=
  let '(series, readings) := normalSeries (BReadings b) ([], ∅) (BSeries b) in
  mkBatch (normalDevices 0 (BDevices b)) series readings (normalCoverage <$> take 64 (BCoverage b)).

(** ** The state of the service (its sources apart) *)
Record sourceBatch := mkSourceBatch { batch : Batch; batch_at : time }.
Record storedSample := mkStored { st_at : time; st_sequence : Z (* uint64 *); st_data : string }.
Record Service := mkService {
  host : HostInfo; generation : string; sequence : Z; (* uint64 *)
  inventory : Inventory; readings : gmap string Reading; coverage : list Coverage; batches : gmap string sourceBatch;
  history : list storedSample; historyBytes : Z; historyLimit : Z; responseLimit : Z; sourceOmitted : Z;
}.
Definition len (s : string) : Z := Z.of_nat (String.length s).

Section service.
Context `{Codec}.

(** ** rebuildLocked: one inventory of all sources *)
Record join := mkJoin {
  jDevices : list Device; jSeries : list Series; jReadings : gmap string Reading; jCoverage : list Coverage;
  deviceIDs : gset string; seriesIDs : gset string; counts : gmap string nat;
}.
Definition joinDevice (acc : join * Z) (d : Device) : join * Z :=
  let '(j, omitted) := acc in
  let have := default 0 (counts j !! Kind d) in
  if bool_decide (DevID d ∈ deviceIDs j) then (j, omitted)
  else if (deviceLimits (Kind d) <=? have)%nat then (j, omitted + 1)%Z
  else (mkJoin (jDevices j ++ [d]) (jSeries j) (jReadings j) (jCoverage j) ({[DevID d]} ∪ deviceIDs j) (seriesIDs j)
          (<[Kind d := S have]> (counts j)), omitted).
Definition joinSeries (from : gmap string Reading) (j : join) (s : Series) : join :=
  if negb (bool_decide (DeviceID s ∈ deviceIDs j)) || bool_decide (SeriesID s ∈ seriesIDs j)
     || (maxSeries <=? length (jSeries j))%nat then j
  else mkJoin (jDevices j) (jSeries j ++ [s])
         (match from !! SeriesID s with Some r => <[SeriesID s := r]> (jReadings j) | None => jReadings j end)
         (jCoverage j) (deviceIDs j) ({[SeriesID s]} ∪ seriesIDs j) (counts j).
Definition covering (j : join) (more : list Coverage) : join :=
  mkJoin (jDevices j) (jSeries j) (jReadings j) (jCoverage j ++ more) (deviceIDs j) (seriesIDs j) (counts j).
Definition joinSource (j : join) (source : string * sourceBatch) : join :=
  let b := batch source.2 in
  let '(j, omitted) := foldl joinDevice (j, 0%Z) (BDevices b) in
  let j := foldl (joinSeries (BReadings b)) j (BSeries b) in
  covering j (BCoverage b ++ if (0 <? omitted)%Z then [mkCoverage source.1 omitted true "limit_exceeded"] else []).
(** The sources in the order of their names. *)
Definition inOrder (m : gmap string sourceBatch) : list (string * sourceBatch) :=
  sortSlice (λ a b, string_lt a.1 b.1) (map_to_list m).
Definition joined (omitted : Z) (m : gmap string sourceBatch) : join :=
  foldl joinSource
    (mkJoin [] [] ∅ (if (0 <? omitted)%Z then [mkCoverage "monitoring" omitted true "limit_exceeded"] else []) ∅ ∅ ∅) (inOrder m).
Definition inventoryOf (j : join) : Inventory :=
  let made := mkInventory "" (sortSlice (λ a b, string_lt (DevID a) (DevID b)) (jDevices j))
                (sortSlice (λ a b, string_lt (SeriesID a) (SeriesID b)) (jSeries j)) in
  mkInventory (sha256hex (marshalInventory made)) (Devices made) (SeriesList made).
Definition rebuildLocked (s : Service) : Service :=
  let j := joined (sourceOmitted s) (batches s) in
  mkService (host s) (generation s) (sequence s) (inventoryOf j) (jReadings j) (jCoverage j) (batches s)
    (history s) (historyBytes s) (historyLimit s) (responseLimit s) (sourceOmitted s).
Definition with_batches (s : Service) (m : gmap string sourceBatch) : Service :=
  mkService (host s) (generation s) (sequence s) (inventory s) (readings s) (coverage s) m
    (history s) (historyBytes s) (historyLimit s) (responseLimit s) (sourceOmitted s).
Definition with_omitted (s : Service) (omitted : Z) : Service :=
  mkService (host s) (generation s) (sequence s) (inventory s) (readings s) (coverage s) (batches s)
    (history s) (historyBytes s) (historyLimit s) (responseLimit s) omitted.

(** ** acceptBatchLocked *)
(** What stays of the last readings when a source fails. *)
Definition failedReading (reason : string) (r : Reading) : Reading :=
  if (reason =? "read_failed")%string then mkReading (Value r) StateStale reason (SampledAt r) (LastSuccessAt r)
  else mkReading None StateUnavailable reason (SampledAt r) (LastSuccessAt r).
Definition failedBatch (id : string) (old : Batch) (err : error) : Batch :=
  mkBatch (BDevices old) (BSeries old) (failedReading (sourceReason err) <$> BReadings old)
    [mkCoverage id 0 true (sourceReason err)].
Definition sizeOfBatches (m : gmap string sourceBatch) : Z :=
  foldr (λ e n, len (marshalBatch (batch e.2)) + n)%Z 0%Z (map_to_list m).
Definition acceptBatchLocked (s : Service) (id : string) (delivered : result Batch) (at_ : time) : Service :=
  let old := default (mkSourceBatch emptyBatch zeroTime) (batches s !! id) in
  if Before at_ (batch_at old) then s
  else
    let b := normalizeBatch (match delivered with Ok b => b | Err err => failedBatch id (batch old) err end) in
    let size := (len (marshalBatch b) + sizeOfBatches (delete id (batches s)))%Z in
    let b := if (Z.shiftl 1 20 <? size)%Z then mkBatch [] [] ∅ [mkCoverage id 0 true "limit_exceeded"] else b in
    rebuildLocked (with_batches s (<[id := mkSourceBatch b at_]> (batches s))).

(** ** history.go *)
Definition decodeCursor (raw : string) : result (cursor * Z) :=
  if (256 <? len raw)%Z then Err Monitoring_ErrInvalidCursor
  else match parseCursor raw with
  | None => Err Monitoring_ErrInvalidCursor
  | Some value =>
    if (Generation value =? "")%string || (InventoryRevision value =? "")%string then Err Monitoring_ErrInvalidCursor
    else match ParseUint (Sequence value) 64 with
    | Some seq => if (pretty seq =? Sequence value)%string then Ok (value, seq) else Err Monitoring_ErrInvalidCursor
    | None => Err Monitoring_ErrInvalidCursor
    end
  end.

Definition stored_size (e : storedSample) : Z := (len (st_data e) + 64)%Z.
(** The loop of pruneLocked: the history and the bytes that it takes. *)
Fixpoint prune (limit : Z) (now : time) (l : list storedSample) (bytes : Z) : list storedSample * Z :=
  match l with
  | [] => ([], bytes)
  | e :: rest =>
    if (maxSamples <? length l)%nat || (HistoryWindow <? Sub now (st_at e))%Z || (limit <? bytes)%Z
    then prune limit now rest (bytes - stored_size e) else (l, bytes)
  end.
Definition with_history (s : Service) (seq : Z) (h : list storedSample * Z) : Service :=
  mkService (host s) (generation s) seq (inventory s) (readings s) (coverage s) (batches s)
    h.1 h.2 (historyLimit s) (responseLimit s) (sourceOmitted s).
Definition pruneLocked (now : time) (s : Service) : Service :=
  with_history s (sequence s) (prune (historyLimit s) now (history s) (historyBytes s)).

Definition currentReading (now : time) (r : Reading) : Reading :=
  if (State r =? StateAvailable)%string && (StaleAfter <=? Sub now (SampledAt r))%Z
  then mkReading (Value r) StateStale "collection_delayed" (SampledAt r) (LastSuccessAt r) else r.
Definition currentLocked (s : Service) (now : time) : Sample :=
  mkSample (pretty (sequence s)) now (currentReading now <$> readings s).
Definition record (now : time) (s : Service) : Service :=
  let s := with_history s (wrapU64 (sequence s + 1)) (history s, historyBytes s) in
  let current := mkSample (pretty (sequence s)) now (Readings (currentLocked s now)) in
  match marshalSample current with
  | Err _ => s
  | Ok data =>
    let e := mkStored now (sequence s) data in
    pruneLocked now (with_history s (sequence s) (history s ++ [e], historyBytes s + stored_size e)%Z)
  end.

(** *** Snapshot *)
(** The loop that chooses the newest samples, newest first; the flag is [trimmed]. *)
Fixpoint newest (reset : bool) (seq budget : Z) (newestFirst : list storedSample) : list storedSample * bool :=
  match newestFirst with
  | [] => ([], false)
  | e :: older =>
    if negb reset && (st_sequence e <=? seq)%Z then ([], false)
    else
      let size := (len (st_data e) + 1)%Z in
      if (budget <? size)%Z then ([], true)
      else let '(chosen, trimmed) := newest reset seq (budget - size) older in (e :: chosen, trimmed)
  end.
Definition with_samples (r : Snapshot) (start : time) (samples : list Sample) : Snapshot :=
  mkSnapshot (SnapGeneration r) (SnapCursor r) (Reset_ r) (ServerTime r) start (SnapHost r) (SnapInventory r) (Current r)
    samples (SnapCoverage r).
(** The last loop: drop the oldest sample until the answer is small enough. *)
Fixpoint trim (limit : Z) (now : time) (r : Snapshot) (start : time) (samples : list Sample) : result Snapshot :=
  data ← marshalSnapshot (with_samples r start samples);
  if (len data <=? limit)%Z then Ok (with_samples r start samples)
  else match samples with
  | [] => Err Monitoring_errSnapshotTooLarge
  | _ :: rest => trim limit now r (match rest with sample :: _ => CapturedAt sample | [] => now end) rest
  end.
Fixpoint decodeAll (l : list storedSample) : result (list Sample) :=
  match l with
  | [] => Ok []
  | e :: rest => sample ← unmarshalSample (st_data e); samples ← decodeAll rest; Ok (sample :: samples)
  end.
Definition mustReset (s : Service) (previous : cursor) (seq : Z) : bool :=
  negb (Generation previous =? generation s)%string || (sequence s <? seq)%Z ||
  match history s with
  | e :: _ => (seq <? wrapU64 (st_sequence e - 1))%Z
  | [] => (seq <? sequence s)%Z
  end.
(** [reset], the decoded cursor and its sequence. *)
Definition position (s : Service) (rawCursor : string) : result (bool * cursor * Z) :=
  if (rawCursor =? "")%string then Ok (true, mkCursor "" "" "", 0%Z)
  else '(previous, seq) ← decodeCursor rawCursor; Ok (mustReset s previous seq, previous, seq).
Definition cursorOf (s : Service) : cursor := mkCursor (generation s) (pretty (sequence s)) (Revision (inventory s)).
Definition frame (s : Service) (now : time) (reset : bool) (inv : option Inventory) : Snapshot :=
  mkSnapshot (generation s) (encodeCursor (cursorOf s)) reset now
    (match history s with e :: _ => st_at e | [] => now end) (host s) inv (currentLocked s now) [] (coverage s).
Definition answer (s : Service) (now : time) (reset : bool) (previous : cursor) (seq : Z) : result Snapshot :=
  inv ← (if reset || negb (InventoryRevision previous =? Revision (inventory s))%string
         then Some <$> copyInventory (inventory s) else Ok None);
  let r := frame s now reset inv in
  metadata ← marshalSnapshot r;
  let '(chosen, trimmed) := newest reset seq (responseLimit s - len metadata - 16) (reverse (history s)) in
  let chosen := reverse chosen in
  let start := if trimmed then match chosen with e :: _ => st_at e | [] => now end else WindowStart r in
  samples ← decodeAll chosen;
  trim (responseLimit s) now r start samples.
(** The answer, and the service afterwards: only its history is pruned. *)
Definition SnapshotOf (s : Service) (now : time) (rawCursor : string) : result Snapshot * Service :=
  let s := pruneLocked now s in
  ('(reset, previous, seq) ← position s rawCursor; answer s now reset previous seq, s).
End service.

(** The values that NewService starts with (the sources follow). *)
Definition newState (host : HostInfo) (generation : string) : Service :=
  mkService (mkHostInfo (safeLabel (HostName host)) (safeLabel (OS host)) (BootTime host)) generation 0
    (mkInventory "" [] []) ∅ [] ∅ [] 0 (maxStoredBytes - Z.shiftl 4 20) maxResponseBytes 0.
End Monitoring.
