(* ===== verification/MonitoringSources.v ===== *)
(** * The sources of the monitoring (src/internal/monitoring/service.go)

    Every source has a slot; a goroutine reads it, at most one at a time, and a
    source that is gone is closed when nobody reads it any more.  Goroutines
    are tasks; a step of the whole is a tick of the loop, a call of a client,
    or a task that gets on. *)
From S2P Require Import Prelude GoStrings Monitoring.

Module MonitoringSources.
Import Monitoring.

(** ** Sources, slots and goroutines *)
(** [SourceID] is what [ID] returns; [Instance] tells the objects apart. *)
Record Source := mkSource { SourceID : string; Instance : nat }.
Record sourceSlot := mkSlot { source : Source; busy : bool; retired : bool }.
Inductive task :=
| Collecting (id : string) (n : nat)  (* the goroutine of schedule, in Collect of slot n *)
| Closing (n : nat)                   (* about to call Close of slot n *)
| Closed (n : nat)                    (* Close has returned; the slot is still taken *)
| Discovering.
(** What happened to the sources: ghost state. *)
Inductive event := Begins (n : nat) | Ends (n : nat) | Closes (n : nat) | Discards (s : Source).
#[export] Instance task_eq_dec : EqDecision task.
Proof. solve_decision. Defined.
#[export] Instance Source_eq_dec : EqDecision Source.
Proof. solve_decision. Defined.
#[export] Instance event_eq_dec : EqDecision event.
Proof. solve_decision. Defined.

Record Runner := mkRunner {
  service : Service;
  store : list sourceSlot;      (* the slots by address *)
  slots : gmap string nat;      (* what each ID points to *)
  discovers : bool;             (* there is a discover function *)
  discovering : bool; cancelled : bool; stopped : bool; done : bool;
  tasks : list task;            (* the goroutines that the wait group counts *)
  trace : list event;           (* ghost *)
  recorded : list storedSample; (* ghost: all samples that were stored, oldest first *)
}.
Definition with_service (f : Service → Service) (r : Runner) : Runner :=
  mkRunner (f (service r)) (store r) (slots r) (discovers r) (discovering r) (cancelled r) (stopped r) (done r) (tasks r) (trace r) (recorded r).
Definition with_slots (st : list sourceSlot) (m : gmap string nat) (r : Runner) : Runner :=
  mkRunner (service r) st m (discovers r) (discovering r) (cancelled r) (stopped r) (done r) (tasks r) (trace r) (recorded r).
Definition with_tasks (l : list task) (more : list event) (r : Runner) : Runner :=
  mkRunner (service r) (store r) (slots r) (discovers r) (discovering r) (cancelled r) (stopped r) (done r) l (trace r ++ more) (recorded r).
Definition set_discovering (b : bool) (r : Runner) : Runner :=
  mkRunner (service r) (store r) (slots r) (discovers r) b (cancelled r) (stopped r) (done r) (tasks r) (trace r) (recorded r).
Definition set_cancelled (r : Runner) : Runner :=
  mkRunner (service r) (store r) (slots r) (discovers r) (discovering r) true (stopped r) (done r) (tasks r) (trace r) (recorded r).
Definition set_stopped (r : Runner) : Runner :=
  mkRunner (service r) (store r) (slots r) (discovers r) (discovering r) (cancelled r) true (done r) (tasks r) (trace r) (recorded r).
Definition set_done (r : Runner) : Runner :=
  mkRunner (service r) (store r) (slots r) (discovers r) (discovering r) (cancelled r) (stopped r) true (tasks r) (trace r) (recorded r).
Definition spawn (t : task) (r : Runner) : Runner := with_tasks (tasks r ++ [t]) [] r.
Definition update (n : nat) (f : sourceSlot → sourceSlot) (r : Runner) : Runner :=
  with_slots (alter f n (store r)) (slots r) r.
Definition set_busy (b : bool) (s : sourceSlot) : sourceSlot := mkSlot (source s) b (retired s).
Definition set_retired (s : sourceSlot) : sourceSlot := mkSlot (source s) (busy s) true.

Section sources.
Context `{Codec}.

(** ** schedule *)
Definition scheduleSlot (r : Runner) (slot : string * nat) : Runner :=
  let '(id, n) := slot in
  match store r !! n with
  | Some s =>
    if busy s || retired s then r
    else with_tasks (tasks r ++ [Collecting id n]) [Begins n] (update n (set_busy true) r)
  | None => r
  end.
Definition schedule (r : Runner) : Runner :=
  if stopped r || cancelled r then r else foldl scheduleSlot r (map_to_list (slots r)).
(** Collect of slot [n] has returned: the rest of the goroutine. *)
Definition collected (id : string) (n : nat) (delivered : result Batch) (at_ : time) (r : Runner) : Runner :=
  match store r !! n with
  | None => r
  | Some s =>
    let r := with_tasks (tasks r) [Ends n] (update n (set_busy false) r) in
    if retired s || stopped r then spawn (Closing n) r
    else if bool_decide (slots r !! id = Some n)
    then with_service (λ service, acceptBatchLocked service id delivered at_) r
    else r
  end.

(** ** Retiring and closing *)
Definition retireLocked (r : Runner) (n : nat) : Runner :=
  match store r !! n with
  | Some s =>
    if retired s then r
    else let r := update n set_retired r in if busy s then r else spawn (Closing n) r
  | None => r
  end.
(** closeSlot after Close has returned. *)
Definition closeSlot (n : nat) (r : Runner) : Runner :=
  match store r !! n with
  | Some s =>
    if bool_decide (slots r !! SourceID (source s) = Some n)
    then with_slots (store r) (delete (SourceID (source s)) (slots r)) r else r
  | None => r
  end.

(** ** replaceSourcesLocked *)
Definition keepSource (acc : gmap string Source * Z) (found : option Source) : gmap string Source * Z :=
  match found with
  | Some s =>
    if negb (validID (SourceID s)) then acc
    else if (maxSources <=? size acc.1)%nat then (acc.1, acc.2 + 1)%Z
    else (<[SourceID s := s]> acc.1, acc.2)
  | None => acc
  end.
Definition keepSources (sources : list (option Source)) : gmap string Source * Z := foldl keepSource (∅, 0%Z) sources.
Definition retireUnless (keep : gmap string Source) (r : Runner) (slot : string * nat) : Runner :=
  match keep !! slot.1 with
  | Some _ => r
  | None => with_service (λ s, with_batches s (delete slot.1 (batches s))) (retireLocked r slot.2)
  end.
Definition addSource (r : Runner) (kept : string * Source) : Runner :=
  let '(id, s) := kept in
  if bool_decide (is_Some (slots r !! id)) then r
  else if (maxSources <=? size (slots r))%nat
  then with_service (λ service, with_omitted service (sourceOmitted service + 1)) r
  else with_slots (store r ++ [mkSlot s false false]) (<[id := length (store r)]> (slots r)) r.
(** [order] is the order in which the loop over [keep] visits it. *)
Definition replaceSourcesLocked (sources : list (option Source)) (order : list (string * Source)) (r : Runner) : Runner :=
  let '(keep, omitted) := keepSources sources in
  let r := with_service (λ s, with_omitted s omitted) r in
  let r := foldl (retireUnless keep) r (map_to_list (slots r)) in
  with_service rebuildLocked (foldl addSource r order).
Definition orderOf (sources : list (option Source)) (order : list (string * Source)) : Prop :=
  order ≡ₚ map_to_list (keepSources sources).1.

(** ** discoverSources *)
Definition discoverSources (r : Runner) : Runner :=
  if negb (discovers r) || discovering r || stopped r then r else spawn Discovering (set_discovering true r).
(** The sources that a stopped service closes as they arrive (a nil one would
    panic here, so the step below supposes that there is none). *)
Definition unknown (r : Runner) (sources : list Source) : list Source :=
  filter (λ s, slots r !! SourceID s = None) sources.
Definition discovered (found : result (list (option Source))) (order : list (string * Source)) (r : Runner) : Runner :=
  let r := set_discovering false r in
  if stopped r then with_tasks (tasks r) (Discards <$> unknown r (match found with Ok l => omap id l | Err _ => [] end)) r
  else match found with Ok sources => replaceSourcesLocked sources order r | Err _ => r end.

(** ** The start and the end *)
Definition NewService (h : HostInfo) (generation : result string) (disabled : bool) (hasDiscover : bool)
    (sources : list (option Source)) (order : list (string * Source)) : result Runner :=
  generation ← generation;
  let r := mkRunner (newState h generation) [] ∅ hasDiscover false false false false [] [] [] in
  let r := with_service rebuildLocked (replaceSourcesLocked sources order r) in
  Ok (if disabled
      then with_service (λ s, mkService (host s) (Monitoring.generation s) (sequence s) (inventory s) (readings s)
             [mkCoverage "monitoring" 0 false "disabled"] (batches s) (history s) (historyBytes s) (historyLimit s)
             (responseLimit s) (sourceOmitted s)) r
      else r).
(** The body of stopOnce; then the wait group decides when [done] is closed. *)
Definition stop (r : Runner) : Runner :=
  if stopped r then r
  else foldl retireLocked (set_stopped (set_cancelled r)) (map_to_list (slots r)).*2.
Definition recordSample (now : time) (r : Runner) : Runner :=
  let s := service r in
  let current := mkSample (pretty (wrapU64 (sequence s + 1))) now (currentReading now <$> readings s) in
  let r' := with_service (record now) r in
  match marshalSample current with
  | Ok data =>
    mkRunner (service r') (store r') (slots r') (discovers r') (discovering r') (cancelled r') (stopped r') (done r') (tasks r')
      (trace r') (recorded r' ++ [mkStored now (wrapU64 (sequence s + 1)) data])
  | Err _ => r'
  end.

(** ** Interleavings *)
(** A goroutine gets on. *)
Inductive advance : Runner → Runner → Prop :=
| advance_collected r before after id n delivered at_ :
    tasks r = before ++ Collecting id n :: after →
    advance r (collected id n delivered at_ (with_tasks (before ++ after) [] r))
| advance_close r before after n :
    tasks r = before ++ Closing n :: after → advance r (with_tasks (before ++ Closed n :: after) [Closes n] r)
| advance_closed r before after n :
    tasks r = before ++ Closed n :: after → advance r (closeSlot n (with_tasks (before ++ after) [] r))
| advance_discovered r before after found order :
    tasks r = before ++ Discovering :: after →
    (∀ sources, found = Ok sources → orderOf sources order ∧ (stopped r = true → None ∉ sources)) →
    advance r (discovered found order (with_tasks (before ++ after) [] r)).
Inductive step : Runner → Runner → Prop :=
| step_schedule r : step r (schedule r)
| step_record r now : (sequence (service r) + 1 < 2 ^ 64)%Z → step r (recordSample now r)
| step_snapshot r now rawCursor : step r (with_service (λ s, (SnapshotOf s now rawCursor).2) r)
| step_advance r r' : advance r r' → step r r'
| step_discover r : step r (discoverSources r)
| step_cancel r : step r (set_cancelled r)
| step_stop r : step r (stop r)
| step_done r : stopped r = true → tasks r = [] → step r (set_done r).

Inductive reachable : Runner → Prop :=
| reachable_new h generation disabled hasDiscover sources order r :
    orderOf sources order → NewService h generation disabled hasDiscover sources order = Ok r → reachable r
| reachable_step r r' : reachable r → step r r' → reachable r'.
End sources.
End MonitoringSources.
