(* ===== verification/MonitoringLaws.v ===== *)
(** * Laws of the monitoring service (src/internal/monitoring/service.go, history.go)

    What the sources deliver becomes readings in the range of their unit and
    one inventory of known devices; the history stays within its bounds, and a
    client that follows it with a cursor misses nothing without being told. *)
From Stdlib Require Import SpecFloat.
From S2P Require Import Prelude GoStrings Netip ContainerStates Monitoring MonitoringSources.

Module MonitoringLaws.
Import ContainerStates(string_lt, sortSlice, no_greater).
Import Monitoring.
#[local] Opaque maxSamples maxSeries.

(** ** Values in the range of their unit *)
(** [m * 2^e] is at most [bound]. *)
Definition at_most (m : positive) (e bound : Z) : Prop :=
  if (0 <=? e)%Z then (Zpos m * 2 ^ e ≤ bound)%Z else (Zpos m ≤ bound * 2 ^ (- e))%Z.
Definition in_range (unit : string) (x : float64) : Prop :=
  match sf x with
  | S754_zero _ => True
  | S754_finite s m e => (s = true → unit = UnitCelsius) ∧ (unit = UnitPercent → at_most m e 100)
  | S754_infinity _ | S754_nan => False
  end.
(** The numbers of SpecFloat count binary digits as a positive. *)
Lemma digits2_bound m : (Zpos m < 2 ^ Zpos (digits2_pos m))%Z.
Proof.
  induction m as [m IH|m IH|]; simpl digits2_pos; [| |done]; rewrite Pos2Z.inj_succ, Z.pow_succ_r by lia; lia.
Qed.
Lemma mantissa_bound s m e : valid_binary 53 1024 (S754_finite s m e) = true → (Zpos m < 2 ^ 53)%Z.
Proof.
  unfold valid_binary, bounded, canonical_mantissa. intros [Hc _]%andb_true_iff. apply Zeq_bool_eq in Hc.
  unfold fexp, emin in Hc. eapply Z.lt_le_trans; [apply digits2_bound|]. apply Z.pow_le_mono_r; lia.
Qed.
Lemma below_hundred m e : (Zpos m < 2 ^ 53)%Z → SFltb (sf hundred) (S754_finite false m e) = false → at_most m e 100.
Proof.
  intros Hm. unfold SFltb, SFcompare, hundred, sf, at_most. destruct (Z.compare_spec (-46) e) as [<-|He|He]; [|done|].
  - change (Pos.compare_cont Eq 7036874417766400 m) with (7036874417766400 ?= m)%positive.
    destruct (Pos.compare_spec 7036874417766400 m) as [<-|Hlt|Hgt]; [vm_compute; discriminate|discriminate|].
    intros _. exact (Z.lt_le_incl (Zpos m) 7036874417766400 Hgt).
  - intros _. rewrite (proj2 (Z.leb_gt 0 e)) by lia.
    assert (2 ^ 47 ≤ 2 ^ (- e))%Z by (apply Z.pow_le_mono_r; lia). lia.
Qed.
Lemma invalid_range unit x : invalidValue unit x = false → in_range unit x.
Proof.
  destruct x as [x Hx]. unfold invalidValue, isNaN, isInf, less, in_range.
  destruct x as [s|s| |s m e]; cbn [sf orb]; try done. intros [Hneg Hpct]%orb_false_iff.
  assert (Hs : s = true → unit = UnitCelsius).
  { intros ->. destruct (String.eqb_spec unit UnitCelsius); [done|]. exfalso. revert Hneg. by cbn. }
  split; [done|]. intros ->. apply mantissa_bound in Hx. destruct s; [by discriminate Hs|].
  apply below_hundred; [done|]. by rewrite String.eqb_refl in Hpct.
Qed.

(** ** Batches *)
Definition states : list string := [StateAvailable; StateStale; StateCollecting; StateUnavailable].
Record sound_reading (unit : string) (r : Reading) : Prop := {
  sound_state : State r ∈ states;
  sound_reason : safeReason (Reason r) = Reason r;
  sound_value : ∀ x, Value r = Some x → in_range unit x;
  sound_available : State r = StateAvailable → is_Some (Value r);
}.
Lemma safeReason_twice reason : safeReason (safeReason reason) = safeReason reason.
Proof. unfold safeReason. destruct (isOneOf reason _) eqn:E; [by rewrite E|done]. Qed.
Lemma unavailable_sound unit reason now : safeReason reason = reason → sound_reading unit (unavailable reason now).
Proof. intros. constructor; simpl; [set_solver|done..]. Qed.
Lemma normalReading_sound unit r : sound_reading unit (normalReading unit r).
Proof.
  unfold normalReading. cbn [Value State Reason SampledAt LastSuccessAt].
  destruct (isOneOf (State r) _) eqn:Hs; simpl; [|by apply unavailable_sound]. apply bool_decide_eq_true in Hs.
  destruct (Value r) as [x|] eqn:Hx; simpl.
  - destruct (invalidValue unit x) eqn:Hi; [by apply unavailable_sound|].
    rewrite ?Hx. constructor; cbn; [done|apply safeReason_twice| |by eexists]. intros y [= <-]. by apply invalid_range.
  - destruct (String.eqb_spec (State r) StateAvailable); [by apply unavailable_sound|].
    constructor; simpl; [done|apply safeReason_twice|congruence|done].
Qed.
Record sound_batch (b : Batch) : Prop := {
  batch_devices : Forall (λ d, validID (DevID d) = true ∧ deviceLimits (Kind d) ≠ 0) (BDevices b);
  batch_series : Forall (λ s, validID (SeriesID s) = true ∧ validMetric (Metric s) (Unit_ s) = true) (BSeries b);
  batch_readings : ∀ s r, NoDup (SeriesID <$> BSeries b) → s ∈ BSeries b → BReadings b !! SeriesID s = Some r → sound_reading (Unit_ s) r;
}.
Lemma normalDevices_sound n l : Forall (λ d, validID (DevID d) = true ∧ deviceLimits (Kind d) ≠ 0) (normalDevices n l).
Proof.
  revert n. induction l as [|d l IH]; intros n; simpl; [done|]. case_match; [done|].
  destruct (negb (validID (DevID d)) || (deviceLimits (Kind d) =? 0)) eqn:E; [done|].
  apply orb_false_iff in E as [E1%negb_false_iff E2%Nat.eqb_neq]. by constructor.
Qed.
Record sound_part (series : list Series) (readings : gmap string Reading) : Prop := {
  part_series : Forall (λ s, validID (SeriesID s) = true ∧ validMetric (Metric s) (Unit_ s) = true) series;
  part_readings : ∀ s r, NoDup (SeriesID <$> series) → s ∈ series → readings !! SeriesID s = Some r → sound_reading (Unit_ s) r;
  part_keys : ∀ id, is_Some (readings !! id) → id ∈ SeriesID <$> series;
}.
Lemma sound_part_add series readings s m :
  sound_part series readings → validID (SeriesID s) = true → validMetric (Metric s) (Unit_ s) = true →
  sound_part (series ++ [s])
    (match m with Some r => <[SeriesID s := normalReading (Unit_ s) r]> readings | None => readings end).
Proof.
  intros [P1 P2 P3] Hid Hm. constructor.
  - apply Forall_app_2; [done|]. by constructor.
  - intros u r Hnd Hu Hr. rewrite fmap_app in Hnd. apply NoDup_app in Hnd as (Hnd & Hnew & _).
    assert (Hs : SeriesID s ∉ SeriesID <$> series) by (intros Hin; apply (Hnew _ Hin); set_solver).
    apply elem_of_app in Hu as [Hu|Hu%list_elem_of_singleton].
    + apply (P2 u r Hnd Hu). destruct m; [|done]. rewrite lookup_insert_ne in Hr; [done|].
      intros Heq. apply Hs. rewrite Heq. by apply list_elem_of_fmap_2.
    + subst u. destruct m as [r0|]; [|by destruct Hs; apply P3].
      rewrite lookup_insert_eq in Hr. simplify_eq. apply normalReading_sound.
  - intros id Hk. rewrite fmap_app. apply elem_of_app. destruct m; [|auto].
    destruct (decide (id = SeriesID s)) as [->|Hne]; [right; set_solver|]. rewrite lookup_insert_ne in Hk by done. auto.
Qed.
Lemma normalSeries_sound from acc l : sound_part acc.1 acc.2 →
  sound_part (normalSeries from acc l).1 (normalSeries from acc l).2.
Proof.
  revert acc. induction l as [|s l IH]; intros [series readings] P; [done|]. cbn [normalSeries fst snd] in *.
  destruct (maxSeries <=? _)%nat; [done|].
  destruct (negb (validID (SeriesID s)) || negb (validID (DeviceID s)) || negb (validMetric (Metric s) (Unit_ s))) eqn:E; [by apply IH|].
  apply orb_false_iff in E as [[E1%negb_false_iff _]%orb_false_iff E2%negb_false_iff]. apply IH. by apply sound_part_add.
Qed.
Lemma normalizeBatch_sound b : sound_batch (normalizeBatch b).
Proof.
  unfold normalizeBatch. pose proof (normalSeries_sound (BReadings b) ([], ∅) (BSeries b)) as P.
  destruct (normalSeries _ _ _) as [series readings]. destruct P as [P1 P2 P3].
  - constructor; [done|set_solver|]. intros id [r Hr]. cbn in Hr. by rewrite lookup_empty in Hr.
  - constructor; simpl; [apply normalDevices_sound|done..].
Qed.
Lemma coverage_only_sound c : sound_batch (mkBatch [] [] ∅ c).
Proof. constructor; simpl; [done|done|set_solver]. Qed.

(** ** The inventory *)
Definition of_kind (k : string) (d : Device) : Prop := Kind d = k.
#[local] Instance of_kind_dec k d : Decision (of_kind k d).
Proof. unfold of_kind. apply _. Defined.
Definition howMany (k : string) (l : list Device) : nat := length (filter (of_kind k) l).
(** What the loops of rebuildLocked maintain. *)
Record Joined (j : join) : Prop := {
  joined_devices : deviceIDs j = list_to_set (DevID <$> jDevices j);
  joined_distinct : NoDup (DevID <$> jDevices j);
  joined_counts : ∀ k, default 0 (counts j !! k) = howMany k (jDevices j);
  joined_limits : ∀ k, howMany k (jDevices j) ≤ deviceLimits k;
  joined_series : seriesIDs j = list_to_set (SeriesID <$> jSeries j);
  joined_single : NoDup (SeriesID <$> jSeries j);
  joined_bound : length (jSeries j) ≤ maxSeries;
  joined_known : ∀ s, s ∈ jSeries j → DeviceID s ∈ DevID <$> jDevices j;
  joined_keys : ∀ id, is_Some (jReadings j !! id) → id ∈ SeriesID <$> jSeries j;
}.
(** The readings, as long as no source delivers two series of one ID. *)
Definition Ranged (j : join) : Prop :=
  ∀ s r, s ∈ jSeries j → jReadings j !! SeriesID s = Some r → sound_reading (Unit_ s) r.
Lemma howMany_app k l d : howMany k (l ++ [d]) = howMany k l + (if decide (Kind d = k) then 1 else 0).
Proof. unfold howMany. rewrite filter_app, length_app, filter_cons. unfold of_kind at 2. case_decide; simpl; lia. Qed.
Lemma joinDevice_joined j omitted d : Joined j → Joined (joinDevice (j, omitted) d).1.
Proof.
  intros [J1 J2 J3 J4 J5 J6 J7 J8 J9]. unfold joinDevice. case_bool_decide as Hd; [done|].
  destruct (Nat.leb_spec (deviceLimits (Kind d)) (default 0 (counts j !! Kind d))) as [|Hlt]; [done|].
  rewrite J1, elem_of_list_to_set in Hd.
  constructor; cbn [fst jDevices jSeries jReadings deviceIDs seriesIDs counts]; try done.
  - rewrite J1, fmap_app, list_to_set_app_L. simpl. set_solver.
  - rewrite fmap_app. apply NoDup_app. split_and!; [done| |apply NoDup_singleton]. set_solver.
  - intros k. rewrite howMany_app. destruct (decide (Kind d = k)) as [<-|Hne].
    + rewrite lookup_insert_eq. simpl. rewrite J3. lia.
    + rewrite lookup_insert_ne by done. rewrite J3. lia.
  - intros k. rewrite howMany_app. specialize (J4 k). case_decide as Hk; [|lia]. subst k. rewrite <- J3 in *. lia.
  - intros s Hs. rewrite fmap_app. apply elem_of_app. left. auto.
Qed.
Lemma joinSeries_joined from j s : Joined j → Joined (joinSeries from j s).
Proof.
  intros J. pose proof J as [J1 J2 J3 J4 J5 J6 J7 J8 J9]. unfold joinSeries.
  destruct (negb (bool_decide (DeviceID s ∈ deviceIDs j)) || bool_decide (SeriesID s ∈ seriesIDs j) || (maxSeries <=? length (jSeries j))) eqn:E; [done|].
  apply orb_false_iff in E as [[E1%negb_false_iff%bool_decide_eq_true E2%bool_decide_eq_false]%orb_false_iff E3%Nat.leb_gt].
  rewrite J1, elem_of_list_to_set in E1. rewrite J5, elem_of_list_to_set in E2.
  constructor; cbn [jDevices jSeries jReadings deviceIDs seriesIDs counts]; try done.
  - rewrite J5, fmap_app, list_to_set_app_L. simpl. set_solver.
  - rewrite fmap_app. apply NoDup_app. split_and!; [done| |apply NoDup_singleton]. set_solver.
  - rewrite length_app. simpl. lia.
  - intros u [Hu|Hu%list_elem_of_singleton]%elem_of_app; [auto|by subst].
  - intros id Hk. rewrite fmap_app. apply elem_of_app. destruct (from !! SeriesID s); [|auto].
    destruct (decide (id = SeriesID s)) as [->|Hne]; [right; set_solver|]. rewrite lookup_insert_ne in Hk by done. auto.
Qed.
Lemma joinSeries_ranged from j s : Joined j → Ranged j →
  (∀ r, from !! SeriesID s = Some r → sound_reading (Unit_ s) r) → Ranged (joinSeries from j s).
Proof.
  intros J R Hs. unfold joinSeries.
  destruct (negb (bool_decide (DeviceID s ∈ deviceIDs j)) || bool_decide (SeriesID s ∈ seriesIDs j) || (maxSeries <=? length (jSeries j))) eqn:E; [done|].
  apply orb_false_iff in E as [[_ E2%bool_decide_eq_false]%orb_false_iff _]. rewrite (joined_series _ J), elem_of_list_to_set in E2.
  intros u r Hu Hr. cbn [jSeries jReadings] in *. apply elem_of_app in Hu as [Hu|Hu%list_elem_of_singleton].
  - apply R; [done|]. destruct (from !! SeriesID s); [|done]. rewrite lookup_insert_ne in Hr; [done|].
    intros Heq. apply E2. rewrite Heq. by apply list_elem_of_fmap_2.
  - subst u. destruct (from !! SeriesID s) eqn:Hf; [rewrite lookup_insert_eq in Hr; simplify_eq; by apply Hs|].
    destruct E2. apply (joined_keys _ J). by eexists.
Qed.
Lemma joinDevices_joined l acc : Joined acc.1 → Joined (foldl joinDevice acc l).1.
Proof.
  revert acc. induction l as [|d l IH]; intros [j n] J; [done|]. cbn [foldl]. apply IH. by apply joinDevice_joined.
Qed.
Lemma joinDevices_still l acc :
  jSeries (foldl joinDevice acc l).1 = jSeries acc.1 ∧ jReadings (foldl joinDevice acc l).1 = jReadings acc.1.
Proof.
  revert acc. induction l as [|d l IH]; intros [j n]; [done|]. cbn [foldl]. destruct (IH (joinDevice (j, n) d)) as [-> ->].
  unfold joinDevice. case_bool_decide; [done|]. by destruct (deviceLimits (Kind d) <=? _).
Qed.
Lemma joinAllSeries_joined from l j : Joined j → Joined (foldl (joinSeries from) j l).
Proof. revert j. induction l as [|s l IH]; intros j J; [done|]. cbn [foldl]. by apply IH, joinSeries_joined. Qed.
Lemma joinAllSeries_ranged from l j : Joined j → Ranged j →
  (∀ s r, s ∈ l → from !! SeriesID s = Some r → sound_reading (Unit_ s) r) → Ranged (foldl (joinSeries from) j l).
Proof.
  revert j. induction l as [|s l IH]; intros j J R Hl; [done|]. cbn [foldl]. apply IH; [by apply joinSeries_joined| |set_solver].
  apply joinSeries_ranged; [done..|]. intros r. apply Hl. set_solver.
Qed.
Lemma joinSource_joined j x : Joined j → Joined (joinSource j x).
Proof.
  intros J. unfold joinSource. pose proof (joinDevices_joined (BDevices (batch x.2)) (j, 0%Z) J) as J1.
  destruct (foldl joinDevice _ _) as [j1 omitted]. by destruct (joinAllSeries_joined (BReadings (batch x.2)) (BSeries (batch x.2)) j1 J1).
Qed.
Definition distinct (b : Batch) : Prop := NoDup (SeriesID <$> BSeries b).
Lemma joinSource_ranged j x : Joined j → Ranged j → sound_batch (batch x.2) → distinct (batch x.2) → Ranged (joinSource j x).
Proof.
  intros J R [_ _ B] Hd. unfold joinSource. pose proof (joinDevices_joined (BDevices (batch x.2)) (j, 0%Z) J) as J1.
  destruct (joinDevices_still (BDevices (batch x.2)) (j, 0%Z)) as [S1 S2].
  destruct (foldl joinDevice _ _) as [j1 omitted]. cbn [fst] in *.
  apply (joinAllSeries_ranged (BReadings (batch x.2)) (BSeries (batch x.2)) j1); [done| |by eauto].
  intros s r. rewrite S1, S2. apply R.
Qed.
Lemma empty_joined c : Joined (mkJoin [] [] ∅ c ∅ ∅ ∅).
Proof.
  constructor; cbn; try done; try (by constructor); try lia.
  - set_solver.
  - intros id [r Hr]. by rewrite lookup_empty in Hr.
Qed.
Lemma joined_joined omitted m : Joined (joined omitted m).
Proof.
  unfold joined. generalize (inOrder m). intros l. generalize (empty_joined (if (0 <? omitted)%Z then [mkCoverage "monitoring" omitted true "limit_exceeded"] else [])).
  generalize (mkJoin [] [] ∅ (if (0 <? omitted)%Z then [mkCoverage "monitoring" omitted true "limit_exceeded"] else []) ∅ ∅ ∅).
  induction l as [|x l IH]; intros j J; [done|]. cbn [foldl]. by apply IH, joinSource_joined.
Qed.
Definition all_batches (P : Batch → Prop) (m : gmap string sourceBatch) : Prop := map_Forall (λ _ b, P (batch b)) m.
Lemma joined_ranged omitted m : all_batches sound_batch m → all_batches distinct m → Ranged (joined omitted m).
Proof.
  intros Hs Hd. unfold joined.
  assert (Hl : Forall (λ x : string * sourceBatch, sound_batch (batch x.2) ∧ distinct (batch x.2)) (inOrder m)).
  { unfold inOrder, sortSlice. rewrite merge_sort_Permutation. apply Forall_forall. intros [id b] Hb%elem_of_map_to_list. eauto. }
  set (c := if (0 <? omitted)%Z then _ else _). pose proof (empty_joined c) as J.
  assert (R : Ranged (mkJoin [] [] ∅ c ∅ ∅ ∅)) by (intros s r Hx; cbn in Hx; by apply not_elem_of_nil in Hx).
  revert J R. generalize (mkJoin [] [] ∅ c ∅ ∅ ∅). induction Hl as [|x l [H1 H2] Hl IH]; intros j J R; [done|].
  cbn [foldl]. apply IH; [by apply joinSource_joined|by apply joinSource_ranged].
Qed.

(** What is made of it: both lists in the order of their IDs. *)
Definition ascending (l : list string) : Prop := StronglySorted (λ a b, string_lt a b = true) l.
Record sound_inventory (inv : Inventory) : Prop := {
  inventory_devices : ascending (DevID <$> Devices inv);
  inventory_series : ascending (SeriesID <$> SeriesList inv);
  inventory_limits : ∀ k, howMany k (Devices inv) ≤ deviceLimits k;
  inventory_bound : length (SeriesList inv) ≤ maxSeries;
  inventory_known : ∀ s, s ∈ SeriesList inv → DeviceID s ∈ DevID <$> Devices inv;
}.
Lemma ascending_sorted {A} (f : A → string) l : NoDup (f <$> l) →
  ascending (f <$> sortSlice (λ a b, string_lt (f a) (f b)) l).
Proof.
  intros Hnd. set (le := no_greater (λ a b, string_lt (f a) (f b))).
  assert (Hle : ∀ a b, le a b ↔ string_le (f a) (f b)).
  { intros a b. unfold le, no_greater, string_lt, string_le. by rewrite negb_false_iff. }
  assert (HT : Transitive le) by (intros a b c; rewrite !Hle; apply transitivity).
  assert (HA : Total le) by (intros a b; rewrite !Hle; apply total; apply _).
  assert (Hs : StronglySorted le (sortSlice (λ a b, string_lt (f a) (f b)) l)) by (apply StronglySorted_merge_sort; apply _).
  assert (Hp : NoDup (f <$> sortSlice (λ a b, string_lt (f a) (f b)) l)) by (unfold sortSlice; by rewrite merge_sort_Permutation).
  revert Hs Hp. generalize (sortSlice (λ a b, string_lt (f a) (f b)) l). intros k Hs.
  induction Hs as [|a k Hs IH Ha]; intros Hp; [constructor|]. rewrite fmap_cons in *. apply NoDup_cons in Hp as [Hna Hp].
  constructor; [by apply IH|]. apply Forall_fmap, Forall_forall. intros b Hb. cbn.
  rewrite Forall_forall in Ha. pose proof (proj1 (Hle _ _) (Ha _ Hb)) as Hab. unfold string_lt. apply negb_true_iff, not_true_is_false. intros Hba.
  apply Hna. rewrite (anti_symm string_le (f a) (f b)) by done. by apply list_elem_of_fmap_2.
Qed.
Lemma howMany_Permutation k l l' : l ≡ₚ l' → howMany k l = howMany k l'.
Proof. intros Hp. unfold howMany. by rewrite Hp. Qed.
Lemma inventoryOf_sound `{Codec} j : Joined j → sound_inventory (inventoryOf j).
Proof.
  intros [J1 J2 J3 J4 J5 J6 J7 J8 J9]. unfold inventoryOf. constructor; cbn [Devices SeriesList].
  - by apply ascending_sorted.
  - by apply ascending_sorted.
  - intros k. unfold sortSlice. erewrite howMany_Permutation; [apply J4|apply merge_sort_Permutation].
  - unfold sortSlice. by rewrite merge_sort_Permutation.
  - intros s. unfold sortSlice. rewrite !merge_sort_Permutation. apply J8.
Qed.

Section service.
Context `{Codec}.

(** ** The service and its batches *)
Record Built (s : Service) : Prop := {
  built_batches : all_batches sound_batch (batches s);
  built_inventory : inventory s = inventoryOf (joined (sourceOmitted s) (batches s));
  built_readings : readings s = jReadings (joined (sourceOmitted s) (batches s));
}.
Lemma rebuild_built s : all_batches sound_batch (batches s) → Built (rebuildLocked s).
Proof. by constructor. Qed.
Lemma accept_built s id delivered at_ : Built s → Built (acceptBatchLocked s id delivered at_).
Proof.
  intros B. unfold acceptBatchLocked. destruct (Before _ _); [done|]. apply rebuild_built. cbn [batches with_batches].
  apply map_Forall_insert_2; [|apply B]. cbn [batch]. destruct (_ <? _)%Z; [apply coverage_only_sound|apply normalizeBatch_sound].
Qed.

(** ** The history *)
Fixpoint bytesOf (l : list storedSample) : Z := match l with [] => 0%Z | e :: rest => (stored_size e + bytesOf rest)%Z end.
Lemma bytesOf_app l l' : bytesOf (l ++ l') = (bytesOf l + bytesOf l')%Z.
Proof. induction l as [|e l IH]; cbn; [done|]. rewrite IH. lia. Qed.
Definition newer (a b : storedSample) : Prop := (st_sequence a < st_sequence b)%Z.
Definition encodes (e : storedSample) : Prop :=
  ∃ rd, marshalSample (mkSample (pretty (st_sequence e)) (st_at e) rd) = Ok (st_data e).
(** [log] is everything that was ever stored; the history is its end. *)
Record Logged (s : Service) (log : list storedSample) : Prop := {
  logged_suffix : history s `suffix_of` log;
  logged_sorted : StronglySorted newer log;
  logged_range : Forall (λ e, (1 ≤ st_sequence e ≤ sequence s)%Z) log;
  logged_sequence : (0 ≤ sequence s < 2 ^ 64)%Z;
  logged_bytes : historyBytes s = bytesOf (history s);
  logged_count : length (history s) ≤ maxSamples;
  logged_limit : (historyBytes s ≤ historyLimit s)%Z;
  logged_limits : historyLimit s = (60 * 2 ^ 20)%Z ∧ responseLimit s = (8 * 2 ^ 20)%Z;
  logged_data : Forall encodes log;
}.
Definition in_window (now : time) (l : list storedSample) : Prop :=
  match l with e :: _ => (Sub now (st_at e) ≤ HistoryWindow)%Z | [] => True end.
Lemma prune_spec limit now l bytes : bytes = bytesOf l → (0 ≤ limit)%Z →
  let '(l', bytes') := prune limit now l bytes in
  l' `suffix_of` l ∧ bytes' = bytesOf l' ∧ length l' ≤ maxSamples ∧ (bytes' ≤ limit)%Z ∧ in_window now l'.
Proof.
  revert bytes. induction l as [|e l IH]; intros bytes -> Hlim; cbn [prune].
  - split_and!; try done. cbn. lia.
  - destruct (_ || _) eqn:E.
    + specialize (IH (bytesOf (e :: l) - stored_size e)%Z). destruct (prune _ _ _ _) as [l' bytes'].
      destruct IH as (I1 & I2); [cbn; lia|done|]. split; [by apply suffix_cons_r|done].
    + apply orb_false_iff in E as [[E1%Nat.ltb_ge E2%Z.ltb_ge]%orb_false_iff E3%Z.ltb_ge]. by split_and!.
Qed.
Lemma prune_logged now s log : Logged s log → Logged (pruneLocked now s) log ∧ in_window now (history (pruneLocked now s)).
Proof.
  intros [L1 L2 L3 L4 L5 L6 L7 L8 L9]. unfold pruneLocked.
  pose proof (prune_spec (historyLimit s) now (history s) (historyBytes s) L5) as P.
  destruct (prune _ _ _ _) as [l' bytes']. destruct P as (P1 & P2 & P3 & P4 & P5); [destruct L8 as [-> _]; lia|].
  split; [|done]. constructor; cbn; try done. by etrans.
Qed.
(** record stores a sample that is newer than all others, or none. *)
Definition stored (now : time) (s : Service) : list storedSample :=
  match marshalSample (mkSample (pretty (wrapU64 (sequence s + 1))) now (currentReading now <$> readings s)) with
  | Ok data => [mkStored now (wrapU64 (sequence s + 1)) data]
  | Err _ => []
  end.
Lemma StronglySorted_end {A} (R : A → A → Prop) l e : StronglySorted R l → Forall (λ a, R a e) l → StronglySorted R (l ++ [e]).
Proof.
  induction 1 as [|a l Hs IH Ha]; intros Hf; [by repeat constructor|]. apply Forall_cons in Hf as [Hae Hf].
  cbn. constructor; [by apply IH|]. apply Forall_app_2; [done|]. by constructor.
Qed.
Lemma record_logged now s log : (sequence s + 1 < 2 ^ 64)%Z → Logged s log → Logged (record now s) (log ++ stored now s).
Proof.
  intros Hq [L1 L2 L3 L4 L5 L6 L7 L8 L9]. unfold record, stored, currentLocked.
  cbn [sequence with_history Readings readings]. rewrite wrapU64_id by lia.
  assert (Hr : Forall (λ e, (1 ≤ st_sequence e ≤ sequence s + 1)%Z) log) by (eapply Forall_impl; [exact L3|cbn; lia]).
  destruct (marshalSample _) as [data|err] eqn:Hd; [|rewrite app_nil_r; constructor; cbn; try done; lia].
  unfold pruneLocked. cbn [historyLimit history historyBytes with_history sequence].
  set (e := mkStored now (sequence s + 1) data).
  pose proof (prune_spec (historyLimit s) now (history s ++ [e]) (historyBytes s + stored_size e)%Z) as P.
  destruct (prune _ _ _ _) as [l' bytes']. destruct P as (P1 & P2 & P3 & P4 & P5).
  { rewrite bytesOf_app, L5. cbn. lia. }
  { destruct L8 as [-> _]. lia. }
  constructor; cbn; try done; try lia.
  - etrans; [exact P1|]. destruct L1 as [old ->]. exists old. by rewrite (assoc_L (++)).
  - apply StronglySorted_end; [done|]. eapply Forall_impl; [exact L3|]. unfold newer, e. cbn. lia.
  - apply Forall_app_2; [done|]. constructor; [cbn; lia|done].
  - apply Forall_app_2; [done|]. constructor; [by eexists|done].
Qed.

(** ** Snapshot *)
Definition fresh_from (seq : Z) (e : storedSample) : Prop := (seq < st_sequence e)%Z.
Definition start_of (now : time) (l : list storedSample) : time := match l with e :: _ => st_at e | [] => now end.
Lemma newest_spec reset seq budget l :
  let '(chosen, trimmed) := newest reset seq budget l in
  ∃ rest, l = chosen ++ rest ∧ (reset = false → Forall (fresh_from seq) chosen) ∧
    (trimmed = false → rest = [] ∨ reset = false ∧ ∃ e older, rest = e :: older ∧ ¬ fresh_from seq e).
Proof.
  revert budget. induction l as [|e l IH]; intros budget; cbn [newest]; [by exists []; auto|].
  destruct (negb reset && (st_sequence e <=? seq)%Z) eqn:E.
  - apply andb_true_iff in E as [E1%negb_true_iff E2%Z.leb_le]. exists (e :: l). split_and!; [done..|].
    intros _. right. split; [done|]. exists e, l. split; [done|]. unfold fresh_from. lia.
  - destruct (budget <? _)%Z; [by exists (e :: l)|]. specialize (IH (budget - (len (st_data e) + 1))%Z).
    destruct (newest _ _ _ l) as [chosen trimmed]. destruct IH as (rest & -> & I2 & I3). exists rest. split_and!; [done| |done].
    intros ->. constructor; [|auto]. cbn in E. apply Z.leb_gt in E. done.
Qed.
Lemma decodeAll_drop k l samples : decodeAll l = Ok samples → decodeAll (drop k l) = Ok (drop k samples).
Proof.
  revert l samples. induction k as [|k IH]; intros l samples Hd; [by rewrite !drop_0|].
  destruct l as [|e l]; cbn in Hd; [by simplify_eq|]. apply result_bind_ok in Hd as (x & Hx & Hd).
  apply result_bind_ok in Hd as (xs & Hxs & Hd). simplify_eq. cbn. by apply IH.
Qed.
Definition start_sample (now : time) (l : list Sample) : time := match l with s :: _ => CapturedAt s | [] => now end.
Definition small (limit : Z) (r : Snapshot) : Prop := ∃ data, marshalSnapshot r = Ok data ∧ (len data ≤ limit)%Z.
Lemma trim_spec limit now r start samples resp : trim limit now r start samples = Ok resp →
  ∃ k start', resp = with_samples r start' (drop k samples) ∧ small limit resp ∧
    (start' = start ∧ k = 0 ∨ start' = start_sample now (drop k samples)).
Proof.
  revert start. induction samples as [|s l IH]; intros start Ht; cbn [trim] in Ht;
    apply result_bind_ok in Ht as (data & Hdata & Ht); destruct (Z.leb_spec (len data) limit) as [Hle|Hgt].
  - simplify_eq. exists 0, start. split_and!; [done|by exists data|auto].
  - done.
  - simplify_eq. exists 0, start. split_and!; [done|by exists data|auto].
  - apply IH in Ht as (k & start' & -> & Hs & Hk). exists (S k), start'. split_and!; [done..|].
    right. destruct Hk as [[-> ->] | ->]; [by destruct l|done].
Qed.

(** What the encodings promise. *)
Definition hex (n : nat) (s : string) : Prop :=
  String.length s = n ∧ Forall (λ c, is_digit c || is_lower c = true) (list_ascii_of_string s).
Class CodecLaws := {
  cursor_back : ∀ g q i, hex 32 g → hex 64 i → (0 ≤ q < 2 ^ 64)%Z →
    parseCursor (encodeCursor (mkCursor g (pretty q) i)) = Some (mkCursor g (pretty q) i) ∧
    (0 < len (encodeCursor (mkCursor g (pretty q) i)) ≤ 256)%Z;
  revision_hex : ∀ s, hex 64 (sha256hex s);
  sample_back : ∀ x data, marshalSample x = Ok data →
    ∃ x', unmarshalSample data = Ok x' ∧ SampleSequence x' = SampleSequence x ∧ CapturedAt x' = CapturedAt x;
}.
Lemma decode_start `{!CodecLaws} now l samples : Forall encodes l → decodeAll l = Ok samples → start_sample now samples = start_of now l.
Proof.
  destruct l as [|e l]; intros Hf Hd; cbn in Hd; [by simplify_eq|].
  apply Forall_cons in Hf as [[rd He] _]. destruct (sample_back _ _ He) as (x & Hx & _ & Hc). rewrite Hx in Hd. cbn in Hd.
  apply result_bind_ok in Hd as (xs & _ & Hd). simplify_eq. by cbn.
Qed.
Lemma decodeCursor_cursorOf `{!CodecLaws} s : hex 32 (generation s) → hex 64 (Revision (inventory s)) → (0 ≤ sequence s < 2 ^ 64)%Z →
  decodeCursor (encodeCursor (cursorOf s)) = Ok (cursorOf s, sequence s) ∧ encodeCursor (cursorOf s) ≠ "".
Proof.
  intros Hg Hi Hq. unfold cursorOf. destruct (cursor_back _ _ _ Hg Hi Hq) as [Hp Hl]. split; [|intros E; rewrite E in Hl; unfold len in Hl; simpl in Hl; lia].
  unfold decodeCursor. rewrite (proj2 (Z.ltb_ge _ _)), Hp by lia. cbn [Generation InventoryRevision Sequence].
  destruct (String.eqb_spec (generation s) "") as [E|_]; [destruct Hg as [Hg _]; by rewrite E in Hg|].
  destruct (String.eqb_spec (Revision (inventory s)) "") as [E|_]; [destruct Hi as [Hi _]; by rewrite E in Hi|].
  cbn [orb]. rewrite ParseUint_pretty by done. by rewrite String.eqb_refl.
Qed.
(** An answer is the end of the history, and tells what it leaves out. *)
Lemma answer_spec `{!CodecLaws} s now reset previous seq resp :
  Forall encodes (history s) → StronglySorted newer (history s) → answer s now reset previous seq = Ok resp →
  ∃ skipped answered, history s = skipped ++ answered ∧ decodeAll answered = Ok (Samples resp) ∧
    Reset_ resp = reset ∧ SnapCursor resp = encodeCursor (cursorOf s) ∧ small (responseLimit s) resp ∧
    (reset = false → Forall (fresh_from seq) answered) ∧
    (Forall (λ e, reset = false ∧ ¬ fresh_from seq e) skipped ∨ WindowStart resp = start_of now answered) ∧
    (SnapInventory resp = None → reset = false ∧ InventoryRevision previous = Revision (inventory s)).
Proof.
  intros Henc Hsort Ha. unfold answer in Ha. apply result_bind_ok in Ha as (inv & Hinv & Ha).
  apply result_bind_ok in Ha as (metadata & Hmeta & Ha).
  pose proof (newest_spec reset seq (responseLimit s - len metadata - 16) (reverse (history s))) as N.
  destruct (newest _ _ _ _) as [chosen trimmed]. destruct N as (rest & Hrev & N1 & N2).
  apply result_bind_ok in Ha as (samples & Hd & Ha).
  assert (Hh : history s = reverse rest ++ reverse chosen) by (by rewrite <- reverse_app, <- Hrev, reverse_involutive).
  apply trim_spec in Ha as (k & start & -> & Hsm & Hk).
  exists (reverse rest ++ take k (reverse chosen)), (drop k (reverse chosen)). cbn [Samples Reset_ SnapCursor WindowStart SnapInventory with_samples frame].
  assert (Henc' : Forall encodes (drop k (reverse chosen))).
  { apply Forall_drop. rewrite Hh in Henc. by apply Forall_app in Henc as [_ ?]. }
  split_and!; [by rewrite <- (assoc_L (++)), take_drop|by apply decodeAll_drop|done..| | |].
  - intros Hr. apply Forall_drop, Forall_reverse. auto.
  - destruct Hk as [[-> ->] | ->]; [|right; eapply decode_start; [done|by apply decodeAll_drop]].
    rewrite drop_0, take_0, app_nil_r. destruct trimmed; [by right|left]. apply Forall_reverse.
    destruct N2 as [->|(-> & e & older & -> & He)]; [done..|]. rewrite Hh in Hsort. rewrite reverse_cons in Hsort.
    apply StronglySorted_app in Hsort as (_ & Hsort & _). apply StronglySorted_app in Hsort as (Hse & _).
    constructor; [done|]. apply Forall_forall. intros x Hx. split; [done|].
    assert (newer x e) by (apply Hse; [by apply elem_of_reverse|set_solver]). unfold newer, fresh_from in *. lia.
  - intros ->. destruct (reset || _) eqn:E; [by destruct (copyInventory _)|].
    apply orb_false_iff in E as [-> E%negb_false_iff]. by apply String.eqb_eq in E.
Qed.
End service.
End MonitoringLaws.
