(* ===== verification/SourceLaws.v ===== *)
(** * Laws of the sources of the monitoring (src/internal/monitoring/service.go)

    A source is read by one goroutine at a time, closed once and never while it
    is read; there are never more than [maxSources]; after a stop every
    goroutine comes to an end, and then every source is closed. *)
From S2P Require Import Prelude GoStrings Monitoring MonitoringSources.

Module SourceLaws.
Import Monitoring MonitoringSources.
#[local] Opaque maxSources.

(** ** What the trace says about one slot *)
Inductive phase := Quiet | InUse | Shut | Wrong.
#[export] Instance phase_eq_dec : EqDecision phase.
Proof. solve_decision. Defined.
Definition phase_step (n : nat) (p : phase) (e : event) : phase :=
  match e with
  | Begins m => if (m =? n)%nat then match p with Quiet => InUse | _ => Wrong end else p
  | Ends m => if (m =? n)%nat then match p with InUse => Quiet | _ => Wrong end else p
  | Closes m => if (m =? n)%nat then match p with Quiet => Shut | _ => Wrong end else p
  | Discards _ => p
  end.
Definition phaseOf (n : nat) (l : list event) : phase := foldl (phase_step n) Quiet l.
Lemma phaseOf_app n l l' : phaseOf n (l ++ l') = foldl (phase_step n) (phaseOf n l) l'.
Proof. apply foldl_app. Qed.
Lemma phaseOf_discards n l (more : list Source) : phaseOf n (l ++ (Discards <$> more)) = phaseOf n l.
Proof. rewrite phaseOf_app. induction more using rev_ind; [done|]. by rewrite fmap_app, foldl_app. Qed.

Definition concerns (n : nat) (t : task) : bool :=
  match t with Collecting _ m | Closing m | Closed m => (m =? n)%nat | Discovering => false end.
Definition about (n : nat) (l : list task) : list task := filter (λ t, concerns n t = true) l.
Lemma about_app n l l' : about n (l ++ l') = about n l ++ about n l'.
Proof. apply filter_app. Qed.
Lemma about_cons n t l : about n (t :: l) = (if concerns n t then [t] else []) ++ about n l.
Proof. unfold about. rewrite filter_cons. destruct (concerns n t); by case_decide. Qed.

(** What a slot, its goroutines, its past and the table say fit together. *)
Inductive fits (n : nat) (s : sourceSlot) : list task → phase → bool → Prop :=
| fits_idle : busy s = false → retired s = false → fits n s [] Quiet true
| fits_busy : busy s = true → fits n s [Collecting (SourceID (source s)) n] InUse true
| fits_closing : busy s = false → retired s = true → fits n s [Closing n] Quiet true
| fits_closed : busy s = false → retired s = true → fits n s [Closed n] Shut true
| fits_gone : busy s = false → retired s = true → fits n s [] Shut false.
Definition holds (r : Runner) (n : nat) (s : sourceSlot) : bool := bool_decide (slots r !! SourceID (source s) = Some n).

Record Kept (r : Runner) : Prop := {
  kept_fits : ∀ n s, store r !! n = Some s → fits n s (about n (tasks r)) (phaseOf n (trace r)) (holds r n s);
  kept_fresh : ∀ n, store r !! n = None → about n (tasks r) = [] ∧ phaseOf n (trace r) = Quiet;
  kept_slots : ∀ id n, slots r !! id = Some n → ∃ s, store r !! n = Some s ∧ SourceID (source s) = id;
  kept_bound : size (slots r) ≤ maxSources;
}.

(** A step that touches slot [n] only. *)
Lemma Kept_slot r r' n s' :
  Kept r →
  store r' !! n = Some s' →
  (∀ m, m ≠ n → store r' !! m = store r !! m ∧ about m (tasks r') = about m (tasks r) ∧ phaseOf m (trace r') = phaseOf m (trace r)) →
  (∀ id m, m ≠ n → slots r' !! id = Some m ↔ slots r !! id = Some m) →
  (∀ id, slots r' !! id = Some n → SourceID (source s') = id) →
  size (slots r') ≤ maxSources →
  fits n s' (about n (tasks r')) (phaseOf n (trace r')) (holds r' n s') →
  Kept r'.
Proof.
  intros [K1 K2 K3 K4] Hn Hm Hs Hid Hsz Hf. constructor; [| | |done].
  - intros m s. destruct (decide (m = n)) as [->|Hne]; [by intros; simplify_eq|].
    destruct (Hm m Hne) as (-> & -> & ->). intros H. apply K1 in H.
    replace (holds r' m s) with (holds r m s); [done|]. unfold holds. apply bool_decide_ext. by rewrite Hs.
  - intros m. destruct (decide (m = n)) as [->|Hne]; [by rewrite Hn|]. destruct (Hm m Hne) as (-> & -> & ->). apply K2.
  - intros id m Hi. destruct (decide (m = n)) as [->|Hne]; [by eauto|].
    destruct (Hm m Hne) as (-> & _). rewrite Hs in Hi by done. by apply K3.
Qed.
(** The same where the table of slots does not change. *)
Lemma Kept_still r r' n s s' :
  Kept r → store r !! n = Some s → source s' = source s → slots r' = slots r →
  store r' !! n = Some s' →
  (∀ m, m ≠ n → store r' !! m = store r !! m ∧ about m (tasks r') = about m (tasks r) ∧ phaseOf m (trace r') = phaseOf m (trace r)) →
  fits n s' (about n (tasks r')) (phaseOf n (trace r')) (holds r n s) →
  Kept r'.
Proof.
  intros K Hn Hsrc Hslots Hn' Hm Hf. eapply Kept_slot; try done; rewrite ?Hslots; try done.
  - intros id Hi. rewrite Hsrc. destruct (kept_slots _ K _ _ Hi) as (? & ? & ?). by simplify_eq.
  - apply (kept_bound _ K).
  - unfold holds in *. by rewrite Hslots, Hsrc.
Qed.
(** A step that touches nothing of the slots. *)
Lemma Kept_same r r' :
  Kept r → store r' = store r → slots r' = slots r →
  (∀ n, about n (tasks r') = about n (tasks r) ∧ phaseOf n (trace r') = phaseOf n (trace r)) → Kept r'.
Proof.
  intros [K1 K2 K3 K4] Hst Hsl Hn. unfold holds in *.
  constructor; unfold holds; rewrite ?Hst, ?Hsl; try done; intros n; destruct (Hn n) as [-> ->]; auto.
Qed.
Lemma other_task m n t l l' : m ≠ n → concerns m t = false → about m (l ++ t :: l') = about m (l ++ l').
Proof. intros _ Ht. by rewrite !about_app, about_cons, Ht. Qed.
Lemma not_concerns m n : m ≠ n → (n =? m)%nat = false.
Proof. intros. apply Nat.eqb_neq. congruence. Qed.
#[local] Hint Resolve not_concerns : core.
Lemma phaseOf_other m n e l : m ≠ n → e = Begins n ∨ e = Ends n ∨ e = Closes n → phaseOf m (l ++ [e]) = phaseOf m l.
Proof. intros Hm He. rewrite phaseOf_app. by destruct He as [->|[->| ->]]; simpl; rewrite not_concerns. Qed.
Lemma alter_ne {A} (f : A → A) (l : list A) m n : m ≠ n → alter f n l !! m = l !! m.
Proof. intros. by apply list_lookup_alter_ne. Qed.

(** Case analysis on how slot [n], known to be [s] by [Hs], fits. *)
Ltac fit_cases K Hs :=
  lazymatch type of Hs with store ?r !! ?n = Some ?s =>
    let F := fresh "F" in pose proof (kept_fits _ K _ _ Hs) as F; revert F;
    generalize (about n (tasks r)) (phaseOf n (trace r)) (holds r n s);
    intros ? ? ? F; destruct F; simpl; try congruence
  end.

Section laws.
Context `{Codec}.

(** ** Every operation keeps it *)
Lemma scheduleSlot_kept r id n : Kept r → slots r !! id = Some n →
  Kept (scheduleSlot r (id, n)) ∧ slots (scheduleSlot r (id, n)) = slots r.
Proof.
  intros K Hid. destruct (kept_slots _ K _ _ Hid) as (s & Hs & <-). unfold scheduleSlot. rewrite Hs.
  destruct (busy s || retired s) eqn:Hb; [done|]. apply orb_false_iff in Hb as [Hb Hr]. split; [|done].
  apply (Kept_still r _ n s (set_busy true s)); try done.
  - simpl. by rewrite list_lookup_alter_eq, Hs.
  - intros m Hm. simpl. rewrite alter_ne, about_app, about_cons by done. simpl. rewrite not_concerns by done. simpl.
    rewrite app_nil_r. split_and!; [done..|]. apply (phaseOf_other m n); auto.
  - simpl. rewrite about_app, about_cons, phaseOf_app. simpl. rewrite Nat.eqb_refl. fit_cases K Hs. by apply (fits_busy n (set_busy true s)).
Qed.
Lemma foldl_kept {A} (f : Runner → A → Runner) (ok : A → gmap string nat → Prop) l r :
  (∀ r a, Kept r → ok a (slots r) → Kept (f r a) ∧ slots (f r a) = slots r) →
  Kept r → (∀ a, a ∈ l → ok a (slots r)) → Kept (foldl f r l) ∧ slots (foldl f r l) = slots r.
Proof.
  intros Hf. revert r. induction l as [|a l IH]; intros r K Hl; [done|]. simpl.
  destruct (Hf r a K) as [K' E]; [apply Hl; set_solver|].
  destruct (IH (f r a) K') as [K'' E']; [rewrite E; set_solver|]. by rewrite E', E.
Qed.
Lemma schedule_kept r : Kept r → Kept (schedule r).
Proof.
  intros K. unfold schedule. destruct (stopped r || cancelled r); [done|].
  apply (foldl_kept scheduleSlot (λ a m, m !! a.1 = Some a.2)); [|done|].
  - intros r' [id n] K' Hid. by apply scheduleSlot_kept.
  - intros [id n]. apply elem_of_map_to_list.
Qed.
Lemma retireLocked_kept r n : Kept r → Kept (retireLocked r n) ∧ slots (retireLocked r n) = slots r.
Proof.
  intros K. unfold retireLocked. destruct (store r !! n) as [s|] eqn:Hs; [|done].
  destruct (retired s) eqn:Hr; [done|]. destruct (busy s) eqn:Hb; (split; [|done]).
  - apply (Kept_still r _ n s (set_retired s)); try done.
    + simpl. by rewrite list_lookup_alter_eq, Hs.
    + intros m Hm. simpl. by rewrite alter_ne.
    + simpl. fit_cases K Hs. by apply (fits_busy n (set_retired s)).
  - apply (Kept_still r _ n s (set_retired s)); try done.
    + simpl. by rewrite list_lookup_alter_eq, Hs.
    + intros m Hm. simpl. rewrite alter_ne, about_app, about_cons, app_nil_r by done. simpl. rewrite not_concerns by done. simpl.
      by rewrite !app_nil_r.
    + simpl. rewrite about_app, about_cons, !app_nil_r. simpl. rewrite Nat.eqb_refl. fit_cases K Hs. by apply (fits_closing n (set_retired s)).
Qed.
Lemma Kept_service f r : Kept r → Kept (with_service f r).
Proof. intros K. by apply (Kept_same _ _ K). Qed.
#[local] Hint Resolve Kept_service : core.
Lemma retireUnless_kept keep r x : Kept r → Kept (retireUnless keep r x) ∧ slots (retireUnless keep r x) = slots r.
Proof.
  intros K. unfold retireUnless. destruct (keep !! x.1); [done|].
  destruct (retireLocked_kept r x.2 K) as [K' E]. by auto.
Qed.
Lemma addSource_kept r x : SourceID x.2 = x.1 → Kept r → Kept (addSource r x).
Proof.
  destruct x as [id s]. simpl. intros <- K. unfold addSource. case_bool_decide as Hid; [done|].
  destruct (maxSources <=? size (slots r))%nat eqn:Hsz; [by auto|]. apply Nat.leb_gt in Hsz.
  assert (Hnew : store r !! length (store r) = None) by (apply lookup_ge_None; lia).
  assert (Hnone : slots r !! SourceID s = None) by (destruct (slots r !! SourceID s); [by destruct Hid|done]).
  destruct (kept_fresh _ K _ Hnew) as [HA HP].
  apply (Kept_slot r _ (length (store r)) (mkSlot s false false)); simpl; try done.
  - by rewrite lookup_app_r, Nat.sub_diag by lia.
  - intros m Hm. split; [|done]. destruct (decide (m < length (store r))); [by apply lookup_app_l|].
    rewrite !lookup_ge_None_2; [done..|lia|]. rewrite length_app. simpl. lia.
  - intros id m Hm. destruct (decide (id = SourceID s)) as [->|Hne]; [|by rewrite lookup_insert_ne].
    rewrite lookup_insert_eq, Hnone. split; congruence.
  - intros id. destruct (decide (id = SourceID s)) as [->|Hne]; [done|]. rewrite lookup_insert_ne by done.
    intros Hi. destruct (kept_slots _ K _ _ Hi) as (? & ? & _). congruence.
  - rewrite map_size_insert_None by done. lia.
  - rewrite HA, HP. unfold holds. simpl. rewrite lookup_insert_eq, bool_decide_eq_true_2 by done. by apply fits_idle.
Qed.
Lemma keepSources_ids sources id s : (keepSources sources).1 !! id = Some s → SourceID s = id.
Proof.
  unfold keepSources. induction sources as [|[found|] l IH] using rev_ind; [done|rewrite foldl_app; simpl..]; [|done].
  destruct (validID (SourceID found)); simpl; [|done]. destruct (maxSources <=? _)%nat; [done|]. simpl.
  intros [[<- <-]|[_ Hl]]%lookup_insert_Some; auto.
Qed.
Lemma replaceSources_kept sources order r : orderOf sources order → Kept r → Kept (replaceSourcesLocked sources order r).
Proof.
  intros Ho K. unfold replaceSourcesLocked. unfold orderOf in Ho. pose proof (keepSources_ids sources) as Hids.
  destruct (keepSources sources) as [keep omitted]. simpl in *. apply Kept_service.
  assert (Forall (λ x : string * Source, SourceID x.2 = x.1) order) as Hf.
  { rewrite Ho, Forall_forall. intros [id s] Hx%elem_of_map_to_list. by apply Hids. }
  set (r1 := with_service _ r). assert (Kept r1) as K1 by (by apply Kept_service).
  destruct (foldl_kept (retireUnless keep) (λ _ _, True) (map_to_list (slots r1)) r1) as [K2 _]; [|done..|].
  { intros r' x K' _. by apply retireUnless_kept. }
  change (slots r) with (slots r1). revert K2. generalize (foldl (retireUnless keep) r1 (map_to_list (slots r1))). clear -Hf.
  induction Hf as [|x order Hx Hf IH]; intros r' K; [done|]. simpl. by apply IH, addSource_kept.
Qed.

(** ** Every step keeps it *)
Lemma about_middle m t l l' : about m (l ++ t :: l') = about m l ++ (if concerns m t then [t] else []) ++ about m l'.
Proof. by rewrite about_app, about_cons. Qed.
(** A goroutine about slot [n] is the only one. *)
Lemma only_task r l l' t n : Kept r → tasks r = l ++ t :: l' → concerns n t = true →
  ∃ s, store r !! n = Some s ∧ about n l = [] ∧ about n l' = [] ∧ fits n s [t] (phaseOf n (trace r)) (holds r n s).
Proof.
  intros K E Ht. destruct (store r !! n) as [s|] eqn:Hs.
  - exists s. pose proof (kept_fits _ K _ _ Hs) as F. rewrite E, about_middle, Ht in F. simpl in F.
    assert (∃ u, about n l ++ t :: about n l' = [u]) as [u Hu].
    { inversion F as [? ? HA|? HA|? ? HA|? ? HA|? ? HA]; try (by eexists); by destruct (about n l). }
    rewrite Hu in F. destruct (about n l) as [|v rest]; simpl in Hu.
    + by injection Hu as <- ->.
    + injection Hu as _ Hu. by destruct rest.
  - destruct (kept_fresh _ K _ Hs) as [HA _]. rewrite E, about_middle, Ht in HA. by destruct (about n l).
Qed.
(** The other slots see nothing of it. *)
Lemma others_still r l l' t n m : tasks r = l ++ t :: l' → concerns n t = true → m ≠ n →
  about m l ++ about m l' = about m (tasks r).
Proof.
  intros -> Ht Hm. rewrite about_middle. destruct t as [? k|k|k|]; simpl in *; try done;
    apply Nat.eqb_eq in Ht as ->; by rewrite not_concerns.
Qed.
Definition Retiring (r : Runner) : Prop := stopped r = true → ∀ n s, store r !! n = Some s → retired s = true.
Lemma concerned n : (n =? n)%nat = true.
Proof. apply Nat.eqb_refl. Qed.
#[local] Hint Resolve concerned : core.
Lemma collected_kept r l l' id n delivered at_ : Kept r → Retiring r → tasks r = l ++ Collecting id n :: l' →
  Kept (collected id n delivered at_ (with_tasks (l ++ l') [] r)).
Proof.
  intros K HR E. destruct (only_task _ _ _ _ n K E) as (s & Hs & HA & HA' & F); [by simpl|].
  unfold collected. simpl. rewrite Hs. inversion F as [|Hb Ht HP Hh| | |]. subst id.
  assert (Hn : alter (set_busy false) n (store r) !! n = Some (set_busy false s)) by (by rewrite list_lookup_alter_eq, Hs).
  assert (HP' : phaseOf n (trace r ++ [Ends n]) = Quiet) by (rewrite phaseOf_app, <- HP; simpl; by rewrite concerned).
  pose proof (λ m, others_still r l l' _ n m E (concerned n)) as Ho.
  destruct (retired s) eqn:Hr; simpl.
  - apply (Kept_still r _ n s (set_busy false s)); try done; simpl; rewrite ?app_nil_r.
    + intros m Hm. rewrite alter_ne, !about_app, about_cons, (phaseOf_other m n), <- Ho by auto. simpl.
      rewrite not_concerns by done. simpl. by rewrite app_nil_r.
    + rewrite !about_app, about_cons, HA, HA', HP', <- Hh. simpl. rewrite concerned. by apply (fits_closing n (set_busy false s)).
  - destruct (stopped r) eqn:Hst; [by rewrite (HR Hst n s Hs) in Hr|].
    rewrite bool_decide_eq_true_2 by (unfold holds in Hh; by symmetry in Hh; apply bool_decide_eq_true in Hh). apply Kept_service.
    apply (Kept_still r _ n s (set_busy false s)); try done; simpl; rewrite ?app_nil_r.
    + intros m Hm. by rewrite alter_ne, !about_app, (phaseOf_other m n), <- Ho by auto.
    + rewrite !about_app, HA, HA', HP', <- Hh. by apply (fits_idle n (set_busy false s)).
Qed.
Lemma close_kept r l l' n : Kept r → tasks r = l ++ Closing n :: l' → Kept (with_tasks (l ++ Closed n :: l') [Closes n] r).
Proof.
  intros K E. destruct (only_task _ _ _ _ n K E) as (s & Hs & HA & HA' & F); [by simpl|].
  pose proof (λ m, others_still r l l' _ n m E (concerned n)) as Ho. inversion F as [| |Hb Hr Ht HP Hh| |].
  apply (Kept_still r _ n s s); try done; simpl.
  - intros m Hm. rewrite about_middle, (phaseOf_other m n), <- Ho by auto. simpl. by rewrite not_concerns.
  - rewrite about_middle, HA, HA', phaseOf_app, <- Hh, <- HP. simpl. rewrite concerned. by apply fits_closed.
Qed.
Lemma closed_kept r l l' n : Kept r → tasks r = l ++ Closed n :: l' → Kept (closeSlot n (with_tasks (l ++ l') [] r)).
Proof.
  intros K E. destruct (only_task _ _ _ _ n K E) as (s & Hs & HA & HA' & F); [by simpl|].
  pose proof (λ m, others_still r l l' _ n m E (concerned n)) as Ho. inversion F as [| | |Hb Hr Ht HP Hh|].
  unfold closeSlot. simpl. rewrite Hs. symmetry in Hh. unfold holds in Hh. rewrite Hh. apply bool_decide_eq_true in Hh.
  apply (Kept_slot r _ n s); try done; simpl; rewrite ?app_nil_r.
  - intros m Hm. by rewrite about_app, <- Ho.
  - intros id m Hm. rewrite lookup_delete_Some. split; [by intros [_ ?]|]. intros Hi. split; [|done]. intros <-. congruence.
  - intros id [Hne Hi]%lookup_delete_Some. destruct (kept_slots _ K _ _ Hi) as (? & ? & ?). by simplify_eq.
  - pose proof (kept_bound _ K). rewrite map_size_delete_Some by eauto. lia.
  - rewrite about_app, HA, HA', <- HP. unfold holds. simpl. rewrite lookup_delete_eq. by apply fits_gone.
Qed.

(** ** The invariant of all that can happen *)
Record Orderly (r : Runner) : Prop := {
  orderly_kept : Kept r;
  orderly_retiring : Retiring r;
  orderly_done : done r = true → stopped r = true ∧ tasks r = [];
}.
(** What a slot can become: its source stays, and retired is for good. *)
Definition grows (st st' : list sourceSlot) : Prop :=
  ∀ n s', st' !! n = Some s' → ∃ s, st !! n = Some s ∧ source s' = source s ∧ (retired s = true → retired s' = true).
Lemma grows_refl st : grows st st.
Proof. intros n s' Hs. by exists s'. Qed.
Lemma grows_alter st n f : (∀ s, source (f s) = source s ∧ (retired s = true → retired (f s) = true)) → grows st (alter f n st).
Proof.
  intros Hf m s'. destruct (decide (m = n)) as [->|Hm]; [rewrite list_lookup_alter_eq|rewrite alter_ne by done; by exists s'].
  destruct (st !! n) as [s|]; [|done]. intros [= <-]. exists s. destruct (Hf s). done.
Qed.
Lemma retiring_grows r r' : stopped r' = stopped r → grows (store r) (store r') → Retiring r → Retiring r'.
Proof. intros Hs Hg HR Hst n s' Hn. destruct (Hg _ _ Hn) as (s & Hns & _ & Hr). rewrite Hs in Hst. eauto. Qed.

Lemma grows_trans st1 st2 st3 : grows st1 st2 → grows st2 st3 → grows st1 st3.
Proof. intros H12 H23 n s3 Hs. apply H23 in Hs as (s2 & Hs & -> & ?). apply H12 in Hs as (s1 & ? & -> & ?). eauto 6. Qed.
Lemma retireLocked_flags r n : stopped (retireLocked r n) = stopped r ∧ done (retireLocked r n) = done r ∧
  grows (store r) (store (retireLocked r n)) ∧ ∀ s, store (retireLocked r n) !! n = Some s → retired s = true.
Proof.
  assert (Hg : grows (store r) (alter set_retired n (store r))) by (by apply grows_alter).
  unfold retireLocked. destruct (store r !! n) as [s|] eqn:Hs.
  - assert (Hn : alter set_retired n (store r) !! n = Some (set_retired s)) by (by rewrite list_lookup_alter_eq, Hs).
    destruct (retired s) eqn:Hr; [|destruct (busy s)]; simpl; split_and!; try done; auto using grows_refl; intros; simplify_eq; done.
  - split_and!; auto using grows_refl. intros. congruence.
Qed.
Lemma retireAll_flags l r : stopped (foldl retireLocked r l) = stopped r ∧ done (foldl retireLocked r l) = done r ∧
  grows (store r) (store (foldl retireLocked r l)) ∧
  ∀ n s, n ∈ l → store (foldl retireLocked r l) !! n = Some s → retired s = true.
Proof.
  revert r. induction l as [|m l IH]; intros r; simpl; [split_and!; auto using grows_refl; set_solver|].
  destruct (IH (retireLocked r m)) as (I1 & I2 & I3 & I4), (retireLocked_flags r m) as (F1 & F2 & F3 & F4).
  rewrite I1, I2. split_and!; [done..|by eapply grows_trans|]. intros n s [->|Hn]%elem_of_cons Hs; [|by eauto].
  apply I3 in Hs as (s0 & Hs0 & _ & Hr). eauto.
Qed.
Lemma stop_orderly r : Orderly r → Orderly (stop r) ∧ stopped (stop r) = true.
Proof.
  intros O. unfold stop. destruct (stopped r) eqn:Hst; [done|]. destruct O as [K HR HD].
  set (r0 := set_stopped (set_cancelled r)). assert (K0 : Kept r0) by (by apply (Kept_same _ _ K)).
  set (l := (map_to_list (slots r)).*2).
  destruct (foldl_kept retireLocked (λ _ _, True) l r0) as [K2 _]; [intros; by apply retireLocked_kept|exact K0|done|].
  destruct (retireAll_flags l r0) as (I1 & I2 & I3 & I4). split; [|done]. constructor; [exact K2| |].
  - intros _ n s Hs. destruct (I3 _ _ Hs) as (s0 & Hs0 & _ & Hr).
    pose proof (kept_fits _ K _ _ Hs0) as F. unfold holds in F.
    destruct (bool_decide (slots r !! _ = Some n)) eqn:Hb; [|inversion F; auto].
    apply bool_decide_eq_true in Hb. apply (I4 n s); [|done].
    apply list_elem_of_fmap. eexists (_, n). split; [done|]. by apply elem_of_map_to_list.
  - rewrite I2. simpl. intros Hd. destruct (HD Hd). congruence.
Qed.

Definition flags (r : Runner) : bool * bool := (stopped r, done r).
Lemma foldl_flags {A} (f : Runner → A → Runner) l r : (∀ r a, flags (f r a) = flags r) → flags (foldl f r l) = flags r.
Proof. intros Hf. revert r. induction l as [|a l IH]; intros r; simpl; [done|]. by rewrite IH, Hf. Qed.
Lemma scheduleSlot_flags r x : flags (scheduleSlot r x) = flags r.
Proof. destruct x as [id n]. unfold scheduleSlot. destruct (store r !! n) as [s|]; [|done]. by destruct (busy s || retired s). Qed.
Lemma retireUnless_flags keep r x : flags (retireUnless keep r x) = flags r.
Proof.
  unfold retireUnless. destruct (keep !! x.1); [done|]. unfold flags. simpl.
  destruct (retireLocked_flags r x.2) as (-> & -> & _). done.
Qed.
Lemma addSource_flags r x : flags (addSource r x) = flags r.
Proof. destruct x as [id s]. unfold addSource. case_bool_decide; [done|]. by destruct (maxSources <=? _)%nat. Qed.
Lemma schedule_flags r : flags (schedule r) = flags r.
Proof. unfold schedule. destruct (stopped r || cancelled r); [done|]. apply foldl_flags, scheduleSlot_flags. Qed.
Lemma replaceSources_flags sources order r : flags (replaceSourcesLocked sources order r) = flags r.
Proof.
  unfold replaceSourcesLocked. destruct (keepSources sources) as [keep omitted].
  change (flags (with_service rebuildLocked ?r)) with (flags r).
  rewrite (foldl_flags addSource _ _ addSource_flags). by rewrite (foldl_flags _ _ _ (retireUnless_flags keep)).
Qed.
Lemma collected_flags id n delivered at_ r : flags (collected id n delivered at_ r) = flags r.
Proof.
  unfold collected. destruct (store r !! n) as [s|]; [|done]. destruct (retired s || _); [done|]. by case_bool_decide.
Qed.
Lemma discovered_flags found order r : flags (discovered found order r) = flags r.
Proof.
  unfold discovered. simpl. destruct (stopped r) eqn:Hst; [unfold flags; simpl; by rewrite Hst|].
  destruct found as [sources|e]; [|done]. by rewrite replaceSources_flags.
Qed.
Lemma closeSlot_flags n r : flags (closeSlot n r) = flags r.
Proof. unfold closeSlot. destruct (store r !! n); [|done]. by case_bool_decide. Qed.
Lemma recordSample_still now r : store (recordSample now r) = store r ∧ slots (recordSample now r) = slots r ∧
  tasks (recordSample now r) = tasks r ∧ trace (recordSample now r) = trace r ∧ flags (recordSample now r) = flags r.
Proof. unfold recordSample. by destruct (marshalSample _). Qed.

(** While the service is stopped, slots only change by goroutines that get on. *)
Lemma collected_grows id n delivered at_ r : grows (store r) (store (collected id n delivered at_ r)).
Proof.
  unfold collected. destruct (store r !! n) as [s|]; [|apply grows_refl].
  assert (grows (store r) (alter (set_busy false) n (store r))) by (by apply grows_alter).
  destruct (retired s || _); [done|]. by case_bool_decide.
Qed.
Lemma advance_store r r' : advance r r' → stopped r' = stopped r ∧ done r' = done r ∧
  (stopped r = true → grows (store r) (store r')).
Proof.
  intros A. assert (flags r' = flags r) as Hf.
  { destruct A; rewrite ?collected_flags, ?closeSlot_flags, ?discovered_flags; done. }
  unfold flags in Hf. injection Hf as -> ->. split_and!; [done..|]. intros Hst. destruct A as [| |r l l' n E|r l l' found order E Ho].
  - apply (collected_grows _ _ _ _ (with_tasks _ _ _)).
  - apply grows_refl.
  - unfold closeSlot. simpl. destruct (store r !! n); [|apply grows_refl]. case_bool_decide; apply grows_refl.
  - unfold discovered. simpl. rewrite Hst. apply grows_refl.
Qed.
Lemma Kept_task_out r l l' : Kept r → tasks r = l ++ Discovering :: l' → Kept (with_tasks (l ++ l') [] r).
Proof.
  intros K E. apply (Kept_same r); simpl; try done. intros n. rewrite E, about_middle, about_app. simpl. by rewrite app_nil_r.
Qed.
Lemma advance_kept r r' : advance r r' → Kept r → Retiring r → Kept r'.
Proof.
  intros A K HR. destruct A as [r l l' id n delivered at_ E|r l l' n E|r l l' n E|r l l' found order E Ho].
  - by apply collected_kept.
  - by apply close_kept.
  - by apply closed_kept.
  - pose proof (Kept_task_out _ _ _ K E) as K'. unfold discovered. simpl.
    assert (K2 : Kept (set_discovering false (with_tasks (l ++ l') [] r))) by (by apply (Kept_same _ _ K')).
    destruct (stopped r).
    + apply (Kept_same _ _ K2); try done. intros n. simpl. by rewrite phaseOf_discards.
    + destruct found as [sources|e]; [|done]. apply replaceSources_kept; [|done]. by apply Ho.
Qed.
Lemma step_orderly r r' : Orderly r → step r r' → Orderly r'.
Proof.
  intros O Hs. pose proof O as [K HR HD]. destruct Hs as [r|r now Hq|r now raw|r r' A|r|r|r|r Hst Ht].
  - pose proof (schedule_flags r) as Hf. unfold flags in Hf. injection Hf as F1 F2. constructor; [by apply schedule_kept| |].
    + intros Hst. rewrite F1 in Hst. unfold schedule. rewrite Hst. by apply HR.
    + rewrite F1, F2. intros Hd. destruct (HD Hd) as [Hst Ht]. unfold schedule. by rewrite Hst.
  - destruct (recordSample_still now r) as (E1 & E2 & E3 & E4 & Hf). unfold flags in Hf. injection Hf as F1 F2.
    constructor; [apply (Kept_same r); try done; intros; by rewrite E3, E4| |rewrite E3, F1, F2; exact HD].
    intros Hst. rewrite F1 in Hst. rewrite E1. by apply HR.
  - constructor; [by apply Kept_service|done..].
  - destruct (advance_store _ _ A) as (F1 & F2 & Hg). constructor; [by eapply advance_kept| |].
    + intros Hst. pose proof Hst as Hst'. rewrite F1 in Hst'. by apply (retiring_grows r r'); auto.
    + rewrite F1, F2. intros Hd. destruct (HD Hd) as [Hst Ht]. destruct A as [? l|? l|? l|? l];
        match goal with E : tasks _ = _ ++ _ |- _ => rewrite Ht in E; by destruct l end.
  - unfold discoverSources. destruct (negb (discovers r) || discovering r || stopped r) eqn:Hg; [done|].
    apply orb_false_iff in Hg as [_ Hst]. constructor; simpl.
    + apply (Kept_same r); simpl; try done. intros n. by rewrite about_app, !app_nil_r.
    + intros Hst'. simpl in Hst'. congruence.
    + intros Hd. destruct (HD Hd). congruence.
  - constructor; [by apply (Kept_same _ _ K)|done..].
  - by apply stop_orderly.
  - constructor; [by apply (Kept_same _ _ K)|done..].
Qed.
Lemma reachable_orderly r : reachable r → Orderly r.
Proof.
  induction 1 as [h generation disabled hasDiscover sources order r Ho Hr|]; [|by eapply step_orderly].
  unfold NewService in Hr. destruct generation as [g|]; simpl in Hr; [|done].
  match type of Hr with context [with_service rebuildLocked (replaceSourcesLocked _ _ ?r)] => set (r0 := r) in * end.
  assert (K0 : Kept r0).
  { constructor; intros; simpl in *; try done. rewrite map_size_empty. lia. }
  pose proof (replaceSources_kept sources order r0 Ho K0) as K.
  pose proof (replaceSources_flags sources order r0) as Hf. unfold flags in Hf. injection Hf as F1 F2.
  assert (Orderly (with_service rebuildLocked (replaceSourcesLocked sources order r0))) as O.
  { constructor; [by apply Kept_service| |].
    - intros Hst. simpl in Hst. by rewrite F1 in Hst.
    - simpl. by rewrite F2. }
  injection Hr as <-. destruct disabled; [|done]. destruct O as [KO RO DO]. constructor; [by apply Kept_service|done..].
Qed.
End laws.
End SourceLaws.
