(* ===== verification/Auth.v ===== *)
(** * Authentication (src/internal/auth/auth.go, src/internal/sqlite/auth_store.go)

    One administrator; access tokens that live for fifteen minutes and are
    signed with a key of the database; refresh tokens that are exchanged once
    each and form a family per login; a window of failed logins per user name
    and address.  Hashing, signing and encoding are parameters. *)
From S2P Require Import Prelude GoStrings TimeText.

(** ** Parameters *)

(** crypto/sha256 and encoding/base64. *)
Class Crypto := {
  tokenHash : string → string;
  encodeBase64 : string → string;
  decodeBase64 : string → option string;
}.
(** Documented: the decoder inverts the encoder, which yields the empty text for
    the empty text only.  The digest is taken to be free of collisions. *)
Class CryptoLaws `(Crypto) := {
  decode_encode s : decodeBase64 (encodeBase64 s) = Some s;
  encode_empty s : encodeBase64 s = ""%string → s = ""%string;
  tokenHash_inj s t : tokenHash s = tokenHash t → s = t;
}.
(** The interface [Hasher] (auth.go) and the library github.com/golang-jwt. *)
Class Hasher := { Hash : string → nat → result string; Verify : string → string → bool }.
Record Claims := mkClaims {
  ClaimUsername : string; CSRF : string; Subject : string; IssuedAt : option time; ExpiresAt_ : option time;
}.
Class Tokens := {
  NewNumericDate : time → time;
  sign : Claims → string → result string;            (* HS256, issuer and audience "porty" *)
  parse : string → time → string → option Claims;    (* key, now, token: checked for the same *)
}.
(** Documented: a signed token is read back under its key until it expires and
    under no other key; dates are truncated to seconds. *)
Class TokensLaws `(Tokens) := {
  numeric_date t : NewNumericDate t = (t - t mod Second)%Z;
  parse_sign c key token now issued expires :
    sign c key = Ok token → IssuedAt c = Some issued → ExpiresAt_ c = Some expires →
    (issued ≤ now < expires)%Z → parse key now token = Some c;
  parse_expired c key now token expires :
    parse key now token = Some c → ExpiresAt_ c = Some expires → (now < expires)%Z;
  parse_other c key key' token now : sign c key = Ok token → key' ≠ key → parse key' now token = None;
}.

Module Auth.
Definition AccessLifetime : duration := (15 * Minute)%Z.
Definition RefreshLifetime : duration := (7 * 24 * Hour)%Z.

Record User := mkUser { UserID : string; Username : string; PasswordHash : string; CreatedAt : time }.
Record RefreshRecord := mkRefreshRecord {
  TokenHash : string; CSRFHash : string; RUserID : string; FamilyID : string;
  OriginalLoginAt : time; ExpiresAt : time;
}.
Record Credentials := mkCredentials { AccessToken : string; RefreshToken : string; CSRFToken : string; CUsername : string }.
Record Principal := mkPrincipal { PUserID : string; PUsername : string; PCSRFHash : string; PExpiresAt : time }.
Record loginWindow := mkLoginWindow { Started : time; Failures : Z }.

(** ** The tables users, auth_keys, refresh_tokens and the setup state *)
Record RefreshRow := mkRefreshRow {
  r_user : string; r_family : string; r_login : time; r_expires : time; r_csrf : string;
  r_consumed : option time; r_revoked : option time;
}.
Record AuthDB := mkAuthDB {
  users : gmap string User;
  signing_key : option string;
  refresh_tokens : gmap string RefreshRow;     (* by token hash *)
  registered_ : bool;                          (* app_state.setup_state = 'registered' *)
}.
Definition emptyAuthDB : AuthDB := mkAuthDB ∅ None ∅ false.
Definition set_users db x := mkAuthDB x (signing_key db) (refresh_tokens db) (registered_ db).
Definition set_key db x := mkAuthDB (users db) x (refresh_tokens db) (registered_ db).
Definition set_refresh db x := mkAuthDB (users db) (signing_key db) x (registered_ db).
Definition set_registered db x := mkAuthDB (users db) (signing_key db) (refresh_tokens db) x.

Definition validKey (key : option string) : result string :=
  match key with
  | None => Err ErrNoRows
  | Some k => if (len k <? 32)%Z then Err (ErrText "invalid signing key") else Ok k
  end.
Definition revoke (now_ : time) (r : RefreshRow) : RefreshRow :=
  mkRefreshRow (r_user r) (r_family r) (r_login r) (r_expires r) (r_csrf r) (r_consumed r)
    (match r_revoked r with Some t => Some t | None => Some now_ end).
Definition consume (now_ : time) (r : RefreshRow) : RefreshRow :=
  mkRefreshRow (r_user r) (r_family r) (r_login r) (r_expires r) (r_csrf r) (Some now_) (r_revoked r).
Definition revokeWhere (p : RefreshRow → bool) (now_ : time) (db : AuthDB) : AuthDB :=
  set_refresh db ((λ r, if p r then revoke now_ r else r) <$> refresh_tokens db).

(** DELETE FROM refresh_tokens WHERE expires_at<=?: as text. *)
Definition cleaned (now_ : time) (db : AuthDB) : AuthDB :=
  set_refresh db (filter (λ p, TimeText.text_le (r_expires p.2) now_ = false) (refresh_tokens db)).

Section store.
Context `{W : World}.

Definition Registered : M AuthDB bool := call (λ db, Ok (bool_decide (users db ≠ ∅), db)).
Definition SigningKey : M AuthDB string :=
  call (λ db, match validKey (signing_key db) with Ok k => Ok (k, db) | Err e => Err e end).
Definition insertUser (u : User) : M AuthDB unit :=
  call (λ db,
    if bool_decide (is_Some (users db !! UserID u)) || bool_decide (map_Exists (λ _ u', Username u' = Username u) (users db))
    then Err ErrConstraint else Ok (tt, set_users db (<[UserID u := u]> (users db)))).
Definition insertRefresh (r : RefreshRecord) : M AuthDB unit :=
  call (λ db,
    if bool_decide (is_Some (refresh_tokens db !! TokenHash r)) || bool_decide (users db !! RUserID r = None)
    then Err ErrConstraint
    else Ok (tt, set_refresh db (<[TokenHash r := mkRefreshRow (RUserID r) (FamilyID r) (OriginalLoginAt r) (ExpiresAt r)
           (CSRFHash r) None None]> (refresh_tokens db)))).
Definition cleanupRefresh (now_ : time) : M AuthDB unit := call (λ db, Ok (tt, cleaned now_ db)).
Definition readUser (id : string) : M AuthDB User :=
  call (λ db, match users db !! id with Some u => Ok (u, db) | None => Err ErrNoRows end).

Definition Register (user : User) (record : RefreshRecord) : M AuthDB unit :=
  atomically (
    _ ← call (λ db, if bool_decide (users db = ∅) then Ok (tt, db) else Err Auth_ErrAlreadyRegistered);
    _ ← SigningKey;
    _ ← insertUser user;
    _ ← insertRefresh record;
    call (λ db, Ok (tt, set_registered db true))).
Definition UserByUsername (name : string) : M AuthDB User :=
  call (λ db, match filter (λ p, Username p.2 = name) (map_to_list (users db)) with
    | (_, u) :: _ => Ok (u, db)
    | [] => Err ErrNoRows
    end).
Definition UserByID (id : string) : M AuthDB User := readUser id.
Definition OnlyUser : M AuthDB User :=
  call (λ db, match map_to_list (users db) with (_, u) :: _ => Ok (u, db) | [] => Err ErrNoRows end).

Definition CreateRefresh (record : RefreshRecord) (now_ : time) : M AuthDB unit :=
  atomically (_ ← cleanupRefresh now_; insertRefresh record).

(** The flag says whether the transaction is committed. *)
Definition exchange (hash csrfHash : string) (next : RefreshRecord) (now_ : time) : M AuthDB (result User * bool) :=
  row ← call (λ db, match refresh_tokens db !! hash with Some r => Ok (r, db) | None => Err Auth_ErrAuthenticationFailed end);
  _ ← guard_not (negb (Before now_ (r_expires row)) || bool_decide (is_Some (r_revoked row))) Auth_ErrAuthenticationFailed;
  if bool_decide (is_Some (r_consumed row)) then
    _ ← call (λ db, Ok (tt, revokeWhere (λ r, (r_family r =? r_family row)%string) now_ db));
    mret (Err Auth_ErrAuthenticationFailed, true)
  else
    _ ← guard_not (negb (r_csrf row =? csrfHash)%string) Auth_ErrAuthenticationFailed;
    n ← call (λ db, match refresh_tokens db !! hash with
          | Some r => if bool_decide (r_consumed r = None) && bool_decide (r_revoked r = None)
                      then Ok (1%Z, set_refresh db (<[hash := consume now_ r]> (refresh_tokens db))) else Ok (0%Z, db)
          | None => Ok (0%Z, db)
          end);
    _ ← guard_not (negb (n =? 1)%Z) Auth_ErrAuthenticationFailed;
    _ ← insertRefresh (mkRefreshRecord (TokenHash next) (CSRFHash next) (r_user row) (r_family row) (r_login row) (r_expires row));
    user ← readUser (r_user row);
    _ ← cleanupRefresh now_;
    mret (Ok user, true).
Definition ExchangeRefresh (hash csrfHash : string) (next : RefreshRecord) (now_ : time) : M AuthDB User :=
  r ← transact (exchange hash csrfHash next now_); lift r.

Definition RevokeRefreshFamily (hash userID : string) (now_ : time) : M AuthDB unit :=
  atomically (
    family ← call (λ db, match refresh_tokens db !! hash with
      | Some r => if (r_user r =? userID)%string then Ok (r_family r, db) else Err Auth_ErrAuthenticationFailed
      | None => Err Auth_ErrAuthenticationFailed
      end);
    _ ← call (λ db, Ok (tt, revokeWhere (λ r, (r_family r =? family)%string) now_ db));
    cleanupRefresh now_).

Definition UpdatePasswordAndRevoke (userID passwordHash key : string) (at_ : time) : M AuthDB unit :=
  _ ← guard_not (len key <? 32)%Z (ErrText "invalid replacement signing key");
  atomically (
    _ ← call (λ db, match users db !! userID with
      | Some u => Ok (tt, set_users db (<[userID := mkUser (UserID u) (Username u) passwordHash (CreatedAt u)]> (users db)))
      | None => Err (ErrText "administrator not found")
      end);
    _ ← call (λ db, Ok (tt, revokeWhere (λ r, (r_user r =? userID)%string) at_ db));
    _ ← call (λ db, match signing_key db with
      | Some _ => Ok (tt, set_key db (Some key))
      | None => Err (ErrText "signing key missing")
      end);
    cleanupRefresh at_).

(** At start-up; the new key is 32 random bytes. *)
Definition initializeAuthKey : M AuthDB unit :=
  transact (
    key ← call (λ db, Ok (signing_key db, db));
    match key with
    | Some k => _ ← guard_not (len k <? 32)%Z (ErrText "invalid signing key"); mret (tt, true)
    | None =>
      _ ← call (λ db, if bool_decide (users db = ∅) then Ok (tt, db) else Err (ErrText "signing key missing after registration"));
      k ← rand_read;
      _ ← call (λ db, Ok (tt, set_key db (Some k)));
      mret (tt, true)
    end).
End store.

(** ** The service *)
Record Env := mkEnv { store : AuthDB; attempts : gmap string loginWindow; rotations : nat }.
#[export] Program Instance env_store : Lens Env AuthDB := {|
  view := store; put db e := mkEnv db (attempts e) (rotations e) |}.
Next Obligation. done. Qed.
Next Obligation. by intros []. Qed.
Next Obligation. done. Qed.

Definition validatePassword (password : string) : result unit :=
  reject_if ((len password <? 12)%Z || (128 <? len password)%Z) Auth_ErrInvalidPassword.

(** *** The window of failed logins *)
Definition limited (key : string) (now_ : time) (e : Env) : bool :=
  match attempts e !! key with
  | Some w => (Sub now_ (Started w) <? Minute)%Z && (5 <=? Failures w)%Z
  | None => false
  end.
Definition recordFailure (key : string) (now_ : time) (e : Env) : Env :=
  let w := match attempts e !! key with
    | Some w => if (Minute <=? Sub now_ (Started w))%Z then mkLoginWindow now_ 0 else w
    | None => mkLoginWindow now_ 0
    end in
  mkEnv (store e) (<[key := mkLoginWindow (Started w) (Failures w + 1)]> (attempts e)) (rotations e).
Definition clearFailures (key : string) (e : Env) : Env :=
  mkEnv (store e) (delete key (attempts e)) (rotations e).

Section service.
Context `{W : World} `{C : Crypto} `{H : Hasher} `{T : Tokens}.
(** [strings.ToLower] and the hash that stands in for an unknown user. *)
Context (ToLower : string → string) (dummyHash : string).

Definition hash (password : string) : M Env string := λ e n, (Hash password n, (e, S n)).
Definition update (f : Env → Env) : M Env unit := λ e n, (Ok tt, (f e, n)).

Definition signAccess (user : User) (csrfHash : string) (now_ : time) (key : string) : result string :=
  sign (mkClaims (Username user) (encodeBase64 csrfHash) (UserID user) (Some (NewNumericDate now_))
          (Some (NewNumericDate (Add now_ AccessLifetime)))) key.

Definition newCredentials (user : User) (now_ expiry : time) (key : string) : M Env (Credentials * RefreshRecord) :=
  refresh ← rand_read;
  csrf ← rand_read;
  family ← rand_read;
  access ← lift (signAccess user (tokenHash csrf) now_ key);
  mret (mkCredentials access refresh csrf (Username user),
        mkRefreshRecord (tokenHash refresh) (tokenHash csrf) (UserID user) family now_ expiry).

Definition RegisterUser (username password : string) : M Env Credentials :=
  let username := TrimSpace username in
  _ ← guard_not ((len username <? 1)%Z || (64 <? len username)%Z) Auth_ErrInvalidUsername;
  _ ← lift (validatePassword password);
  passwordHash ← hash password;
  key ← zoom SigningKey;
  t ← now;
  id ← rand_text;
  let user := mkUser ("usr_" ++ id) username passwordHash t in
  '(credentials, record) ← newCredentials user t (Add t RefreshLifetime) key;
  _ ← zoom (Register user record);
  mret credentials.

Definition attemptKey (username sourceIP : string) : string := ToLower (TrimSpace username) ++ "|" ++ sourceIP.
Definition Login (username password sourceIP : string) : M Env Credentials :=
  let k := attemptKey username sourceIP in
  t ← now;
  limited_ ← (λ e n, (Ok (limited k t e), (e, n)));
  _ ← guard_not limited_ Auth_ErrRateLimited;
  user ← attempt (zoom (UserByUsername username));
  let encoded := match user with Ok u => PasswordHash u | Err _ => dummyHash end in
  match (if Verify encoded password then user else Err Auth_ErrAuthenticationFailed) with
  | Err _ =>
    t ← now;
    _ ← update (recordFailure k t);
    fail Auth_ErrAuthenticationFailed
  | Ok user =>
    _ ← update (clearFailures k);
    key ← zoom SigningKey;
    t ← now;
    '(credentials, record) ← newCredentials user t (Add t RefreshLifetime) key;
    _ ← zoom (CreateRefresh record t);
    mret credentials
  end.

(** The claims that make a principal. *)
Definition principal (c : Claims) : result Principal :=
  match IssuedAt c, ExpiresAt_ c with
  | Some issued, Some expires =>
    if (Subject c =? "")%string || (ClaimUsername c =? "")%string || (CSRF c =? "")%string
    then Err Auth_ErrAuthenticationFailed
    else match decodeBase64 (CSRF c) with
    | Some h =>
      if negb (len h =? 32)%Z || negb (Sub expires issued =? AccessLifetime)%Z then Err Auth_ErrAuthenticationFailed
      else Ok (mkPrincipal (Subject c) (ClaimUsername c) h expires)
    | None => Err Auth_ErrAuthenticationFailed
    end
  | _, _ => Err Auth_ErrAuthenticationFailed
  end.
Definition Authenticate (rawToken : string) : M Env Principal :=
  key ← zoom SigningKey;
  t ← now;
  match parse key t rawToken with
  | None => fail Auth_ErrAuthenticationFailed
  | Some c => lift (principal c)
  end.
Definition CheckCSRF (p : Principal) (rawToken : string) : bool :=
  negb (rawToken =? "")%string && (tokenHash rawToken =? PCSRFHash p)%string.

Definition Refresh (rawRefresh rawCSRF : string) : M Env Credentials :=
  _ ← guard_not ((rawRefresh =? "")%string || (rawCSRF =? "")%string) Auth_ErrAuthenticationFailed;
  key ← zoom SigningKey;
  t ← now;
  refresh ← rand_read;
  csrf ← rand_read;
  user ← zoom (ExchangeRefresh (tokenHash rawRefresh) (tokenHash rawCSRF)
                 (mkRefreshRecord (tokenHash refresh) (tokenHash csrf) "" "" zeroTime zeroTime) t);
  access ← lift (signAccess user (tokenHash csrf) t key);
  mret (mkCredentials access refresh csrf (Username user)).

Definition setPassword (userID password : string) : M Env unit :=
  _ ← lift (validatePassword password);
  h ← hash password;
  key ← rand_read;
  t ← now;
  _ ← zoom (UpdatePasswordAndRevoke userID h key t);
  update (λ e, mkEnv (store e) (attempts e) (S (rotations e))).
Definition ChangePassword (rawAccess currentPassword newPassword : string) : M Env unit :=
  p ← Authenticate rawAccess;
  user ← catch (zoom (UserByID (PUserID p))) (λ _, fail Auth_ErrAuthenticationFailed);
  _ ← guard_not (negb (Verify (PasswordHash user) currentPassword)) Auth_ErrAuthenticationFailed;
  setPassword (UserID user) newPassword.
Definition ResetPassword (newPassword : string) : M Env unit :=
  user ← zoom OnlyUser; setPassword (UserID user) newPassword.
Definition Logout (rawRefresh userID : string) : M Env unit :=
  t ← now; zoom (RevokeRefreshFamily (tokenHash rawRefresh) userID t).
End service.
End Auth.
