(* ===== verification/AuthLaws.v ===== *)
(** * Sessions cannot be copied, extended or revived

    The invariant of the refresh tokens, the tokens and families that are dead
    for good, and what the calls of the service guarantee. *)
From S2P Require Import Prelude GoStrings TimeText Auth.

Module AuthLaws.
Import Auth.

Definition live (r : RefreshRow) : Prop := r_consumed r = None ∧ r_revoked r = None.
#[global] Instance live_dec r : Decision (live r).
Proof. unfold live. apply _. Defined.

Section laws.
Context `{W : World} `{!Unpredictable W} `{C : Crypto} `{CL : !CryptoLaws C}.
(** Tokens, families and signing keys that must not come back. *)
Context (D F K : string → Prop).

Definition drawn (n : nat) (f : string) : Prop := ∃ k, k < n ∧ f = random k.
Definition hashed (n : nat) (h : string) : Prop := ∃ k, k < n ∧ h = tokenHash (random k).

Record Inv (db : AuthDB) (n : nat) : Prop := {
  inv_one : ∀ i j, is_Some (users db !! i) → is_Some (users db !! j) → i = j;
  inv_user : ∀ i u, users db !! i = Some u → UserID u = i;
  inv_owner : ∀ h r, refresh_tokens db !! h = Some r → is_Some (users db !! r_user r);
  inv_expiry : ∀ h r, refresh_tokens db !! h = Some r → r_expires r = Add (r_login r) RefreshLifetime;
  inv_drawn : ∀ h r, refresh_tokens db !! h = Some r → hashed n h ∧ drawn n (r_family r);
  inv_family : ∀ h1 h2 r1 r2, refresh_tokens db !! h1 = Some r1 → refresh_tokens db !! h2 = Some r2 →
    r_family r1 = r_family r2 → r_login r1 = r_login r2;
  inv_live : ∀ h1 h2 r1 r2, refresh_tokens db !! h1 = Some r1 → refresh_tokens db !! h2 = Some r2 →
    r_family r1 = r_family r2 → live r1 → live r2 → h1 = h2;
  inv_dead : ∀ h, D h → hashed n h ∧ ∀ r, refresh_tokens db !! h = Some r → ¬ live r;
  inv_closed : ∀ f, F f → drawn n f ∧ ∀ h r, refresh_tokens db !! h = Some r → r_family r = f → ¬ live r;
  inv_key : ∀ k, signing_key db = Some k → drawn n k;
  inv_retired : ∀ k, K k → drawn n k ∧ signing_key db ≠ Some k;
}.

Lemma auth_drawn_le n m f : n ≤ m → drawn n f → drawn m f.
Proof. intros ? (k & ? & ?). exists k. split; [lia|done]. Qed.
Lemma hashed_le n m h : n ≤ m → hashed n h → hashed m h.
Proof. intros ? (k & ? & ?). exists k. split; [lia|done]. Qed.
Lemma drawn_new n k : n ≤ k → ¬ drawn n (random k).
Proof. intros Hle (j & Hj & Heq). apply random_inj in Heq. lia. Qed.
Lemma hashed_new n k : n ≤ k → ¬ hashed n (tokenHash (random k)).
Proof. intros Hle (j & Hj & Heq). apply tokenHash_inj, random_inj in Heq. lia. Qed.

#[global] Instance Inv_timeless : Timeless Inv.
Proof.
  intros db n []. constructor; try done.
  - intros h r Hr. destruct (inv_drawn0 _ _ Hr) as [Hh Hf]. split; [eapply hashed_le; [|exact Hh]|eapply auth_drawn_le; [|exact Hf]]; lia.
  - intros h Hh. destruct (inv_dead0 _ Hh). split; [|done]. eapply hashed_le; [|done]. lia.
  - intros f Hf. destruct (inv_closed0 _ Hf). split; [|done]. eapply auth_drawn_le; [|done]. lia.
  - intros k Hk. eapply auth_drawn_le; [|by apply inv_key0]. lia.
  - intros k Hk. destruct (inv_retired0 _ Hk). split; [|done]. eapply auth_drawn_le; [|done]. lia.
Qed.

(** Rows may be deleted, consumed and revoked, users changed. *)
Definition dimmed (r r' : RefreshRow) : Prop :=
  r_user r' = r_user r ∧ r_family r' = r_family r ∧ r_login r' = r_login r ∧ r_expires r' = r_expires r ∧ (live r' → live r).
Lemma inv_dim db db' n :
  Inv db n → (∀ i, is_Some (users db' !! i) ↔ is_Some (users db !! i)) → (∀ i u, users db' !! i = Some u → UserID u = i) →
  (∀ h r', refresh_tokens db' !! h = Some r' → ∃ r, refresh_tokens db !! h = Some r ∧ dimmed r r') →
  signing_key db' = signing_key db → Inv db' n.
Proof.
  intros I Hu Hid Hr Hkey. constructor; try done; rewrite ?Hkey; try apply I.
  - intros i j. rewrite !Hu. apply I.
  - intros h r' H. destruct (Hr _ _ H) as (r & Hh & -> & _). apply Hu. by eapply inv_owner.
  - intros h r' H. destruct (Hr _ _ H) as (r & Hh & _ & _ & -> & -> & _). by eapply inv_expiry.
  - intros h r' H. destruct (Hr _ _ H) as (r & Hh & _ & -> & _). by eapply inv_drawn.
  - intros h1 h2 r1' r2' H1 H2. destruct (Hr _ _ H1) as (r1 & Hh1 & _ & -> & -> & _), (Hr _ _ H2) as (r2 & Hh2 & _ & -> & -> & _).
    eapply inv_family; eauto.
  - intros h1 h2 r1' r2' H1 H2. destruct (Hr _ _ H1) as (r1 & Hh1 & _ & -> & _ & _ & L1), (Hr _ _ H2) as (r2 & Hh2 & _ & -> & _ & _ & L2).
    intros Hf Hl1 Hl2. eapply (inv_live _ _ I); eauto.
  - intros h Hh. destruct (inv_dead _ _ I _ Hh) as [Hdr Hd]. split; [done|]. intros r' H Hl.
    destruct (Hr _ _ H) as (r & Hh' & _ & _ & _ & _ & L). by apply (Hd _ Hh'), L.
  - intros f Hf. destruct (inv_closed _ _ I _ Hf) as [Hdr Hd]. split; [done|]. intros h r' H Hff Hl.
    destruct (Hr _ _ H) as (r & Hh' & _ & E & _ & _ & L). apply (Hd _ _ Hh'); [congruence|by apply L].
Qed.

(** A new token, in a new family or as the successor in a family without live
    ones. *)
Lemma inv_new db n h r :
  Inv db n → refresh_tokens db !! h = None → hashed n h → ¬ D h → is_Some (users db !! r_user r) →
  r_expires r = Add (r_login r) RefreshLifetime → drawn n (r_family r) →
  (∀ h' r', refresh_tokens db !! h' = Some r' → r_family r' = r_family r → r_login r' = r_login r ∧ ¬ live r') →
  ¬ F (r_family r) → Inv (set_refresh db (<[h := r]> (refresh_tokens db))) n.
Proof.
  intros I Hnone Hh Hnd Hu He Hf Hfam Hnf. constructor; simpl; try apply I.
  - intros h' r'. rewrite lookup_insert_Some. intros [[_ <-]|[_ H]]; [done|by eapply inv_owner].
  - intros h' r'. rewrite lookup_insert_Some. intros [[_ <-]|[_ H]]; [done|by eapply inv_expiry].
  - intros h' r'. rewrite lookup_insert_Some. intros [[<- <-]|[_ H]]; [done|by eapply inv_drawn].
  - intros h1 h2 r1 r2. rewrite !lookup_insert_Some. intros [[_ <-]|[_ H1]] [[_ <-]|[_ H2]] E; [done|..].
    + symmetry in E. by destruct (Hfam _ _ H2 E).
    + by destruct (Hfam _ _ H1 E).
    + by eapply (inv_family _ _ I).
  - intros h1 h2 r1 r2. rewrite !lookup_insert_Some. intros [[<- <-]|[_ H1]] [[<- <-]|[_ H2]] E L1 L2; [done|..].
    + symmetry in E. by destruct (Hfam _ _ H2 E).
    + by destruct (Hfam _ _ H1 E).
    + by eapply (inv_live _ _ I).
  - intros h' Hh'. destruct (inv_dead _ _ I _ Hh') as [Hdr Hd]. split; [done|]. intros r'.
    rewrite lookup_insert_Some. intros [[<- _]|[_ H]]; [done|by apply Hd].
  - intros f Hff. destruct (inv_closed _ _ I _ Hff) as [Hdr Hd]. split; [done|]. intros h' r'.
    rewrite lookup_insert_Some. intros [[_ <-]|[_ H]] E; [congruence|by eapply Hd].
Qed.

(** *** The statements of the store *)
Lemma revokeWhere_inv p t db n : Inv db n → Inv (revokeWhere p t db) n.
Proof.
  intros I. apply (inv_dim db); [done|done|apply I| |done]. intros h r'. simpl. rewrite lookup_fmap, fmap_Some.
  intros (r & Hr & ->). exists r. split; [done|]. destruct (p r); [|done]. split_and!; try done.
  intros [? ?]. simpl in *. by destruct (r_revoked r) eqn:E; unfold live; rewrite ?E.
Qed.
Lemma cleaned_inv t db n : Inv db n → Inv (cleaned t db) n.
Proof.
  intros I. apply (inv_dim db); [done|done|apply I| |done]. intros h r' [Hr _]%map_lookup_filter_Some. by exists r'.
Qed.
Lemma cleanup_ok t db n u db' n' : cleanupRefresh t db n = (Ok u, (db', n')) → db' = cleaned t db ∧ n' = S n.
Proof. intros [[= _ <-] ->]%call_ok. done. Qed.
Lemma reads_inv {A} (f : AuthDB → result (A * AuthDB)) :
  (∀ db a db', f db = Ok (a, db') → db' = db) → maintains Inv (call f).
Proof. intros Hf. apply maintains_call; [apply _|]. by intros db n a db' I ->%Hf. Qed.

(** A record made by [newCredentials]. *)
Definition fresh_record (r : RefreshRecord) (db : AuthDB) (n : nat) : Prop :=
  ∃ n0 k1 k3, Inv db n0 ∧ n0 ≤ k1 < n ∧ n0 ≤ k3 < n ∧ TokenHash r = tokenHash (random k1) ∧ FamilyID r = random k3 ∧
    ExpiresAt r = Add (OriginalLoginAt r) RefreshLifetime.
#[global] Instance fresh_record_timeless r : Timeless (fresh_record r).
Proof. intros db n (n0 & k1 & k3 & ? & ? & ? & ?). exists n0, k1, k3. split_and!; try lia; tauto. Qed.
Lemma fresh_record_inv r db n : fresh_record r db n → Inv db n.
Proof. intros (n0 & k1 & k3 & I & ? & ? & _). apply (timeless_le Inv db n0); [lia|done]. Qed.

Lemma insertRefresh_inv r db n u db' n' :
  fresh_record r db n → insertRefresh r db n = (Ok u, (db', n')) → Inv db' n'.
Proof.
  intros (n0 & k1 & k3 & I & Hk1 & Hk3 & Hh & Hf & He) H. apply call_ok in H as [H ->]. case_match eqn:E; [done|].
  simplify_eq. apply orb_false_iff in E as [E1 E2]. apply bool_decide_eq_false, eq_None_not_Some in E1.
  apply bool_decide_eq_false in E2.
  assert (Inv db (S n)) as I' by (apply (timeless_le Inv db n0); [lia|done]).
  apply inv_new; simpl; try done.
  - rewrite Hh. exists k1. split; [lia|done].
  - intros HD. destruct (inv_dead _ _ I _ HD) as [Hd _]. rewrite Hh in Hd. by apply (hashed_new n0 k1) in Hd; [|lia].
  - destruct (users db !! RUserID r); [eauto|done].
  - rewrite Hf. exists k3. split; [lia|done].
  - intros h' r' Hr' Hfam. destruct (inv_drawn _ _ I _ _ Hr') as [_ Hd]. rewrite Hfam, Hf in Hd.
    by apply (drawn_new n0 k3) in Hd; [|lia].
  - intros HF. destruct (inv_closed _ _ I _ HF) as [Hd _]. rewrite Hf in Hd. by apply (drawn_new n0 k3) in Hd; [|lia].
Qed.

Lemma cleaned_fresh r t db n : fresh_record r db n → fresh_record r (cleaned t db) n.
Proof.
  intros (n0 & k1 & k3 & I & Hrest). exists n0, k1, k3. split; [by apply cleaned_inv|done].
Qed.

Lemma CreateRefresh_inv r t : triple (fresh_record r) (CreateRefresh r t) (λ _, Inv) (fresh_record r).
Proof.
  apply triple_atomically; [apply _..|unfold cleanupRefresh, insertRefresh; fwd|].
  intros db n u db' n' Hr H. apply bind_ok in H as (? & db1 & n1 & H1 & H). apply cleanup_ok in H1 as [-> ->].
  eapply insertRefresh_inv; [|exact H]. by apply timeless_succ, cleaned_fresh.
Qed.

Lemma Register_inv u r : UserID u = RUserID r → triple (fresh_record r) (Register u r) (λ _, Inv) (fresh_record r).
Proof.
  intros Hid. apply triple_atomically; [apply _..|unfold SigningKey, insertUser, insertRefresh; fwd|].
  intros db n x db' n' Hr H. apply bind_ok in H as (? & db1 & n1 & H1 & H). apply call_ok in H1 as [H1 ->].
  case_bool_decide as Hempty; [|done]. injection H1 as _ <-.
  apply bind_ok in H as (? & db2 & n2 & G & H). apply call_ok in G as [G ->].
  assert (db2 = db) as -> by (by destruct (validKey (signing_key db)); simplify_eq). clear G.
  apply bind_ok in H as (? & db3 & n3 & H1 & H). apply call_ok in H1 as [H1 ->]. case_match; [done|]. injection H1 as _ <-.
  apply bind_ok in H as (? & db4 & n4 & H1 & H). apply call_ok in H as [[= _ <-] ->].
  assert (Inv db4 n4) as [].
  { eapply insertRefresh_inv; [|exact H1]. destruct Hr as (n0 & k1 & k3 & I & Hk1 & Hk3 & Hrest).
    exists n0, k1, k3. split_and!; try lia; try apply Hrest.
    pose proof (fresh_record_inv r db n ltac:(by exists n0, k1, k3)) as I0. destruct I. rewrite Hempty in *. constructor; simpl; try done.
    - intros i j. rewrite !lookup_insert_is_Some. intros [<-|[_ [? ?%lookup_empty_Some]]] [<-|[_ [? ?%lookup_empty_Some]]]; done.
    - intros i v. rewrite lookup_insert_Some. intros [[<- <-]|[_ ?%lookup_empty_Some]]; done.
    - intros h row Hrow. destruct (inv_owner0 _ _ Hrow) as [? ?%lookup_empty_Some]. done. }
  apply timeless_succ. constructor; done.
Qed.

(** The two ways an exchange commits. *)
Definition successor (next : RefreshRecord) (row : RefreshRow) : RefreshRow :=
  mkRefreshRow (r_user row) (r_family row) (r_login row) (r_expires row) (CSRFHash next) None None.
Lemma exchange_ok h csrf next t db n res b db' n' :
  exchange h csrf next t db n = (Ok (res, b), (db', n')) →
  b = true ∧ ∃ row, refresh_tokens db !! h = Some row ∧ (t < r_expires row)%Z ∧ r_revoked row = None ∧
  ((is_Some (r_consumed row) ∧ res = Err Auth_ErrAuthenticationFailed ∧
    db' = revokeWhere (λ r, (r_family r =? r_family row)%string) t db) ∨
   (r_consumed row = None ∧ r_csrf row = csrf ∧ TokenHash next ≠ h ∧ refresh_tokens db !! TokenHash next = None ∧
    (∃ u, users db !! r_user row = Some u ∧ res = Ok u) ∧
    db' = cleaned t (set_refresh db (<[TokenHash next := successor next row]> (<[h := consume t row]> (refresh_tokens db)))))).
Proof.
  intros H. unfold exchange in H. apply bind_ok in H as (row & db1 & n1 & H1 & H). apply call_ok in H1 as [H1 ->].
  destruct (refresh_tokens db !! h) as [row'|] eqn:Hrow; [|done]. injection H1 as -> <-.
  apply bind_ok in H as (? & ? & ? & H1 & H). apply guard_not_ok in H1 as (Hg & -> & ->).
  apply orb_false_iff in Hg as [Hb Hrev]. apply negb_false_iff, Z.ltb_lt in Hb.
  apply bool_decide_eq_false, eq_None_not_Some in Hrev.
  destruct (r_consumed row) as [at_|] eqn:Hcon.
  - simpl in H. apply bind_ok in H as (? & db2 & n2 & H1 & H). apply call_ok in H1 as [[= _ <-] ->].
    apply ret_ok in H as ([= <- <-] & -> & ->). split; [done|]. exists row. split_and!; try done. left. eauto.
  - simpl in H. apply bind_ok in H as (? & ? & ? & H1 & H). apply guard_not_ok in H1 as (Hc & -> & ->).
    apply negb_false_iff, String.eqb_eq in Hc.
    apply bind_ok in H as (k & db2 & n2 & H1 & H). apply call_ok in H1 as [H1 ->]. rewrite Hrow, Hcon, Hrev in H1.
    simpl in H1. injection H1 as <- <-. apply bind_ok in H as (? & ? & ? & H1 & H). apply guard_not_ok in H1 as (_ & -> & ->).
    apply bind_ok in H as (? & db3 & n3 & H1 & H). apply call_ok in H1 as [H1 ->]. simpl in H1. case_match eqn:E; [done|].
    injection H1 as _ <-. apply orb_false_iff in E as [E _]. apply bool_decide_eq_false, eq_None_not_Some in E.
    apply lookup_insert_None in E as [E Hne].
    apply bind_ok in H as (u & db4 & n4 & H1 & H). apply call_ok in H1 as [H1 ->]. simpl in H1.
    destruct (users db !! r_user row) as [u'|] eqn:Hu; [|done]. injection H1 as -> <-.
    apply bind_ok in H as (? & db5 & n5 & H1 & H). apply cleanup_ok in H1 as [-> ->].
    apply ret_ok in H as ([= <- <-] & -> & ->). split; [done|]. exists row. split_and!; try done.
    right. split_and!; try done. by exists u.
Qed.

Lemma exchange_inv h csrf next t n0 k db n res b db' n' :
  Inv db n0 → n0 ≤ k < n → TokenHash next = tokenHash (random k) →
  exchange h csrf next t db n = (Ok (res, b), (db', n')) → Inv db' n.
Proof.
  intros I0 Hk Hh H. assert (Inv db n) as I by (apply (timeless_le Inv db n0); [lia|done]).
  apply exchange_ok in H as (_ & row & Hrow & Ht & Hrev & [(_ & _ & ->)|(Hcon & _ & Hne & Hnone & (u & Hu & _) & ->)]).
  { by apply revokeWhere_inv. }
  apply cleaned_inv. set (db1 := set_refresh db (<[h := consume t row]> (refresh_tokens db))).
  assert (Inv db1 n) as I1.
  { apply (inv_dim db); [done|done|apply I| |done]. intros h' r'. simpl. rewrite lookup_insert_Some.
    intros [[<- <-]|[_ Hr]]; [|by exists r']. exists row. split; [done|]. by split_and!. }
  assert (live row) as Hlive by done.
  apply (inv_new db1); simpl; try done.
  - by rewrite lookup_insert_ne.
  - rewrite Hh. exists k. split; [lia|done].
  - intros HD. destruct (inv_dead _ _ I0 _ HD) as [Hd _]. rewrite Hh in Hd. by apply (hashed_new n0 k) in Hd; [|lia].
  - exact (inv_expiry _ _ I _ _ Hrow).
  - exact (proj2 (inv_drawn _ _ I _ _ Hrow)).
  - intros h' r'. rewrite lookup_insert_Some. intros [[_ <-]|[Hne' Hr']] Hf; [split; [done|by intros []]|].
    split; [by eapply (inv_family _ _ I)|]. intros Hl. apply Hne'. symmetry. by eapply (inv_live _ _ I).
  - intros HF. destruct (inv_closed _ _ I _ HF) as [_ Hd]. by apply (Hd _ _ Hrow).
Qed.

Lemma RevokeRefreshFamily_inv h user t : maintains Inv (RevokeRefreshFamily h user t).
Proof.
  apply maintains_atomically_ok; [apply _|unfold cleanupRefresh; fwd|]. intros db n a db' n' I H.
  apply bind_ok in H as (f & db1 & n1 & H1 & H). apply call_ok in H1 as [H1 ->].
  destruct (refresh_tokens db !! h) as [r|]; [|done]. destruct (r_user r =? user)%string; [|done]. injection H1 as <- <-.
  apply bind_ok in H as (? & db2 & n2 & H1 & H). apply call_ok in H1 as [[= _ <-] ->]. apply cleanup_ok in H as [-> ->].
  do 3 apply timeless_succ. by apply cleaned_inv, revokeWhere_inv.
Qed.

(** What a change of the password leaves behind. *)
Lemma UpdatePassword_ok user h key t db n u db' n' :
  UpdatePasswordAndRevoke user h key t db n = (Ok u, (db', n')) →
  (∃ v, users db !! user = Some v) ∧ signing_key db' = Some key ∧ (32 ≤ len key)%Z ∧
  refresh_tokens db' = refresh_tokens (cleaned t (revokeWhere (λ r, (r_user r =? user)%string) t db)) ∧
  (∀ v, users db !! user = Some v → users db' = <[user := mkUser (UserID v) (Username v) h (CreatedAt v)]> (users db)).
Proof.
  intros H. unfold UpdatePasswordAndRevoke in H. apply bind_ok in H as (? & ? & ? & H1 & H).
  apply guard_not_ok in H1 as (Hlen & -> & ->). apply atomically_ok in H as (k & H).
  apply bind_ok in H as (? & db1 & n1 & H1 & H). apply call_ok in H1 as [H1 ->].
  destruct (users db !! user) as [v|] eqn:Hv; [|done]. injection H1 as _ <-.
  apply bind_ok in H as (? & db2 & n2 & H1 & H). apply call_ok in H1 as [[= _ <-] ->].
  apply bind_ok in H as (? & db3 & n3 & H1 & H). apply call_ok in H1 as [H1 ->]. simpl in H1.
  destruct (signing_key db) as [k0|]; [|done]. injection H1 as _ <-. apply cleanup_ok in H as [-> _].
  apply Z.ltb_ge in Hlen. split_and!; try done; [by exists v|]. by intros ? [= ->].
Qed.
(** The state [n0] ticks into the run, when the token or key of tick [k] is drawn. *)
Definition since (n0 k : nat) (db : AuthDB) (n : nat) : Prop := Inv db n0 ∧ k < n.
#[global] Instance since_timeless n0 k : Timeless (since n0 k).
Proof. intros db n [I Hn]. split; [done|lia]. Qed.
Lemma since_inv n0 k db n : n0 ≤ k → since n0 k db n → Inv db n.
Proof. intros Hk [I Hn]. apply (timeless_le Inv db n0); [lia|done]. Qed.

Lemma inv_rekey db n0 k n : Inv db n0 → n0 ≤ k < n → Inv (set_key db (Some (random k))) n.
Proof.
  intros I Hk. assert (Inv db n) as I' by (apply (timeless_le Inv db n0); [lia|done]).
  constructor; simpl; try apply I'.
  - intros k' [= <-]. exists k. split; [lia|done].
  - intros k' HK. split; [by apply (inv_retired _ _ I')|]. intros [= <-].
    destruct (inv_retired _ _ I _ HK) as [Hd _]. by apply (drawn_new n0 k) in Hd; [|lia].
Qed.
Lemma UpdatePassword_inv user h t n0 k : n0 ≤ k →
  triple (since n0 k) (UpdatePasswordAndRevoke user h (random k) t) (λ _, Inv) Inv.
Proof.
  intros Hk db n HS. pose proof HS as [I0 Hn]. pose proof (since_inv _ _ _ _ Hk HS) as I.
  pose proof (UpdatePassword_ok user h (random k) t db n) as Hok.
  assert (forward (UpdatePasswordAndRevoke user h (random k) t)) as Hf by (unfold UpdatePasswordAndRevoke, cleanupRefresh; fwd).
  specialize (Hf db n). destruct (UpdatePasswordAndRevoke user h (random k) t db n) as [[u|e] [db' n']] eqn:E; simpl in *.
  - destruct (Hok _ _ _ eq_refl) as ([v Hv] & Hkey & _ & Hr & Hu). apply (timeless_le Inv db' n); [done|].
    assert (Inv (set_key (cleaned t (revokeWhere (λ r, (r_user r =? user)%string) t db)) (Some (random k))) n) as I'.
    { apply (inv_rekey _ n0); [|lia]. by apply cleaned_inv, revokeWhere_inv. }
    apply (inv_dim _ db' n I'); simpl.
    + intros i. rewrite (Hu _ Hv), lookup_insert_is_Some. simpl. destruct (decide (user = i)) as [<-|]; [|naive_solver].
      rewrite Hv. split; eauto.
    + intros i w. rewrite (Hu _ Hv), lookup_insert_Some. intros [[<- <-]|[_ Hw]]; simpl; by eapply (inv_user _ _ I).
    + intros g r'. rewrite Hr. intros Hg. exists r'. split; [done|]. by split_and!.
    + done.
  - unfold UpdatePasswordAndRevoke in E. unfold mbind, M_bind, guard_not, lift in E.
    destruct (reject_if _ _); [|simplify_eq; done]. apply (timeless_le Inv db' n); [done|].
    by apply atomically_err in E as ->.
Qed.
Lemma initializeAuthKey_inv : maintains Inv initializeAuthKey.
Proof.
  apply maintains_transact_secures; [apply _|fwd|]. intros db n a db' n' I H.
  apply bind_ok in H as (key & db1 & n1 & H1 & H). apply call_ok in H1 as [[= <- <-] ->].
  destruct (signing_key db) as [k|] eqn:Hk; simpl in H.
  - apply bind_ok in H as (? & ? & ? & H1 & H). apply guard_not_ok in H1 as (_ & -> & ->).
    apply ret_ok in H as (_ & -> & ->). by apply timeless_succ.
  - apply bind_ok in H as (? & ? & ? & H1 & H). apply call_ok in H1 as [H1 ->]. case_bool_decide; [|done]. injection H1 as _ <-.
    apply bind_ok in H as (k & ? & ? & H1 & H). apply rand_read_ok in H1 as (-> & -> & ->).
    apply bind_ok in H as (? & ? & ? & H1 & H). apply call_ok in H1 as [[= _ <-] ->].
    apply ret_ok in H as (_ & -> & ->). apply (inv_rekey db n); [done|lia].
Qed.

(** *** The calls of the service *)
Context `{H : Hasher} `{T : Tokens} (ToLower : string → string) (dummyHash : string).
Definition InvE (e : Env) (n : nat) : Prop := Inv (store e) n.
#[global] Instance InvE_timeless : Timeless InvE.
Proof. intros e n. apply Inv_timeless. Qed.

Lemma zoom_inv {X} (m : M AuthDB X) : maintains Inv m → maintains InvE (zoom m : M Env X).
Proof. intros Hm e n. exact (maintains_zoom Inv m Hm e n). Qed.
Lemma update_inv f : (∀ e, store (f e) = store e) → maintains InvE (update f).
Proof. intros Hf e n. unfold InvE. simpl. by rewrite Hf. Qed.
Lemma hash_inv p : maintains InvE (hash p).
Proof. intros e n I. unfold hash. simpl. by apply timeless_succ. Qed.
Lemma SigningKey_inv : maintains Inv SigningKey.
Proof. apply reads_inv. intros db a db' E. destruct (validKey _); by simplify_eq. Qed.
Lemma read_user_inv id : maintains Inv (readUser id).
Proof. apply reads_inv. intros db a db' E. destruct (users db !! id); by simplify_eq. Qed.
Lemma UserByUsername_inv u : maintains Inv (UserByUsername u).
Proof. apply reads_inv. intros db a db' E. destruct (filter _ _) as [|[]]; by simplify_eq. Qed.
Lemma OnlyUser_inv : maintains Inv OnlyUser.
Proof. apply reads_inv. intros db a db' E. destruct (map_to_list _) as [|[]]; by simplify_eq. Qed.
#[local] Hint Resolve hash_inv SigningKey_inv read_user_inv UserByUsername_inv OnlyUser_inv RevokeRefreshFamily_inv : auth.
Ltac auth_leaf :=
  lazymatch goal with
  | |- maintains _ (zoom _) => apply zoom_inv; auto with auth
  | |- maintains _ (update _) => apply update_inv; intros; try done
  | |- _ => auto with auth
  end.
Ltac auth :=
  lazymatch goal with
  | |- maintains _ (mbind _ (newCredentials _ _ _ _)) => idtac
  | |- maintains _ (mbind _ _) => apply maintains_bind; [auth|intros; auth]
  | |- _ => walk ltac:(idtac; auth_leaf)
  end.

Definition issued (user : User) (t : time) (c : Credentials * RefreshRecord) (e : Env) (n : nat) : Prop :=
  fresh_record c.2 (store e) n ∧ RUserID c.2 = UserID user ∧ TokenHash c.2 = tokenHash (RefreshToken c.1) ∧
  OriginalLoginAt c.2 = t.
Lemma newCredentials_spec user t key :
  triple InvE (newCredentials user t (Add t RefreshLifetime) key) (issued user t) InvE.
Proof.
  intros e n I. unfold newCredentials, mbind, M_bind, rand_read, lift, mret, M_ret.
  destruct (fault n); simpl; [by apply timeless_succ|].
  destruct (fault (S n)); simpl; [by do 2 apply timeless_succ|].
  destruct (fault (S (S n))); simpl; [by do 3 apply timeless_succ|].
  destruct (signAccess _ _ _ _); simpl; [|by do 3 apply timeless_succ].
  split; [|done]. exists n, n, (S (S n)). simpl. split_and!; try lia; done.
Qed.
Lemma issued_inv user t c e n : issued user t c e n → InvE e n.
Proof. intros [Hf _]. by eapply fresh_record_inv. Qed.

(** Credentials that are stored by [save]. *)
Lemma with_credentials user t key (save : RefreshRecord → M AuthDB unit) :
  (∀ r, RUserID r = UserID user → triple (fresh_record r) (save r) (λ _, Inv) (fresh_record r)) →
  maintains InvE ('(credentials, record) ← newCredentials user t (Add t RefreshLifetime) key;
                  _ ← zoom (save record); mret credentials).
Proof.
  intros Hs. apply triple_maintains. eapply triple_bind; [apply newCredentials_spec|]. intros [c r].
  apply (triple_bind _ _ _ (λ _, InvE)); [|intros; by apply triple_ret].
  intros e n (Hf & Hu & _). specialize (Hs r Hu (store e) n Hf). unfold zoom, InvE. simpl.
  destruct (save r (store e) n) as [[x|x] [db k]]; simpl; [done|by eapply fresh_record_inv].
Qed.

Lemma Login_inv u p ip : maintains InvE (Login ToLower dummyHash u p ip).
Proof.
  unfold Login. apply maintains_bind; [apply maintains_now; apply _|]. intros t.
  apply maintains_bind; [by intros e n I|]. intros l.
  apply maintains_bind; [apply maintains_lift|]. intros _.
  apply maintains_bind.
  { intros e n I. pose proof (zoom_inv _ (UserByUsername_inv u) e n I) as Hu. unfold attempt.
    by destruct (zoom (UserByUsername u) e n) as [r [e' n']]. }
  intros user. destruct (if Verify _ _ then _ else _) as [v|x]; [|auth; by destruct (attempts _ !! _)].
  auth. apply with_credentials. intros r _. apply CreateRefresh_inv.
Qed.
Lemma RegisterUser_inv u p : maintains InvE (RegisterUser u p).
Proof.
  unfold RegisterUser. auth. apply (with_credentials _ _ _ (Register _)). intros r Hr. by apply Register_inv.
Qed.
Lemma setPassword_inv u p : maintains InvE (setPassword u p).
Proof.
  unfold setPassword. apply maintains_bind; [auth|]. intros _. apply maintains_bind; [auth|]. intros h.
  intros e n I. unfold mbind, M_bind, rand_read. destruct (fault n); simpl; [by apply timeless_succ|].
  pose proof (UpdatePassword_inv u h (clock (S n)) n n (le_n _) (store e) (S (S n)) ltac:(split; [exact I|lia])) as Hx.
  unfold zoom. simpl. by destruct (UpdatePasswordAndRevoke _ _ _ _ (store e) (S (S n))) as [[v|x] [db k]].
Qed.
Lemma Authenticate_inv raw : maintains InvE (Authenticate raw).
Proof. unfold Authenticate. auth. Qed.
#[local] Hint Resolve setPassword_inv Authenticate_inv : auth.
Lemma ChangePassword_inv raw p p' : maintains InvE (ChangePassword raw p p').
Proof. unfold ChangePassword, UserByID. auth. Qed.
Lemma ResetPassword_inv p : maintains InvE (ResetPassword p).
Proof. unfold ResetPassword. auth. Qed.
Lemma Logout_inv raw u : maintains InvE (Logout raw u).
Proof. unfold Logout. auth. Qed.

Lemma forward_exchange h csrf next t : forward (exchange h csrf next t).
Proof. unfold exchange, insertRefresh, readUser, cleanupRefresh. fwd. Qed.
Lemma ExchangeRefresh_inv h csrf next t n0 k :
  TokenHash next = tokenHash (random k) → n0 ≤ k →
  triple (since n0 k) (ExchangeRefresh h csrf next t) (λ _, Inv) Inv.
Proof.
  intros Hh Hk. unfold ExchangeRefresh. apply (triple_bind _ _ _ (λ _, Inv)).
  - eapply triple_conseq; [apply (triple_transact (since n0 k) _ (λ _, Inv)); [apply forward_exchange|]|done|done|].
    + intros db n res b db' n' [I Hn] E. pose proof (forward_exchange h csrf next t db n) as Hf.
      rewrite E in Hf. simpl in Hf. destruct b.
      * apply (timeless_le Inv db' n); [done|]. eapply exchange_inv; [exact I| |exact Hh|exact E]. lia.
      * apply (timeless_le Inv db n0); [lia|done].
    + intros db n. by apply since_inv.
  - intros r. by apply triple_lift.
Qed.
Lemma Refresh_inv raw csrf : maintains InvE (Refresh raw csrf).
Proof.
  unfold Refresh. apply maintains_bind; [auth|]. intros _. apply maintains_bind; [auth|]. intros key.
  apply maintains_bind; [auth|]. intros t.
  intros e n I. unfold mbind, M_bind, rand_read.
  destruct (fault n); simpl; [by apply timeless_succ|].
  destruct (fault (S n)); simpl; [by do 2 apply timeless_succ|].
  pose proof (ExchangeRefresh_inv (tokenHash raw) (tokenHash csrf)
    (mkRefreshRecord (tokenHash (random n)) (tokenHash (random (S n))) "" "" zeroTime zeroTime) t n n eq_refl (le_n _)
    (store e) (S (S n)) ltac:(split; [exact I|lia])) as Hx.
  unfold zoom. simpl. destruct (ExchangeRefresh _ _ _ _ (store e) (S (S n))) as [[v|x] [db k]]; simpl in *; [|done].
  unfold lift. by destruct (signAccess _ _ _ _).
Qed.

Inductive service_call : ∀ {A}, M Env A → Prop :=
| s_Register u p : service_call (RegisterUser u p)
| s_Login u p ip : service_call (Login ToLower dummyHash u p ip)
| s_Refresh raw csrf : service_call (Refresh raw csrf)
| s_ChangePassword raw p p' : service_call (ChangePassword raw p p')
| s_ResetPassword p : service_call (ResetPassword p)
| s_Logout raw u : service_call (Logout raw u)
| s_Authenticate raw : service_call (Authenticate raw)
| s_initializeAuthKey : service_call (zoom initializeAuthKey : M Env unit).
Inductive step : Env * nat → Env * nat → Prop :=
| step_call {A} (m : M Env A) e n e' n' r : service_call m → m e n = (r, (e', n')) → step (e, n) (e', n').

Lemma step_inv s s' : InvE s.1 s.2 → step s s' → InvE s'.1 s'.2.
Proof.
  intros I Hs. destruct Hs as [A m e n e' n' r Hm E]. simpl in *.
  assert (maintains InvE m) as Hk.
  { destruct Hm; [apply RegisterUser_inv|apply Login_inv|apply Refresh_inv|apply ChangePassword_inv|apply ResetPassword_inv
      |apply Logout_inv|apply Authenticate_inv|apply zoom_inv, initializeAuthKey_inv]. }
  specialize (Hk e n I). by rewrite E in Hk.
Qed.
Lemma later_inv e n e' n' : InvE e n → star step (e, n) (e', n') → InvE e' n'.
Proof. intros I Hs. exact (star_invariant step (λ s, InvE s.1 s.2) step_inv _ _ Hs I). Qed.
End laws.

(** ** Any history of the service *)
Section theorems.
Context `{W : World} `{!Unpredictable W} `{C : Crypto} `{CL : !CryptoLaws C} `{H : Hasher} `{T : Tokens}.
Context (ToLower : string → string) (dummyHash : string).

Definition none : string → Prop := λ _, False.
Definition reachable (e : Env) (n : nat) : Prop := star (step ToLower dummyHash) (mkEnv emptyAuthDB ∅ 0, 0) (e, n).

Lemma empty_inv : Inv none none none emptyAuthDB 0.
Proof. constructor; simpl; try done; try by intros * ?%lookup_empty_Some. by intros i j [? ?%lookup_empty_Some]. Qed.
Lemma auth_reachable_inv e n : reachable e n → Inv none none none (store e) n.
Proof. apply (later_inv none none none ToLower dummyHash (mkEnv emptyAuthDB ∅ 0)), empty_inv. Qed.

(** From a state on, tokens, families and keys are dead. *)
Lemma inv_bury D F K db n :
  Inv none none none db n →
  (∀ h, D h → hashed n h ∧ ∀ r, refresh_tokens db !! h = Some r → ¬ live r) →
  (∀ f, F f → drawn n f ∧ ∀ h r, refresh_tokens db !! h = Some r → r_family r = f → ¬ live r) →
  (∀ k, K k → drawn n k ∧ signing_key db ≠ Some k) → Inv D F K db n.
Proof. intros [] HD HF HK. by constructor. Qed.

(** A token that is not live is refused. *)
Lemma Refresh_ok raw csrf e n c e' n' :
  Refresh raw csrf e n = (Ok c, (e', n')) →
  ∃ row k, refresh_tokens (store e) !! tokenHash raw = Some row ∧ live row ∧ n ≤ k < n' ∧
    store e' = cleaned (clock (S n)) (set_refresh (store e)
      (<[tokenHash (RefreshToken c) := mkRefreshRow (r_user row) (r_family row) (r_login row) (r_expires row)
           (tokenHash (CSRFToken c)) None None]>
       (<[tokenHash raw := consume (clock (S n)) row]> (refresh_tokens (store e))))) ∧
    RefreshToken c = random k ∧ r_csrf row = tokenHash csrf ∧ (clock (S n) < r_expires row)%Z.
Proof.
  intros E. unfold Refresh in E. apply bind_ok in E as (? & ? & ? & E1 & E). apply guard_not_ok in E1 as (_ & -> & ->).
  apply bind_ok in E as (key & e1 & n1 & E1 & E). apply zoom_ok in E1 as (db1 & E1 & ->). apply call_ok in E1 as [E1 ->].
  assert (db1 = store e) as -> by (simpl in E1; destruct (validKey _); by simplify_eq). assert (put (store e) e = e) as Hput by (by destruct e). rewrite Hput in E.
  apply bind_ok in E as (t & ? & ? & E2 & E). apply now_ok in E2 as (-> & -> & ->).
  apply bind_ok in E as (refresh & ? & ? & E2 & E). apply rand_read_ok in E2 as (-> & -> & ->).
  apply bind_ok in E as (csrf' & ? & ? & E2 & E). apply rand_read_ok in E2 as (-> & -> & ->).
  apply bind_ok in E as (user & e2 & n2 & E2 & E). apply zoom_ok in E2 as (db2 & E2 & ->).
  apply bind_ok in E as (access & ? & ? & E3 & E). apply lift_ok in E3 as (_ & -> & ->).
  apply ret_ok in E as (<- & -> & ->). unfold ExchangeRefresh in E2.
  apply bind_ok in E2 as (r & db3 & n3 & E2 & E4). apply lift_ok in E4 as (-> & -> & ->).
  unfold transact in E2. destruct (fault _); [done|].
  destruct (exchange _ _ _ _ _ _) as [[[a b]|y] [db4 n4]] eqn:Ex; [|done].
  pose proof (forward_exchange (tokenHash raw) (tokenHash csrf)
    (mkRefreshRecord (tokenHash (random (S (S n)))) (tokenHash (random (S (S (S n))))) "" "" zeroTime zeroTime)
    (clock (S n)) (store e) (S (S (S (S (S n)))))) as Hf. change (store e) with (view e) in Hf at 1. simpl in Hf, Ex. rewrite Ex in Hf. simpl in Hf.
  apply exchange_ok in Ex as (-> & row & Hrow & Ht & Hrev & [(_ & -> & _)|(Hcon & Hc & Hne & Hnone & (u & Hu & ->) & ->)]);
    (destruct (fault n4); [done|]); [by simplify_eq|]. simplify_eq. exists row, (S (S n)). simpl.
  split_and!; try done; lia.
Qed.

Lemma dead_refused D F K raw csrf e n :
  Inv D F K (store e) n →
  D (tokenHash raw) ∨ (∃ f, F f ∧ ∀ r, refresh_tokens (store e) !! tokenHash raw = Some r → r_family r = f) →
  is_ok (Refresh raw csrf e n).1 = false.
Proof.
  intros I Hd. destruct (Refresh raw csrf e n) as [[c|x] [e' n']] eqn:E; [|done].
  apply Refresh_ok in E as (row & k & Hrow & Hl & _). destruct Hd as [Hd|(f & Hf & Hr)].
  - by destruct (proj2 (inv_dead _ _ _ _ _ I _ Hd) _ Hrow).
  - by destruct (proj2 (inv_closed _ _ _ _ _ I _ Hf) _ _ Hrow (Hr _ Hrow)).
Qed.
End theorems.

(** C12: whatever calls the service answered and whatever failed, there is at
    most one administrator, a session expires seven days after the login it
    goes back to, however often it was refreshed, all tokens of a family go
    back to the same login, and at most one of them can still be used. *)
Theorem sessions_are_bounded `{W : World} `{!Unpredictable W} `{C : Crypto} `{!CryptoLaws C} `{H : Hasher} `{T : Tokens}
    ToLower dummyHash e n :
  reachable ToLower dummyHash e n →
  (∀ i j, is_Some (users (store e) !! i) → is_Some (users (store e) !! j) → i = j) ∧
  (∀ h r, refresh_tokens (store e) !! h = Some r →
     is_Some (users (store e) !! r_user r) ∧ r_expires r = (r_login r + 7 * 24 * 3600 * Second)%Z) ∧
  (∀ h1 h2 r1 r2, refresh_tokens (store e) !! h1 = Some r1 → refresh_tokens (store e) !! h2 = Some r2 →
     r_family r1 = r_family r2 → r_login r1 = r_login r2 ∧ (live r1 → live r2 → h1 = h2)).
Proof.
  intros Hr%auth_reachable_inv. split_and!; [apply (inv_one _ _ _ _ _ Hr)| |].
  - intros h r Hh. split; [by eapply (inv_owner _ _ _ _ _ Hr)|]. by apply (inv_expiry _ _ _ _ _ Hr h).
  - intros h1 h2 r1 r2 H1 H2 Hf. split; [by eapply (inv_family _ _ _ _ _ Hr)|]. by apply (inv_live _ _ _ _ _ Hr h1 h2 r1 r2).
Qed.

(** C26: a refresh token is exchanged at most once: after it was, no later call
    accepts it, whatever happened in between. *)
Theorem refresh_is_single_use `{W : World} `{!Unpredictable W} `{C : Crypto} `{!CryptoLaws C} `{H : Hasher} `{T : Tokens}
    ToLower dummyHash raw csrf e0 n0 c e1 n1 e2 n2 :
  reachable ToLower dummyHash e0 n0 →
  Refresh raw csrf e0 n0 = (Ok c, (e1, n1)) →
  star (step ToLower dummyHash) (e1, n1) (e2, n2) →
  ∀ csrf', is_ok (Refresh raw csrf' e2 n2).1 = false.
Proof.
  intros Hr E Hlater csrf'. pose proof (auth_reachable_inv _ _ _ _ Hr) as I.
  pose proof (Refresh_inv none none none raw csrf e0 n0 I) as I1. rewrite E in I1. simpl in I1. unfold InvE in I1.
  apply Refresh_ok in E as (row & k & Hrow & Hl & Hk & Hstore & Htok & _).
  assert (Inv (λ h, h = tokenHash raw) none none (store e1) n1) as I1'.
  { apply inv_bury; [done| |done|done]. intros h ->. destruct (inv_drawn _ _ _ _ _ I _ _ Hrow) as [Hh _]. split.
    - eapply hashed_le; [|exact Hh]. lia.
    - intros r. rewrite Hstore. simpl. intros [Hin _]%map_lookup_filter_Some.
      rewrite lookup_insert_ne in Hin.
      + rewrite lookup_insert_eq in Hin. by injection Hin as <-; intros [].
      + intros Heq. rewrite <- Heq, Htok in Hh. by apply (hashed_new n0 k) in Hh; [|lia]. }
  apply (dead_refused (λ h, h = tokenHash raw) none none); [|by left].
  exact (later_inv _ _ _ ToLower dummyHash _ _ _ _ I1' Hlater).
Qed.

(** A spent token that is presented again, when nothing else fails. *)
Lemma replay_run `{W : World} `{!Faultless W} `{C : Crypto} `{H : Hasher} `{T : Tokens} raw csrf e n key row :
  raw ≠ ""%string → csrf ≠ ""%string → validKey (signing_key (store e)) = Ok key →
  refresh_tokens (store e) !! tokenHash raw = Some row → is_Some (r_consumed row) → r_revoked row = None →
  (clock (S n) < r_expires row)%Z →
  ∃ n', Refresh raw csrf e n = (Err Auth_ErrAuthenticationFailed,
    (put (revokeWhere (λ r, (r_family r =? r_family row)%string) (clock (S n)) (store e)) e, n')).
Proof.
  intros Hraw Hcsrf Hkey Hrow [at_ Hcon] Hrev Ht. apply String.eqb_neq in Hraw, Hcsrf. apply Z.ltb_lt in Ht.
  unfold Refresh, SigningKey, ExchangeRefresh, exchange, transact, guard_not, zoom, call, rand_read, now, lift, mbind, M_bind.
  rewrite Hraw, Hcsrf. simpl. rewrite no_fault. simpl in Hkey. rewrite Hkey.
  do 4 (simpl; rewrite ?no_fault). simpl. rewrite Hrow. simpl. unfold Before. rewrite Ht, Hcon, Hrev.
  do 2 (simpl; rewrite ?no_fault). simpl. by eexists.
Qed.

(** C27: a spent refresh token that is presented again before it expires ends
    the session it belongs to: the answer is a refusal, and unless the database
    failed no token of its family is accepted ever after. *)
Theorem replay_ends_the_session `{W : World} `{!Unpredictable W} `{!Faultless W} `{C : Crypto} `{!CryptoLaws C}
    `{H : Hasher} `{T : Tokens} ToLower dummyHash raw csrf e0 n0 key row :
  reachable ToLower dummyHash e0 n0 →
  raw ≠ ""%string → csrf ≠ ""%string → validKey (signing_key (store e0)) = Ok key →
  refresh_tokens (store e0) !! tokenHash raw = Some row → is_Some (r_consumed row) → r_revoked row = None →
  (clock (S n0) < r_expires row)%Z →
  ∃ e1 n1, Refresh raw csrf e0 n0 = (Err Auth_ErrAuthenticationFailed, (e1, n1)) ∧
  ∀ e2 n2, star (step ToLower dummyHash) (e1, n1) (e2, n2) → ∀ raw' csrf' row',
    refresh_tokens (store e0) !! tokenHash raw' = Some row' → r_family row' = r_family row →
    is_ok (Refresh raw' csrf' e2 n2).1 = false.
Proof.
  intros Hr Hraw Hcsrf Hkey Hrow Hcon Hrev Ht. pose proof (auth_reachable_inv _ _ _ _ Hr) as I.
  destruct (replay_run raw csrf e0 n0 key row Hraw Hcsrf Hkey Hrow Hcon Hrev Ht) as [n1 E].
  pose proof (Refresh_inv none none none raw csrf e0 n0 I) as I1. rewrite E in I1. simpl in I1. unfold InvE in I1. simpl in I1.
  do 2 eexists. split; [exact E|]. intros e2 n2 Hlater raw' csrf' row' Hrow' Hfam.
  assert (forward (Refresh raw csrf)) as Hf.
  { unfold Refresh, ExchangeRefresh. fwd. apply forward_transact, forward_exchange. }
  specialize (Hf e0 n0). rewrite E in Hf. simpl in Hf.
  assert (Inv (λ h, ∃ r, refresh_tokens (store e0) !! h = Some r ∧ r_family r = r_family row) none none
    (revokeWhere (λ r, (r_family r =? r_family row)%string) (clock (S n0)) (store e0)) n1) as I1'.
  { apply inv_bury; [done| |done|done]. intros h (r & Hh & Hfr). destruct (inv_drawn _ _ _ _ _ I _ _ Hh) as [Hd _].
    split; [eapply hashed_le; [|exact Hd]; lia|]. intros r'. simpl. rewrite lookup_fmap, Hh. simpl.
    rewrite Hfr, String.eqb_refl. intros [= <-] [_ Hl]. simpl in Hl. by destruct (r_revoked r). }
  pose proof (later_inv _ _ _ ToLower dummyHash (put _ e0) n1 _ _ I1' Hlater) as I2.
  eapply dead_refused; [exact I2|]. left. eauto.
Qed.

(** After the password was changed, by whom ever, no refresh token of the
    user that existed before is accepted again, and no access token that was
    signed before authenticates again, whatever happens later. *)
Theorem password_change_ends_sessions `{W : World} `{!Unpredictable W} `{C : Crypto} `{!CryptoLaws C} `{H : Hasher}
    `{T : Tokens} `{!TokensLaws T} ToLower dummyHash user password e0 n0 u e1 n1 e2 n2 :
  reachable ToLower dummyHash e0 n0 →
  setPassword user password e0 n0 = (Ok u, (e1, n1)) →
  star (step ToLower dummyHash) (e1, n1) (e2, n2) →
  (∀ raw csrf r, refresh_tokens (store e0) !! tokenHash raw = Some r → r_user r = user →
     is_ok (Refresh raw csrf e2 n2).1 = false) ∧
  (∀ key claims token, signing_key (store e0) = Some key → sign claims key = Ok token →
     is_ok (Authenticate token e2 n2).1 = false).
Proof.
  intros Hr E Hlater. pose proof (auth_reachable_inv _ _ _ _ Hr) as I.
  pose proof (setPassword_inv none none none user password e0 n0 I) as I1. rewrite E in I1. simpl in I1. unfold InvE in I1.
  assert (∃ h k t m, n0 ≤ k ∧ k < n1 ∧ UpdatePasswordAndRevoke user h (random k) t (store e0) m = (Ok tt, (store e1, n1)))
    as (h & k & t & m & Hk & Hk1 & Hup).
  { unfold setPassword in E. apply bind_ok in E as (? & ? & ? & E1 & E). apply lift_ok in E1 as (_ & -> & ->).
    apply bind_ok in E as (h & ? & ? & E1 & E). unfold hash in E1. injection E1 as _ <- <-.
    apply bind_ok in E as (k & ? & ? & E1 & E). apply rand_read_ok in E1 as (-> & -> & ->).
    apply bind_ok in E as (t & ? & ? & E1 & E). apply now_ok in E1 as (-> & -> & ->).
    apply bind_ok in E as ([] & e' & n' & E1 & E). apply zoom_ok in E1 as (db & E1 & ->).
    injection E as _ <- <-. simpl. exists h, (S n0), (clock (S (S n0))), (S (S (S n0))). split_and!; [lia| |exact E1].
    assert (forward (UpdatePasswordAndRevoke user h (random (S n0)) (clock (S (S n0))))) as Hf
      by (unfold UpdatePasswordAndRevoke, cleanupRefresh; fwd).
    specialize (Hf (store e0) (S (S (S n0)))). simpl in E1. rewrite E1 in Hf. simpl in Hf. lia. }
  destruct (UpdatePassword_ok _ _ _ _ _ _ _ _ _ Hup) as (_ & Hkey & _ & Hrows & _).
  assert (Inv (λ h, ∃ r, refresh_tokens (store e0) !! h = Some r ∧ r_user r = user) none
            (λ key, signing_key (store e0) = Some key) (store e1) n1) as I1'.
  { apply inv_bury; [done| |done|].
    - intros h0 (r & Hh & Hu). destruct (inv_drawn _ _ _ _ _ I _ _ Hh) as [Hd _]. split; [eapply hashed_le; [|exact Hd]; lia|].
      intros r'. rewrite Hrows. simpl. intros [Hin _]%map_lookup_filter_Some. rewrite lookup_fmap, Hh in Hin. simpl in Hin.
      rewrite Hu, String.eqb_refl in Hin. injection Hin as <-. intros [_ Hl]. simpl in Hl. by destruct (r_revoked r).
    - intros key Hk0. pose proof (inv_key _ _ _ _ _ I _ Hk0) as Hd. split; [eapply auth_drawn_le; [|exact Hd]; lia|].
      rewrite Hkey. intros [= <-]. by apply (drawn_new n0 k) in Hd; [|lia]. }
  pose proof (later_inv _ _ _ ToLower dummyHash _ _ _ _ I1' Hlater) as I2. unfold InvE in I2. split.
  - intros raw csrf r Hr0 Hu. eapply dead_refused; [exact I2|]. left. eauto.
  - intros key claims token Hk0 Hs. destruct (inv_retired _ _ _ _ _ I2 _ Hk0) as [_ Hne].
    destruct (Authenticate token e2 n2) as [[p|x] [e3 n3]] eqn:Ea; [|done]. unfold Authenticate in Ea.
    apply bind_ok in Ea as (key2 & e' & n' & E1 & Ea). apply zoom_ok in E1 as (db & E1 & ->). apply call_ok in E1 as [E1 ->].
    apply bind_ok in Ea as (t2 & ? & ? & E2 & Ea). apply now_ok in E2 as (-> & -> & ->).
    rewrite (parse_other _ _ key2 _ _ Hs) in Ea; [done|]. intros ->. apply Hne. simpl in E1.
    destruct (signing_key (store e2)) as [k2|]; [|discriminate E1]. simpl in E1.
    destruct (len k2 <? 32)%Z; [discriminate E1|]. congruence.
Qed.

(** ** The window of failed logins *)
Definition failedAt (k : string) (ts : list time) (e : Env) : Env := foldl (λ e t, recordFailure k t e) e ts.

Lemma failedAt_window k t0 ts w e :
  attempts e !! k = Some w → Started w = t0 → Forall (λ t, (t0 ≤ t < t0 + Minute)%Z) ts →
  attempts (failedAt k ts e) !! k = Some (mkLoginWindow t0 (Failures w + Z.of_nat (length ts))) ∧
  store (failedAt k ts e) = store e.
Proof.
  revert w e. induction ts as [|t ts IH]; intros w e Hw Ht0 Hts; simpl.
  - destruct w as [s f]. simpl in *. subst. by rewrite Z.add_0_r.
  - inversion Hts as [|? ? Ht Hts']; subst.
    assert (recordFailure k t e = mkEnv (store e) (<[k := mkLoginWindow (Started w) (Failures w + 1)]> (attempts e)) (rotations e)) as Hr.
    { unfold recordFailure. rewrite Hw. destruct (Z.leb_spec Minute (Sub t (Started w))) as [Hle|]; [|done].
      apply Sub_ge in Hle; unfold Minute, Second in *; lia. }
    rewrite Hr. destruct (IH (mkLoginWindow (Started w) (Failures w + 1)) (mkEnv (store e) (<[k := mkLoginWindow (Started w) (Failures w + 1)]> (attempts e)) (rotations e))) as [H1 H2]; simpl;
      [by rewrite lookup_insert_eq|done|done|]. unfold failedAt in *. rewrite H1, H2. simpl. split; [|done]. do 2 f_equal. lia.
Qed.

(** The logins for one user name and address are refused, without looking
    at the password and without any effect, exactly while five or more attempts
    failed within the minute that began with the first of them; when that
    minute is over, or after a success, they are admitted again. *)
Theorem failed_logins_are_limited `{W : World} `{C : Crypto} `{H : Hasher} `{T : Tokens} ToLower dummyHash
    user password ip t0 ts e n :
  let k := attemptKey ToLower user ip in
  attempts e !! k = None → Forall (λ t, (t0 ≤ t < t0 + Minute)%Z) ts → (t0 ≤ clock n)%Z →
  let e' := failedAt k (t0 :: ts) e in
  (limited k (clock n) e' = true ↔ (5 ≤ length (t0 :: ts)) ∧ (clock n < t0 + Minute)%Z) ∧
  (limited k (clock n) e' = true →
   Login ToLower dummyHash user password ip e' n = (Err Auth_ErrRateLimited, (e', S n))) ∧
  (limited k (clock n) (clearFailures k e') = false) ∧
  (∀ t, (t0 + Minute ≤ t)%Z → limited k t (recordFailure k t e') = false) ∧
  (∀ k' t, k' ≠ k → limited k' t e' = limited k' t e).
Proof.
  intros k Hnone Hts Hnow e'.
  assert (attempts (recordFailure k t0 e) !! k = Some (mkLoginWindow t0 1)) as H0.
  { unfold recordFailure. rewrite Hnone. simpl. apply lookup_insert_eq. }
  destruct (failedAt_window k t0 ts _ _ H0 eq_refl Hts) as [Hw _]. change (failedAt k ts (recordFailure k t0 e)) with e' in Hw.
  assert (∀ l e k', k' ≠ k → attempts (failedAt k l e) !! k' = attempts e !! k') as Hother.
  { clear. induction l as [|t l IH]; intros e k' Hne; [done|]. unfold failedAt in *. simpl. rewrite IH by done.
    unfold recordFailure. simpl. by rewrite lookup_insert_ne. }
  split_and!.
  - unfold limited. rewrite Hw. simpl. rewrite andb_true_iff, Z.ltb_lt, Z.leb_le.
    assert ((Sub (clock n) t0 < Minute)%Z ↔ (clock n < t0 + Minute)%Z) as ->.
    { unfold Sub, Minute, Second. lia. }
    lia.
  - intros Hl. unfold Login, guard_not, lift, mbind, M_bind, now. fold k. by rewrite Hl.
  - unfold limited. simpl. by rewrite lookup_delete_eq.
  - intros t Ht. unfold limited, recordFailure. rewrite Hw. simpl. rewrite lookup_insert_eq.
    assert ((Minute <=? Sub t t0)%Z = true) as -> by (apply Z.leb_le; unfold Sub, Minute, Second in *; lia). simpl.
    apply andb_false_r.
  - intros k' t Hne. unfold limited. subst e'. by rewrite Hother.
Qed.

(** ** What a login is good for *)

(** The access token of new credentials authenticates as their user for
    fifteen minutes less the fraction of a second that dates lose, as long as
    the key is not replaced, and the principal accepts exactly the CSRF token
    of the same credentials. *)
Theorem credentials_authenticate `{W : World} `{!Faultless W} `{C : Crypto} `{!CryptoLaws C} `{H : Hasher} `{T : Tokens}
    `{!TokensLaws T} user t expiry key e0 n0 c r e1 n1 e n :
  UserID user ≠ ""%string → Username user ≠ ""%string → (0 ≤ t)%Z →
  newCredentials user t expiry key e0 n0 = (Ok (c, r), (e1, n1)) →
  len (tokenHash (CSRFToken c)) = 32%Z → CSRFToken c ≠ ""%string →
  validKey (signing_key (store e)) = Ok key → (t ≤ clock (S n) < t + AccessLifetime - Second)%Z →
  ∃ p, Authenticate (AccessToken c) e n = (Ok p, (e, S (S n))) ∧ PUserID p = UserID user ∧ PUsername p = Username user ∧
    ∀ raw, CheckCSRF p raw = true ↔ raw = CSRFToken c.
Proof.
  intros Hid Hname Ht E Hlen Hne Hkey Hnow. unfold newCredentials in E.
  apply bind_ok in E as (refresh & ? & ? & E1 & E). apply rand_read_ok in E1 as (-> & -> & ->).
  apply bind_ok in E as (csrf & ? & ? & E1 & E). apply rand_read_ok in E1 as (-> & -> & ->).
  apply bind_ok in E as (family & ? & ? & E1 & E). apply rand_read_ok in E1 as (-> & -> & ->).
  apply bind_ok in E as (access & ? & ? & E1 & E). apply lift_ok in E1 as (Hs & -> & ->).
  apply ret_ok in E as ([= <- <-] & -> & ->). simpl in *. unfold signAccess in Hs.
  set (h := tokenHash (random (S n0))) in *.
  set (claims := mkClaims _ _ _ _ _) in Hs.
  assert (parse key (clock (S n)) access = Some claims) as Hparse.
  { eapply parse_sign; [exact Hs|reflexivity|reflexivity|]. rewrite !numeric_date. unfold Add.
    pose proof (Z.mod_pos_bound t Second). pose proof (Z.mod_pos_bound (t + AccessLifetime) Second). unfold Second in *. lia. }
  assert (principal claims = Ok (mkPrincipal (UserID user) (Username user) h (NewNumericDate (Add t AccessLifetime)))) as Hp.
  { unfold principal. simpl. rewrite (proj2 (String.eqb_neq _ _) Hid), (proj2 (String.eqb_neq _ _) Hname). simpl.
    destruct (String.eqb_spec (encodeBase64 h) "") as [Hempty|_].
    { apply encode_empty in Hempty. rewrite Hempty in Hlen. discriminate Hlen. }
    rewrite decode_encode, Hlen. simpl.
    assert (Sub (NewNumericDate (Add t AccessLifetime)) (NewNumericDate t) = AccessLifetime) as ->; [|by rewrite Z.eqb_refl].
    rewrite !numeric_date. unfold Add. replace (t + AccessLifetime)%Z with (t + 900 * Second)%Z by done.
    rewrite Z.mod_add by done. unfold Sub, AccessLifetime, Minute, Second. lia. }
  eexists. split.
  - unfold Authenticate, SigningKey, zoom, call, mbind, M_bind, now. rewrite no_fault. simpl in Hkey |- *. rewrite Hkey. simpl.
    rewrite Hparse. unfold lift. rewrite Hp. by destruct e.
  - split_and!; [done..|]. intros raw. unfold CheckCSRF. simpl. rewrite andb_true_iff, negb_true_iff, String.eqb_neq, String.eqb_eq.
    subst h. split; [by intros [_ ?%tokenHash_inj]|]. by intros ->.
Qed.

(** ** Examples *)
Section examples.
(** A world with long random texts, plain hashes, and tokens that spell out
    their claims and key. *)
Definition ex_world : World :=
  {| fault := λ _, false; random := λ n, "0000000000000000000000000000000" +:+ pretty n;
     clock := λ n, (Z.of_nat n * Second + 1)%Z |}.
#[local] Existing Instance ex_world.
#[local] Instance ex_faultless : Faultless ex_world.
Proof. done. Qed.
#[local] Instance ex_unpredictable : Unpredictable ex_world.
Proof. intros n m Hr. simpl in Hr. by apply (inj (String.append _)), (inj pretty) in Hr. Qed.
#[local] Instance ex_crypto : Crypto := {| tokenHash := id; encodeBase64 := id; decodeBase64 := Some |}.
#[local] Instance ex_cryptolaws : CryptoLaws ex_crypto.
Proof. by constructor. Qed.
#[local] Instance ex_hasher : Hasher := {| Hash := λ p _, Ok p; Verify := String.eqb |}.

Fixpoint spell (p : positive) : string :=
  match p with xH => "" | xO p => String "0" (spell p) | xI p => String "1" (spell p) end.
Fixpoint unspell (s : string) : positive :=
  match s with
  | EmptyString => xH
  | String c s => if Ascii.eqb c "0" then xO (unspell s) else xI (unspell s)
  end.
Lemma unspell_spell p : unspell (spell p) = p.
Proof. induction p; simpl; congruence. Qed.
#[local] Instance claims_eq_dec : EqDecision Claims.
Proof. solve_decision. Defined.
#[local] Instance claims_countable : Countable Claims.
Proof.
  apply (inj_countable' (λ c, (ClaimUsername c, CSRF c, Subject c, IssuedAt c, ExpiresAt_ c))
    (λ '(a, b, c, d, e), mkClaims a b c d e)). by intros [].
Defined.
#[local] Instance ex_tokens : Tokens := {|
  NewNumericDate := λ t, (t - t mod Second)%Z;
  sign := λ c k, Ok (spell (encode (c, k)));
  parse := λ key now_ token,
    match decode (A := Claims * string) (unspell token) with
    | Some (c, k) =>
      match IssuedAt c, ExpiresAt_ c with
      | Some i, Some x => if bool_decide (k = key ∧ (i ≤ now_ < x)%Z) then Some c else None
      | _, _ => None
      end
    | None => None
    end |}.
#[local] Instance ex_tokenslaws : TokensLaws ex_tokens.
Proof.
  constructor; simpl; [done|..].
  - intros c key token now_ i x [= <-] Hi Hx Hnow. rewrite unspell_spell, countable.decode_encode, Hi, Hx. by rewrite bool_decide_eq_true_2.
  - intros c key token now_ x Hp Hx. destruct (decode _) as [[c' k]|]; [|done].
    destruct (IssuedAt c') as [i|]; [|done]. destruct (ExpiresAt_ c') as [x'|] eqn:Ex; [|done].
    case_bool_decide as Hd; [|done]. simplify_eq. apply Hd.
  - intros c key key' token now_ [= <-] Hne. rewrite unspell_spell, countable.decode_encode.
    destruct (IssuedAt c), (ExpiresAt_ c); try done. rewrite bool_decide_eq_false_2; [done|]. by intros [-> _].
Qed.

Definition ex_after {A} (m : M Env A) (s : Env * nat) : Env * nat := (m s.1 s.2).2.
Definition ex0 : Env * nat := (mkEnv emptyAuthDB ∅ 0, 0).
Definition ex1 : Env * nat := ex_after (zoom initializeAuthKey : M Env unit) ex0.
Definition ex_registered : result Credentials * (Env * nat) :=
  RegisterUser "admin" "correct horse battery" ex1.1 ex1.2.
Definition ex2 : Env * nat := ex_registered.2.
Definition ex_credentials : Credentials :=
  match ex_registered.1 with Ok c => c | Err _ => mkCredentials "" "" "" "" end.
Definition ex_refresh : string := RefreshToken ex_credentials.
Definition ex_csrf : string := CSRFToken ex_credentials.
Definition ex_refreshed : result Credentials * (Env * nat) := Refresh ex_refresh ex_csrf ex2.1 ex2.2.
Definition ex3 : Env * nat := ex_refreshed.2.

Lemma ex_later {A} (m : M Env A) s0 s : service_call id "" m → star (step id "") s0 (s.1, s.2) →
  star (step id "") s0 ((ex_after m s).1, (ex_after m s).2).
Proof.
  intros Hm Hs. apply (star_trans _ _ _ _ Hs). destruct s as [e n]. unfold ex_after. simpl.
  destruct (m e n) as [r [e' n']] eqn:E. simpl. apply (star_step _ _ (e', n') _); [|apply star_refl].
  by apply (step_call id "" m _ _ _ _ r).
Qed.
Lemma ex2_reachable : reachable id "" ex2.1 ex2.2.
Proof.
  apply (ex_later _ _ ex1 (s_Register _ _ "admin" "correct horse battery")), (ex_later _ _ ex0 (s_initializeAuthKey _ _)).
  apply star_refl.
Qed.
Lemma ex3_reachable : reachable id "" ex3.1 ex3.2.
Proof. apply (ex_later _ _ ex2 (s_Refresh _ _ ex_refresh ex_csrf)), ex2_reachable. Qed.

Lemma sessions_are_bounded_witness :
  ∃ r, refresh_tokens (store ex3.1) !! tokenHash ex_refresh = Some r ∧
    r_expires r = (r_login r + 7 * 24 * 3600 * Second)%Z.
Proof.
  assert (is_Some (refresh_tokens (store ex3.1) !! tokenHash ex_refresh)) as [r Hr] by (vm_compute; eauto).
  exists r. split; [exact Hr|].
  exact (proj2 (proj1 (proj2 (sessions_are_bounded id "" ex3.1 ex3.2 ex3_reachable)) _ _ Hr)).
Defined.

Lemma refresh_is_single_use_witness :
  is_ok ex_refreshed.1 = true ∧ is_ok (Refresh ex_refresh ex_csrf ex3.1 ex3.2).1 = false.
Proof.
  split; [vm_compute; reflexivity|].
  assert (is_ok ex_refreshed.1 = true) as Hok by (vm_compute; reflexivity).
  destruct (ok_run _ Hok) as [c E].
  exact (refresh_is_single_use id "" ex_refresh ex_csrf ex2.1 ex2.2 c ex3.1 ex3.2 ex3.1 ex3.2 ex2_reachable E (star_refl _ _) ex_csrf).
Defined.

Lemma replay_ends_the_session_witness :
  ∃ e1 n1, Refresh ex_refresh ex_csrf ex3.1 ex3.2 = (Err Auth_ErrAuthenticationFailed, (e1, n1)).
Proof.
  assert (∃ row, refresh_tokens (store ex3.1) !! tokenHash ex_refresh = Some row ∧ is_Some (r_consumed row) ∧ r_revoked row = None ∧
    (clock (S ex3.2) < r_expires row)%Z) as (row & Hrow & Hc & Hr & Ht).
  { eexists. split; [vm_compute; reflexivity|]. split; [vm_compute; eauto|]. split; vm_compute; reflexivity. }
  destruct (replay_ends_the_session id "" ex_refresh ex_csrf ex3.1 ex3.2 (random 3) row ex3_reachable) as (e1 & n1 & E & _);
    [vm_compute; discriminate|vm_compute; discriminate|vm_compute; reflexivity|exact Hrow|exact Hc|exact Hr|exact Ht|].
  exists e1, n1. exact E.
Defined.

Lemma password_change_ends_sessions_witness :
  let changed := (setPassword "usr_00000000000000000000000000000009" "another long password" ex2.1 ex2.2).2 in
  is_ok (Refresh ex_refresh ex_csrf changed.1 changed.2).1 = false.
Proof.
  intros changed.
  assert (is_ok (setPassword "usr_00000000000000000000000000000009" "another long password" ex2.1 ex2.2).1 = true) as Hok
    by (vm_compute; reflexivity).
  destruct (ok_run _ Hok) as [u E]. clear Hok.
  assert (∃ r, refresh_tokens (store ex2.1) !! tokenHash ex_refresh = Some r ∧ r_user r = "usr_00000000000000000000000000000009"%string)
    as (r & Hr & Hu) by (eexists; split; vm_compute; reflexivity).
  pose proof (password_change_ends_sessions id "" _ _ ex2.1 ex2.2 u _ _ _ _ ex2_reachable E (star_refl _ _)) as [H _].
  exact (H ex_refresh ex_csrf r Hr Hu).
Defined.

Lemma failed_logins_are_limited_witness :
  Login id "" "admin" "guess" "10.0.0.1" (failedAt (attemptKey id "admin" "10.0.0.1") [1; 2; 3; 4; 5]%Z (mkEnv emptyAuthDB ∅ 0)) 0 =
  (Err Auth_ErrRateLimited, (failedAt (attemptKey id "admin" "10.0.0.1") [1; 2; 3; 4; 5]%Z (mkEnv emptyAuthDB ∅ 0), 1)).
Proof.
  destruct (failed_logins_are_limited id "" "admin" "guess" "10.0.0.1" 1%Z [2; 3; 4; 5]%Z (mkEnv emptyAuthDB ∅ 0) 0) as (_ & H & _);
    [reflexivity|unfold Minute, Second; repeat constructor; lia|vm_compute; discriminate|].
  apply H. vm_compute. reflexivity.
Defined.

Lemma credentials_authenticate_witness :
  let user := mkUser "usr_1" "admin" "" 0%Z in
  let e := mkEnv (set_key emptyAuthDB (Some (random 1))) ∅ 0 in
  ∃ c r p, newCredentials user 1%Z 2%Z (random 1) e 0 = (Ok (c, r), (e, 3)) ∧
    Authenticate (AccessToken c) e 3 = (Ok p, (e, 5)) ∧ PUsername p = "admin"%string.
Proof.
  intros user e.
  assert (∃ c r, newCredentials user 1%Z 2%Z (random 1) e 0 = (Ok (c, r), (e, 3)) ∧ CSRFToken c = random 1) as (c & r & E & Hc)
    by (do 2 eexists; split; reflexivity).
  destruct (credentials_authenticate user 1%Z 2%Z (random 1) e 0 c r e 3 e 3) as (p & Hp & _ & Hn & _);
    [vm_compute; discriminate|vm_compute; discriminate|lia|exact E|rewrite Hc; vm_compute; reflexivity
    |rewrite Hc; vm_compute; discriminate|vm_compute; reflexivity|vm_compute; split; [discriminate|reflexivity]|].
  exists c, r, p. split; [exact E|]. split; [exact Hp|exact Hn].
Defined.
End examples.
End AuthLaws.
