(* ===== verification/Repository.v ===== *)
(** * The repository and its setup (src/internal/repository,
    src/internal/sqlite/repository_store.go)

    The configuration is two rows of the database; the repository in use is a
    field of [RepositoryService] that the setup replaces.  The provisioner,
    which works on the file system and on remotes, is an interface: its answers
    are arbitrary functions of the request and the moment. *)
From S2P Require Import Prelude GoStrings TimeText Coordinator Locking.

(** net/mail.ParseAddress: the address of the parsed text. *)
Class Mail := ParseAddress : string → option string.

Module Repository.

(** ** Data (types.go, git_types.go) *)
Definition RepositorySetupUnregistered : string := "unregistered".
Definition RepositorySetupRegistered : string := "registered".
Definition RepositorySetupReady : string := "ready".
Definition RepositorySetupInit : string := "init".
Definition RepositorySetupRemote : string := "remote".
Definition RepositorySetupAdopt : string := "adopt".
Definition RepositoryAuthNone : string := "none".
Definition RepositoryAuthHTTPS : string := "https".
Definition RepositoryAuthSSH : string := "ssh".
Definition RepositoryPathEmpty : string := "empty".
Definition RepositoryPathWorktree : string := "worktree".

Record GitIdentity := mkIdentity { IName : string; IEmail : string }.
Record RemoteAuthenticationInput := mkAuthInput { InType : string; InUsername : string; InSecret : string }.
Record RepositoryRemoteInput := mkRemoteInput { RemoteURL : string; RemoteAuth : RemoteAuthenticationInput }.
Record RepositorySetupRequest := mkSetupRequest {
  Mode : string; SBranch : string; SAuthor : GitIdentity; SRemote : option RepositoryRemoteInput;
  ManageExistingRemote : bool;
}.
Record RepositoryRemoteRequest := mkRemoteRequest {
  RRemote : RepositoryRemoteInput; RBranch : string; ReplaceExisting : bool;
}.
Record RepositoryAuthentication := mkAuthentication {
  AType : string; AUsername : string; ASecret : string; ASSHKeyPath : string; AKnownHostsPath : string;
}.
Record RepositoryRemoteSummary := mkRemoteSummary {
  RName : string; RURL : string; RAuthType : string; Managed : bool;
}.
Record RepositoryConfiguration := mkConfiguration {
  CState : string; Root : string; CBranch : string; CAuthor : GitIdentity; CRemote : option RepositoryRemoteSummary;
}.
Record RepositoryModeAvailability := mkModeAvailability { MMode : string; Available : bool; MReason : string }.
Record SSHMaterialStatus := mkSSH { IdentityAvailable : bool; KnownHostsAvailable : bool; Usable : bool }.
Record RepositorySetupStatus := mkStatus {
  StState : string; Required : bool; PathState : string; Modes : list RepositoryModeAvailability; StBranch : string;
  StAuthor : GitIdentity; DefaultAuthor : GitIdentity; StExistingRemote : option RepositoryRemoteSummary;
  ManagedRemote : option RepositoryRemoteSummary; SSH : SSHMaterialStatus;
}.
Record RemoteInspection := mkRemoteInspection {
  IRemoteURL : string; DefaultBranch : string; Branches : list string; Empty : bool; Suggested : string;
}.
Record RepositoryPathInspection := mkPathInspection {
  PState : string; PBranch : string; PAuthor : GitIdentity; ExistingRemote : option RepositoryRemoteSummary;
  Detached : bool; PReason : string;
}.
Record RepositoryProvisionRequest := mkProvisionRequest {
  PMode : string; PRBranch : string; PRAuthor : GitIdentity; PRemoteURL : string; PManage : bool;
  PAuthentication : RepositoryAuthentication;
}.
Record RepositoryRemoteProvisionRequest := mkRemoteProvision {
  QRemoteURL : string; QBranch : string; QReplace : bool; QAuthentication : RepositoryAuthentication;
}.
Record RepositorySetupOptions := mkOptions { SSHKeyPath : string; KnownHostsPath : string }.

Definition noAuthentication : RepositoryAuthentication := mkAuthentication RepositoryAuthNone "" "" "" "".
Definition setState (state : string) (c : RepositoryConfiguration) : RepositoryConfiguration :=
  mkConfiguration state (Root c) (CBranch c) (CAuthor c) (CRemote c).
(** [configuration.Remote != nil && configuration.Remote.Managed] *)
Definition managedRemote (c : RepositoryConfiguration) : bool :=
  match CRemote c with Some r => Managed r | None => false end.

(** ** The rows (migrations/00001_initial.sql) *)
Record AppState := mkAppState {
  setup_state : string;
  repository_root : option string;
  remote_name : option string;
  remote_url_redacted : option string;
  tracking_branch : option string;
  git_author_name : option string;
  git_author_email : option string;
}.
Record AuthRow := mkAuthRow {
  auth_type : string;
  https_username : option string;
  https_secret : option string;
  ssh_key_path : option string;
  known_hosts_path : option string;
}.
Record RepositoryDB := mkRepositoryDB { app_state : AppState; repository_auth : option AuthRow }.

Definition nullableString (s : string) : option string := if (s =? "")%string then None else Some s.
(** The [String] of a [sql.NullString]. *)
Definition text (o : option string) : string := default "" o.

(** The configuration and the authentication that two rows describe. *)
Definition loadAuthentication (row : option AuthRow) : result RepositoryAuthentication :=
  match row with
  | None => Ok noAuthentication
  | Some r =>
    if (auth_type r =? RepositoryAuthNone)%string then Ok (mkAuthentication (auth_type r) "" "" "" "")
    else if (auth_type r =? RepositoryAuthHTTPS)%string
    then Ok (mkAuthentication (auth_type r) (text (https_username r)) (text (https_secret r)) "" "")
    else if (auth_type r =? RepositoryAuthSSH)%string
    then Ok (mkAuthentication (auth_type r) "" "" (text (ssh_key_path r)) (text (known_hosts_path r)))
    else Err (ErrText "unknown repository authentication type %q")
  end.
Definition loadConfiguration (s : AppState) (authType : string) : RepositoryConfiguration :=
  mkConfiguration (setup_state s) (text (repository_root s)) (text (tracking_branch s))
    (mkIdentity (text (git_author_name s)) (text (git_author_email s)))
    (if bool_decide (is_Some (remote_name s)) || bool_decide (is_Some (remote_url_redacted s))
     then Some (mkRemoteSummary (text (remote_name s)) (text (remote_url_redacted s)) authType true) else None).

(** ** The store (sqlite/repository_store.go) *)
Section store.
Context `{W : World}.

Definition Load : M RepositoryDB (RepositoryConfiguration * RepositoryAuthentication) :=
  s ← call (λ db, Ok (app_state db, db));
  row ← call (λ db, Ok (repository_auth db, db));
  authentication ← lift (loadAuthentication row);
  mret (loadConfiguration s (AType authentication), authentication).

Definition updateState (c : RepositoryConfiguration) (s : AppState) : AppState :=
  mkAppState (CState c) (nullableString (Root c))
    (match CRemote c with Some r => nullableString (RName r) | None => None end)
    (match CRemote c with Some r => nullableString (RURL r) | None => None end)
    (nullableString (CBranch c)) (nullableString (IName (CAuthor c))) (nullableString (IEmail (CAuthor c))).
Definition authRow (a : RepositoryAuthentication) : result (option AuthRow) :=
  if (AType a =? RepositoryAuthNone)%string then Ok None
  else if (AType a =? RepositoryAuthHTTPS)%string
  then Ok (Some (mkAuthRow (AType a) (nullableString (AUsername a)) (Some (ASecret a)) None None))
  else if (AType a =? RepositoryAuthSSH)%string
  then Ok (Some (mkAuthRow (AType a) None None (nullableString (ASSHKeyPath a)) (nullableString (AKnownHostsPath a))))
  else Err (ErrText "unknown repository authentication type %q").
Definition Save (c : RepositoryConfiguration) (a : RepositoryAuthentication) : M RepositoryDB unit :=
  atomically (
    _ ← now;
    _ ← call (λ db, Ok (tt, mkRepositoryDB (updateState c (app_state db)) (repository_auth db)));
    row ← lift (authRow a);
    call (λ db, Ok (tt, mkRepositoryDB (app_state db) row))).

(** The older entry point: a remote with or without HTTPS credentials. *)
Definition SaveConfiguration (remote branch username secret : string) : M RepositoryDB unit :=
  atomically (
    _ ← now;
    _ ← call (λ db, let s := app_state db in Ok (tt, mkRepositoryDB
          (mkAppState (setup_state s) (repository_root s) (nullableString "origin") (nullableString remote)
             (Some branch) (git_author_name s) (git_author_email s)) (repository_auth db)));
    if (username =? "")%string && (secret =? "")%string
    then call (λ db, Ok (tt, mkRepositoryDB (app_state db) None))
    else
      _ ← now;
      call (λ db, Ok (tt, mkRepositoryDB (app_state db) (Some (mkAuthRow "https" (Some username) (Some secret)
        (repository_auth db ≫= ssh_key_path) (repository_auth db ≫= known_hosts_path)))))).
Definition Credentials : M RepositoryDB (string * string) :=
  call (λ db, match repository_auth db with
    | Some r =>
      if (auth_type r =? "https")%string then
        match https_username r with
        | Some u => Ok ((u, text (https_secret r)), db)
        | None => Err (ErrText "converting NULL to string is unsupported")
        end
      else Err ErrNoRows
    | None => Err ErrNoRows
    end).
Definition Branch : M RepositoryDB string :=
  call (λ db, let b := text (tracking_branch (app_state db)) in Ok (if (b =? "")%string then "main" else b, db)).
End store.

(** ** Checks of the setup (setup.go) *)
Definition containsControl (value : string) : bool := existsb (λ r, IsControl (rune r)) (runes value).

Definition validateIdentity `{Mail} (identity : GitIdentity) : result GitIdentity :=
  let name := TrimSpace (IName identity) in
  let email := TrimSpace (IEmail identity) in
  _ ← reject_if ((RuneCountInString name <? 1)%Z || (128 <? RuneCountInString name)%Z
                 || (RuneCountInString email <? 3)%Z || (254 <? RuneCountInString email)%Z
                 || containsControl name || containsControl email) Repo_ErrInvalidRequest;
  _ ← reject_if (match ParseAddress email with Some a => negb (a =? email)%string | None => true end)
        Repo_ErrInvalidRequest;
  Ok (mkIdentity name email).

Definition badComponent (c : string) : bool :=
  (c =? "")%string || HasPrefix c "." || HasSuffix c "." || HasSuffix c ".lock".
Definition validateBranch (branch : string) : result string :=
  _ ← reject_if ((branch =? "")%string || negb (branch =? TrimSpace branch)%string || (255 <? len branch)%Z
                 || negb (ValidString branch) || containsControl branch) Repo_ErrInvalidRequest;
  _ ← reject_if (HasPrefix branch "-" || HasPrefix branch "." || HasSuffix branch "/" || HasSuffix branch "."
                 || HasSuffix branch ".lock" || Contains branch ".." || Contains branch "@{" || Contains branch "//"
                 || ContainsAny branch " ~^:?*[\") Repo_ErrInvalidRequest;
  _ ← reject_if (existsb badComponent (Split branch "/")) Repo_ErrInvalidRequest;
  Ok branch.

Definition defaultGitIdentity : GitIdentity := mkIdentity "Porty" "porty@localhost".

Definition authentication (o : RepositorySetupOptions) (i : RemoteAuthenticationInput) : result RepositoryAuthentication :=
  if (InType i =? RepositoryAuthNone)%string then
    _ ← reject_if (negb (InUsername i =? "")%string || negb (InSecret i =? "")%string) Repo_ErrInvalidRequest;
    Ok noAuthentication
  else if (InType i =? RepositoryAuthHTTPS)%string then
    let username := TrimSpace (InUsername i) in
    _ ← reject_if ((username =? "")%string || (InSecret i =? "")%string || containsControl username) Repo_ErrInvalidRequest;
    Ok (mkAuthentication RepositoryAuthHTTPS username (InSecret i) "" "")
  else if (InType i =? RepositoryAuthSSH)%string then
    _ ← reject_if (negb (InUsername i =? "")%string || negb (InSecret i =? "")%string) Repo_ErrInvalidRequest;
    _ ← reject_if ((SSHKeyPath o =? "")%string || (KnownHostsPath o =? "")%string) Repo_ErrSSHMaterialUnavailable;
    Ok (mkAuthentication RepositoryAuthSSH "" "" (SSHKeyPath o) (KnownHostsPath o))
  else Err Repo_ErrInvalidRequest.

Definition validateSetupRequest `{Mail} (o : RepositorySetupOptions) (r : RepositorySetupRequest)
    : result (RepositoryProvisionRequest * RepositoryAuthentication) :=
  branch ← validateBranch (SBranch r);
  author ← validateIdentity (SAuthor r);
  let request url a := mkProvisionRequest (Mode r) branch author url (ManageExistingRemote r) a in
  if (Mode r =? RepositorySetupInit)%string then
    _ ← reject_if (bool_decide (is_Some (SRemote r)) || ManageExistingRemote r) Repo_ErrInvalidRequest;
    Ok (request "" noAuthentication, noAuthentication)
  else if (Mode r =? RepositorySetupRemote)%string then
    match SRemote r with
    | None => Err Repo_ErrInvalidRequest
    | Some remote =>
      _ ← reject_if (ManageExistingRemote r) Repo_ErrInvalidRequest;
      let url := TrimSpace (RemoteURL remote) in
      _ ← reject_if (url =? "")%string Repo_ErrInvalidRequest;
      a ← authentication o (RemoteAuth remote);
      Ok (request url a, a)
    end
  else if (Mode r =? RepositorySetupAdopt)%string then
    _ ← reject_if (bool_decide (is_Some (SRemote r))) Repo_ErrInvalidRequest;
    Ok (request "" noAuthentication, noAuthentication)
  else Err Repo_ErrInvalidRequest.

Definition unavailableReason (available : bool) (reason : string) : string := if available then "" else reason.
Definition modeAvailability (i : RepositoryPathInspection) : list RepositoryModeAvailability :=
  let init := (PState i =? RepositoryPathEmpty)%string in
  let adopt := (PState i =? RepositoryPathWorktree)%string && negb (Detached i) in
  [mkModeAvailability RepositorySetupInit init (unavailableReason init "repository path is not empty");
   mkModeAvailability RepositorySetupRemote init (unavailableReason init "repository path is not empty");
   mkModeAvailability RepositorySetupAdopt adopt (unavailableReason adopt "repository path is not an adoptable worktree")].

(** The errors of the provisioner that the caller may see. *)
Definition known : list error :=
  [Repo_ErrInvalidRequest; Repo_ErrSetupRequired; Repo_ErrPathNotEmpty; Repo_ErrInvalidWorktree; Repo_ErrDetachedHead;
   Repo_ErrRemoteAuthenticationFailed; Repo_ErrRemoteUnavailable; Repo_ErrSSHMaterialUnavailable;
   Repo_ErrUnrelatedHistory; Repo_ErrRemoteConflict; Repo_ErrRepositoryRemoteUnavailable].
Definition safeProvisionError (e : error) : error := default Repo_ErrSetupFailed (head (filter (λ c, Is e c = true) known)).

(** ** The repository in use (repository.go) *)
Record GitStatus := mkGitStatus {
  Configured : bool; GBranch : string; Dirty : bool; Ahead : Z; Behind : Z; Paths : list string;
}.
Record GitCommit := mkGitCommit { SHA : string; Subject : string; GAuthor : string; GTime : string }.

(** The interface of a repository; [gHistoryPage] is the optional method. *)
Class GitRepository (G : Type) := {
  gStatus : G → nat → result GitStatus;
  gHead : G → nat → result string;
  gDiff : G → string → nat → result string;
  gCommit : G → string → string → nat → result string;
  gHistory : G → Z → nat → result (list GitCommit);
  gHistoryPage : G → option (Z → Z → nat → result (list GitCommit));
  gFetch : G → nat → result unit;
  gPullFastForward : G → nat → result unit;
  gPush : G → nat → result unit;
}.

(** The interface of the provisioner, and the calls of it that change something. *)
Inductive ProvisionCall :=
| CallProvision (r : RepositoryProvisionRequest)
| CallConfigureRemote (r : RepositoryRemoteProvisionRequest) (c : RepositoryConfiguration)
| CallRemoveRemote (c : RepositoryConfiguration).
Class Provisioner (G : Type) := {
  pInspectPath : nat → result RepositoryPathInspection;
  pInspectSSHMaterial : nat → SSHMaterialStatus;
  pInspectRemote : string → RepositoryAuthentication → nat → result RemoteInspection;
  pChange : ProvisionCall → nat → result (G * RepositoryConfiguration);
  pOpen : RepositoryConfiguration → RepositoryAuthentication → nat → result G;
}.

Section service.
Context {G : Type}.

Record Env := mkEnv {
  store : RepositoryDB;
  coordinator : Coordinator.Coordinator;
  git : G;                               (* RepositoryService *)
  remoteEnabled : bool;
  provisioned : list ProvisionCall;      (* the changes asked of the provisioner *)
}.
#[export] Program Instance env_store : Lens Env RepositoryDB := {|
  view := store; put db e := mkEnv db (coordinator e) (git e) (remoteEnabled e) (provisioned e) |}.
Next Obligation. done. Qed.
Next Obligation. by intros []. Qed.
Next Obligation. done. Qed.
#[export] Program Instance env_coordinator : Lens Env Coordinator.Coordinator := {|
  view := coordinator; put c e := mkEnv (store e) c (git e) (remoteEnabled e) (provisioned e) |}.
Next Obligation. done. Qed.
Next Obligation. by intros []. Qed.
Next Obligation. done. Qed.

Context `{W : World} `{P : !Provisioner G} `{R : !GitRepository G} `{Mail}.
Context (options : RepositorySetupOptions).

(** A call on the repository in use, or, for the remote, its refusal. *)
Definition useGit {A} (f : G → nat → result A) : M Env A := λ e n, (f (git e) n, (e, S n)).
Definition useRemote {A} (f : G → nat → result A) : M Env A := λ e n,
  if remoteEnabled e then (f (git e) n, (e, S n)) else (Err Repo_ErrRepositoryRemoteUnavailable, (e, n)).

Definition Status_ : M Env GitStatus := useGit gStatus.
Definition Head : M Env string := useGit gHead.
Definition Diff (stack : string) : M Env string := useGit (λ g, gDiff g stack).
Definition Commit (stack message : string) : M Env string := useGit (λ g, gCommit g stack message).
Definition History (limit : Z) : M Env (list GitCommit) := useGit (λ g, gHistory g limit).
Definition HistoryPage (limit offset : Z) : M Env (list GitCommit) :=
  useGit (λ g, match gHistoryPage g with Some paged => paged limit offset | None => gHistory g limit end).
(** [Pull] looks the repository up once and calls it twice. *)
Definition Pull : M Env unit := λ e n,
  if remoteEnabled e then
    match gFetch (git e) n with
    | Err x => (Err x, (e, S n))
    | Ok _ => (gPullFastForward (git e) (S n), (e, S (S n)))
    end
  else (Err Repo_ErrRepositoryRemoteUnavailable, (e, n)).
Definition Push : M Env unit := useRemote gPush.
Definition Fetch : M Env unit := useRemote gFetch.
Definition Replace (g : G) (remote : bool) : M Env unit := λ e n,
  (Ok tt, (mkEnv (store e) (coordinator e) g remote (provisioned e), n)).

(** ** The setup (setup.go) *)
Definition ask {A} (f : nat → result A) : M Env A := λ e n, (f n, (e, S n)).
Definition change (q : ProvisionCall) : M Env (G * RepositoryConfiguration) := λ e n,
  (pChange q n, (mkEnv (store e) (coordinator e) (git e) (remoteEnabled e) (provisioned e ++ [q]), S n)).
(** [if err != nil { return safeProvisionError(err) }] and its like for the store. *)
Definition safely {A} (m : M Env A) : M Env A := catch m (λ e, fail (safeProvisionError e)).
Definition persistently {A} (m : M RepositoryDB A) : M Env A := catch (zoom m) (λ _, fail Repo_ErrPersistenceFailed).

Definition status (c : RepositoryConfiguration) : M Env RepositorySetupStatus :=
  i ← safely (ask pInspectPath);
  ssh ← ask (λ n, Ok (pInspectSSHMaterial n));
  let ready := (CState c =? RepositorySetupReady)%string in
  let author := if ready then CAuthor c else PAuthor i in
  mret (mkStatus (CState c) (negb ready) (PState i) (modeAvailability i) (if ready then CBranch c else PBranch i)
          (if (IName author =? "") && (IEmail author =? "") then defaultGitIdentity else author)%string
          defaultGitIdentity (ExistingRemote i) (CRemote c) ssh).

Definition Status : M Env RepositorySetupStatus :=
  '(c, _) ← persistently Load; status c.

Definition InspectRemote (remote : RepositoryRemoteInput) : M Env RemoteInspection :=
  let url := TrimSpace (RemoteURL remote) in
  _ ← guard_not (url =? "")%string Repo_ErrInvalidRequest;
  a ← lift (authentication options (RemoteAuth remote));
  i ← safely (ask (pInspectRemote url a));
  mret (if Empty i && (Suggested i =? "")%string
        then mkRemoteInspection (IRemoteURL i) (DefaultBranch i) (Branches i) (Empty i) "main" else i).

(** Save the configuration as ready and use the repository. *)
Definition adopt (c : RepositoryConfiguration) (a : RepositoryAuthentication) (g : G) (remote : bool) : M Env unit :=
  _ ← persistently (Save (setState RepositorySetupReady c) a);
  Replace g remote.

Definition Setup (r : RepositorySetupRequest) : M Env RepositorySetupStatus :=
  '(request, a) ← lift (validateSetupRequest options r);
  Locking.locked true "" (
    '(g, c) ← safely (change (CallProvision request));
    _ ← adopt c a g (managedRemote c);
    status (setState RepositorySetupReady c)).

Definition readyConfiguration : M Env RepositoryConfiguration :=
  '(c, _) ← persistently Load;
  _ ← guard_not (negb (CState c =? RepositorySetupReady)%string) Repo_ErrSetupRequired;
  mret c.

Definition ConfigureRemote (r : RepositoryRemoteRequest) : M Env RepositorySetupStatus :=
  let url := TrimSpace (RemoteURL (RRemote r)) in
  branch ← lift (match validateBranch (RBranch r) with Ok b => Ok b | Err _ => Err Repo_ErrInvalidRequest end);
  _ ← guard_not (url =? "")%string Repo_ErrInvalidRequest;
  a ← lift (authentication options (RemoteAuth (RRemote r)));
  Locking.locked true "" (
    c ← readyConfiguration;
    '(g, c') ← safely (change (CallConfigureRemote (mkRemoteProvision url branch (ReplaceExisting r) a) c));
    _ ← adopt c' a g (managedRemote c');
    status (setState RepositorySetupReady c')).

Definition RemoveRemote : M Env RepositorySetupStatus :=
  Locking.locked true "" (
    c ← readyConfiguration;
    _ ← guard_not (bool_decide (CRemote c = None)) Repo_ErrRepositoryRemoteUnavailable;
    '(g, c') ← safely (change (CallRemoveRemote c));
    _ ← adopt c' noAuthentication g false;
    status (setState RepositorySetupReady c')).

Definition Ready : M Env bool :=
  '(c, _) ← persistently Load; mret (CState c =? RepositorySetupReady)%string.

(** A worktree that was there before Porty is adopted without its remote. *)
Definition adoptable (i : RepositoryPathInspection) : option (string * GitIdentity) :=
  if negb (PState i =? RepositoryPathWorktree)%string || Detached i then None
  else match validateBranch (PBranch i) with
  | Err _ => None
  | Ok branch =>
    if (TrimSpace (IName (PAuthor i)) =? "")%string && (TrimSpace (IEmail (PAuthor i)) =? "")%string
    then Some (branch, defaultGitIdentity)
    else match validateIdentity (PAuthor i) with Ok author => Some (branch, author) | Err _ => None end
  end.
Definition reconcileRegistered : M Env unit :=
  i ← safely (ask pInspectPath);
  match adoptable i with
  | None => mret tt
  | Some (branch, author) =>
    '(g, c) ← safely (change (CallProvision (mkProvisionRequest RepositorySetupAdopt branch author "" false noAuthentication)));
    adopt c noAuthentication g (managedRemote c)
  end.
Definition Reconcile : M Env unit :=
  Locking.locked true "" (
    '(c, a) ← persistently Load;
    if (CState c =? RepositorySetupUnregistered)%string then mret tt
    else if (CState c =? RepositorySetupRegistered)%string then reconcileRegistered
    else if (CState c =? RepositorySetupReady)%string then
      g ← safely (ask (pOpen c a));
      Replace g (managedRemote c)
    else fail Repo_ErrInvalidWorktree).
End service.
End Repository.
