(* ===== verification/RepositoryLaws.v ===== *)
(** * What the repository setup guarantees

    The configuration that is stored is the one that is loaded; a change is
    stored before the repository in use is replaced, and nothing changes
    otherwise; the remote is used exactly when the stored configuration has
    one, also after a restart. *)
From S2P Require Import Prelude GoStrings Coordinator Locking Repository.

Module RepositoryLaws.
Import Repository.

(** ** The round trip through the database *)

(** The authentications that [authentication] makes. *)
Definition canonical (a : RepositoryAuthentication) : Prop :=
  (AType a = RepositoryAuthNone ∧ AUsername a = "" ∧ ASecret a = "" ∧ ASSHKeyPath a = "" ∧ AKnownHostsPath a = "")%string ∨
  (AType a = RepositoryAuthHTTPS ∧ ASSHKeyPath a = "" ∧ AKnownHostsPath a = "")%string ∨
  (AType a = RepositoryAuthSSH ∧ AUsername a = "" ∧ ASecret a = "")%string.
Definition storable (c : RepositoryConfiguration) (a : RepositoryAuthentication) : Prop :=
  canonical a ∧
  ∀ r, CRemote c = Some r → Managed r = true ∧ RAuthType r = AType a ∧ (RName r ≠ "" ∨ RURL r ≠ "")%string.

Lemma text_nullable s : text (nullableString s) = s.
Proof. unfold text, nullableString. by destruct (String.eqb_spec s ""). Qed.
Lemma nullable_some s : bool_decide (is_Some (nullableString s)) = negb (s =? "")%string.
Proof. unfold nullableString. by destruct (String.eqb_spec s ""). Qed.

Lemma authentication_canonical o i a : authentication o i = Ok a → canonical a.
Proof.
  unfold authentication, canonical. intros H.
  repeat match type of H with (if ?b then _ else _) = _ => destruct b end; [guards H..|discriminate];
    injection H as <-; naive_solver.
Qed.

(** What is loaded after a pair was saved. *)
Definition reloaded (c : RepositoryConfiguration) (a : RepositoryAuthentication) : RepositoryConfiguration :=
  mkConfiguration (CState c) (Root c) (CBranch c) (CAuthor c)
    (match CRemote c with
     | Some r => if ((RName r =? "") && (RURL r =? ""))%string then None
                 else Some (mkRemoteSummary (RName r) (RURL r) (AType a) true)
     | None => None
     end).

Lemma load_update c s t :
  loadConfiguration (updateState c s) t =
  reloaded c (mkAuthentication t "" "" "" "").
Proof.
  unfold loadConfiguration, updateState, reloaded. simpl. rewrite !text_nullable.
  destruct c as [st root br [nm em] [r|]]; simpl; [|done].
  rewrite !nullable_some, !text_nullable. by destruct (RName r =? "")%string, (RURL r =? "")%string.
Qed.

Lemma reloaded_type c a b : AType a = AType b → reloaded c a = reloaded c b.
Proof. unfold reloaded. by intros ->. Qed.

Lemma Save_ok `{W : World} c a db n u db' n' :
  Save c a db n = (Ok u, (db', n')) →
  ∃ row, authRow a = Ok row ∧ db' = mkRepositoryDB (updateState c (app_state db)) row.
Proof. intros H. unfold Save in H. run_inv. simpl in *. eauto. Qed.

Lemma authRow_load a row :
  authRow a = Ok row → ∃ a', loadAuthentication row = Ok a' ∧ AType a' = AType a ∧ (a' = a ↔ canonical a).
Proof.
  unfold authRow, canonical. destruct a as [t u s k h]; simpl. intros H.
  destruct (String.eqb_spec t RepositoryAuthNone) as [->|Hn]; [|destruct (String.eqb_spec t RepositoryAuthHTTPS) as [->|Hh];
    [|destruct (String.eqb_spec t RepositoryAuthSSH) as [->|]; [|discriminate]]];
    injection H as <-; simpl; eexists; (split; [reflexivity|]); (split; [reflexivity|]); simpl; rewrite ?text_nullable; unfold noAuthentication.
  - split; [intros [=]; subst; by left|]. intros [(_ & -> & -> & -> & ->)|[(? & _)|(? & _)]]; done.
  - split; [intros [=]; subst; right; by left|]. intros [(? & _)|[(_ & -> & ->)|(? & _)]]; done.
  - split; [intros [=]; subst; do 2 right; done|]. intros [(? & _)|[(? & _)|(_ & -> & ->)]]; done.
Qed.

Lemma reloaded_id c a :
  reloaded c a = c ↔ ∀ r, CRemote c = Some r → Managed r = true ∧ RAuthType r = AType a ∧ (RName r ≠ "" ∨ RURL r ≠ "")%string.
Proof.
  unfold reloaded. destruct c as [st root br au [[nm url ty mg]|]]; simpl; [|naive_solver].
  destruct (String.eqb_spec nm ""), (String.eqb_spec url ""); simpl; split; try (intros [= <- <-]; intros r [= <-]; simpl; tauto);
    intros Hr; specialize (Hr _ eq_refl); simpl in Hr; naive_solver.
Qed.

(** A configuration survives a restart: what was saved is what is loaded
    exactly when its remote, if it has one, is managed, is called something
    and uses the authentication that is saved with it, and the authentication
    has only the fields of its type; every authentication that the setup
    accepts has that form.  In any case the same remote is loaded, as a
    managed one. *)
Theorem configuration_round_trip `{W : World} `{!Faultless W} c a db n u db' n' m :
  Save c a db n = (Ok u, (db', n')) →
  (∃ c' a', (Load db' m).1 = Ok (c', a') ∧
     (CState c' = CState c ∧ Root c' = Root c ∧ CBranch c' = CBranch c ∧ CAuthor c' = CAuthor c) ∧
     (∀ r', CRemote c' = Some r' → ∃ r, CRemote c = Some r ∧ RName r' = RName r ∧ RURL r' = RURL r ∧ RAuthType r' = AType a) ∧
     ((c', a') = (c, a) ↔ storable c a)) ∧
  ∀ o i a0, authentication o i = Ok a0 → canonical a0.
Proof.
  intros (row & Er & ->)%Save_ok. split; [|intros o i a0; apply authentication_canonical].
  destruct (authRow_load _ _ Er) as (a' & El & Et & Ha). exists (reloaded c a), a'. split_and!; try done.
  - unfold Load. unfold mbind, M_bind, call, lift. rewrite !no_fault. simpl. rewrite El, Et, load_update. done.
  - unfold reloaded. simpl. intros r'. destruct (CRemote c) as [r|]; [|done].
    destruct (_ && _)%bool; [done|]. intros [= <-]. by exists r.
  - unfold storable. rewrite <-Ha, <-(reloaded_id c a). split; [intros [= -> ->]; done|]. by intros [-> ->].
Qed.

(** ** Changes of the repository *)
Section service.
Context {G : Type} `{W : World} `{P : !Provisioner G} `{R : !GitRepository G} `{Ma : Mail}.
Context (options : RepositorySetupOptions).
Notation Env := (@Env G).

(** Every error the setup answers with. *)
Definition reported : list error := known ++ [Repo_ErrSetupFailed; Repo_ErrPersistenceFailed; Operation_ErrConflict].

(** Membership in such a list, by looking. *)
Ltac listed := apply list_elem_of_In; simpl; tauto.

Lemma safe_reported x : safeProvisionError x ∈ reported.
Proof.
  unfold safeProvisionError, reported. destruct (filter _ known) as [|y l] eqn:E.
  - listed.
  - apply elem_of_app. left.
    assert (y ∈ filter (λ c, Is x c = true) known) as [_ Hy]%list_elem_of_filter by (rewrite E; left). done.
Qed.

(** [blame H] finds the guard that a chain of guards failed at. *)
Ltac blame H :=
  repeat (apply result_bind_err in H as [H|(? & _ & H)]; [apply reject_if_err in H|]); try discriminate H.

Lemma validate_reported r x : validateSetupRequest options r = Err x → x ∈ reported.
Proof.
  assert (Repo_ErrInvalidRequest ∈ reported ∧ Repo_ErrSSHMaterialUnavailable ∈ reported) as [Hi Hs].
  { split; listed. }
  assert (∀ b y, validateBranch b = Err y → y = Repo_ErrInvalidRequest) as Hb.
  { unfold validateBranch. intros b y Hy. blame Hy; done. }
  assert (∀ i y, validateIdentity i = Err y → y = Repo_ErrInvalidRequest) as Hid.
  { unfold validateIdentity. intros i y Hy. blame Hy; done. }
  assert (∀ i y, authentication options i = Err y → y ∈ reported) as Ha.
  { unfold authentication. intros i y Hy.
    repeat match type of Hy with (if ?b then _ else _) = _ => destruct b end; [blame Hy; congruence..|congruence]. }
  intros H. unfold validateSetupRequest in H.
  apply result_bind_err in H as [H|(b & _ & H)]; [apply Hb in H; congruence|].
  apply result_bind_err in H as [H|(i & _ & H)]; [apply Hid in H; congruence|].
  destruct (Mode r =? _)%string; [blame H; congruence|].
  destruct (Mode r =? _)%string; [destruct (SRemote r) as [rem|]; [|congruence]|].
  - do 2 (apply result_bind_err in H as [H|(? & _ & H)]; [apply reject_if_err in H; congruence|]).
    apply result_bind_err in H as [H|(? & _ & H)]; [by apply (Ha _ _ H)|discriminate].
  - destruct (Mode r =? _)%string; [blame H; congruence|congruence].
Qed.

(** The outcomes of the parts of a change. *)
Definition asked (e : Env) (q : ProvisionCall) : Env :=
  mkEnv (store e) (coordinator e) (git e) (remoteEnabled e) (provisioned e ++ [q]).
Definition switched (e : Env) (c : RepositoryConfiguration) (row : option AuthRow) (g : G) (remote : bool) : Env :=
  mkEnv (mkRepositoryDB (updateState (setState RepositorySetupReady c) (app_state (store e))) row) (coordinator e) g remote
    (provisioned e).

Lemma safely_ask {A} (f : nat → result A) (e : Env) n :
  (∃ a, f n = Ok a ∧ safely (ask f) e n = (Ok a, (e, S n))) ∨
  (∃ x, x ∈ reported ∧ safely (ask f) e n = (Err x, (e, S n))).
Proof.
  unfold safely, ask, catch. destruct (f n) as [a|x]; [left; eauto|right]. eexists. split; [apply safe_reported|reflexivity].
Qed.
Lemma safely_change q (e : Env) n :
  (∃ g c, pChange q n = Ok (g, c) ∧ safely (change q) e n = (Ok (g, c), (asked e q, S n))) ∨
  (∃ x, x ∈ reported ∧ safely (change q) e n = (Err x, (asked e q, S n))).
Proof.
  unfold safely, change, catch. destruct (pChange q n) as [[g c]|x]; [left; eauto|right].
  eexists. split; [apply safe_reported|reflexivity].
Qed.
Lemma persistently_read {A} (m : M RepositoryDB A) (e : Env) n :
  (∀ db n, (m db n).2.1 = db) →
  ∃ n', (∃ a, (m (store e) n).1 = Ok a ∧ persistently m e n = (Ok a, (e, n'))) ∨
        persistently m e n = (Err Repo_ErrPersistenceFailed, (e, n')).
Proof.
  intros Hm. specialize (Hm (store e) n). unfold persistently, catch, zoom. simpl.
  destruct (m (store e) n) as [[a|x] [db k]]; simpl in *; subst; exists k; destruct e; [left|right]; eauto.
Qed.
Lemma Load_reads db n : (Load db n).2.1 = db.
Proof.
  unfold Load, mbind, M_bind, call. destruct (fault n); [done|]. simpl. destruct (fault (S n)); [done|]. simpl.
  unfold lift. by destruct (loadAuthentication _).
Qed.
Lemma adopt_cases c a g remote (e : Env) n :
  ∃ n', (∃ row, authRow a = Ok row ∧ adopt c a g remote e n = (Ok tt, (switched e c row g remote, n'))) ∨
        adopt c a g remote e n = (Err Repo_ErrPersistenceFailed, (e, n')).
Proof.
  unfold adopt, persistently. unfold mbind, M_bind, catch, zoom. simpl.
  destruct (Save _ _ (store e) n) as [[u|x] [db k]] eqn:E; exists k; [left|right].
  - apply Save_ok in E as (row & Er & ->). by exists row.
  - apply atomically_err in E as ->. by destruct e.
Qed.
Lemma status_cases c (e : Env) n :
  ∃ n' r, status c e n = (r, (e, n')) ∧ ∀ x, r = Err x → x ∈ reported.
Proof.
  unfold status. unfold mbind, M_bind.
  destruct (safely_ask pInspectPath e n) as [(i & _ & ->)|(x & Hx & ->)]; simpl.
  - do 2 eexists. split; [reflexivity|]. discriminate.
  - do 2 eexists. split; [reflexivity|]. by intros ? [= <-].
Qed.

(** What a change may leave: all as it was and a refusal, or the new
    configuration stored and the new repository in use. *)
Definition kept (e e' : Env) : Prop :=
  store e' = store e ∧ git e' = git e ∧ remoteEnabled e' = remoteEnabled e.
Definition changed (q : ProvisionCall) (a : RepositoryAuthentication) (remote : RepositoryConfiguration → bool) (e e' : Env) : Prop :=
  ∃ g c m row, pChange q m = Ok (g, c) ∧ authRow a = Ok row ∧
    store e' = mkRepositoryDB (updateState (setState RepositorySetupReady c) (app_state (store e))) row ∧
    git e' = g ∧ remoteEnabled e' = remote c.

(** The common part of the three changes. *)
Definition apply_change (q : ProvisionCall) (a : RepositoryAuthentication) (remote : RepositoryConfiguration → bool)
    : M Env RepositorySetupStatus :=
  '(g, c) ← safely (change q);
  _ ← adopt c a g (remote c);
  status (setState RepositorySetupReady c).

Lemma apply_change_cases q a remote (e : Env) n :
  ∃ r e' n', apply_change q a remote e n = (r, (e', n')) ∧ (∀ x, r = Err x → x ∈ reported) ∧
    coordinator e' = coordinator e ∧ provisioned e' = provisioned e ++ [q] ∧
    ((kept e e' ∧ is_ok r = false) ∨ changed q a remote e e').
Proof.
  assert (Repo_ErrPersistenceFailed ∈ reported) as Hp by listed.
  unfold apply_change. unfold mbind at 1, M_bind at 1.
  destruct (safely_change q e n) as [(g & c & Eq & ->)|(x & Hx & ->)]; simpl.
  - unfold mbind, M_bind.
    destruct (adopt_cases c a g (remote c) (asked e q) (S n)) as (n1 & [(row & Er & ->)| ->]).
    + destruct (status_cases (setState RepositorySetupReady c) (switched (asked e q) c row g (remote c)) n1) as (n2 & r & -> & Hr).
      do 3 eexists. split; [reflexivity|]. split_and!; try done. right. by exists g, c, n, row.
    + do 3 eexists. split; [reflexivity|]. split_and!; try done; [by intros ? [= <-]|by left].
  - do 3 eexists. split; [reflexivity|]. split_and!; try done; [by intros ? [= <-]|by left].
Qed.

(** A setup stores the configuration before it uses the repository, and
    does both or neither: unless the new configuration is stored as ready and
    the new repository is in use, the tables and the repository in use are as
    before and the answer is an error.  The provisioner is only asked for an
    admissible request under the lock, which is returned as it was; and every
    error is one of a fixed list, whatever the provisioner reported, so that
    no text of a remote or a credential reaches the caller. *)
Theorem setup_commits_then_switches r (e : Env) n :
  let '(res, (e', n')) := Setup options r e n in
  coordinator e' = coordinator e ∧ (∀ x, res = Err x → x ∈ reported) ∧
  match validateSetupRequest options r with
  | Err x => res = Err x ∧ e' = e
  | Ok (request, a) =>
    if is_ok (Coordinator.Try (coordinator e) true "").2 then
      provisioned e' = provisioned e ++ [CallProvision request] ∧
      ((kept e e' ∧ is_ok res = false) ∨ changed (CallProvision request) a managedRemote e e')
    else res = Err Operation_ErrConflict ∧ e' = e
  end.
Proof.
  unfold Setup. rewrite bind_lift. destruct (validateSetupRequest options r) as [[request a]|x] eqn:Ev.
  2: { split_and!; try done. intros ? [= <-]. by eapply validate_reported. }
  change (Locking.locked true "" _ e n) with
    (Locking.locked true "" (apply_change (CallProvision request) a managedRemote) e n).
  destruct (apply_change_cases (CallProvision request) a managedRemote (put (Coordinator.Try (view e) true "").1 e) n)
    as (res & e1 & n1 & Ec & Hx & Hco & Hpr & Hk).
  unfold Locking.locked. simpl in *. destruct (Coordinator.Try (coordinator e) true "") as [c [g|x]] eqn:Et; simpl in *.
  - unfold deferred. simpl. rewrite Ec. simpl. rewrite Hco. split_and!; try done.
    eapply Locking.Try_release; [|exact Et]. by left.
  - apply Locking.Try_refused in Et as [-> ->]. destruct e. split_and!; try done.
    intros ? [= <-]. listed.
Qed.

(** ** The use of the remote

    What the provisioner says about remotes: one that it configures is managed
    and has a name, and removing the remote leaves none. *)
Class ProvisionerLaws := {
  law_remote : ∀ q n g c r, pChange q n = Ok (g, c) → CRemote c = Some r → Managed r = true ∧ RName r ≠ ""%string;
  law_removed : ∀ c0 n g c, pChange (CallRemoveRemote c0) n = Ok (g, c) → CRemote c = None;
}.

Definition hasRemote (db : RepositoryDB) : bool :=
  bool_decide (is_Some (remote_name (app_state db))) || bool_decide (is_Some (remote_url_redacted (app_state db))).
Definition gate (e : Env) : Prop := remoteEnabled e = hasRemote (store e).

(** A process begins with the repository that its start-up opens. *)
Definition start (db : RepositoryDB) (g : G) : Env :=
  mkEnv db Coordinator.NewCoordinator g (managedRemote (loadConfiguration (app_state db) "")) [].

Inductive step : Env * nat → Env * nat → Prop :=
| step_Setup r e n : step (e, n) (Setup options r e n).2
| step_ConfigureRemote r e n : step (e, n) (ConfigureRemote options r e n).2
| step_RemoveRemote e n : step (e, n) (RemoveRemote e n).2
| step_Reconcile e n : step (e, n) (Reconcile e n).2
| step_Status e n : step (e, n) (Status e n).2
| step_InspectRemote r e n : step (e, n) (InspectRemote options r e n).2
| step_Ready e n : step (e, n) (Ready e n).2
| step_Pull e n : step (e, n) (Pull e n).2
| step_Push e n : step (e, n) (Push e n).2
| step_Fetch e n : step (e, n) (Fetch e n).2
| step_Commit stack message e n : step (e, n) (Commit stack message e n).2
| step_restart g e n : step (e, n) (start (store e) g, n).

Lemma load_managed s t : managedRemote (loadConfiguration s t) = hasRemote (mkRepositoryDB s None).
Proof. unfold managedRemote, loadConfiguration, hasRemote. simpl. by destruct (_ || _). Qed.
Lemma update_hasRemote c s row :
  (∀ r, CRemote c = Some r → Managed r = true ∧ RName r ≠ ""%string) →
  hasRemote (mkRepositoryDB (updateState (setState RepositorySetupReady c) s) row) = managedRemote c.
Proof.
  unfold hasRemote, managedRemote, updateState. simpl. destruct (CRemote c) as [r|]; [|done]. intros Hr.
  destruct (Hr r eq_refl) as [-> Hn]. rewrite nullable_some. by destruct (String.eqb_spec (RName r) "").
Qed.

Context `{Laws : !ProvisionerLaws}.

Lemma adopt_gate q c a g remote m :
  pChange q m = Ok (g, c) → (remote = managedRemote c) → maintains (λ e _, gate e) (adopt c a g remote).
Proof.
  intros Hq -> e n He. destruct (adopt_cases c a g (managedRemote c) e n) as (n' & [(row & _ & ->)| ->]); [|done].
  unfold gate. simpl. symmetry. apply update_hasRemote. intros r. by eapply law_remote.
Qed.
(** [stays] is preservation without a word about the tick. *)
Notation stays m := (maintains (λ e _, gate e) m).

Lemma change_gate {A} q (k : G * RepositoryConfiguration → M Env A) :
  (∀ g c m, pChange q m = Ok (g, c) → stays (k (g, c))) → stays (safely (change q) ≫= k).
Proof.
  intros Hk e n He. unfold mbind, M_bind.
  destruct (safely_change q e n) as [(g & c & Eq & ->)|(x & _ & ->)]; [|done]. by apply (Hk g c n Eq).
Qed.
Lemma status_gate c : stays (status c).
Proof. intros e n He. by destruct (status_cases c e n) as (n' & r & -> & _). Qed.
Lemma read_gate {A} (m : M RepositoryDB A) : (∀ db n, (m db n).2.1 = db) → stays (persistently m).
Proof. intros Hm e n He. by destruct (persistently_read m e n Hm) as (n' & [(a & _ & ->)| ->]). Qed.
Lemma ask_gate {A} (f : nat → result A) : stays (safely (ask f)).
Proof. intros e n He. by destruct (safely_ask f e n) as [(a & _ & ->)|(x & _ & ->)]. Qed.

Lemma apply_gate q a remote :
  (∀ g c m, pChange q m = Ok (g, c) → remote c = managedRemote c) → stays (apply_change q a remote).
Proof.
  intros Hr. apply change_gate. intros g c m Eq. apply maintains_bind; [|intros; apply status_gate].
  by eapply adopt_gate, Hr.
Qed.
Lemma ready_gate : stays readyConfiguration.
Proof. unfold readyConfiguration. walk ltac:(idtac; apply read_gate, Load_reads). Qed.
Lemma locked_gate {A} (m : M Env A) : stays m → stays (Locking.locked true "" m).
Proof. by apply Locking.maintains_locked. Qed.

Lemma registered_gate : stays reconcileRegistered.
Proof.
  unfold reconcileRegistered. apply maintains_bind; [apply ask_gate|intros i].
  destruct (adoptable i) as [[branch author]|]; [|apply maintains_ret].
  apply change_gate. intros g c m Eq. by eapply adopt_gate.
Qed.
Lemma ready_reconcile_gate c a e n :
  gate e → c = loadConfiguration (app_state (store e)) (AType a) →
  gate (((g ← safely (ask (pOpen c a)); Replace g (managedRemote c)) : M Env unit) e n).2.1.
Proof.
  intros He Hc. unfold mbind, M_bind.
  destruct (safely_ask (pOpen c a) e n) as [(g & _ & ->)|(x & _ & ->)]; simpl; [|done].
  unfold gate. simpl. rewrite Hc, load_managed. done.
Qed.
Lemma Load_value db n c a k :
  (Load db n).1 = Ok (c, a) → k = (Load db n).2.2 → c = loadConfiguration (app_state db) (AType a).
Proof.
  intros H _. unfold Load, mbind, M_bind, call in H. destruct (fault n); [done|]. simpl in H.
  destruct (fault (S n)); [done|]. simpl in H. unfold lift in H. destruct (loadAuthentication _); [|done].
  simpl in H. by injection H as <- <-.
Qed.
Lemma reconcile_gate : stays Reconcile.
Proof.
  apply locked_gate. intros e n He. unfold mbind at 1, M_bind at 1.
  destruct (persistently_read Load e n Load_reads) as (n' & [([c a] & El & ->)| ->]); [|done].
  repeat case_match; [done|by apply registered_gate| |done].
  apply ready_reconcile_gate; [done|]. by eapply Load_value.
Qed.
Lemma setup_gate r : stays (Setup options r).
Proof.
  unfold Setup. apply maintains_bind; [apply maintains_lift|intros [request a]].
  apply locked_gate, apply_gate. done.
Qed.
Lemma configure_gate r : stays (ConfigureRemote options r).
Proof.
  unfold ConfigureRemote. apply maintains_bind; [apply maintains_lift|intros branch].
  apply maintains_bind; [apply maintains_lift|intros []]. apply maintains_bind; [apply maintains_lift|intros a].
  apply locked_gate, maintains_bind; [apply ready_gate|intros c]. by apply apply_gate.
Qed.
Lemma remove_gate : stays RemoveRemote.
Proof.
  apply locked_gate, maintains_bind; [apply ready_gate|intros c].
  apply maintains_bind; [apply maintains_lift|intros []].
  apply (apply_gate _ noAuthentication (λ _, false)). intros g c' m Eq. unfold managedRemote. by rewrite (law_removed _ _ _ _ Eq).
Qed.

(** *** The lock *)

(** [quiet m] leaves the lock as it was. *)
Definition quiet {A} (m : M Env A) : Prop := ∀ e n, coordinator (m e n).2.1 = coordinator e.
Lemma quiet_bind {A B} (m : M Env A) (k : A → M Env B) : quiet m → (∀ a, quiet (k a)) → quiet (m ≫= k).
Proof.
  intros Hm Hk e n. specialize (Hm e n). unfold mbind, M_bind.
  destruct (m e n) as [[a|x] [e1 n1]]; simpl in *; [|done]. by rewrite Hk.
Qed.
Lemma quiet_locked {A} (m : M Env A) : quiet m → quiet (Locking.locked true "" m).
Proof. intros Hm e n. apply (Locking.locked_returns (L := env_coordinator)); [by left|done]. Qed.
Lemma quiet_safely {A} (m : M Env A) : quiet m → quiet (safely m).
Proof. intros Hm e n. specialize (Hm e n). unfold safely, catch. by destruct (m e n) as [[a|x] [e1 n1]]. Qed.
Lemma quiet_persistently {A} (m : M RepositoryDB A) : quiet (persistently m).
Proof. intros e n. unfold persistently, catch, zoom. by destruct (m _ n) as [[a|x] [db k]]. Qed.
Lemma quiet_lift {A} (r : result A) : quiet (lift r).
Proof. intros e n. by destruct r. Qed.

(** The steps of the setup, as far as the lock goes. *)
Ltac quietly := repeat first
  [ apply quiet_locked | apply quiet_safely | apply quiet_persistently | apply quiet_lift
  | (apply quiet_bind; [|intros]) | (intros ? ?; reflexivity) | case_match ].

Lemma status_quiet c : quiet (status c).
Proof. unfold status. quietly. Qed.
Lemma adopt_quiet c a g remote : quiet (adopt c a g remote).
Proof. unfold adopt. quietly. Qed.
Lemma ready_quiet : quiet readyConfiguration.
Proof. unfold readyConfiguration, guard_not. quietly. Qed.
Lemma registered_quiet : quiet reconcileRegistered.
Proof. unfold reconcileRegistered. quietly; apply adopt_quiet. Qed.
Lemma setup_quiet r : quiet (Setup options r).
Proof. unfold Setup. quietly; first [apply adopt_quiet|apply status_quiet]. Qed.
Lemma configure_quiet r : quiet (ConfigureRemote options r).
Proof. unfold ConfigureRemote, guard_not. quietly; first [apply ready_quiet|apply adopt_quiet|apply status_quiet]. Qed.
Lemma remove_quiet : quiet RemoveRemote.
Proof. unfold RemoveRemote, guard_not. quietly; first [apply ready_quiet|apply adopt_quiet|apply status_quiet]. Qed.
Lemma reconcile_quiet : quiet Reconcile.
Proof. unfold Reconcile. quietly; apply registered_quiet. Qed.

(** *** Every history *)
Definition inv (s : Env * nat) : Prop := gate s.1 ∧ coordinator s.1 = Coordinator.NewCoordinator.

Lemma remote_run {A} (m : M Env A) e n : stays m → quiet m → inv (e, n) → inv (m e n).2.
Proof.
  intros Hg Hq [He Hc]. specialize (Hg e n He). specialize (Hq e n). simpl in *.
  destruct (m e n) as [r [e1 n1]]. split; simpl in *; congruence.
Qed.
(** A call that only asks. *)
Lemma remote_same {A} (m : M Env A) e n : (m e n).2.1 = e → inv (e, n) → inv (m e n).2.
Proof. intros H [He Hc]. destruct (m e n) as [r [e1 n1]]. simpl in *. by subst. Qed.

Lemma inspect_gate r : stays (InspectRemote options r).
Proof.
  unfold InspectRemote. apply maintains_bind; [apply maintains_lift|intros []].
  apply maintains_bind; [apply maintains_lift|intros a]. apply maintains_bind; [apply ask_gate|intros i].
  apply maintains_ret.
Qed.

Lemma remote_step s s' : inv s → step s s' → inv s'.
Proof.
  intros Hi Hs. destruct Hs.
  - apply remote_run; [apply setup_gate|apply setup_quiet|done].
  - apply remote_run; [apply configure_gate|apply configure_quiet|done].
  - apply remote_run; [apply remove_gate|apply remove_quiet|done].
  - apply remote_run; [apply reconcile_gate|apply reconcile_quiet|done].
  - apply remote_run; [|unfold Status; quietly; apply status_quiet|done].
    unfold Status. apply maintains_bind; [apply read_gate, Load_reads|intros [c a]]. apply status_gate.
  - apply remote_run; [apply inspect_gate|unfold InspectRemote, guard_not; quietly|done].
  - apply remote_run; [|unfold Ready; quietly|done].
    unfold Ready. apply maintains_bind; [apply read_gate, Load_reads|intros [c a]]. apply maintains_ret.
  - apply remote_same; [|done]. unfold Pull. by repeat case_match.
  - apply remote_same; [|done]. unfold Push, useRemote. by case_match.
  - apply remote_same; [|done]. unfold Fetch, useRemote. by case_match.
  - by apply remote_same.
  - destruct Hi as [He Hc]. split; [|done]. unfold gate, start. simpl. by rewrite load_managed.
Qed.

(** The remote is used exactly when the stored configuration has one:
    through any history of setups, changes of the remote, reconciliations and
    restarts, with failing databases and provisioners at any point, fetching,
    pulling and pushing are refused at once exactly when the two rows name no
    remote, and reach the repository otherwise; and between calls the lock is
    free, so that no failed setup leaves the repository busy. *)
Theorem remote_gate db g n0 e n :
  star step (start db g, n0) (e, n) →
  coordinator e = Coordinator.NewCoordinator ∧ remoteEnabled e = hasRemote (store e) ∧
  (if hasRemote (store e) then
     (Fetch e n).1 = gFetch (git e) n ∧ (Push e n).1 = gPush (git e) n ∧
     (Pull e n).1 = (_ ← gFetch (git e) n; gPullFastForward (git e) (S n))
   else ∀ m, m ∈ [Fetch; Push; Pull] → m e n = (Err Repo_ErrRepositoryRemoteUnavailable, (e, n))).
Proof.
  intros Hs. assert (inv (e, n)) as [He Hc].
  { eapply (star_invariant step inv) in Hs; [done|by intros; eapply remote_step|].
    split; [|done]. unfold gate, start. simpl. by rewrite load_managed. }
  unfold gate in He. simpl in *. split_and!; [done..|]. rewrite <-He.
  destruct (remoteEnabled e) eqn:Er.
  - unfold Fetch, Push, Pull, useRemote. rewrite Er. split_and!; [done..|]. simpl.
    unfold mbind. by destruct (gFetch (git e) n).
  - intros m Hm. unfold Fetch, Push, Pull, useRemote in Hm.
    repeat (apply elem_of_cons in Hm as [->|Hm]; [by rewrite Er|]). by apply elem_of_nil in Hm.
Qed.
End service.

(** ** A concrete provisioner

    One that configures what it is asked for; its repository answers every
    call. *)
Module Example.
#[local] Instance mail : Mail := Some.
Definition origin (url authType : string) := mkRemoteSummary "origin" url authType true.
Definition madeOf (q : ProvisionCall) : RepositoryConfiguration :=
  match q with
  | CallProvision r => mkConfiguration "" "/data" (PRBranch r) (PRAuthor r)
      (if (PRemoteURL r =? "")%string then None else Some (origin (PRemoteURL r) (AType (PAuthentication r))))
  | CallConfigureRemote r c => mkConfiguration (CState c) (Root c) (QBranch r) (CAuthor c)
      (Some (origin (QRemoteURL r) (AType (QAuthentication r))))
  | CallRemoveRemote c => mkConfiguration (CState c) (Root c) (CBranch c) (CAuthor c) None
  end.
#[local] Instance provisioner : Provisioner nat := {|
  pInspectPath _ := Ok (mkPathInspection RepositoryPathEmpty "" (mkIdentity "" "") None false "");
  pInspectSSHMaterial _ := mkSSH false false false;
  pInspectRemote url _ _ := Ok (mkRemoteInspection url "main" ["main"] false "main");
  pChange q n := Ok (n, madeOf q);
  pOpen _ _ n := Ok n |}.
#[local] Instance repository : GitRepository nat := {|
  gStatus _ _ := Ok (mkGitStatus true "main" false 0 0 []); gHead _ _ := Ok "head"; gDiff _ _ _ := Ok "";
  gCommit _ _ _ _ := Ok "sha"; gHistory _ _ _ := Ok []; gHistoryPage _ := None; gFetch _ _ := Ok tt;
  gPullFastForward _ _ := Ok tt; gPush _ _ := Ok tt |}.
#[local] Instance laws : ProvisionerLaws.
Proof.
  split.
  - intros [q|q c0|c0] n g c rem [= <- <-]; simpl; [case_match; [done|]|..]; intros [= <-]; done.
  - by intros c0 n g c [= <- <-].
Qed.

Definition options := mkOptions "" "".
Definition fresh : RepositoryDB := mkRepositoryDB (mkAppState "unregistered" None None None None None None) None.
Definition person := mkIdentity "Ada" "ada@example.org".
Definition request := mkSetupRequest RepositorySetupRemote "main" person
  (Some (mkRemoteInput "https://example.org/x" (mkAuthInput RepositoryAuthHTTPS "ada" "token"))) false.
End Example.

Section witnesses.
Import Example.
#[local] Existing Instances calm mail provisioner repository laws.

Lemma configuration_round_trip_witness :
  let c := mkConfiguration RepositorySetupReady "/data" "main" person (Some (origin "https://example.org/x" "https")) in
  let a := mkAuthentication RepositoryAuthHTTPS "ada" "token" "" "" in
  ∃ db n, (Save c a fresh 0 = (Ok tt, (db, n))) ∧ (Load db 9).1 = Ok (c, a).
Proof.
  intros c a. set (s := (Save c a fresh 0).2).
  assert (Save c a fresh 0 = (Ok tt, (s.1, s.2))) as E by reflexivity. exists s.1, s.2. split; [exact E|].
  destruct (configuration_round_trip c a fresh 0 tt _ _ 9 E) as [(c' & a' & Hl & _ & _ & Hs) _].
  rewrite Hl. f_equal. apply Hs. split; [right; by left|]. intros r [= <-]. simpl. split_and!; [done..|by left].
Defined.

Lemma remote_gate_witness :
  ∃ e n, star (step options) (start fresh 0, 0) (e, n) ∧ hasRemote (store e) = true ∧ (Fetch e n).1 = Ok tt.
Proof.
  set (s1 := (Setup options request (start fresh 0) 0).2).
  assert (star (step options) (start fresh 0, 0) s1) as Hs.
  { eapply star_step; [apply step_Setup|apply star_refl]. }
  exists s1.1, s1.2. split; [exact Hs|]. split; [vm_compute; reflexivity|].
  pose proof (remote_gate options fresh 0 0 s1.1 s1.2 Hs) as (_ & _ & H).
  replace (hasRemote (store s1.1)) with true in H by (vm_compute; reflexivity).
  destruct H as (Hf & _ & _). exact Hf.
Defined.
End witnesses.
End RepositoryLaws.
