(* ===== verification/Compose.v ===== *)
(** * Groups of containers (src/internal/compose/on_demand.go)

    Which services of a project may sleep together, in which order they start,
    and where they listen.  The Docker engine and the types of Compose are
    third-party: their data appear with the fields that the code reads, and
    the engine's answers are arbitrary functions of the call and the moment. *)
From S2P Require Import Prelude GoStrings Netip Environment.
From S2P Require Traffic.

(** The names of the labels that Compose puts on containers, and the ports of
    the Docker API. *)
Class ComposeApi := {
  ProjectLabel : string;
  ServiceLabel : string;
  ContainerNumberLabel : string;
  OneoffLabel : string;
  Port : Type;
  port_eq_dec :: EqDecision Port;
  port_countable :: Countable Port;
  PortFrom : Z → string → option Port;
  Num : Port → Z;
  Proto : Port → string;
}.

Module Compose.
Import Environment.

(** ** Projects, as far as the code reads them *)
Record ServicePort := mkServicePort { Target : Z; Published : string; Protocol : string; PHostIP : string }.
Record HealthCheck := mkHealthCheck { Disable : bool; HTest : list string }.
Record Service := mkService {
  Scale : Z;                            (* GetScale() *)
  DependsOn : gmap string string;       (* service -> condition *)
  Health : option HealthCheck;
  Ports : list ServicePort;
  SNetworkMode : string;
  Networks : gset string;
}.
Definition zeroService : Service := mkService 1 ∅ None [] "" ∅.
Record Project := mkProject {
  PName : string;
  Services : gmap string Service;
  DisabledServices : gset string;
  PNetworks : gmap string string;       (* network -> its Name *)
}.
Definition service (p : Project) (name : string) : Service := default zeroService (Services p !! name).
Definition ServiceConditionStarted : string := "service_started".
Definition ServiceConditionHealthy : string := "service_healthy".

(** ** Containers *)
Record State := mkState {
  Running : bool; Status : string; Paused : bool; Restarting : bool; Dead : bool; StartedAt : string;
  StHealth : option string;
}.
Record PortBinding := mkPortBinding { HostIP : option Addr; HostPort : string }.
Section docker.
Context `{ComposeApi}.
Record HostConfig := mkHostConfig { NetworkMode : string; PortBindings : gmap Port (list PortBinding) }.
Record NetworkSettings := mkNetworkSettings {
  NNetworks : gmap string (option string);   (* a nil entry, or its NetworkID *)
  NPorts : gmap Port (list PortBinding);
}.
Record InspectResponse := mkInspect {
  ID : string; Image : string; RestartCount : Z;
  Config : option (gmap string string);      (* the labels *)
  CState : option State;
  CHostConfig : option HostConfig;
  CNetworkSettings : option NetworkSettings;
}.
Definition label (labels : gmap string string) (name : string) : string := default "" (labels !! name).
(** [strings.EqualFold(value, "true")] *)
Definition foldsToTrue (value : string) : bool :=
  (string_of_list_ascii (ToLowerByte <$> list_ascii_of_string value) =? "true")%string.

(** The calls of the engine; the ones that start or stop are recorded with
    their moment. *)
Inductive Action := Start (id : string) | Stop (id : string) (grace : Z).
Class OnDemandDocker := {
  ContainerList : string → nat → result (list (string * gmap string string));   (* by project: ID and labels *)
  ContainerInspect : string → nat → result InspectResponse;
  NetworkInspect : string → nat → result string;                                (* the driver *)
  ContainerAct : Action → nat → result unit;
}.
End docker.

(** ** Results *)
Record OnDemandContainer := mkOnDemandContainer {
  OID : string; OService : string; OImageID : string; OStartedAt : string; ORestartCount : Z;
  ORunning : bool; Healthcheck : bool;
}.
Record OnDemandSnapshot := mkSnapshot {
  ProjectName : string; SourceDigest : string; SRunning : bool;
  Containers : list OnDemandContainer;          (* dependency order *)
  Bindings : list Traffic.Traffic.Binding;
  ExternalDependencies : list string;
}.

Definition rejected (reason : string) : error := ErrWrap Compose_ErrOnDemandIneligible reason.

(** ** onDemandOrder

    [marks] holds 1 for a service that is being visited and 2 for one that is
    done.  [None] means that the fuel did not suffice, which does not happen
    (see [ComposeLaws]). *)
Definition Marks : Type := gmap string nat * list string.
Section order.
Context (deps : string → list string).
Fixpoint visit (fuel : nat) (name : string) (s : Marks) : option (result Marks) :=
  match fuel with
  | O => None
  | S fuel' =>
    let fix visitAll (l : list string) (s : Marks) : option (result Marks) :=
      match l with
      | [] => Some (Ok s)
      | d :: l' => match visit fuel' d s with Some (Ok s') => visitAll l' s' | r => r end
      end in
    match s.1 !! name with
    | Some 1 => Some (Err (rejected "dependency cycle"))
    | Some 2 => Some (Ok s)
    | _ =>
      match visitAll (deps name) (<[name := 1]> s.1, s.2) with
      | Some (Ok s') => Some (Ok (<[name := 2]> s'.1, s'.2 ++ [name]))
      | r => r
      end
    end
  end.
Fixpoint visitEach (fuel : nat) (l : list string) (s : Marks) : option (result Marks) :=
  match l with
  | [] => Some (Ok s)
  | d :: l' => match visit fuel d s with Some (Ok s') => visitEach fuel l' s' | r => r end
  end.
End order.
Definition selectedDeps (p : Project) (selected : gset string) (name : string) : list string :=
  SortStrings (elements (filter (λ d, d ∈ selected) (dom (DependsOn (service p name))))).
Definition onDemandOrder (p : Project) (selected : gset string) : result (list string) :=
  match visitEach (selectedDeps p selected) (S (S (size selected))) (SortStrings (elements selected)) (∅, []) with
  | Some r => snd <$> r
  | None => Err (ErrText "out of fuel")
  end.

(** ** Health *)
Definition hasOnDemandHealthcheck (s : Service) : bool :=
  match Health s with
  | Some h => negb (Disable h) && match HTest h with t :: _ => negb (t =? "NONE")%string | [] => false end
  | None => false
  end.
Section inspect.
Context `{ComposeApi}.
Definition onDemandReady (c : InspectResponse) (health : bool) : bool :=
  match CState c with
  | None => false
  | Some st =>
    if negb (Running st) || negb (Status st =? "running")%string || Paused st || Restarting st || Dead st then false
    else match StHealth st with Some h => (h =? "healthy")%string | None => negb health end
  end.

(** ** onDemandBindings *)
Definition protocolOf (c : ServicePort) : string := if (Protocol c =? "")%string then "tcp" else Protocol c.
Definition HostText (a : option Addr) : string := match a with Some a => AddrString a | None => "invalid IP" end.
(** The host address that a port of the project asks for. *)
Definition wantsHost (c : ServicePort) (b : PortBinding) : bool :=
  (PHostIP c =? "")%string || (PHostIP c =? HostText (HostIP b))%string.
Definition bound (m : gmap Port (list PortBinding)) (k : Port) : list PortBinding := default [] (m !! k).

(** A port of the project is fixed and bound as it asks. *)
Definition allow (h : HostConfig) (c : ServicePort) : result Port :=
  published ← match ParseUint (Published c) 16 with
              | Some n => if (n =? 0)%Z || (Target c =? 0)%Z || (65535 <? Target c)%Z
                          then Err (rejected "dynamic ports and port ranges are unsupported") else Ok n
              | None => Err (rejected "dynamic ports and port ranges are unsupported")
              end;
  _ ← reject_if (negb (protocolOf c =? "tcp")%string && negb (protocolOf c =? "udp")%string)
        (rejected "only TCP and UDP ports are supported");
  _ ← reject_if ((protocolOf c =? "udp")%string && negb (published =? Target c)%Z)
        (rejected "UDP requires matching host and container ports for reliable retries");
  match PortFrom (Target c) (protocolOf c) with
  | None => Err (rejected "invalid published port")
  | Some key =>
    _ ← reject_if (negb (existsb (λ b, (HostPort b =? Published c)%string && wantsHost c b) (bound (PortBindings h) key)))
          (rejected "published ports differ from Compose configuration");
    Ok key
  end.
(** Nothing else is bound. *)
Definition expected (s : Service) (key : Port) (b : PortBinding) : bool :=
  existsb (λ c, (Num key =? Target c)%Z && (Proto key =? protocolOf c)%string
                && (HostPort b =? Published c)%string && wantsHost c b) (Ports s).
Definition checkBound (s : Service) (allowed : gset Port) (e : Port * list PortBinding) : result unit :=
  _ ← reject_if (bool_decide (e.2 ≠ []) && negb (bool_decide (e.1 ∈ allowed))) (rejected "unexpected published ports");
  reject_if (existsb (λ b, negb (expected s e.1 b)) e.2) (rejected "unexpected published endpoint").
(** An endpoint of the running container. *)
Definition unspecified (a : option Addr) : bool := match a with Some a => IsUnspecified a | None => false end.
Definition configured (h : HostConfig) (key : Port) (b : PortBinding) : bool :=
  existsb (λ c, (HostPort c =? HostPort b)%string
                && (bool_decide (HostIP c = None) || unspecified (HostIP c)
                    || bool_decide (Unmap <$> HostIP c = Unmap <$> HostIP b))) (bound (PortBindings h) key).
Definition endpoint (h : HostConfig) (key : Port) (b : PortBinding) : result Traffic.Traffic.Binding :=
  _ ← reject_if (negb (configured h key b)) (rejected "runtime endpoint differs from configured publication");
  match ParseUint (HostPort b) 16, HostIP b with
  | Some n, Some a =>
    _ ← reject_if (n =? 0)%Z (rejected "published endpoint is invalid");
    let address := Unmap a in
    Ok (Traffic.Traffic.mkBinding (Proto key +:+ (if Is6 address then "6" else "4"))
          (AddrPortString (mkAddrPort address n)))
  | _, _ => Err (rejected "published endpoint is invalid")
  end.
Definition endpoints (h : HostConfig) (n : NetworkSettings) (key : Port) : result (list Traffic.Traffic.Binding) :=
  _ ← reject_if (bool_decide (bound (NPorts n) key = [])) (rejected "published endpoints unavailable");
  mapM (endpoint h key) (bound (NPorts n) key).
Definition onDemandBindings (s : Service) (h : HostConfig) (st : State) (n : option NetworkSettings)
    : result (list Traffic.Traffic.Binding) :=
  keys ← mapM (allow h) (Ports s);
  let allowed : gset Port := list_to_set keys in
  _ ← mapM (checkBound s allowed) (map_to_list (PortBindings h));
  if negb (Running st) then Ok []
  else match n with
  | None => Err (rejected "published endpoints unavailable")
  | Some n => mjoin <$> mapM (endpoints h n) (elements allowed)
  end.

(** ** SnapshotOnDemand *)
Context `{W : World} `{D : !OnDemandDocker} `{Dg : !Digests Project}.
Context (demand : bool).                   (* c.demand is set *)
Notation Trace := (list (Action * nat)).

(** A call of the engine. *)
Definition engine {A} (f : nat → result A) : M Trace A := λ t n, (f n, (t, S n)).
Definition or_reject {A} (m : M Trace A) (reason : string) : M Trace A := catch m (λ _, fail (rejected reason)).
Definition reject_when (c : bool) (reason : string) : result unit := reject_if c (rejected reason).

(** The checks of the selection; each selected name is looked up in turn. *)
Fixpoint selectMembers (p : Project) (selected : gset string) (members : list string) : result (gset string) :=
  match members with
  | [] => Ok selected
  | name :: rest =>
    _ ← reject_when (bool_decide (Services p !! name = None) || bool_decide (name ∈ selected)
                     || negb (Scale (service p name) =? 1)%Z) "services must exist, be unique and have one replica";
    selectMembers p ({[name]} ∪ selected) rest
  end.
(** The dependencies of all services as triples. *)
Definition dependencies (p : Project) : list (string * string * string) :=
  map_to_list (Services p) ≫= λ '(name, s), (λ '(dep, c), (name, dep, c)) <$> map_to_list (DependsOn s).
Definition checkDependency (p : Project) (selected : gset string) (e : string * string * string) : result unit :=
  let '(name, dep, c) := e in
  _ ← reject_when (bool_decide (dep ∈ selected) && negb (bool_decide (name ∈ selected)))
        "an unselected service depends on this group";
  if bool_decide (name ∈ selected) then
    _ ← reject_when (negb (c =? "")%string && negb (c =? ServiceConditionStarted)%string
                     && negb (c =? ServiceConditionHealthy)%string) "completion dependencies are unsupported";
    reject_when (bool_decide (Services p !! dep = None)) "dependency is unavailable"
  else Ok tt.
Definition externalOf (p : Project) (selected : gset string) : gset string :=
  list_to_set ((λ e : string * string * string, e.1.2) <$>
    filter (λ e : string * string * string, e.1.1 ∈ selected ∧ e.1.2 ∉ selected) (dependencies p)).

(** What was inspected and found complete. *)
Record Seen := mkSeen { actual : InspectResponse; labels : gmap string string; st : State; hc : HostConfig }.
Definition complete (a : InspectResponse) : option Seen :=
  match Config a, CState a, CHostConfig a with
  | Some l, Some s, Some h => Some (mkSeen a l s h)
  | _, _, _ => None
  end.
Definition inspectRow (p : Project) (selected external : gset string) (seen : gmap string (list Seen))
    (row : string * gmap string string) : M Trace (gmap string (list Seen)) :=
  let name := label row.2 ServiceLabel in
  if negb (bool_decide (name ∈ selected)) && negb (bool_decide (name ∈ external)) then mret seen else
  a ← or_reject (engine (ContainerInspect row.1)) "container changed during inspection";
  match complete a with
  | None => fail (rejected "runtime identity unavailable")
  | Some s =>
    _ ← lift (reject_when (negb (ID a =? row.1)%string) "runtime identity unavailable");
    _ ← lift (reject_when (negb (label (labels s) ProjectLabel =? PName p)%string
                || negb (label (labels s) ServiceLabel =? name)%string || foldsToTrue (label (labels s) OneoffLabel))
                "unexpected container ownership");
    _ ← lift (reject_when (Paused (st s) || Restarting (st s) || Dead (st s)) "container is paused, restarting or dead");
    mret (<[name := default [] (seen !! name) ++ [s]]> seen)
  end.
Fixpoint inspectRows (p : Project) (selected external : gset string) (seen : gmap string (list Seen))
    (rows : list (string * gmap string string)) : M Trace (gmap string (list Seen)) :=
  match rows with
  | [] => mret seen
  | row :: rest => seen' ← inspectRow p selected external seen row; inspectRows p selected external seen' rest
  end.
Definition seenOf (seen : gmap string (list Seen)) (name : string) : list Seen := default [] (seen !! name).

(** Services outside the group that the group needs are up. *)
Definition requiresHealth (p : Project) (selected : gset string) (name : string) : bool :=
  hasOnDemandHealthcheck (service p name)
  || existsb (λ m, (default "" (DependsOn (service p m) !! name) =? ServiceConditionHealthy)%string) (elements selected).
Definition checkExternal (p : Project) (selected : gset string) (seen : gmap string (list Seen)) (name : string) : result unit :=
  let rows := seenOf seen name in
  _ ← reject_when (negb (Z.of_nat (length rows) =? Scale (service p name))%Z || bool_decide (rows = []))
        "external dependency is missing";
  reject_when (existsb (λ s, negb (onDemandReady (actual s) (requiresHealth p selected name))) rows)
    "external dependency must already be running and healthy".

(** The networks that a container is on, or will be. *)
Definition networksOf (p : Project) (s : Service) (c : Seen) : gset string :=
  let attached : gset string := match CNetworkSettings (actual c) with
    | Some n => list_to_set ((λ '(name, id), match id with
        | Some i => if (i =? "")%string then name else i
        | None => name
        end) <$> map_to_list (NNetworks n))
    | None => ∅
    end in
  if negb (bool_decide (attached = ∅)) then attached
  else if negb (NetworkMode (hc c) =? "")%string && negb (NetworkMode (hc c) =? "default")%string then {[NetworkMode (hc c)]}
  else if bool_decide (Compose.Networks s = ∅) then {[PName p +:+ "_default"]}
  else set_map (λ name, let n := default "" (PNetworks p !! name) in
                        if (n =? "")%string then PName p +:+ "_" +:+ name else n) (Compose.Networks s).
Fixpoint checkNetworks (l : list string) : M Trace unit :=
  match l with
  | [] => mret tt
  | name :: rest =>
    driver ← or_reject (engine (NetworkInspect name)) "only ordinary bridge networks are supported";
    _ ← lift (reject_when (negb (driver =? "bridge")%string) "only ordinary bridge networks are supported");
    checkNetworks rest
  end.
Definition sharesNetwork (s : Service) (c : Seen) : bool :=
  let mode := NetworkMode (hc c) in
  (mode =? "host")%string || (mode =? "none")%string || HasPrefix mode "container:"
  || (SNetworkMode s =? "host")%string || (SNetworkMode s =? "none")%string
  || HasPrefix (SNetworkMode s) "service:" || HasPrefix (SNetworkMode s) "container:".

(** One service of the group; [acc] is what was found before. *)
Definition inspectMember (p : Project) (seen : gmap string (list Seen)) (acc : OnDemandSnapshot) (name : string)
    : M Trace OnDemandSnapshot :=
  match seenOf seen name with
  | [c] =>
    let s := service p name in
    _ ← lift (reject_when (negb (label (labels c) ContainerNumberLabel =? "1")%string) "replica identity unavailable");
    _ ← lift (if Running (st c)
              then reject_when (negb (onDemandReady (actual c) (hasOnDemandHealthcheck s))) "selected service is not healthy"
              else reject_when (negb (Status (st c) =? "exited")%string) "selected service must be running or fully stopped");
    _ ← lift (reject_when (bool_decide (Containers acc ≠ []) && negb (Bool.eqb (SRunning acc) (Running (st c))))
                "group contains mixed running and stopped services");
    _ ← lift (reject_when (sharesNetwork s c) "selected services require independent bridge networks");
    _ ← checkNetworks (elements (networksOf p s c));
    bindings ← lift (onDemandBindings s (hc c) (st c) (CNetworkSettings (actual c)));
    mret (mkSnapshot (ProjectName acc) (SourceDigest acc) (Running (st c))
            (Containers acc ++ [mkOnDemandContainer (ID (actual c)) name (Image (actual c)) (StartedAt (st c))
               (RestartCount (actual c)) (Running (st c)) (hasOnDemandHealthcheck s)])
            (Bindings acc ++ bindings) (ExternalDependencies acc))
  | _ => fail (rejected "missing or scaled selected service")
  end.
Fixpoint inspectMembers (p : Project) (seen : gmap string (list Seen)) (acc : OnDemandSnapshot) (order : list string)
    : M Trace OnDemandSnapshot :=
  match order with
  | [] => mret acc
  | name :: rest => acc' ← inspectMember p seen acc name; inspectMembers p seen acc' rest
  end.

Definition binding_le (a b : Traffic.Traffic.Binding) : Prop :=
  if (Traffic.Traffic.Network a =? Traffic.Traffic.Network b)%string
  then string_le (Traffic.Traffic.Address a) (Traffic.Traffic.Address b)
  else string_le (Traffic.Traffic.Network a) (Traffic.Traffic.Network b).
#[export] Instance binding_le_dec : RelDecision binding_le.
Proof. intros a b. unfold binding_le. destruct (_ =? _)%string; apply _. Defined.
Definition wakeable (l : list Traffic.Traffic.Binding) : bool :=
  is_ok (Traffic.Traffic.Validate (Traffic.Traffic.mkConfig 1 1 Second l)).

Definition inspectOnDemandProject (p : Project) (environment : gmap string string) (members : list string)
    : M Trace OnDemandSnapshot :=
  _ ← lift (reject_when (negb demand) "Docker inspection unavailable");
  _ ← lift (reject_when (bool_decide (length members < 1) || bool_decide (8 < length members)
                         || bool_decide (DisabledServices p ≠ ∅)) "select 1–8 services without profiles");
  selected ← lift (selectMembers p ∅ members);
  _ ← lift (mapM (checkDependency p selected) (dependencies p));
  order ← lift (onDemandOrder p selected);
  digest ← lift (Digest p environment);
  rows ← or_reject (engine (ContainerList (PName p))) "unable to inspect containers";
  _ ← lift (reject_when (bool_decide (1024 < length rows)) "container inspection limit exceeded");
  seen ← inspectRows p selected (externalOf p selected) ∅ rows;
  _ ← lift (mapM (checkExternal p selected seen) (elements (externalOf p selected)));
  found ← inspectMembers p seen
    (mkSnapshot (PName p) digest false [] [] (SortStrings (elements (externalOf p selected)))) order;
  _ ← lift (reject_when (bool_decide (sum_list ((λ name, length (Ports (service p name))) <$> order) = 0)
                         || (Traffic.Traffic.MaxBindings <? Z.of_nat (length (Bindings found)))%Z)
              "group requires bounded, fixed published ports");
  _ ← lift (reject_when (SRunning found && negb (wakeable (Bindings found)))
              "published endpoints are invalid or unavailable");
  mret (mkSnapshot (ProjectName found) (SourceDigest found) (SRunning found) (Containers found)
          (merge_sort binding_le (Bindings found)) (ExternalDependencies found)).
End inspect.

(** ** OnDemandCounters

    A reading of the engine's statistics of a container: its counters per
    network, and when they were read. *)
Record Stats := mkStats { SID : string; SRead : time; SNetworks : gmap string (Z * Z) }.   (* uint64 *)
Record OnDemandCounters := mkCounters { Received : Z; Sent : Z }.                        (* uint64 *)
(** A response has no body, or one that is read and closed with or without an
    error; [decode] is the JSON decoder. *)
Class StatsDocker := {
  ContainerStats : string → nat → result (option (result string));
  decode : string → result Stats;
}.
Section counters.
Context `{W : World} `{St : StatsDocker} {S : Type} (demand : bool).
Definition maxUint64 : Z := 2 ^ 64 - 1.
Definition addNetwork (c : result OnDemandCounters) (n : Z * Z) : result OnDemandCounters :=
  c ← c;
  _ ← reject_if ((maxUint64 - Received c <? n.1)%Z || (maxUint64 - Sent c <? n.2)%Z) (ErrText "network counter overflow");
  Ok (mkCounters (wrapU64 (Received c + n.1)) (wrapU64 (Sent c + n.2))).
Definition sumNetworks (networks : gmap string (Z * Z)) : result OnDemandCounters :=
  fold_left addNetwork (map_to_list networks).*2 (Ok (mkCounters 0 0)).
Definition incomplete (id : string) (now : time) (s : Stats) : bool :=
  negb (SID s =? id)%string || IsZero (SRead s) || (10 * Second <? Sub now (SRead s))%Z
  || After (SRead s) (Add now Second) || bool_decide (size (SNetworks s) = 0) || bool_decide (32 < size (SNetworks s)).
(** The reader stops one byte after the limit, which is enough to see that it
    was exceeded. *)
Definition readBody (body : option (result string)) : result string :=
  match body with
  | None => Err (ErrText "network counters unavailable")
  | Some b =>
    b ← b;
    _ ← reject_if (2 ^ 20 <? len b)%Z (ErrText "network counter response exceeds limit");
    Ok b
  end.
Definition stats (id : string) : M S (option (result string)) := λ s n, (ContainerStats id n, (s, Datatypes.S n)).
Fixpoint countersOf (ids : list string) (acc : gmap string OnDemandCounters * time)
    : M S (gmap string OnDemandCounters * time) :=
  match ids with
  | [] => mret acc
  | id :: rest =>
    response ← stats id;
    b ← lift (readBody response);
    sample ← lift (decode b);
    now_ ← now;
    _ ← guard_not (incomplete id now_ sample) (ErrText "network counters are incomplete or stale");
    counts ← lift (sumNetworks (SNetworks sample));
    countersOf rest (<[id := counts]> acc.1,
                     if IsZero acc.2 || Before (SRead sample) acc.2 then SRead sample else acc.2)
  end.
Definition readCounters (ids : list string) : M S (gmap string OnDemandCounters * time) :=
  _ ← guard_not (negb demand || bool_decide (length ids = 0) || bool_decide (8 < length ids)) Compose_ErrOnDemandIneligible;
  countersOf ids (∅, zeroTime).
End counters.
End Compose.
