(* ===== verification/Lifecycle.v ===== *)
(** * Starting and stopping a group (src/internal/compose/on_demand_lifecycle.go)

    Only the containers that were inspected are started and stopped, each
    checked again right before.  The context, the clock and the engine are the
    environment. *)
From S2P Require Import Prelude GoStrings Compose.

(** A context: its error at every moment; the timer of a wait: whether it
    fired (or the context ended the wait). *)
Class Waiting := { parent : nat → option error; fired : nat → bool }.

Module Lifecycle.
Import Compose.

Section lifecycle.
Context `{ComposeApi} `{W : World} `{D : !OnDemandDocker} `{Wt : Waiting}.
Context (demand : bool).
Notation Trace := (list (Action * nat)).

Definition ineligible : error := Compose_ErrOnDemandIneligible.
Definition withTimeout (ctx : nat → option error) (deadline : time) (n : nat) : option error :=
  match ctx n with
  | Some e => Some e
  | None => if (deadline <=? clock n)%Z then Some Context_DeadlineExceeded else None
  end.
Definition checkContext (ctx : nat → option error) : M Trace unit := λ t n,
  (match ctx n with Some e => Err e | None => Ok tt end, (t, S n)).
(** [realUpdateClock.Wait]: the timer, or the end of the context. *)
Definition Wait (ctx : nat → option error) : M Trace unit := λ t n,
  (if fired n then Ok tt else Err (default Context_Canceled (ctx (S n))), (t, S n)).
Definition act (a : Action) : M Trace unit := λ t n, (ContainerAct a n, (t ++ [(a, n)], S n)).

(** The container is the one that was inspected. *)
Definition identified (project : string) (m : OnDemandContainer) (a : InspectResponse) : result Seen :=
  match complete a with
  | None => Err ineligible
  | Some s =>
    _ ← reject_if (negb (ID a =? OID m)%string || negb (Image a =? OImageID m)%string) ineligible;
    _ ← reject_if (negb (label (labels s) ProjectLabel =? project)%string
                   || negb (label (labels s) ServiceLabel =? OService m)%string
                   || negb (label (labels s) ContainerNumberLabel =? "1")%string
                   || foldsToTrue (label (labels s) OneoffLabel) || Paused (st s) || Dead (st s)) ineligible;
    Ok s
  end.
Definition inspectOnDemandIdentity (project : string) (m : OnDemandContainer) : M Trace Seen :=
  a ← engine (ContainerInspect (OID m));
  lift (identified project m a).

(** ** preflightOnDemand *)
Definition settled (running : bool) (m : OnDemandContainer) (s : Seen) : result unit :=
  _ ← reject_if (negb (Bool.eqb (Running (st s)) running)
                 || running && negb (onDemandReady (actual s) (Healthcheck m))
                 || negb running && negb (Status (st s) =? "exited")%string) ineligible;
  reject_if (running && (negb (StartedAt (st s) =? OStartedAt m)%string
                         || negb (RestartCount (actual s) =? ORestartCount m)%Z)) ineligible.
Fixpoint preflightMembers (project : string) (running : bool) (seen : gset string) (l : list OnDemandContainer) : M Trace unit :=
  match l with
  | [] => mret tt
  | m :: rest =>
    _ ← guard_not ((OID m =? "")%string || bool_decide (OID m ∈ seen)) ineligible;
    s ← inspectOnDemandIdentity project m;
    _ ← lift (settled running m s);
    preflightMembers project running ({[OID m]} ∪ seen) rest
  end.
Definition preflightOnDemand (ctx : nat → option error) (s : OnDemandSnapshot) : M Trace unit :=
  _ ← checkContext ctx;
  _ ← guard_not (negb demand || (ProjectName s =? "")%string || bool_decide (length (Containers s) < 1)
                 || bool_decide (8 < length (Containers s))) ineligible;
  preflightMembers (ProjectName s) (SRunning s) ∅ (Containers s).

(** ** StartOnDemand

    The loop that polls a container has fuel; [false] says that it was used
    up, which is no answer of the program.  [rounds] is enough for a timeout
    (see [LifecycleLaws]). *)
Definition failed (s : Seen) : bool :=
  Dead (st s) || Restarting (st s) || (Status (st s) =? "exited")%string
  || bool_decide (StHealth (st s) = Some "unhealthy"%string).
Fixpoint await (fuel : nat) (ctx : nat → option error) (project : string) (m : OnDemandContainer) : M Trace bool :=
  match fuel with
  | O => mret false
  | S fuel' =>
    s ← inspectOnDemandIdentity project m;
    if onDemandReady (actual s) (Healthcheck m) then mret true
    else
      _ ← guard_not (failed s) ineligible;
      _ ← Wait ctx;
      await fuel' ctx project m
  end.
Definition startMember (fuel : nat) (ctx : nat → option error) (project : string) (m : OnDemandContainer) : M Trace bool :=
  _ ← checkContext ctx;
  s ← inspectOnDemandIdentity project m;
  _ ← guard_not (Running (st s) || negb (Status (st s) =? "exited")%string) ineligible;
  _ ← catch (act (Start (OID m))) (λ e, fail (ErrWrap e "start existing container"));
  await fuel ctx project m.
Fixpoint startMembers (fuel : nat) (ctx : nat → option error) (project : string) (l : list OnDemandContainer) : M Trace bool :=
  match l with
  | [] => mret true
  | m :: rest =>
    up ← startMember fuel ctx project m;
    if up : bool then startMembers fuel ctx project rest else mret false
  end.
Definition rounds (timeout : duration) : nat := Z.to_nat (timeout / (250 * Millisecond)) + 2.
Definition StartOnDemand (s : OnDemandSnapshot) (timeout : duration) : M Trace bool :=
  _ ← guard_not ((timeout <? 30 * Second)%Z || (15 * Minute <? timeout)%Z || SRunning s) ineligible;
  t0 ← now;
  let ctx := withTimeout parent (Add t0 timeout) in
  _ ← preflightOnDemand ctx s;
  startMembers (rounds timeout) ctx (ProjectName s) (Containers s).

(** ** StopOnDemand *)
Definition stopMember (grace : Z) (project : string) (m : OnDemandContainer) : M Trace unit :=
  _ ← checkContext parent;
  _ ← inspectOnDemandIdentity project m;
  _ ← catch (act (Stop (OID m) grace)) (λ e, fail (ErrWrap e "stop existing container"));
  s ← inspectOnDemandIdentity project m;
  guard_not (Running (st s) || negb (Status (st s) =? "exited")%string) ineligible.
Fixpoint stopMembers (grace : Z) (project : string) (l : list OnDemandContainer) : M Trace unit :=
  match l with
  | [] => mret tt
  | m :: rest => _ ← stopMember grace project m; stopMembers grace project rest
  end.
Definition StopOnDemand (s : OnDemandSnapshot) (grace : Z) : M Trace unit :=
  _ ← guard_not ((grace <? 10)%Z || (120 <? grace)%Z || negb (SRunning s)) ineligible;
  _ ← preflightOnDemand parent s;
  stopMembers grace (ProjectName s) (reverse (Containers s)).
End lifecycle.
End Lifecycle.
