(* ===== verification/ComposeLaws.v ===== *)
(** * What the checks of a group guarantee

    The order is a topological order of the group and exists exactly when
    there is no cycle; a snapshot describes a group that is closed, uniform
    and reachable; starting and stopping follow the order, one verified
    container after the other. *)
From S2P Require Import Prelude GoStrings Netip Environment Compose Lifecycle.
From S2P Require Traffic.

Module ComposeLaws.
Import Environment Compose.

(** ** Depth-first order *)
Section dfs.
Context (deps : string → list string) (sel : gset string).
Context (deps_sel : ∀ n d, d ∈ deps n → d ∈ sel).
Definition edge (n d : string) : Prop := d ∈ deps n.

(** Every element comes after what it depends on. *)
Definition sorted_after (l : list string) : Prop :=
  ∀ l1 n l2, l = l1 ++ n :: l2 → ∀ d, edge n d → d ∈ l1.

Lemma sorted_after_snoc l n : sorted_after l → (∀ d, edge n d → d ∈ l) → sorted_after (l ++ [n]).
Proof.
  intros Hl Hn l1 m l2 E d Hd.
  destruct l2 as [|x l2 _] using rev_ind.
  - apply app_inj_tail in E as [-> ->]. by apply Hn.
  - rewrite app_comm_cons, app_assoc in E. apply app_inj_tail in E as [-> _]. by apply (Hl l1 m l2).
Qed.

(** A list that is sorted in this way has no cycle among its elements. *)
Lemma sorted_no_cycle l : sorted_after l → ∀ c, c ∈ l → ¬ tc edge c c.
Proof.
  intros Hl. assert (∀ n d, tc edge n d → ∀ l1 l2, l = l1 ++ n :: l2 → d ∈ l1) as H.
  { induction 1 as [n d Hd|n m d Hm _ IH]; intros l1 l2 E; [by apply (Hl l1 n l2)|].
    assert (m ∈ l1) as (k1 & k2 & ->)%list_elem_of_split by by apply (Hl l1 n l2).
    rewrite <-app_assoc in E. specialize (IH _ _ E). apply elem_of_app. by left. }
  intros c Hc Ht. revert Ht.
  assert (∃ l1 l2, l = l1 ++ c :: l2 ∧ c ∉ l1) as (l1 & l2 & E & Hn) by by apply list_elem_of_split_l.
  intros Ht. by apply Hn, (H c c Ht l1 l2).
Qed.

Record Inv (s : Marks) : Prop := {
  inv_nodup : NoDup s.2;
  inv_black n : n ∈ s.2 ↔ s.1 !! n = Some 2;
  inv_marks n k : s.1 !! n = Some k → k = 1 ∨ k = 2;
  inv_sorted : sorted_after s.2;
  inv_sel n : n ∈ s.2 → n ∈ sel;
}.
Definition gray (s : Marks) (n : string) : Prop := s.1 !! n = Some 1.
(** What a successful visit does. *)
Definition extends (s s' : Marks) : Prop :=
  Inv s' ∧ (∀ g, gray s' g ↔ gray s g) ∧ (∀ n, n ∈ s.2 → n ∈ s'.2) ∧ dom s.1 ⊆ dom s'.1.
Definition cyclic (r : option (result Marks)) : Prop :=
  r = Some (Err (rejected "dependency cycle")) ∧ ∃ c, c ∈ sel ∧ tc edge c c.
Definition visited (s : Marks) (l : list string) (r : option (result Marks)) : Prop :=
  (∃ s', r = Some (Ok s') ∧ extends s s' ∧ ∀ n, n ∈ l → n ∈ s'.2) ∨ cyclic r.

Lemma visit_S fuel name s :
  visit deps (S fuel) name s =
  match s.1 !! name with
  | Some 1 => Some (Err (rejected "dependency cycle"))
  | Some 2 => Some (Ok s)
  | _ => match visitEach deps fuel (deps name) (<[name := 1]> s.1, s.2) with
         | Some (Ok s') => Some (Ok (<[name := 2]> s'.1, s'.2 ++ [name]))
         | r => r
         end
  end.
Proof.
  simpl. assert (∀ l s, (fix visitAll (l : list string) (s : Marks) {struct l} : option (result Marks) :=
      match l with
      | [] => Some (Ok s)
      | d :: l' => match visit deps fuel d s with Some (Ok s') => visitAll l' s' | r => r end
      end) l s = visitEach deps fuel l s) as Hl.
  { clear name s. induction l as [|d l IH]; intros s; simpl; [done|].
    destruct (visit deps fuel d s) as [[s'|x]|]; [apply IH|done..]. }
  by rewrite Hl.
Qed.

Lemma extends_refl s : Inv s → extends s s.
Proof. intros HI. split; [done|]. split; [done|]. split; [done|]. set_solver. Qed.
Lemma extends_trans s1 s2 s3 : extends s1 s2 → extends s2 s3 → extends s1 s3.
Proof.
  intros (I2 & G2 & O2 & D2) (I3 & G3 & O3 & D3). split_and!; [done|..].
  - intros g. by rewrite G3.
  - intros n Hn. by apply O3, O2.
  - by transitivity (dom s2.1).
Qed.

(** Colouring a name gray, and black when its dependencies are. *)
Lemma Inv_gray s n : Inv s → s.1 !! n = None → Inv (<[n := 1]> s.1, s.2).
Proof.
  intros [I1 I2 I3 I4 I5] Hn. split; simpl; try done.
  - intros m. rewrite I2. destruct (decide (n = m)) as [->|]; [|by rewrite lookup_insert_ne].
    rewrite lookup_insert_eq. split; congruence.
  - intros m k [[_ <-]|[_ Hm]]%lookup_insert_Some; [by left|by apply (I3 m)].
Qed.
Lemma extends_black s n s' :
  Inv s → s.1 !! n = None → n ∈ sel → extends (<[n := 1]> s.1, s.2) s' → (∀ d, edge n d → d ∈ s'.2) →
  extends s (<[n := 2]> s'.1, s'.2 ++ [n]).
Proof.
  intros HI Hn Hs ([I1 I2 I3 I4 I5] & G & O & Dm) Hd. simpl in *.
  assert (gray s' n) as Hg by (apply G; apply lookup_insert_eq).
  split_and!; simpl.
  - split; simpl.
    + apply NoDup_app. split_and!; [done| |apply NoDup_singleton].
      intros m Hm ->%list_elem_of_singleton. apply I2 in Hm. unfold gray in Hg. congruence.
    + intros m. rewrite elem_of_app, list_elem_of_singleton, I2, lookup_insert_Some.
      destruct (decide (n = m)) as [<-|]; [tauto|]. split; [intros [?|?]; [by right|congruence]|intros [[? _]|[_ ?]]; [done|by left]].
    + intros m k [[_ <-]|[_ Hm]]%lookup_insert_Some; [by right|by apply (I3 m)].
    + by apply sorted_after_snoc.
    + intros m [Hm| ->%list_elem_of_singleton]%elem_of_app; [by apply I5|done].
  - intros g. unfold gray. simpl. destruct (decide (n = g)) as [->|Hne].
    + rewrite lookup_insert_eq. split; congruence.
    + rewrite lookup_insert_ne by done. specialize (G g). unfold gray in G. simpl in G.
      by rewrite lookup_insert_ne in G.
  - intros m Hm. apply elem_of_app. left. by apply O.
  - intros m Hm. rewrite dom_insert. specialize (Dm m). rewrite dom_insert in Dm. set_solver.
Qed.

(** Visits succeed or find a cycle, when the fuel exceeds the number of
    services that are not yet coloured. *)
Lemma visit_visited fuel : ∀ s n,
  Inv s → n ∈ sel → (∀ g, gray s g → tc edge g n) → size (sel ∖ dom s.1) < fuel →
  visited s [n] (visit deps fuel n s).
Proof.
  induction fuel as [|fuel IH]; intros s n HI Hn Hg Hf; [lia|]. rewrite visit_S.
  assert (∀ l s, Inv s → (∀ d, d ∈ l → d ∈ sel) → (∀ g d, gray s g → d ∈ l → tc edge g d) →
            size (sel ∖ dom s.1) < fuel → visited s l (visitEach deps fuel l s)) as Heach.
  { clear s n HI Hn Hg Hf. induction l as [|d l IHl]; intros s HI Hl Hg Hf; simpl.
    - left. exists s. split_and!; [done|by apply extends_refl|]. intros n Hn. by apply elem_of_nil in Hn.
    - destruct (IH s d) as [(s' & -> & He & Hin)|Hc]; [done|apply Hl; left|intros g Hgg; apply Hg; [done|left]|done| |].
      + destruct He as (I' & G' & O' & D').
        destruct (IHl s') as [(s2 & E2 & He2 & Hin2)|Hc2].
        * done.
        * intros x Hx. apply Hl. by right.
        * intros g x Hgg Hx. apply Hg; [by apply G'|by right].
        * eapply Nat.le_lt_trans; [|exact Hf]. apply subseteq_size. set_solver.
        * left. exists s2. split_and!; [done| |].
          { by apply (extends_trans s s' s2). }
          intros x [->|Hx]%elem_of_cons; [|by apply Hin2]. apply He2, Hin. by left.
        * by right.
      + right. destruct Hc as [Hr Hc]. unfold cyclic. by rewrite Hr. }
  destruct (s.1 !! n) as [k|] eqn:Ek.
  - destruct (inv_marks s HI n k Ek) as [-> | ->].
    + right. split; [done|]. exists n. split; [done|by apply Hg].
    + left. exists s. split_and!; [done|by apply extends_refl|].
      intros m ->%list_elem_of_singleton. by apply (inv_black s HI).
  - destruct (Heach (deps n) (<[n := 1]> s.1, s.2)) as [(s' & -> & He & Hin)|[-> Hc]].
    + by apply Inv_gray.
    + intros d Hd. by apply (deps_sel n).
    + intros g d Hgg Hd. unfold gray in Hgg. simpl in Hgg.
      apply lookup_insert_Some in Hgg as [[<- _]|[_ Hgg]]; [by apply tc_once|].
      eapply tc_r; [by apply Hg|done].
    + simpl. rewrite dom_insert. assert (n ∉ dom s.1) by by apply not_elem_of_dom.
      enough (size (sel ∖ ({[n]} ∪ dom s.1)) < size (sel ∖ dom s.1)) by lia.
      apply subset_size. set_solver.
    + left. eexists. split_and!; [done|by apply extends_black|].
      intros m ->%list_elem_of_singleton. simpl. apply elem_of_app. right. by apply list_elem_of_singleton.
    + right. by split.
Qed.

Lemma visitEach_visited fuel l : ∀ s,
  Inv s → (∀ d, d ∈ l → d ∈ sel) → (∀ g, ¬ gray s g) → size sel < fuel → visited s l (visitEach deps fuel l s).
Proof.
  induction l as [|d l IH]; intros s HI Hl Hg Hf; simpl.
  - left. exists s. split_and!; [done|by apply extends_refl|]. intros n Hn. by apply elem_of_nil in Hn.
  - destruct (visit_visited fuel s d) as [(s' & -> & He & Hin)|[-> Hc]].
    + done.
    + apply Hl. left.
    + intros g Hgg. by destruct (Hg g).
    + eapply Nat.le_lt_trans; [apply subseteq_size|exact Hf]. set_solver.
    + pose proof He as (I' & G' & O' & D'). destruct (IH s') as [(s2 & E2 & He2 & Hin2)|Hc].
      * done.
      * intros x Hx. apply Hl. by right.
      * intros g Hgg%G'. by apply (Hg g).
      * done.
      * left. exists s2. split_and!; [done|by apply (extends_trans s s' s2)|].
        intros x [->|Hx]%elem_of_cons; [|by apply Hin2]. apply He2, Hin. by left.
      * by right.
    + by right.
Qed.
End dfs.

(** The service [n] of the selection depends on the service [d] of it. *)
Definition depends (p : Project) (selected : gset string) (n d : string) : Prop :=
  is_Some (DependsOn (service p n) !! d) ∧ d ∈ selected.

Lemma selectedDeps_spec p selected n d : edge (selectedDeps p selected) n d ↔ depends p selected n d.
Proof.
  unfold edge, selectedDeps, depends. rewrite elem_of_SortStrings, elem_of_elements, elem_of_filter, elem_of_dom. tauto.
Qed.

Lemma order_cases p selected :
  (∃ order, onDemandOrder p selected = Ok order ∧ NoDup order ∧ (∀ n, n ∈ order ↔ n ∈ selected) ∧
     sorted_after (selectedDeps p selected) order) ∨
  (onDemandOrder p selected = Err (rejected "dependency cycle") ∧
     ∃ c, c ∈ selected ∧ tc (edge (selectedDeps p selected)) c c).
Proof.
  set (deps := selectedDeps p selected).
  assert (∀ n d, d ∈ deps n → d ∈ selected) as Hd by (intros n d [_ ?]%selectedDeps_spec; done).
  assert (Inv deps selected (∅, [])) as HI.
  { split; simpl; [constructor|intros n; by rewrite elem_of_nil, lookup_empty|intros n k; by rewrite lookup_empty| |].
    - intros [|??] n l2; discriminate.
    - intros n Hn. by apply elem_of_nil in Hn. }
  destruct (visitEach_visited deps selected Hd (S (S (size selected))) (SortStrings (elements selected)) (∅, []))
    as [(s' & E & (I' & _ & _) & Hin)|[E Hc]].
  - done.
  - intros d Hx. by rewrite elem_of_SortStrings, elem_of_elements in Hx.
  - intros g Hg. unfold gray in Hg. simpl in Hg. by rewrite lookup_empty in Hg.
  - lia.
  - left. exists s'.2. unfold onDemandOrder. fold deps. rewrite E. simpl. destruct I' as [I1 I2 I3 I4 I5].
    split_and!; try done. intros n. split; [apply I5|]. intros Hn. apply Hin. by rewrite elem_of_SortStrings, elem_of_elements.
  - right. split; [|done]. unfold onDemandOrder. fold deps. by rewrite E.
Qed.

(** The order of a group is a topological order of its services, and
    exists exactly when their dependencies have no cycle: the depth-first
    search terminates on every project; an order holds every selected service
    once, each after all selected services that it depends on; and the search
    is refused exactly when some selected service depends on itself through
    selected services. *)
Theorem order_exists_unless_cyclic p selected :
  match onDemandOrder p selected with
  | Ok order => NoDup order ∧ (∀ n, n ∈ order ↔ n ∈ selected) ∧
      ∀ l1 n l2, order = l1 ++ n :: l2 → ∀ d, depends p selected n d → d ∈ l1
  | Err x => x = rejected "dependency cycle"
  end ∧
  (is_ok (onDemandOrder p selected) = false ↔ ∃ c, c ∈ selected ∧ tc (depends p selected) c c).
Proof.
  assert (∀ c, tc (depends p selected) c c ↔ tc (edge (selectedDeps p selected)) c c) as Ht.
  { intros c. split; apply tc_congruence with (f := id); intros x y; by rewrite selectedDeps_spec. }
  destruct (order_cases p selected) as [(order & -> & Hnd & Hin & Hs)|[-> Hc]]; simpl.
  - split.
    + split_and!; [done..|]. intros l1 n l2 E d Hd. apply (Hs l1 n l2 E). by apply selectedDeps_spec.
    + split; [done|]. intros (c & Hc & Htc%Ht). by destruct (sorted_no_cycle _ _ Hs c (proj2 (Hin c) Hc)).
  - split; [done|]. split; [|done]. intros _. destruct Hc as (c & Hc & Htc). exists c. by rewrite Ht.
Qed.

(** ** Refusals

    Everything that looks at a group starts and stops nothing, and refuses
    with [ErrOnDemandIneligible] unless there is an excuse. *)
Class Excuse := excused : error → Prop.
Section refusals.
Context `{Ex : Excuse}.
Definition fair {A} (r : result A) : Prop := ∀ x, r = Err x → Is x Compose_ErrOnDemandIneligible = true ∨ excused x.
Definition careful {S A} (m : M S A) : Prop :=
  ∀ t n, (m t n).2.1 = t ∧ n ≤ (m t n).2.2 ∧ fair (m t n).1.

Lemma fair_bind {A B} (m : result A) (k : A → result B) : fair m → (∀ a, fair (k a)) → fair (m ≫= k).
Proof. intros Hm Hk x. destruct m as [a|e]; simpl; [apply Hk|]. intros [= <-]. by apply Hm. Qed.
Lemma fair_ok {A} (a : A) : fair (Ok a).
Proof. by intros x. Qed.
Lemma fair_reject {A} reason : fair (@Err A (rejected reason)).
Proof. intros x [= <-]. by left. Qed.
Lemma fair_when c reason : fair (reject_if c (rejected reason)).
Proof. intros x Hx. apply reject_if_err in Hx as ->. by left. Qed.
Lemma fair_mapM {A B} (f : A → result B) l : (∀ a, fair (f a)) → fair (mapM f l).
Proof.
  intros Hf. induction l as [|a l IH]; [apply fair_ok|]. change (mapM f (a :: l)) with (y ← f a; k ← mapM f l; mret (y :: k)).
  apply fair_bind; [done|intros b]. apply fair_bind; [done|]. intros. apply fair_ok.
Qed.
Lemma fair_fmap {A B} (f : A → B) (r : result A) : fair r → fair (f <$> r).
Proof. intros Hr x. destruct r; [done|]. intros [= <-]. by apply Hr. Qed.
Lemma careful_bind {S A B} (m : M S A) (k : A → M S B) : careful m → (∀ a, careful (k a)) → careful (m ≫= k).
Proof.
  intros Hm Hk t n. destruct (Hm t n) as (Ht & Hn & Hf). unfold mbind, M_bind.
  destruct (m t n) as [[a|x] [t1 n1]]; simpl in *; [subst|split_and!; [done..|intros y [= <-]; by apply Hf]].
  destruct (Hk a t n1) as (? & ? & ?). split_and!; [done|lia|done].
Qed.
Lemma careful_lift {S A} (r : result A) : fair r → careful (lift r : M S A).
Proof. intros Hr t n. split; [done|]. split; [simpl; lia|apply Hr]. Qed.
Lemma careful_ret {S A} (a : A) : careful (mret a : M S A).
Proof. intros t n. split; [done|]. split; [simpl; lia|apply fair_ok]. Qed.
Lemma careful_fail {S A} reason : careful (fail (rejected reason) : M S A).
Proof. intros t n. split; [done|]. split; [simpl; lia|apply fair_reject]. Qed.

End refusals.
(** The chains of checks. *)
Ltac fairly := repeat first
  [ apply fair_bind; [|intros] | apply fair_mapM; intros | apply fair_fmap | apply fair_when | apply fair_ok
  | apply fair_reject | case_match ].

Section snapshot.
Context `{ComposeApi} `{W : World} `{D : !OnDemandDocker} `{Dg : !Digests Project}.
Context `{Ex : Excuse} (demand : bool).
Notation Trace := (list (Action * nat)).

Lemma careful_engine {A} (f : nat → result A) reason : careful (or_reject (engine f) reason).
Proof.
  intros t n. unfold or_reject, catch, engine. destruct (f n); simpl; (split; [done|split; [lia|]]); [apply fair_ok|apply fair_reject].
Qed.
Ltac carefully := repeat first
  [ apply careful_bind; [|intros] | apply careful_engine | apply careful_ret | apply careful_fail
  | apply careful_lift; fairly | case_match ].

Lemma selectMembers_fair p members : ∀ selected, fair (selectMembers p selected members).
Proof. induction members as [|n l IH]; intros selected; simpl; unfold reject_when; fairly. apply IH. Qed.
Lemma inspectRows_careful p selected external rows : ∀ seen, careful (inspectRows p selected external seen rows).
Proof.
  induction rows as [|row rows IH]; intros seen; simpl; [apply careful_ret|].
  apply careful_bind; [|intros; apply IH]. unfold inspectRow, reject_when. carefully.
Qed.
Lemma checkNetworks_careful l : careful (checkNetworks l).
Proof. induction l as [|name l IH]; simpl; unfold reject_when; carefully. done. Qed.
Lemma bindings_fair s h st n : fair (onDemandBindings s h st n).
Proof.
  unfold onDemandBindings, allow, checkBound, endpoints, endpoint. fairly.
Qed.
Lemma inspectMember_careful p seen acc name : careful (inspectMember p seen acc name).
Proof.
  unfold inspectMember, reject_when.
  repeat first [apply careful_bind; [|intros] | apply checkNetworks_careful | apply careful_ret | apply careful_fail
    | apply careful_lift; first [apply bindings_fair|fairly] | case_match].
Qed.
Lemma inspectMembers_careful p seen order : ∀ acc, careful (inspectMembers p seen acc order).
Proof.
  induction order as [|name order IH]; intros acc; simpl; [apply careful_ret|].
  apply careful_bind; [apply inspectMember_careful|intros; apply IH].
Qed.

(** ** What an accepted group is *)
Lemma mapM_ok {A B} (f : A → result B) l k : mapM f l = Ok k → Forall2 (λ a b, f a = Ok b) l k.
Proof.
  revert k. induction l as [|a l IH]; intros k E; [injection E as <-; constructor|].
  change (mapM f (a :: l)) with (y ← f a; k ← mapM f l; mret (y :: k)) in E.
  apply result_bind_ok in E as (b & Hb & E). apply result_bind_ok in E as (k' & Hk & E). injection E as <-.
  constructor; [done|by apply IH].
Qed.
Lemma or_reject_engine_ok {A} (f : nat → result A) reason (t : Trace) n a t' n' :
  or_reject (engine f) reason t n = (Ok a, (t', n')) → f n = Ok a ∧ t' = t ∧ n' = S n.
Proof. unfold or_reject, catch, engine. destruct (f n); [naive_solver|done]. Qed.

Lemma selectMembers_ok p members : ∀ selected s,
  selectMembers p selected members = Ok s →
  s = selected ∪ list_to_set members ∧ NoDup members ∧ (∀ m, m ∈ members → m ∉ selected) ∧
  ∀ m, m ∈ members → is_Some (Services p !! m) ∧ Scale (service p m) = 1%Z.
Proof.
  induction members as [|m members IH]; intros selected s E.
  { injection E as <-. split_and!; [set_solver|constructor|set_solver|set_solver]. }
  simpl in E. apply result_bind_ok in E as (u & G & E). apply reject_if_ok in G.
  apply orb_false_elim in G as [[G1%bool_decide_eq_false G2%bool_decide_eq_false]%orb_false_elim G3%negb_false_iff%Z.eqb_eq].
  apply IH in E as (-> & Hnd & Hout & Hs). split_and!.
  - set_solver.
  - constructor; [set_solver|done].
  - set_solver.
  - intros x [->|Hx]%elem_of_cons; [|by apply Hs]. split; [|done]. by apply not_eq_None_Some.
Qed.

Lemma elem_of_dependencies p name dep c :
  (name, dep, c) ∈ dependencies p ↔ ∃ s, Services p !! name = Some s ∧ DependsOn s !! dep = Some c.
Proof.
  unfold dependencies. rewrite list_elem_of_bind. split.
  - intros ([x s] & Hin & Hx%elem_of_map_to_list). apply list_elem_of_fmap in Hin as ([d c'] & [= -> -> ->] & Hd%elem_of_map_to_list).
    by exists s.
  - intros (s & Hs & Hd). exists (name, s). split; [|by apply elem_of_map_to_list].
    apply list_elem_of_fmap. exists (dep, c). split; [done|by apply elem_of_map_to_list].
Qed.
Lemma checkDependencies_ok p selected k :
  mapM (checkDependency p selected) (dependencies p) = Ok k →
  ∀ name dep s c, Services p !! name = Some s → DependsOn s !! dep = Some c → dep ∈ selected → name ∈ selected.
Proof.
  intros Hk%mapM_ok name dep s c Hs Hd Hsel.
  assert ((name, dep, c) ∈ dependencies p) as Hin by (apply elem_of_dependencies; by exists s).
  apply list_elem_of_lookup in Hin as [i Hi]. eapply Forall2_lookup_l in Hk as (b & _ & Hc); [|done].
  simpl in Hc. apply result_bind_ok in Hc as (u & G & _). apply reject_if_ok in G.
  rewrite bool_decide_true in G by done. by apply negb_false_iff, bool_decide_eq_true in G.
Qed.

(** Everything that was seen was answered by the engine and belongs to the
    project. *)
Definition observed (p : Project) (n0 n : nat) (name : string) (s : Seen) : Prop :=
  ∃ m, n0 ≤ m < n ∧ ContainerInspect (ID (actual s)) m = Ok (actual s) ∧ complete (actual s) = Some s ∧
       label (labels s) ProjectLabel = PName p ∧ label (labels s) ServiceLabel = name ∧
       foldsToTrue (label (labels s) OneoffLabel) = false ∧ Paused (st s) = false ∧ Dead (st s) = false.
Definition allObserved (p : Project) (n0 n : nat) (seen : gmap string (list Seen)) : Prop :=
  ∀ name s, s ∈ seenOf seen name → observed p n0 n name s.
Lemma observed_later p n0 n n' name s : observed p n0 n name s → n ≤ n' → observed p n0 n' name s.
Proof. intros (m & Hm & ?) Hn. exists m. split; [lia|done]. Qed.

Lemma inspectRow_ok p selected external seen row t n seen' t' n' n0 :
  inspectRow p selected external seen row t n = (Ok seen', (t', n')) →
  n0 ≤ n → allObserved p n0 n seen → n ≤ n' ∧ allObserved p n0 n' seen'.
Proof.
  unfold inspectRow. intros E Hn Hs. destruct (_ && _); [run_inv; split; [lia|done]|].
  apply bind_ok in E as (a & t1 & n1 & Ea & E). apply or_reject_engine_ok in Ea as (Ea & -> & ->).
  destruct (complete a) as [s|] eqn:Ec; [|run_inv]. run_inv.
  repeat match goal with G : reject_when _ _ = Ok _ |- _ => apply reject_if_ok in G end.
  assert (actual s = a) as Ha.
  { unfold complete in Ec. repeat case_match; simplify_eq. done. }
  split; [lia|]. intros name s'. unfold seenOf.
  destruct (decide (label row.2 ServiceLabel = name)) as [<-|Hne].
  - rewrite lookup_insert_eq. intros [Hin| ->%list_elem_of_singleton]%elem_of_app.
    + eapply observed_later; [by apply Hs|lia].
    + exists n. repeat match goal with G : _ || _ = false |- _ => apply orb_false_elim in G as [? ?]
        | G : negb (_ =? _)%string = false |- _ => apply negb_false_iff, String.eqb_eq in G end.
      rewrite Ha. subst. split_and!; try done; try lia. congruence.
  - rewrite lookup_insert_ne by done. intros Hin. eapply observed_later; [by apply Hs|lia].
Qed.
Lemma inspectRows_ok p selected external rows n0 : ∀ seen t n seen' t' n',
  inspectRows p selected external seen rows t n = (Ok seen', (t', n')) →
  n0 ≤ n → allObserved p n0 n seen → n ≤ n' ∧ allObserved p n0 n' seen'.
Proof.
  induction rows as [|row rows IH]; intros seen t n seen' t' n' E Hn Hs; simpl in E; [run_inv; by split|].
  apply bind_ok in E as (s1 & t1 & n1 & E1 & E).
  destruct (inspectRow_ok _ _ _ _ _ _ _ _ _ _ n0 E1 Hn Hs) as [Hn1 Hs1].
  destruct (IH _ _ _ _ _ _ E) as [??]; [lia|done|]. split; [lia|done].
Qed.

(** A container of the snapshot is the one that the engine described, at rest
    or healthy like the rest of its group. *)
Definition genuine (p : Project) (running : bool) (n0 n : nat) (c : OnDemandContainer) : Prop :=
  ORunning c = running ∧ Healthcheck c = hasOnDemandHealthcheck (service p (OService c)) ∧
  ∃ m a s, n0 ≤ m < n ∧ ContainerInspect (OID c) m = Ok a ∧ Lifecycle.identified (PName p) c a = Ok s ∧
           Lifecycle.settled running c s = Ok tt.
Record described (p : Project) (n0 n : nat) (done : list string) (acc : OnDemandSnapshot) : Prop := {
  d_names : OService <$> Containers acc = done;
  d_genuine : ∀ c, c ∈ Containers acc → genuine p (SRunning acc) n0 n c;
  d_empty : Containers acc = [] → SRunning acc = false;
  d_asleep : SRunning acc = false → Bindings acc = [];
}.
Lemma genuine_later p r n0 n n' c : genuine p r n0 n c → n ≤ n' → genuine p r n0 n' c.
Proof. intros (? & ? & m & a & s & Hm & ?) Hn. split_and!; [done..|]. exists m, a, s. split; [lia|done]. Qed.

Lemma bindings_asleep s h st n k : onDemandBindings s h st n = Ok k → Running st = false → k = [].
Proof.
  unfold onDemandBindings. intros E Hr. apply result_bind_ok in E as (? & _ & E).
  apply result_bind_ok in E as (? & _ & E). rewrite Hr in E. by injection E as <-.
Qed.
Lemma complete_actual a s : complete a = Some s → actual s = a.
Proof. unfold complete. intros. repeat case_match; simplify_eq. done. Qed.

(** The container that is recorded for [s]. *)
Lemma observed_genuine p n0 n name s :
  observed p n0 n name s → label (labels s) ContainerNumberLabel = "1"%string →
  (if Running (st s) then onDemandReady (actual s) (hasOnDemandHealthcheck (service p name)) = true
   else Status (st s) = "exited"%string) →
  genuine p (Running (st s)) n0 n
    (mkOnDemandContainer (ID (actual s)) name (Image (actual s)) (StartedAt (st s)) (RestartCount (actual s))
       (Running (st s)) (hasOnDemandHealthcheck (service p name))).
Proof.
  intros (m & Hm & Ei & Ec & Hp & Hs & Ho & Hpa & Hd) Hc Hr. split_and!; [done..|].
  exists m, (actual s), s. split_and!; [lia|lia|done| |].
  - unfold Lifecycle.identified. rewrite Ec. simpl. rewrite !String.eqb_refl, Hp, Hs, Hc, Ho, Hpa, Hd.
    simpl. by rewrite !String.eqb_refl.
  - unfold Lifecycle.settled. simpl. destruct (Running (st s)); simpl.
    + rewrite Hr. simpl. by rewrite String.eqb_refl, Z.eqb_refl.
    + by rewrite Hr.
Qed.

Lemma inspectMember_ok p seen acc name t n acc' t' n' n0 done :
  inspectMember p seen acc name t n = (Ok acc', (t', n')) →
  allObserved p n0 n seen → described p n0 n done acc →
  n ≤ n' ∧ described p n0 n' (done ++ [name]) acc' ∧
  SourceDigest acc' = SourceDigest acc ∧ ProjectName acc' = ProjectName acc ∧
  ExternalDependencies acc' = ExternalDependencies acc.
Proof.
  intros E Hseen [Hn Hg He Hb]. specialize (Hseen name).
  destruct (inspectMember_careful p seen acc name t n) as (_ & Hle & _). rewrite E in Hle. simpl in Hle.
  unfold inspectMember in E.
  destruct (seenOf seen name) as [|c [|??]]; [run_inv| |run_inv].
  assert (observed p n0 n name c) as Hc by (apply Hseen; left).
  run_inv. repeat match goal with G : reject_when _ _ = Ok _ |- _ => apply reject_if_ok in G end.
  repeat match goal with G : negb (_ =? _)%string = false |- _ => apply negb_false_iff, String.eqb_eq in G end.
  split; [done|]. split_and!; [|done..]. 
  match goal with G : (if Running (st c) then _ else _) = Ok _ |- _ => rename G into Hr end.
  match goal with G : bool_decide (Containers acc ≠ []) && _ = false |- _ => rename G into Hu end.
  match goal with G : onDemandBindings _ _ _ _ = Ok _ |- _ => rename G into Ho end.
  assert (Containers acc ≠ [] → SRunning acc = Running (st c)) as Hsame.
  { intros Hne. rewrite bool_decide_true in Hu by done. by apply negb_false_iff, eqb_prop in Hu. }
  split; simpl.
  - by rewrite fmap_app.
  - intros y [Hy| ->%list_elem_of_singleton]%elem_of_app.
    + rewrite <-Hsame by (intros Hnil; rewrite Hnil in Hy; by apply elem_of_nil in Hy). eapply genuine_later; [by apply Hg|done].
    + eapply genuine_later; [|exact Hle]. apply observed_genuine; [done..|].
      destruct (Running (st c)); apply reject_if_ok in Hr; apply negb_false_iff in Hr; [done|by apply String.eqb_eq].
  - intros Hnil. by destruct (Containers acc).
  - intros Hrun. rewrite (bindings_asleep _ _ _ _ _ Ho Hrun), app_nil_r. apply Hb.
    destruct (decide (Containers acc = [])) as [Hnil|Hne]; [by apply He|by rewrite Hsame].
Qed.
Lemma inspectMembers_ok p seen n0 order : ∀ acc t n acc' t' n' done,
  inspectMembers p seen acc order t n = (Ok acc', (t', n')) →
  allObserved p n0 n seen → described p n0 n done acc →
  described p n0 n' (done ++ order) acc' ∧
  SourceDigest acc' = SourceDigest acc ∧ ProjectName acc' = ProjectName acc ∧
  ExternalDependencies acc' = ExternalDependencies acc.
Proof.
  induction order as [|name order IH]; intros acc t n acc' t' n' done E Hs Hd; simpl in E.
  { run_inv. by rewrite app_nil_r. }
  apply bind_ok in E as (acc1 & t1 & n1 & E1 & E).
  destruct (inspectMember_ok _ _ _ _ _ _ _ _ _ _ _ E1 Hs Hd) as (Hn & Hd1 & H1 & H2 & H3).
  destruct (IH _ _ _ _ _ _ (done ++ [name]) E) as (Hd2 & H4 & H5 & H6); [|done|].
  { intros x s Hx. eapply observed_later; [by apply Hs|done]. }
  rewrite <-app_assoc in Hd2. split; [done|]. by rewrite H4, H5, H6.
Qed.

(** The snapshot that [inspectOnDemandProject] promises for a selection. *)
Record Group (p : Project) (environment : gmap string string) (members : list string) (n0 n : nat) (s : OnDemandSnapshot) : Prop := {
  g_project : ProjectName s = PName p;
  g_digest : Digest p environment = Ok (SourceDigest s);
  g_size : 1 ≤ length (Containers s) ≤ 8;
  g_services : (OService <$> Containers s) ≡ₚ members;
  g_unique : NoDup (OService <$> Containers s);
  g_order : ∀ l1 c l2, Containers s = l1 ++ c :: l2 →
    ∀ d, depends p (list_to_set members) (OService c) d → ∃ c', c' ∈ l1 ∧ OService c' = d;
  g_closed : ∀ name sv dep c, Services p !! name = Some sv → DependsOn sv !! dep = Some c → dep ∈ members → name ∈ members;
  g_genuine : ∀ c, c ∈ Containers s → genuine p (SRunning s) n0 n c;
  g_bindings : if SRunning s then wakeable (Bindings s) = true else Bindings s = [];
}.

Lemma wakeable_sorted l : wakeable l = true → wakeable (merge_sort binding_le l) = true.
Proof.
  unfold wakeable. destruct (Traffic.Traffic.Validate (Traffic.Traffic.mkConfig 1 1 Second l)) as [[]|] eqn:E; [|done].
  intros _. erewrite Traffic.Traffic.Validate_Permutation; [done| |done]. symmetry. apply merge_sort_Permutation.
Qed.

Lemma inspect_group p env members t n s t' n' :
  inspectOnDemandProject demand p env members t n = (Ok s, (t', n')) → Group p env members n n' s.
Proof.
  intros E. unfold inspectOnDemandProject in E. run_inv.
  repeat match goal with G : reject_when _ _ = Ok _ |- _ => apply reject_if_ok in G end.
  repeat match goal with G : _ || _ = false |- _ => apply orb_false_elim in G as [? ?] end.
  match goal with G : selectMembers _ _ _ = Ok _ |- _ => apply selectMembers_ok in G as (-> & Hnd & _ & _) end.
  match goal with G : mapM (checkDependency _ _) _ = Ok _ |- _ => rename G into Hdeps end.
  match goal with G : Digest _ _ = Ok _ |- _ => rename G into Hdigest end.
  match goal with G : onDemandOrder _ _ = Ok _ |- _ => rename G into Hord end.
  match goal with G : or_reject (engine _) _ _ _ = _ |- _ => apply or_reject_engine_ok in G as (_ & -> & ->) end.
  match goal with G : inspectRows _ _ _ _ _ _ _ = _ |- _ => rename G into Hrows end.
  match goal with G : inspectMembers _ _ _ _ _ _ = _ |- _ => rename G into Hmem end.
  apply (inspectRows_ok _ _ _ _ n) in Hrows as [Hle Hseen]; [|lia|by intros nm sn Hsn%elem_of_nil].
  destruct (inspectMembers_ok p _ n _ _ _ _ _ _ _ [] Hmem Hseen) as ([Hn Hg _ Ha] & Hd & Hp & _).
  { split; simpl; [done|by intros c Hc%elem_of_nil|done|done]. }
  simpl in *. set (sel := ∅ ∪ list_to_set members) in *.
  assert (sel = list_to_set members) as Hsel by (subst sel; set_solver).
  destruct (order_cases p sel) as [(order & Ho & Hon & Hoi & Hos)|[Ho _]]; rewrite Hord in Ho; [|done].
  injection Ho as ->.
  assert (order ≡ₚ members) as Hperm.
  { apply NoDup_Permutation; [done..|]. intros m. rewrite Hoi, Hsel. set_solver. }
  split; simpl.
  - done.
  - by rewrite Hd.
  - match goal with G : bool_decide (length members < 1) = false |- _ => apply bool_decide_eq_false in G end.
    match goal with G : bool_decide (8 < length members) = false |- _ => apply bool_decide_eq_false in G end.
    rewrite <-(length_fmap OService), Hn, Hperm. lia.
  - by rewrite Hn.
  - by rewrite Hn.
  - intros l1 c l2 Ec d Hdep. rewrite Ec in Hn. rewrite fmap_app in Hn. simpl in Hn. symmetry in Hn.
    assert (d ∈ OService <$> l1) as Hin.
    { apply (Hos _ _ _ Hn). apply selectedDeps_spec. by rewrite Hsel. }
    apply list_elem_of_fmap in Hin as (c' & -> & Hc'). by exists c'.
  - intros name sv dep c Hs Hdp Hm. rewrite Hsel in Hdeps.
    assert (name ∈ (list_to_set members : gset string)) as Hin; [|set_solver].
    eapply (checkDependencies_ok _ _ _ Hdeps); [done..|set_solver].
  - done.
  - match goal with G : SRunning _ && negb _ = false |- _ => rename G into Hw end.
    destruct (SRunning _); [|by rewrite Ha]. apply wakeable_sorted. by apply negb_false_iff in Hw.
Qed.

Lemma order_fair p selected : fair (onDemandOrder p selected).
Proof.
  destruct (order_cases p selected) as [(order & -> & _)|[-> _]]; [apply fair_ok|]. intros x [= <-]. by left.
Qed.
Lemma inspect_careful p env members :
  (∀ x, Digest p env = Err x → excused x) → careful (inspectOnDemandProject demand p env members).
Proof.
  intros Hd. unfold inspectOnDemandProject, reject_when, checkDependency, checkExternal.
  repeat first
    [ apply careful_bind; [|intros] | apply careful_engine | apply careful_ret
    | apply inspectRows_careful | apply inspectMembers_careful
    | apply careful_lift; first [apply selectMembers_fair|apply order_fair|(intros x Hx; right; by apply Hd)|fairly] ].
Qed.

End snapshot.

Section promise.
Context `{ComposeApi} `{W : World} `{D : !OnDemandDocker} `{Dg : !Digests Project}.
Context (demand : bool).

(** A snapshot describes a group that may sleep and wake together: one
    container for each selected service, in an order in which every service
    comes after the selected services it depends on, none of which an
    unselected service depends on; every container was described by the engine
    during the inspection as this project's replica of that service, and all
    are healthy or all stopped; a running group listens on endpoints that the
    wake listener will accept, in the canonical order.  Inspecting starts and
    stops nothing, and every refusal is [ErrOnDemandIneligible], except that of
    the digest. *)
Theorem snapshot_describes_a_group p env members t n :
  let '(r, (t', n')) := inspectOnDemandProject demand p env members t n in
  t' = t ∧
  match r with
  | Ok s => Group p env members n n' s
  | Err x => Is x Compose_ErrOnDemandIneligible = true ∨ Digest p env = Err x
  end.
Proof.
  destruct (inspectOnDemandProject demand p env members t n) as [r [t' n']] eqn:E.
  destruct (inspect_careful (Ex := λ x, Digest p env = Err x) demand p env members (λ x Hx, Hx) t n) as (Ht & _ & Hx). rewrite E in Ht, Hx. simpl in *.
  split; [done|]. destruct r as [s|x]; [|by apply Hx].
  by apply (inspect_group (Ex := λ _, False)) in E.
Qed.
End promise.

(** ** Counters *)
Definition total (l : list (Z * Z)) : Z * Z := (foldr (λ n a, n.1 + a) 0 l, foldr (λ n a, n.2 + a) 0 l)%Z.
Lemma addNetworks_exact l : ∀ r s,
  Forall (λ n, 0 ≤ n.1 ∧ 0 ≤ n.2)%Z l → (0 ≤ r ≤ maxUint64)%Z → (0 ≤ s ≤ maxUint64)%Z →
  fold_left addNetwork l (Ok (mkCounters r s)) =
  if ((r + (total l).1 <=? maxUint64) && (s + (total l).2 <=? maxUint64))%Z
  then Ok (mkCounters (r + (total l).1) (s + (total l).2)) else Err (ErrText "network counter overflow").
Proof.
  assert (∀ l e, fold_left addNetwork l (Err e) = Err e) as He.
  { clear. intros l e. induction l as [|n l IH]; [done|apply IH]. }
  assert (∀ l : list (Z * Z), Forall (λ n, 0 ≤ n.1 ∧ 0 ≤ n.2)%Z l → (0 ≤ (total l).1 ∧ 0 ≤ (total l).2)%Z) as Hp.
  { clear. induction 1; simpl in *; lia. }
  induction l as [|[a b] l IH]; intros r s Hl Hr Hs.
  - simpl. rewrite !Z.add_0_r. by rewrite !(proj2 (Z.leb_le _ _)) by lia.
  - apply Forall_cons in Hl as [[Ha Hb] Hl]. simpl in Ha, Hb. specialize (Hp l Hl). cbn [fold_left].
    change (total ((a, b) :: l)) with ((a + (total l).1)%Z, (b + (total l).2)%Z).
    specialize (IH (r + a)%Z (s + b)%Z Hl). revert Hp IH. generalize (total l). intros [x y] Hp IH. cbn [fst snd] in *.
    unfold addNetwork at 2. cbn [Received Sent fst snd mbind result_bind].
    destruct (Z.ltb_spec (maxUint64 - r) a); [|destruct (Z.ltb_spec (maxUint64 - s) b)]; simpl.
    + rewrite He, (proj2 (Z.leb_gt _ _)) by lia. done.
    + rewrite He, (proj2 (Z.leb_gt (s + _) _)), andb_false_r by lia. done.
    + rewrite !wrapU64_id by (unfold maxUint64 in *; lia). rewrite IH by lia. by rewrite !Z.add_assoc.
Qed.
(** The traffic of a container is the exact sum over its networks, or an error
    when it does not fit in 64 bits; it never wraps around. *)
Lemma sumNetworks_exact networks :
  (∀ k n, networks !! k = Some n → 0 ≤ n.1 ∧ 0 ≤ n.2)%Z →
  let t := total (map_to_list networks).*2 in
  sumNetworks networks = if ((t.1 <=? maxUint64) && (t.2 <=? maxUint64))%Z
                         then Ok (mkCounters t.1 t.2) else Err (ErrText "network counter overflow").
Proof.
  intros Hn. unfold sumNetworks. rewrite addNetworks_exact; [by rewrite !Z.add_0_l| |unfold maxUint64; lia..].
  apply Forall_fmap, Forall_forall. intros [k n] Hin%elem_of_map_to_list. by apply (Hn k).
Qed.
End ComposeLaws.
