(* ===== verification/LifecycleLaws.v ===== *)
(** * What starting and stopping a group does

    The calls to the engine follow a protocol, whatever the engine answers:
    containers are started one after the other in the order of the snapshot,
    each checked right before and healthy before the next is touched, and
    stopped in the reverse order.  With a clock that moves, starting ends. *)
From S2P Require Import Prelude GoStrings Netip Environment Compose Lifecycle ComposeLaws.
From S2P Require Traffic.

Module LifecycleLaws.
Import Environment Compose Lifecycle ComposeLaws.

Section laws.
Context `{ComposeApi} `{W : World} `{D : !OnDemandDocker} `{Wt : Waiting}.
Context (demand : bool).
Notation Trace := (list (Action * nat)).

(** At the moment [n] the engine described the container [m], and it was in
    such a state. *)
Definition answered (project : string) (m : OnDemandContainer) (n : nat) (P : Seen → bool) : Prop :=
  ∃ a s, ContainerInspect (OID m) n = Ok a ∧ identified project m a = Ok s ∧ P s = true.
Definition exited (s : Seen) : bool := negb (Running (st s)) && (Status (st s) =? "exited")%string.
Definition ready (m : OnDemandContainer) (s : Seen) : bool := onDemandReady (actual s) (Healthcheck m).

(** The protocol: [Working n l acts all n'] says that between the moments [n]
    and [n'] the actions [acts] worked through the containers [l], through all
    of them if [all]: each was seen in the state [before] at the moment before
    its action, and in the state [after] before the next one was touched. *)
Section protocol.
Context (project : string) (action : OnDemandContainer → Action)
  (before : Seen → bool) (after : OnDemandContainer → Seen → bool).
Inductive Working : nat → list OnDemandContainer → Trace → bool → nat → Prop :=
| work_done n n' : n ≤ n' → Working n [] [] true n'
| work_refused n l n' : n ≤ n' → Working n l [] false n'
| work_failed n m l j n' :
    n ≤ j → answered project m j before → S j < n' → Working n (m :: l) [(action m, S j)] false n'
| work_next n m l j k acts all n' :
    n ≤ j → answered project m j before → S j < k → answered project m k (after m) →
    Working (S k) l acts all n' → Working n (m :: l) ((action m, S j) :: acts) all n'.

Lemma working_earlier n l acts all n' n0 : Working n l acts all n' → n0 ≤ n → Working n0 l acts all n'.
Proof. intros Hw Hn. inversion Hw; subst; econstructor; eauto; lia. Qed.
Lemma working_moments n l acts all n' : Working n l acts all n' → ∀ a j, (a, j) ∈ acts → n < j < n'.
Proof.
  assert (∀ n l acts all n', Working n l acts all n' → n ≤ n') as Hle.
  { induction 1; lia. }
  induction 1 as [| |n m l j n' Hj Ha Hn|n m l j k acts all n' Hj Ha Hk Hr Hs IH]; intros b i Hin; [by apply elem_of_nil in Hin..| |].
  - apply list_elem_of_singleton in Hin as [= -> ->]. lia.
  - pose proof (Hle _ _ _ _ _ Hs). apply elem_of_cons in Hin as [[= -> ->]|Hin]; [lia|]. specialize (IH _ _ Hin). lia.
Qed.
(** Every action is for a container of the list, and all containers before it
    in the list were dealt with before. *)
Lemma working_prefix n l acts all n' :
  Working n l acts all n' → ∀ a j, (a, j) ∈ acts →
  ∃ l1 m l2, l = l1 ++ m :: l2 ∧ a = action m ∧ (∃ i, j = S i ∧ answered project m i before) ∧
    ∀ m', m' ∈ l1 → ∃ i k, (action m', i) ∈ acts ∧ i < k < j ∧ answered project m' k (after m').
Proof.
  induction 1 as [| |n m l j n' Hj Ha Hn|n m l j k acts all n' Hj Ha Hk Hr Hs IH]; intros b i Hin; [by apply elem_of_nil in Hin..| |].
  - apply list_elem_of_singleton in Hin as [= -> ->]. exists [], m, l. split_and!; [done|done|by exists j|].
    intros m' Hm. by apply elem_of_nil in Hm.
  - apply elem_of_cons in Hin as [[= -> ->]|Hin].
    + exists [], m, l. split_and!; [done|done|by exists j|]. intros m' Hm. by apply elem_of_nil in Hm.
    + destruct (IH _ _ Hin) as (l1 & x & l2 & -> & -> & Hx & Hb). exists (m :: l1), x, l2. split_and!; [done..|].
      pose proof (working_moments _ _ _ _ _ Hs _ _ Hin) as Hlt.
      intros m' [->|Hm]%elem_of_cons.
      * exists (S j), k. split_and!; [left|lia|lia|done].
      * destruct (Hb _ Hm) as (i' & k' & Hi' & ? & ?). exists i', k'. split; [by right|done].
Qed.
(** When all was done, every container was dealt with, once and in order. *)
Lemma working_all n l acts all n' : Working n l acts all n' →
  acts.*1 `prefix_of` (action <$> l) ∧ (all = true → acts.*1 = action <$> l ∧
    ∀ m, m ∈ l → ∃ k, n ≤ k < n' ∧ answered project m k (after m)).
Proof.
  induction 1 as [| |n m l j n' Hj Ha Hn|n m l j k acts all n' Hj Ha Hk Hr Hs [IH1 IH2]]; simpl.
  - split; [done|]. intros _. split; [done|]. by intros m Hm%elem_of_nil.
  - split; [apply prefix_nil|done].
  - split; [apply prefix_cons, prefix_nil|done].
  - split; [by apply prefix_cons|]. intros Hall. destruct (IH2 Hall) as [Hacts Hm]. split; [by f_equal|].
    assert (S k ≤ n') as Hle by (clear -Hs; induction Hs; lia).
    intros m' [->|Hm']%elem_of_cons; [exists k; split; [lia|done]|].
    destruct (Hm m' Hm') as (k' & ? & ?). exists k'. split; [lia|done].
Qed.

(** One container: nothing done, or its action and what followed. *)
Definition handled (m : OnDemandContainer) (t : Trace) (n : nat) (up : bool) (t' : Trace) (n' : nat) : Prop :=
  n ≤ n' ∧
  ((t' = t ∧ up = false) ∨
   ∃ j, n ≤ j ∧ answered project m j before ∧ t' = t ++ [(action m, S j)] ∧ S j < n' ∧
        (up = true → ∃ k, S j < k < n' ∧ answered project m k (after m))).
Lemma handled_last m l t n t' n' :
  handled m t n false t' n' → ∃ acts, t' = t ++ acts ∧ Working n (m :: l) acts false n'.
Proof.
  intros [Hn [[-> _]|(j & Hj & Ha & -> & Hj' & _)]]; [exists []; rewrite app_nil_r|exists [(action m, S j)]];
    (split; [done|by constructor]).
Qed.
Lemma handled_next m l t n t1 n1 all t' n' :
  handled m t n true t1 n1 → (∃ acts, t' = t1 ++ acts ∧ Working n1 l acts all n') →
  ∃ acts, t' = t ++ acts ∧ Working n (m :: l) acts all n'.
Proof.
  intros [Hn [[_ ?]|(j & Hj & Ha & -> & Hj' & Hk)]] (acts & -> & Hw); [done|].
  destruct (Hk eq_refl) as (k & ? & ?). exists ((action m, S j) :: acts). rewrite <-app_assoc. split; [done|].
  eapply work_next; [done|done| |done|]; [lia|]. apply (working_earlier n1); [done|lia].
Qed.
End protocol.
Notation Starting project := (Working project (λ m, Start (OID m)) exited ready).
Notation Stopping project grace := (Working project (λ m, Stop (OID m) grace) (λ _, true) (λ _, exited)).

(** All containers are up. *)
Definition succeeded (r : result bool) : bool := match r with Ok b => b | Err _ => false end.

(** ** Single steps *)
Lemma checkContext_cases ctx (t : Trace) n :
  checkContext ctx t n = (Ok tt, (t, S n)) ∨ ∃ e, checkContext ctx t n = (Err e, (t, S n)).
Proof. unfold checkContext. destruct (ctx n); eauto. Qed.
Lemma identity_cases project m (t : Trace) n :
  (∃ a s, ContainerInspect (OID m) n = Ok a ∧ identified project m a = Ok s ∧
     inspectOnDemandIdentity project m t n = (Ok s, (t, S n))) ∨
  ∃ e, inspectOnDemandIdentity project m t n = (Err e, (t, S n)).
Proof.
  unfold inspectOnDemandIdentity. unfold mbind, M_bind, engine, lift.
  destruct (ContainerInspect (OID m) n) as [a|e]; [|eauto].
  destruct (identified project m a) as [s|e] eqn:Ei; [|eauto]. left. by exists a, s.
Qed.

(** [idle m] takes time and does nothing. *)
Definition idle {A} (m : M Trace A) : Prop := ∀ t n, (m t n).2.1 = t ∧ n ≤ (m t n).2.2.
Lemma idle_bind {A B} (m : M Trace A) (k : A → M Trace B) : idle m → (∀ a, idle (k a)) → idle (m ≫= k).
Proof.
  intros Hm Hk t n. destruct (Hm t n) as [Ht Hn]. unfold mbind, M_bind.
  destruct (m t n) as [[a|x] [t1 n1]]; simpl in *; [subst|done]. destruct (Hk a t n1). split; [done|lia].
Qed.
Lemma idle_lift {A} (r : result A) : idle (lift r).
Proof. by intros t n. Qed.
Lemma idle_ret {A} (a : A) : idle (mret a).
Proof. by intros t n. Qed.
Lemma idle_context ctx : idle (checkContext ctx).
Proof. intros t n. simpl. split; [done|lia]. Qed.
Lemma idle_wait ctx : idle (Wait ctx).
Proof. intros t n. simpl. split; [done|lia]. Qed.
Lemma idle_identity project m : idle (inspectOnDemandIdentity project m).
Proof. intros t n. destruct (identity_cases project m t n) as [(a & x & _ & _ & ->)|[e ->]]; simpl; (split; [done|lia]). Qed.
Ltac idly := repeat first
  [ apply idle_identity | apply idle_context | apply idle_wait | apply idle_lift | apply idle_ret | apply idle_bind; [|intros] ].

Lemma idle_preflight ctx s : idle (preflightOnDemand demand ctx s).
Proof.
  assert (∀ l seen, idle (preflightMembers (ProjectName s) (SRunning s) seen l)) as Hl.
  { induction l as [|m l IH]; intros seen; simpl; unfold guard_not; idly. apply IH. }
  unfold preflightOnDemand, guard_not. idly. apply Hl.
Qed.
Lemma idle_await fuel ctx project m : idle (await fuel ctx project m).
Proof.
  induction fuel as [|fuel IH]; simpl; [apply idle_ret|]. apply idle_bind; [apply idle_identity|intros s].
  case_match; unfold guard_not; idly. done.
Qed.
(** The loop says yes only when the container was ready. *)
Lemma await_ready fuel ctx project m : ∀ t n t' n',
  await fuel ctx project m t n = (Ok true, (t', n')) → ∃ k, n ≤ k < n' ∧ answered project m k (ready m).
Proof.
  induction fuel as [|fuel IH]; intros t n t' n' E; simpl in E; [discriminate|].
  apply bind_ok in E as (s & t1 & n1 & Es & E).
  destruct (identity_cases project m t n) as [(a & x & Ha & Hx & Ei)|[e Ei]]; rewrite Ei in Es; [|done].
  injection Es as <- <- <-. destruct (onDemandReady (actual x) (Healthcheck m)) eqn:Er.
  - run_inv. exists n. split; [lia|]. by exists a, x.
  - apply bind_ok in E as (u & t2 & n2 & Eg & E). apply guard_not_ok in Eg as (_ & -> & ->).
    apply bind_ok in E as (u' & t3 & n3 & Ew & E). apply IH in E as (k & Hk & Hr).
    destruct (idle_wait ctx t (S n)) as [_ Hn]. rewrite Ew in Hn. simpl in Hn. exists k. split; [lia|done].
Qed.

(** ** The protocol is followed *)
Lemma startMember_handled fuel ctx project m t n :
  let '(r, (t', n')) := startMember fuel ctx project m t n in
  handled project (λ m, Start (OID m)) exited ready m t n (succeeded r) t' n'.
Proof.
  unfold startMember, handled. unfold mbind at 1, M_bind at 1.
  destruct (checkContext_cases ctx t n) as [->|[e ->]]; [|split; [lia|by left]].
  unfold mbind at 1, M_bind at 1.
  destruct (identity_cases project m t (S n)) as [(a & s & Ha & Hs & ->)|[e ->]]; [|split; [lia|by left]].
  unfold mbind at 1, M_bind at 1, guard_not, lift, reject_if.
  destruct (Running (st s) || negb (Status (st s) =? "exited")%string) eqn:Ex; [split; [lia|by left]|].
  assert (answered project m (S n) exited) as Han.
  { exists a, s. split_and!; [done..|]. unfold exited. apply orb_false_elim in Ex as [-> Hst]. by apply negb_false_iff in Hst as ->. }
  unfold mbind at 1, M_bind at 1, catch, act.
  destruct (ContainerAct (Start (OID m)) (S (S n))) as [u|e].
  - destruct (idle_await fuel ctx project m (t ++ [(Start (OID m), S (S n))]) (S (S (S n)))) as [Ht Hn].
    pose proof (await_ready fuel ctx project m (t ++ [(Start (OID m), S (S n))]) (S (S (S n)))) as Hr.
    destruct (await _ _ _ _ _ _) as [r [t' n']]. simpl in *. split; [lia|]. right. exists (S n). split_and!; [lia|done|done|lia|].
    intros Hu. destruct r as [[]|]; [|done..]. destruct (Hr t' n' eq_refl) as (k & Hk & ?). exists k. split; [lia|done].
  - simpl. split; [lia|]. right. exists (S n). split_and!; [lia|done|done|lia|done].
Qed.
Lemma startMembers_follow fuel ctx project l : ∀ t n,
  let '(r, (t', n')) := startMembers fuel ctx project l t n in
  ∃ acts, t' = t ++ acts ∧ Starting project n l acts (succeeded r) n'.
Proof.
  induction l as [|m l IH]; intros t n; simpl; [exists []; rewrite app_nil_r; split; [done|by constructor]|].
  unfold mbind, M_bind. pose proof (startMember_handled fuel ctx project m t n) as Hm.
  destruct (startMember fuel ctx project m t n) as [[[]|e] [t1 n1]]; [|by apply handled_last..].
  specialize (IH t1 n1). destruct (startMembers fuel ctx project l t1 n1) as [r [t' n']]. by eapply handled_next.
Qed.

Lemma stopMember_handled grace project m t n :
  let '(r, (t', n')) := stopMember grace project m t n in
  handled project (λ m, Stop (OID m) grace) (λ _, true) (λ _, exited) m t n (is_ok r) t' n'.
Proof.
  unfold stopMember, handled. unfold mbind at 1, M_bind at 1.
  destruct (checkContext_cases parent t n) as [->|[e ->]]; [|split; [lia|by left]].
  unfold mbind at 1, M_bind at 1.
  destruct (identity_cases project m t (S n)) as [(a & s & Ha & Hs & ->)|[e ->]]; [|split; [lia|by left]].
  assert (answered project m (S n) (λ _, true)) as Han by by exists a, s.
  unfold mbind at 1, M_bind at 1, catch, act.
  destruct (ContainerAct (Stop (OID m) grace) (S (S n))) as [u|e].
  - unfold mbind at 1, M_bind at 1.
    destruct (identity_cases project m (t ++ [(Stop (OID m) grace, S (S n))]) (S (S (S n)))) as [(a' & s' & Ha' & Hs' & ->)|[e ->]].
    + unfold guard_not, lift, reject_if.
      destruct (Running (st s') || negb (Status (st s') =? "exited")%string) eqn:Ex;
        (split; [lia|]; right; exists (S n); split_and!; [lia|done|done|lia|]); [done|].
      intros _. exists (S (S (S n))). split; [lia|]. exists a', s'. split_and!; [done..|]. unfold exited.
      apply orb_false_elim in Ex as [-> Hst]. by apply negb_false_iff in Hst as ->.
    + split; [lia|]. right. exists (S n). split_and!; [lia|done|done|lia|done].
  - simpl. split; [lia|]. right. exists (S n). split_and!; [lia|done|done|lia|done].
Qed.
Lemma stopMembers_follow grace project l : ∀ t n,
  let '(r, (t', n')) := stopMembers grace project l t n in
  ∃ acts, t' = t ++ acts ∧ Stopping project grace n l acts (is_ok r) n'.
Proof.
  induction l as [|m l IH]; intros t n; simpl; [exists []; rewrite app_nil_r; split; [done|by constructor]|].
  unfold mbind, M_bind. pose proof (stopMember_handled grace project m t n) as Hm.
  destruct (stopMember grace project m t n) as [[u|e] [t1 n1]]; [|by apply handled_last].
  specialize (IH t1 n1). destruct (stopMembers grace project l t1 n1) as [r [t' n']]. by eapply handled_next.
Qed.
End laws.

Lemma NoDup_split_unique {A B} (f : A → B) (x x' : A) a b a' b' :
  NoDup (f <$> a ++ x :: b) → a ++ x :: b = a' ++ x' :: b' → f x = f x' → x = x' ∧ a = a' ∧ b = b'.
Proof.
  revert a'. induction a as [|y a IH]; intros [|y' a'] Hn E Hf; simplify_eq/=; [done|..].
  - exfalso. apply NoDup_cons in Hn as [Hn _]. apply Hn. rewrite Hf, fmap_app. set_solver.
  - exfalso. apply NoDup_cons in Hn as [Hn _]. apply Hn. rewrite <-Hf, fmap_app. set_solver.
  - apply NoDup_cons in Hn as [_ Hn]. destruct (IH a') as (-> & -> & ->); done.
Qed.

(** A group of the snapshot: dependencies come before, so in reverse the
    dependents do. *)
Lemma group_dependents `{ComposeApi} `{W : World} `{D : !OnDemandDocker} `{Dg : !Digests Project} p env members n0 n s :
  Group p env members n0 n s → ∀ l1 c l2, reverse (Containers s) = l1 ++ c :: l2 →
  ∀ c', c' ∈ Containers s → depends p (list_to_set members) (OService c') (OService c) → c' ∈ l1.
Proof.
  intros Hg l1 c l2 E c' Hin Hd. pose proof (f_equal reverse E) as Er.
  rewrite reverse_involutive, reverse_app, reverse_cons, <-app_assoc in Er. simpl in Er.
  apply list_elem_of_split in Hin as (k1 & k2 & Ek).
  destruct (g_order _ _ _ _ _ _ Hg _ _ _ Ek _ Hd) as (c'' & (a & b & ->)%list_elem_of_split & Hs).
  rewrite <-app_assoc in Ek. simpl in Ek. pose proof (g_unique _ _ _ _ _ _ Hg) as Hu. rewrite Ek in Hu, Er.
  destruct (NoDup_split_unique OService c'' c _ _ _ _ Hu Er Hs) as (_ & _ & Eb).
  apply elem_of_reverse. rewrite <-Eb. set_solver.
Qed.

Section theorems.
Context `{ComposeApi} `{W : World} `{D : !OnDemandDocker} `{Wt : Waiting} `{Dg : !Digests Project}.
Context (demand : bool).
Notation Trace := (list (Action * nat)).

Lemma start_follows s timeout (t : Trace) n :
  let '(r, (t', n')) := StartOnDemand demand s timeout t n in
  ∃ acts, t' = t ++ acts ∧ Working (ProjectName s) (λ m, Start (OID m)) exited ready n (Containers s) acts (succeeded r) n'.
Proof.
  unfold StartOnDemand, guard_not, reject_if, lift. unfold mbind, M_bind.
  destruct (_ || _ || _); [exists []; rewrite app_nil_r; split; [done|by constructor]|].
  simpl. set (ctx := withTimeout parent _).
  destruct (idle_preflight demand ctx s t (S n)) as [Ht Hn].
  destruct (preflightOnDemand demand ctx s t (S n)) as [[u|e] [t1 n1]]; simpl in *; subst;
    [|exists []; rewrite app_nil_r; split; [done|constructor; lia]].
  pose proof (startMembers_follow (rounds timeout) ctx (ProjectName s) (Containers s) t n1) as Hs.
  destruct (startMembers _ _ _ _ t n1) as [r [t' n']]. destruct Hs as (acts & -> & Hw).
  exists acts. split; [done|]. eapply working_earlier; [done|lia].
Qed.
Lemma stop_follows s grace (t : Trace) n :
  let '(r, (t', n')) := StopOnDemand demand s grace t n in
  ∃ acts, t' = t ++ acts ∧
    Working (ProjectName s) (λ m, Stop (OID m) grace) (λ _, true) (λ _, exited) n (reverse (Containers s)) acts (is_ok r) n'.
Proof.
  unfold StopOnDemand, guard_not, reject_if, lift. unfold mbind, M_bind.
  destruct (_ || _ || _); [exists []; rewrite app_nil_r; split; [done|by constructor]|].
  simpl. destruct (idle_preflight demand parent s t n) as [Ht Hn].
  destruct (preflightOnDemand demand parent s t n) as [[u|e] [t1 n1]]; simpl in *; subst;
    [|exists []; rewrite app_nil_r; split; [done|constructor; lia]].
  pose proof (stopMembers_follow grace (ProjectName s) (reverse (Containers s)) t n1) as Hs.
  destruct (stopMembers _ _ _ t n1) as [r [t' n']]. destruct Hs as (acts & -> & Hw).
  exists acts. split; [done|]. eapply working_earlier; [done|lia].
Qed.

(** C30: a group wakes in the order of its dependencies: whatever the engine
    answers, and at whatever point it fails, starting a group that was
    inspected starts containers of the snapshot only, each once and in the
    order of the snapshot; each was seen stopped, under its own identity, at
    the moment before; and when a container is started, every service of the
    group that it depends on was started before and has been seen ready since.
    The answer is success only if all were started and seen ready. *)
Theorem dependencies_are_up_first p env members t0 n0 s timeout (t : Trace) n :
  (inspectOnDemandProject demand p env members t0 n0).1 = Ok s →
  let '(r, (t', n')) := StartOnDemand demand s timeout t n in
  ∃ acts, t' = t ++ acts ∧ acts.*1 `prefix_of` ((λ m, Start (OID m)) <$> Containers s) ∧
  (∀ a j, (a, j) ∈ acts → ∃ c, c ∈ Containers s ∧ a = Start (OID c) ∧
     (∃ i, j = S i ∧ answered (PName p) c i exited) ∧
     ∀ d, depends p (list_to_set members) (OService c) d →
       ∃ c' i k, c' ∈ Containers s ∧ OService c' = d ∧ (Start (OID c'), i) ∈ acts ∧ i < k < j ∧
                 answered (PName p) c' k (ready c')) ∧
  (succeeded r = true → acts.*1 = (λ m, Start (OID m)) <$> Containers s ∧
     ∀ m, m ∈ Containers s → ∃ k, n ≤ k < n' ∧ answered (PName p) m k (ready m)).
Proof.
  intros E. destruct (inspectOnDemandProject demand p env members t0 n0) as [r0 [t1 n1]] eqn:Ei. simpl in E. subst r0.
  apply (inspect_group (Ex := λ _, False)) in Ei as Hg.
  pose proof (start_follows s timeout t n) as Hs. destruct (StartOnDemand demand s timeout t n) as [r [t' n']].
  destruct Hs as (acts & -> & Hw). rewrite (g_project _ _ _ _ _ _ Hg) in Hw. exists acts. split; [done|].
  destruct (working_all _ _ _ _ _ _ _ _ _ Hw) as [Hp Ha]. split; [done|]. split; [|done].
  intros a j Hin. destruct (working_prefix _ _ _ _ _ _ _ _ _ Hw a j Hin) as (l1 & c & l2 & El & -> & Hi & Hb).
  exists c. split; [rewrite El; set_solver|]. split; [done|]. split; [done|]. intros d Hd.
  destruct (g_order _ _ _ _ _ _ Hg _ _ _ El _ Hd) as (c' & Hc' & <-).
  destruct (Hb c' Hc') as (i & k & ? & ? & ?). exists c', i, k. split_and!; try done; try lia. rewrite El. set_solver.
Qed.

(** A group falls asleep in the reverse order: stopping a group that was
    inspected stops containers of the snapshot only, each once; and when a
    container is stopped, every service of the group that depends on it was
    stopped before and has been seen stopped since.  The answer is success
    only if all were stopped and seen stopped. *)
Theorem dependents_are_down_first p env members t0 n0 s grace (t : Trace) n :
  (inspectOnDemandProject demand p env members t0 n0).1 = Ok s →
  let '(r, (t', n')) := StopOnDemand demand s grace t n in
  ∃ acts, t' = t ++ acts ∧ acts.*1 `prefix_of` ((λ m, Stop (OID m) grace) <$> reverse (Containers s)) ∧
  (∀ a j, (a, j) ∈ acts → ∃ c, c ∈ Containers s ∧ a = Stop (OID c) grace ∧
     ∀ c', c' ∈ Containers s → depends p (list_to_set members) (OService c') (OService c) →
       ∃ i k, (Stop (OID c') grace, i) ∈ acts ∧ i < k < j ∧ answered (PName p) c' k exited) ∧
  (is_ok r = true → acts.*1 = (λ m, Stop (OID m) grace) <$> reverse (Containers s) ∧
     ∀ m, m ∈ Containers s → ∃ k, n ≤ k < n' ∧ answered (PName p) m k exited).
Proof.
  intros E. destruct (inspectOnDemandProject demand p env members t0 n0) as [r0 [t1 n1]] eqn:Ei. simpl in E. subst r0.
  apply (inspect_group (Ex := λ _, False)) in Ei as Hg.
  pose proof (stop_follows s grace t n) as Hs. destruct (StopOnDemand demand s grace t n) as [r [t' n']].
  destruct Hs as (acts & -> & Hw). rewrite (g_project _ _ _ _ _ _ Hg) in Hw. exists acts. split; [done|].
  destruct (working_all _ _ _ _ _ _ _ _ _ Hw) as [Hp Ha]. split; [done|]. split.
  - intros a j Hin. destruct (working_prefix _ _ _ _ _ _ _ _ _ Hw a j Hin) as (l1 & c & l2 & El & -> & Hi & Hb).
    exists c. split; [apply elem_of_reverse; rewrite El; set_solver|]. split; [done|]. intros c' Hc' Hd.
    destruct (Hb c') as (i & k & ? & ? & ?); [|by exists i, k]. by eapply group_dependents.
  - intros Hr. destruct (Ha Hr) as [? Hm]. split; [done|]. intros m Hin. apply Hm. by apply elem_of_reverse.
Qed.

(** ** Termination *)

(** A clock that moves: time does not go back, a timer that fires has waited,
    and a context that is done ends a wait before its timer fires. *)
Class Timely (deadline : time) : Prop := {
  clock_forward k : (clock k ≤ clock (S k))%Z;
  fired_waited k : fired k = true → (clock k + 250 * Millisecond ≤ clock (S k))%Z;
  done_first k : is_Some (withTimeout parent deadline k) → fired k = false;
}.
Section timely.
Context (deadline : time) `{!Timely deadline}.
Notation ctx := (withTimeout parent deadline).

Lemma clock_le n n' : n ≤ n' → (clock n ≤ clock n')%Z.
Proof. induction 1 as [|k _ IH]; [lia|]. pose proof (clock_forward (deadline := deadline) k). lia. Qed.
Lemma context_open k : ctx k = None → (clock k < deadline)%Z.
Proof. unfold withTimeout. destruct (parent k); [done|]. destruct (Z.leb_spec deadline (clock k)); [done|lia]. Qed.

Lemma await_ends fuel project m : ∀ (t : Trace) n,
  (deadline - clock n < Z.of_nat fuel * (250 * Millisecond))%Z → (await (S fuel) ctx project m t n).1 ≠ Ok false.
Proof.
  induction fuel as [|fuel IH]; intros t n Hf; simpl; unfold mbind at 1, M_bind at 1;
    (destruct (identity_cases project m t n) as [(a & s & _ & _ & ->)|[e ->]]; [|done]);
    (destruct (onDemandReady (actual s) (Healthcheck m)); [done|]);
    unfold guard_not; rewrite bind_lift; (destruct (reject_if _ _); [|done]);
    unfold mbind at 1, M_bind at 1, Wait; destruct (fired (S n)) eqn:Ef; try done;
    pose proof (clock_forward (deadline := deadline) n) as Hc;
    pose proof (fired_waited (deadline := deadline) _ Ef) as Hw;
    (assert (ctx (S n) = None) as Ho%context_open
      by (apply eq_None_not_Some; intros Hs; by rewrite (done_first (deadline := deadline) _ Hs) in Ef)).
  - lia.
  - apply IH. lia.
Qed.
Lemma startMember_ends fuel project m (t : Trace) n :
  (deadline - clock n < Z.of_nat fuel * (250 * Millisecond))%Z → (startMember (S fuel) ctx project m t n).1 ≠ Ok false.
Proof.
  intros Hf. unfold startMember. unfold mbind at 1, M_bind at 1.
  destruct (checkContext_cases ctx t n) as [->|[e ->]]; [|done]. unfold mbind at 1, M_bind at 1.
  destruct (identity_cases project m t (S n)) as [(a & s & _ & _ & ->)|[e ->]]; [|done].
  unfold guard_not. rewrite bind_lift. destruct (reject_if _ _); [|done].
  unfold mbind at 1, M_bind at 1, catch, act. destruct (ContainerAct _ _); [|done].
  apply await_ends. pose proof (clock_le n (S (S (S n)))). lia.
Qed.
Lemma startMembers_end fuel project l : ∀ (t : Trace) n,
  (deadline - clock n < Z.of_nat fuel * (250 * Millisecond))%Z → (startMembers (S fuel) ctx project l t n).1 ≠ Ok false.
Proof.
  induction l as [|m l IH]; intros t n Hf; [done|]. cbn [startMembers]. unfold mbind, M_bind.
  pose proof (startMember_ends fuel project m t n Hf) as Hm.
  pose proof (startMember_handled (S fuel) ctx project m t n) as Hh.
  destruct (startMember (S fuel) ctx project m t n) as [[[]|e] [t1 n1]]; [|done..].
  apply IH. destruct Hh as [Hn _]. pose proof (clock_le n n1 Hn). lia.
Qed.
End timely.

End theorems.

(** ** A concrete engine

    A web server and its database: the database is up from the moment 17, the
    server from the moment 21, both down again from 44 on. *)
Module Example.
#[local] Instance api : ComposeApi := {|
  ProjectLabel := "project"; ServiceLabel := "service"; ContainerNumberLabel := "number"; OneoffLabel := "oneoff";
  Port := Z * string; PortFrom n p := Some (n, p); Num := fst; Proto := snd |}.
Definition db := mkService 1 ∅ None [] "" ∅.
Definition web := mkService 1 {["db" := ServiceConditionStarted]} None [mkServicePort 80 "8080" "" ""] "" ∅.
Definition project := mkProject "shop" {["db" := db; "web" := web]} ∅ ∅.
Definition labelsOf (name : string) : gmap string string :=
  {["project" := "shop"; "service" := name; "number" := "1"]}.
Definition publication : gmap Port (list PortBinding) := {[(80%Z, "tcp") := [mkPortBinding (ParseAddr "0.0.0.0") "8080"]]}.
Definition container (id name : string) (up : bool) : InspectResponse :=
  mkInspect id "image" 0 (Some (labelsOf name))
    (Some (mkState up (if up then "running" else "exited") false false false "then" None))
    (Some (mkHostConfig "" (if (name =? "web")%string then publication else ∅)))
    (Some (mkNetworkSettings {["shop_default" := Some "net"]} (if (name =? "web")%string then publication else ∅))).
#[local] Instance engine : OnDemandDocker := {|
  ContainerList _ _ := Ok [("c1", labelsOf "db"); ("c2", labelsOf "web")];
  ContainerInspect id n := Ok (if (id =? "c1")%string then container id "db" (bool_decide (17 ≤ n < 49))
                               else container id "web" (bool_decide (21 ≤ n < 44)));
  NetworkInspect _ _ := Ok "bridge";
  ContainerAct _ _ := Ok tt |}.
#[local] Instance digests : Digests Project := {| MarshalJSON _ := Ok "{}"; sha256 s := s |}.
#[local] Instance waiting : Waiting := {| parent _ := None; fired n := bool_decide (n < 30) |}.
#[local] Instance world : World := calm.

Notation members := ["web"; "db"].
Definition asleep := inspectOnDemandProject true project ∅ members [] 0.
Definition awake := inspectOnDemandProject true project ∅ members [] 30.
Definition group (r : result OnDemandSnapshot) : OnDemandSnapshot :=
  match r with Ok s => s | Err _ => mkSnapshot "" "" false [] [] [] end.

Example asleep_group :
  OService <$> Containers (group asleep.1) = ["db"; "web"] ∧ SRunning (group asleep.1) = false ∧
  Compose.Bindings (group awake.1) = [Traffic.Traffic.mkBinding "tcp4" "0.0.0.0:8080"].
Proof. vm_compute. done. Qed.

Lemma dependencies_are_up_first_witness :
  asleep.1 = Ok (group asleep.1) ∧
  ∃ acts, (StartOnDemand true (group asleep.1) (30 * Second)%Z [] 10).2.1 = acts ∧ acts.*1 = [Start "c1"; Start "c2"] ∧
    ∃ c' i k, (Start (OID c'), i) ∈ acts ∧ i < k < 20 ∧ answered "shop" c' k (ready c').
Proof.
  assert (asleep.1 = Ok (group asleep.1)) as E by (vm_compute; reflexivity). split; [exact E|].
  pose proof (dependencies_are_up_first true project ∅ members [] 0 (group asleep.1) (30 * Second)%Z [] 10 E) as Hd.
  set (run := StartOnDemand true (group asleep.1) (30 * Second)%Z [] 10) in *.
  assert (run.2.1 = [(Start "c1", 16); (Start "c2", 20)]) as Er by (vm_compute; reflexivity).
  destruct run as [r [t' n']]. destruct Hd as (acts & Et & _ & Hd & _). simpl in Er, Et. subst t' acts. clear E.
  eexists. split; [reflexivity|]. split; [reflexivity|].
  destruct (Hd (Start "c2") 20) as (c & Hc & Ea & _ & Hdep); [right; left|].
  assert (c = (mkOnDemandContainer "c2" "web" "image" "then" 0 false false)) as ->.
  { assert (Containers (group asleep.1) = [mkOnDemandContainer "c1" "db" "image" "then" 0 false false;
      mkOnDemandContainer "c2" "web" "image" "then" 0 false false]) as Ec by (vm_compute; reflexivity).
    rewrite Ec in Hc. clear Ec. apply elem_of_cons in Hc as [->|Hc]; [discriminate Ea|]. by apply list_elem_of_singleton in Hc. }
  destruct (Hdep "db") as (c' & i & k & _ & _ & Hi & Hk & Ha).
  - split; [exists ServiceConditionStarted; vm_compute; reflexivity|]. apply elem_of_list_to_set. right. left.
  - by exists c', i, k.
Defined.

Lemma dependents_are_down_first_witness :
  awake.1 = Ok (group awake.1) ∧
  (StopOnDemand true (group awake.1) 10 [] 39).2.1.*1 = [Stop "c2" 10; Stop "c1" 10] ∧
  ∃ k, k < 48 ∧ answered "shop" (mkOnDemandContainer "c2" "web" "image" "then" 0 true false) k exited.
Proof.
  assert (awake.1 = Ok (group awake.1)) as E by (vm_compute; reflexivity). split; [exact E|].
  pose proof (dependents_are_down_first true project ∅ members [] 30 (group awake.1) 10 [] 39 E) as Hd.
  set (run := StopOnDemand true (group awake.1) 10 [] 39) in *.
  assert (run.2.1 = [(Stop "c2" 10, 44); (Stop "c1" 10, 48)]) as Er by (vm_compute; reflexivity).
  destruct run as [r [t' n']]. destruct Hd as (acts & Et & _ & Hd & _). simpl in Er, Et. subst t' acts. clear E.
  split; [reflexivity|].
  assert (Containers (group awake.1) = [mkOnDemandContainer "c1" "db" "image" "then" 0 true false;
    mkOnDemandContainer "c2" "web" "image" "then" 0 true false]) as Ec by (vm_compute; reflexivity).
  destruct (Hd (Stop "c1" 10) 48) as (c & Hc & Ea & Hdep); [right; left|]. rewrite Ec in Hc, Hdep. clear Ec.
  assert (c = mkOnDemandContainer "c1" "db" "image" "then" 0 true false) as ->.
  { apply elem_of_cons in Hc as [->|Hc]; [done|]. apply list_elem_of_singleton in Hc as ->. discriminate Ea. }
  destruct (Hdep (mkOnDemandContainer "c2" "web" "image" "then" 0 true false)) as (i & k & _ & Hk & Ha).
  - right. left.
  - split; [exists ServiceConditionStarted; vm_compute; reflexivity|]. apply elem_of_list_to_set. right. left.
  - exists k. split; [lia|done].
Defined.

End Example.
End LifecycleLaws.
