(* ===== verification/Stacks.v ===== *)
(** * Stacks and their directories (src/internal/stack/stack.go, workspace.go)

    A stack is a directory and a record of the database.  The stack service
    keeps the two together, the environment service checks names and values,
    and the workspace service does the work of both under the lock. *)
From S2P Require Import Prelude GoStrings Environment Filesystem Coordinator Locking OnDemandPolicy Alerts Database OperationStore.

Module Stacks.
Import Data Database.

(** ** The services' surroundings *)

(** compose.Request, with the arguments of [filepath.Join] for its directory. *)
Record Request := mkRequest {
  StackDir : string * string;
  ProjectName : string;
  Environment_ : gmap string string;
}.
Record Env := mkEnv {
  store : DB;
  files : FS;
  coordinator : Coordinator.Coordinator;
  downs : list Request;                    (* the requests to StackShutdown.Down *)
}.
#[export] Program Instance env_store : Lens Env DB := {|
  view := store; put db e := mkEnv db (files e) (coordinator e) (downs e) |}.
Next Obligation. done. Qed.
Next Obligation. by intros []. Qed.
Next Obligation. done. Qed.
#[export] Program Instance env_files : Lens Env FS := {|
  view := files; put fs e := mkEnv (store e) fs (coordinator e) (downs e) |}.
Next Obligation. done. Qed.
Next Obligation. by intros []. Qed.
Next Obligation. done. Qed.
#[export] Program Instance env_coordinator : Lens Env Coordinator.Coordinator := {|
  view := coordinator; put c e := mkEnv (store e) (files e) c (downs e) |}.
Next Obligation. done. Qed.
Next Obligation. by intros []. Qed.
Next Obligation. done. Qed.

(** The runtime that takes a stack down; it answers as it likes. *)
Class StackShutdown := down : Request → nat → option error.

Section services.
Context `{W : World} `{L : Links} `{U : Umask} `{H : FileHash} (limits : Filesystem.Limits).
(** The fields of the workspace service: the runtime, if there is one, and the
    root directory. *)
Context (runtime : option StackShutdown) (root : string).
Notation IO := (M Env).
Definition ignore (m : IO unit) : IO unit := catch m (λ _, mret tt).

(** ** StackService *)
Definition newStack (name : string) : IO Stack :=
  t ← now;
  id ← rand_text;
  suffix ← rand_text;
  mret (mkStack ("stk_" +:+ id) name ("porty-" +:+ name +:+ "-" +:+ suffix) None t t)%string.
Fixpoint register (directories : list string) : IO unit :=
  match directories with
  | [] => mret tt
  | directory :: rest =>
    found ← attempt (zoom (OperationStore.ByDirectory directory));
    _ ← match found with
        | Ok _ => mret tt
        | Err _ => stack ← newStack directory; zoom (OperationStore.Create stack)
        end;
    register rest
  end.
Definition Discover : IO (list Stack) :=
  directories ← zoom Filesystem.Discover;
  _ ← register directories;
  zoom OperationStore.Active.
Definition Create (name : string) : IO Stack :=
  _ ← zoom (Filesystem.CreateStack name);
  stack ← newStack name;
  _ ← catch (zoom (OperationStore.Create stack)) (λ e, _ ← ignore (zoom (Filesystem.RemoveStack name)); fail e);
  mret stack.
Definition Delete (stack : Stack) : IO unit :=
  _ ← catch (zoom (Filesystem.RemoveStack (DirectoryName stack)))
        (λ e, if Is e Stack_ErrNotFound then mret tt else fail e);
  t ← now;
  zoom (OperationStore.Archive (StkID stack) t).
Definition Rename (stack : Stack) (name : string) : IO Stack :=
  _ ← zoom (Filesystem.RenameStack (DirectoryName stack) name);
  t ← now;
  _ ← catch (zoom (OperationStore.Rename (StkID stack) name t))
        (λ e, _ ← ignore (zoom (Filesystem.RenameStack name (DirectoryName stack))); fail e);
  mret (mkStack (StkID stack) name (ComposeProjectName stack) (ArchivedAt stack) (CreatedAt stack) t).
Definition Purge (id : string) : IO unit := zoom (OperationStore.Purge id).

(** ** EnvironmentService *)
Definition invalid (key value : string) : bool :=
  negb (Environment.environmentKey key) || ContainsByte value (ascii_of_nat 0).
Definition Set_ (id key value : string) : IO unit :=
  _ ← guard_not (invalid key value) Stack_ErrInvalidEnvironment;
  zoom (OperationStore.SetEnvironment id key value).
Definition SetWithSecret (id key value : string) (secret : bool) : IO unit :=
  _ ← guard_not (invalid key value) Stack_ErrInvalidEnvironment;
  zoom (OperationStore.SetEnvironmentWithSecret id key value secret).
Definition DeleteKey (id key : string) : IO unit :=
  _ ← guard_not (negb (Environment.environmentKey key)) Stack_ErrInvalidEnvironment;
  zoom (OperationStore.DeleteEnvironment id key).
Definition Keys (id : string) : IO (list string) :=
  values ← zoom (OperationStore.Environment id);
  mret (SortStrings (map_to_list values).*1).
Definition Value (id key : string) : IO (string * bool) :=
  _ ← guard_not (negb (Environment.environmentKey key)) Stack_ErrInvalidEnvironment;
  zoom (OperationStore.EnvironmentValue id key).
Definition Values (id : string) : IO (gmap string string) := zoom (OperationStore.Environment id).

(** ** WorkspaceService *)
Definition ByID (id : string) : IO Stack := zoom (OperationStore.ByID id).
Definition ListStacks : IO (list Stack) := Discover.
Definition CreateStack (name : string) : IO Stack := Locking.locked true "" (Create name).
Definition RenameStack (id name : string) : IO Stack := Locking.locked false id (stack ← ByID id; Rename stack name).
Definition Down (r : StackShutdown) (request : Request) : IO unit := λ e n,
  (match down request n with None => Ok tt | Some x => Err x end,
   (mkEnv (store e) (files e) (coordinator e) (downs e ++ [request]), S n)).
Definition DeleteStack (id : string) : IO unit :=
  Locking.locked false id (
    stack ← ByID id;
    _ ← match runtime with
        | Some r =>
          values ← Values id;
          Down r (mkRequest (root, DirectoryName stack) (ComposeProjectName stack) values)
        | None => mret tt
        end;
    Delete stack).
Definition PurgeStack (id : string) : IO unit := Locking.locked false id (Purge id).
(** Reading takes no lock. *)
Definition Tree (id : string) : IO (list Filesystem.FileEntry) :=
  stack ← ByID id; zoom (Filesystem.Tree limits (DirectoryName stack)).
Definition ReadFile (id p : string) : IO Filesystem.FileContent :=
  stack ← ByID id; zoom (Filesystem.Read limits (DirectoryName stack) p).
Definition WriteFile (id p contents expected : string) : IO Filesystem.FileContent :=
  Locking.locked false id (stack ← ByID id; zoom (Filesystem.Write limits (DirectoryName stack) p contents expected)).
Definition CreateFile (id p contents : string) : IO Filesystem.FileContent :=
  Locking.locked false id (stack ← ByID id; zoom (Filesystem.CreateFile limits (DirectoryName stack) p contents)).
Definition CreateDirectory (id p : string) : IO unit :=
  Locking.locked false id (stack ← ByID id; zoom (Filesystem.CreateDirectory (DirectoryName stack) p)).
Definition MoveFile (id from to : string) : IO unit :=
  Locking.locked false id (stack ← ByID id; zoom (Filesystem.Move (DirectoryName stack) from to)).
Definition RemoveFile (id p : string) : IO unit :=
  Locking.locked false id (stack ← ByID id; zoom (Filesystem.RemoveEntry (DirectoryName stack) p)).
Definition EnvironmentKeys (id : string) : IO (list string) := Keys id.
Definition EnvironmentValue (id key : string) : IO (string * bool) := Value id key.
Definition SetEnvironmentWithSecret (id key value : string) (secret : bool) : IO unit :=
  Locking.locked false id (SetWithSecret id key value secret).
Definition SetEnvironment (id key value : string) : IO unit := Locking.locked false id (Set_ id key value).
Definition DeleteEnvironment (id key : string) : IO unit := Locking.locked false id (DeleteKey id key).
End services.
End Stacks.
