(* ===== verification/StackLaws.v ===== *)
(** * What the workspace service promises

    Every call on stacks, their files and their environments either has its
    effect on the records and on the directories, or fails and leaves the
    records alone; the lock is always given back. *)
From S2P Require Import Prelude GoStrings Environment Filesystem FilesystemLaws FilesystemContract Coordinator Locking OnDemandPolicy.
From S2P Require Import Alerts Database OperationStore Stacks.

Module StackLaws.
Import Data Database Stacks.

(** ** The calls of the service *)
Inductive Call :=
| CListStacks
| CCreateStack (name : string)
| CRenameStack (id name : string)
| CDeleteStack (id : string)
| CPurgeStack (id : string)
| CTree (id : string)
| CReadFile (id p : string)
| CWriteFile (id p contents expected : string)
| CCreateFile (id p contents : string)
| CCreateDirectory (id p : string)
| CMoveFile (id from to : string)
| CRemoveFile (id p : string)
| CEnvironmentKeys (id : string)
| CEnvironmentValue (id key : string)
| CSetEnvironment (id key value : string)
| CSetEnvironmentWithSecret (id key value : string) (secret : bool)
| CDeleteEnvironment (id key : string).
Inductive Answer :=
| AStacks (l : list Stack)
| AStack (s : Stack)
| AFile (r : FilesystemLaws.Reply)
| AKeys (l : list string)
| AValue (v : string * bool)
| ADone.

(** The stack that is locked; creation locks the repository. *)
Definition locks (c : Call) : option string :=
  match c with
  | CListStacks | CCreateStack _ | CTree _ | CReadFile _ _ | CEnvironmentKeys _ | CEnvironmentValue _ _ => None
  | CRenameStack id _ | CDeleteStack id | CPurgeStack id | CWriteFile id _ _ _ | CCreateFile id _ _
  | CCreateDirectory id _ | CMoveFile id _ _ | CRemoveFile id _ | CSetEnvironment id _ _
  | CSetEnvironmentWithSecret id _ _ _ | CDeleteEnvironment id _ => Some id
  end.
(** Calls that are one file operation in the directory of a stack. *)
Definition onFiles (c : Call) : option (string * (string → FilesystemLaws.FileOp)) :=
  match c with
  | CTree id => Some (id, FilesystemLaws.OpTree)
  | CReadFile id p => Some (id, λ s, FilesystemLaws.OpRead s p)
  | CWriteFile id p contents expected => Some (id, λ s, FilesystemLaws.OpWrite s p contents expected)
  | CCreateFile id p contents => Some (id, λ s, FilesystemLaws.OpCreateFile s p contents)
  | CCreateDirectory id p => Some (id, λ s, FilesystemLaws.OpCreateDirectory s p)
  | CMoveFile id a b => Some (id, λ s, FilesystemLaws.OpMove s a b)
  | CRemoveFile id p => Some (id, λ s, FilesystemLaws.OpRemove s p)
  | _ => None
  end.

Section calls.
Context `{W : World} `{L : Links} `{U : Umask} `{H : FileHash} (limits : Filesystem.Limits).
Context (runtime : option StackShutdown) (root : string).
Definition exec (c : Call) : M Env Answer :=
  match c with
  | CListStacks => l ← ListStacks; mret (AStacks l)
  | CCreateStack name => s ← CreateStack name; mret (AStack s)
  | CRenameStack id name => s ← RenameStack id name; mret (AStack s)
  | CDeleteStack id => _ ← DeleteStack runtime root id; mret ADone
  | CPurgeStack id => _ ← PurgeStack id; mret ADone
  | CTree id => l ← Tree limits id; mret (AFile (FilesystemLaws.RTree l))
  | CReadFile id p => f ← ReadFile limits id p; mret (AFile (FilesystemLaws.RFile f))
  | CWriteFile id p contents expected => f ← WriteFile limits id p contents expected; mret (AFile (FilesystemLaws.RFile f))
  | CCreateFile id p contents => f ← CreateFile limits id p contents; mret (AFile (FilesystemLaws.RFile f))
  | CCreateDirectory id p => _ ← CreateDirectory id p; mret (AFile FilesystemLaws.RDone)
  | CMoveFile id a b => _ ← MoveFile id a b; mret (AFile FilesystemLaws.RDone)
  | CRemoveFile id p => _ ← RemoveFile id p; mret (AFile FilesystemLaws.RDone)
  | CEnvironmentKeys id => l ← EnvironmentKeys id; mret (AKeys l)
  | CEnvironmentValue id key => v ← EnvironmentValue id key; mret (AValue v)
  | CSetEnvironment id key value => _ ← SetEnvironment id key value; mret ADone
  | CSetEnvironmentWithSecret id key value secret => _ ← SetEnvironmentWithSecret id key value secret; mret ADone
  | CDeleteEnvironment id key => _ ← DeleteEnvironment id key; mret ADone
  end.

(** ** The effects *)
Definition has_directory (db : DB) (name : string) : Prop := ∃ id s, stacks db !! id = Some s ∧ DirectoryName s = name.
(** Records were added, for stack directories that had none. *)
Definition registered (fs : FS) (db db' : DB) : Prop :=
  db' = set_stacks db (stacks db') ∧
  (∀ id s, stacks db !! id = Some s → stacks db' !! id = Some s) ∧
  (∀ id s, stacks db' !! id = Some s → stacks db !! id = Some s ∨
     (StkID s = id ∧ ArchivedAt s = None ∧ FilesystemLaws.isStack fs (DirectoryName s) ∧ ¬ has_directory db (DirectoryName s))).
Definition active (db : DB) : list Stack :=
  merge_sort OperationStore.by_directory (filter (λ s, ArchivedAt s = None) (map_to_list (stacks db)).*2).
Definition renamed (name : string) (t : time) (s : Stack) : Stack :=
  mkStack (StkID s) name (ComposeProjectName s) (ArchivedAt s) (CreatedAt s) t.

Definition Done (c : Call) (e : Env) (a : Answer) (e' : Env) : Prop :=
  match c with
  | CListStacks => a = AStacks (active (store e')) ∧ files e' = files e ∧ registered (files e) (store e) (store e')
  | CCreateStack name => ∃ s, a = AStack s ∧ DirectoryName s = name ∧ ArchivedAt s = None ∧
      stacks (store e) !! StkID s = None ∧ ¬ has_directory (store e) name ∧
      store e' = set_stacks (store e) (<[StkID s := s]> (stacks (store e))) ∧
      FilesystemLaws.Effect limits (FilesystemLaws.OpCreateStack name) (files e) FilesystemLaws.RDone (files e')
  | CRenameStack id name => ∃ s t, stacks (store e) !! id = Some s ∧ a = AStack (renamed name t s) ∧
      store e' = match ArchivedAt s with
                 | None => set_stacks (store e) (<[id := renamed name t s]> (stacks (store e)))
                 | Some _ => store e
                 end ∧
      FilesystemLaws.Effect limits (FilesystemLaws.OpRenameStack (DirectoryName s) name) (files e) FilesystemLaws.RDone (files e')
  | CDeleteStack id => ∃ s t, stacks (store e) !! id = Some s ∧
      store e' = set_stacks (store e) (<[id := OperationStore.archive t s]> (stacks (store e))) ∧
      FilesystemLaws.Effect limits (FilesystemLaws.OpRemoveStack (DirectoryName s)) (files e) FilesystemLaws.RDone (files e')
  | CPurgeStack id => files e' = files e ∧ ∃ s t, stacks (store e) !! id = Some s ∧ ArchivedAt s = Some t ∧
      store e' = OperationStore.deleteStack id
        (set_deployments (store e) (filter (λ p, DepStackID p.2 ≠ id) (deployments (store e))))
  | CEnvironmentKeys id => files e' = files e ∧ store e' = store e ∧
      a = AKeys (SortStrings (map_to_list (OperationStore.environmentOf (store e) id)).*1)
  | CEnvironmentValue id key => files e' = files e ∧ store e' = store e ∧
      ∃ r, environment (store e) !! (id, key) = Some r ∧ a = AValue (EnvValue r, EnvSecret r)
  | CSetEnvironment id key value => files e' = files e ∧ invalid key value = false ∧ is_Some (stacks (store e) !! id) ∧
      ∃ t, store e' = set_environment (store e) (<[(id, key) := mkEnvironmentRow value
        match environment (store e) !! (id, key) with Some r => EnvSecret r | None => false end t]> (environment (store e)))
  | CSetEnvironmentWithSecret id key value secret => files e' = files e ∧ invalid key value = false ∧
      is_Some (stacks (store e) !! id) ∧ (∀ r, environment (store e) !! (id, key) = Some r → EnvSecret r = secret) ∧
      ∃ t, store e' = set_environment (store e) (<[(id, key) := mkEnvironmentRow value secret t]> (environment (store e)))
  | CDeleteEnvironment id key => files e' = files e ∧
      store e' = set_environment (store e) (delete (id, key) (environment (store e)))
  | _ => store e' = store e ∧ ∃ id op s r, onFiles c = Some (id, op) ∧ stacks (store e) !! id = Some s ∧ a = AFile r ∧
      FilesystemLaws.Effect limits (op (DirectoryName s)) (files e) r (files e')
  end.
(** What a failed call leaves: the records as they were.  Files can be left
    over, or gone, when undoing or recording what was done failed as well. *)
Definition Failed (c : Call) (e e' : Env) : Prop :=
  match c with
  | CListStacks => files e' = files e ∧ registered (files e) (store e) (store e')
  | CCreateStack name => store e' = store e ∧ (files e' = files e ∨ files e !! [name] = None)
  | CRenameStack id name => store e' = store e
  | CDeleteStack id => store e' = store e ∧
      (files e' = files e ∨ ∃ s, stacks (store e) !! id = Some s ∧ files e' = Filesystem.without [DirectoryName s] (files e))
  | _ => store e' = store e ∧
      match onFiles c with
      | Some (id, op) => files e' = files e ∨ ∃ s, stacks (store e) !! id = Some s ∧
          FilesystemLaws.Leftover (op (DirectoryName s)) (files e) (files e')
      | None => files e' = files e
      end
  end.
(** The files that a call may change. *)
Definition reach (c : Call) (db : DB) (k : path) : Prop :=
  match c with
  | CCreateStack name => Filesystem.below [name] k
  | CRenameStack id name => ∃ s, stacks db !! id = Some s ∧ (Filesystem.below [DirectoryName s] k ∨ Filesystem.below [name] k)
  | CDeleteStack id => ∃ s, stacks db !! id = Some s ∧ Filesystem.below [DirectoryName s] k
  | _ => match onFiles c with
         | Some (id, op) => ∃ s, stacks db !! id = Some s ∧ FilesystemLaws.touches (op (DirectoryName s)) k
         | None => False
         end
  end.
(** What every call keeps, and its outcome. *)
Definition keeps (c : Call) (e e' : Env) : Prop :=
  coordinator e' = coordinator e ∧ FilesystemLaws.within (reach c (store e)) (files e) (files e').
Definition done_ (c : Call) (e : Env) (a : Answer) (e' : Env) : Prop := keeps c e e' ∧ Done c e a e'.
Definition failed_ (c : Call) (e : Env) (_ : error) (e' : Env) : Prop := keeps c e e' ∧ Failed c e e'.
(** ** The calls on either side *)
Lemma from_sure {A : Type} fs (m : Links → M FS A) (Q : A → FS → Prop) (R : FS → Prop) :
  FilesystemLaws.sure (eq fs) m Q R → from fs (m L) Q (λ _, R).
Proof.
  intros Hm n. destruct (Hm fs n eq_refl) as (r & fs' & n' & E & Hr). rewrite E. by destruct r.
Qed.
Lemma db_Create (s : Stack) db :
  CreatedAt s = UpdatedAt s → ArchivedAt s = None →
  from db (OperationStore.Create s)
    (λ _ db', stacks db !! StkID s = None ∧ ¬ has_directory db (DirectoryName s) ∧ db' = set_stacks db (<[StkID s := s]> (stacks db)))
    (λ _ db', db' = db).
Proof.
  intros Ht Ha. apply from_call; [done..|]. intros u db'. destruct (bool_decide_reflect (is_Some (stacks db !! StkID s))) as [|Hn]; [done|].
  simpl. destruct (bool_decide_reflect (map_Exists (λ _ s', DirectoryName s' = DirectoryName s ∨ ComposeProjectName s' = ComposeProjectName s) (stacks db)))
    as [|Hd]; [done|]. intros [= _ <-]. split; [by apply eq_None_not_Some|]. split.
  - intros (id & s' & Hl & E). apply Hd. exists id, s'. auto.
  - destruct s as [id dir proj ar cr up]. simpl in *. by subst.
Qed.
Lemma db_ByID id db : from db (OperationStore.ByID id) (λ s db', db' = db ∧ stacks db !! id = Some s) (λ _ db', db' = db).
Proof. apply from_call; [done|done|]. intros s db'. destruct (stacks db !! id); [|done]. by intros [= -> ->]. Qed.
Lemma db_query {A : Type} (g : DB → A) db : from db (query g) (λ a db', db' = db ∧ a = g db) (λ _ db', db' = db).
Proof. apply from_call; [done|done|]. by intros a db' [= <- <-]. Qed.
Lemma db_exec (f : DB → DB) db : from db (Database.exec f) (λ _ db', db' = f db) (λ _ db', db' = db).
Proof. apply from_call; [done|done|]. by intros a db' [= _ <-]. Qed.
Lemma db_Rename id name t db :
  from db (OperationStore.Rename id name t)
    (λ _ db', db' = match stacks db !! id with
       | Some s => match ArchivedAt s with None => set_stacks db (<[id := renamed name t s]> (stacks db)) | Some _ => db end
       | None => db end) (λ _ db', db' = db).
Proof.
  apply from_call; [done|done|]. intros u db'. destruct (stacks db !! id) as [s|]; [|by intros [= _ <-]].
  destruct (ArchivedAt s) as [x|] eqn:E.
  - rewrite bool_decide_eq_false_2 by done. by intros [= _ <-].
  - rewrite bool_decide_eq_true_2 by done. destruct (bool_decide _); [done|]. intros [= _ <-]. unfold renamed. by rewrite E.
Qed.
Lemma db_Purge id db :
  from db (OperationStore.Purge id)
    (λ _ db', ∃ s t, stacks db !! id = Some s ∧ ArchivedAt s = Some t ∧
       db' = OperationStore.deleteStack id (set_deployments db (filter (λ p, DepStackID p.2 ≠ id) (deployments db))))
    (λ _ db', db' = db).
Proof.
  eapply (from_atomically _ _ _ (λ _ _, True)); [done| |done]. eapply from_bind; [apply db_exec|done|]. intros u x ->.
  apply from_call; [done|done|]. intros u' x. simpl.
  destruct (stacks db !! id) as [s|]; [|done]. destruct (ArchivedAt s) as [t|] eqn:E.
  - rewrite bool_decide_eq_false_2 by done. intros [= _ <-]. by exists s, t.
  - by rewrite bool_decide_eq_true_2.
Qed.
Lemma from_ByID id (e : Env) : from e (ByID id) (λ s e', e' = e ∧ stacks (store e) !! id = Some s) (λ _ e', e' = e).
Proof.
  apply from_zoom. eapply from_conseq; [apply db_ByID|..]; simpl; [by intros s db' [-> Hs]; destruct e|by intros x db' ->; destruct e].
Qed.
(** Removing a stack's directory never fails with the error that the service
    would let pass. *)
Lemma fs_RemoveStack name fs :
  FilesystemLaws.WF fs →
  from fs (Filesystem.RemoveStack name)
    (λ _ fs', FilesystemLaws.done_ limits (FilesystemLaws.OpRemoveStack name) fs FilesystemLaws.RDone fs')
    (λ e fs', fs' = fs ∧ Is e Stack_ErrNotFound = false).
Proof.
  intros Hwf n. pose proof (from_sure _ _ _ _ (FilesystemLaws.RemoveStack_sure limits fs name Hwf) n) as Hs.
  assert (∀ e fs' n', Filesystem.RemoveStack name fs n = (Err e, (fs', n')) → Is e Stack_ErrNotFound = false) as He.
  { intros e fs' n'. unfold Filesystem.RemoveStack, guard_not, lift, mbind, M_bind.
    destruct (reject_if _ _) as [|x] eqn:Er; [|unfold reject_if in Er; destruct (negb _); [|done]; by intros [= <- _ _]; injection Er as <-].
    unfold catch. destruct (Filesystem.Lstat [] [name] fs n) as [[info|x] [fs1 n1]]; [|by intros [= <- _ _]].
    unfold reject_if at 1. destruct (_ || _); [by intros [= <- _ _]|].
    unfold Filesystem.RemoveAll, Filesystem.at_, call. destruct (fault n1); [by intros [= <- _ _]|]. done. }
  cbv beta in Hs. destruct (Filesystem.RemoveStack name fs n) as [[a|e] [fs' n']]; [done|].
  split; [|by eapply He]. by destruct Hs as [_ [->|[]]].
Qed.
(** ** Under the lock *)
Lemma registered_refl fs db : registered fs db db.
Proof. split; [by destruct db|]. split; [done|]. by left. Qed.
Lemma failed_same c e x : FilesystemLaws.WF (files e) → failed_ c e x e.
Proof.
  intros Hwf. split; [by split|]. destruct c; simpl; auto. split; [done|apply registered_refl].
Qed.
Lemma call_locked {A : Type} c repo id (m : M Env A) (ans : A → Answer) e :
  (∀ k : Coordinator.Coordinator, from (put k e) m (λ a, done_ c (put k e) (ans a)) (failed_ c (put k e))) →
  FilesystemLaws.WF (files e) → repo = true ∨ id ≠ ""%string →
  from e (Locking.locked repo id m) (λ a, done_ c e (ans a)) (failed_ c e).
Proof.
  intros Hm Hwf Hid. apply Locking.from_locked; [done|by apply failed_same|]. intros k.
  eapply from_conseq; [apply Hm| |].
  - intros a e' [[Hc Hk] Hd]. split; [done|]. split; [by split|]. destruct c; exact Hd.
  - intros x e' [[Hc Hk] Hf]. split; [done|]. split; [by split|]. destruct c; exact Hf.
Qed.
(** The answer is wrapped. *)
Lemma from_answer {A : Type} (e : Env) (m : M Env A) (ans : A → Answer) Q R :
  from e m (λ a, Q (ans a)) R → from e (a ← m; mret (ans a)) Q R.
Proof. intros Hm. eapply from_bind; [exact Hm|done|]. intros a e' Ha. by apply from_ret. Qed.

Lemma within_keeps c e e' T :
  coordinator e' = coordinator e → FilesystemLaws.within T (files e) (files e') → (∀ k, T k → reach c (store e) k) → keeps c e e'.
Proof. intros Hc [Hw Hk] HT. split; [done|]. split; [done|]. intros k Hr. apply Hk. auto. Qed.
Lemma keeps_files c e e' : FilesystemLaws.WF (files e) → coordinator e' = coordinator e → files e' = files e → keeps c e e'.
Proof. intros Hwf Hc E. split; [done|]. rewrite E. by split. Qed.

(** ** Calls on files *)
Lemma file_call {A : Type} c id op (m : Links → string → M FS A) (rep : A → FilesystemLaws.Reply) e :
  onFiles c = Some (id, op) →
  (∀ s fs, FilesystemLaws.WF fs → FilesystemLaws.sure (eq fs) (λ L, m L s)
     (λ a, FilesystemLaws.done_ limits (op s) fs (rep a)) (FilesystemLaws.left_ (op s) fs)) →
  FilesystemLaws.WF (files e) →
  from e (st ← ByID id; zoom (m L (DirectoryName st))) (λ a, done_ c e (AFile (rep a))) (failed_ c e).
Proof.
  intros Hc Hm Hwf. eapply from_bind; [apply from_ByID|..]; simpl.
  - intros x e' ->. by apply failed_same.
  - intros s e' [-> Hs]. apply from_zoom. simpl. eapply from_conseq; [exact (from_sure _ _ _ _ (Hm (DirectoryName s) (files e) Hwf))|..]; simpl.
    + intros a fs' [Hw He]. split.
      * eapply within_keeps; [done|exact Hw|]. intros k Hk. destruct c; try discriminate Hc; injection Hc as <- <-; simpl; by exists s.
      * assert (∃ id0 op0 s0 r, onFiles c = Some (id0, op0) ∧ stacks (store e) !! id0 = Some s0 ∧ AFile (rep a) = AFile r ∧
          FilesystemLaws.Effect limits (op0 (DirectoryName s0)) (files e) r fs') as Hx by by exists id, op, s, (rep a).
        destruct c; try discriminate Hc; done.
    + intros x fs' [Hw Hl]. split.
      * eapply within_keeps; [done|exact Hw|]. intros k Hk. destruct c; try discriminate Hc; injection Hc as <- <-; simpl; by exists s.
      * destruct c; try discriminate Hc; injection Hc as <- <-; (split; [done|]); right; by exists s.
Qed.
(** ** Calls on stacks *)
Lemma from_zoom_files {A : Type} e (m : Links → M FS A) Q R :
  FilesystemLaws.sure (eq (files e)) m Q R →
  from e (zoom (m L)) (λ a e', ∃ fs, e' = put fs e ∧ Q a fs) (λ _ e', ∃ fs, e' = put fs e ∧ R fs).
Proof. intros Hm. apply from_zoom. eapply from_conseq; [exact (from_sure _ _ _ _ Hm)|..]; simpl; eauto. Qed.
Lemma from_zoom_store {A : Type} (e : Env) (m : M DB A) Q R :
  from (store e) m Q R → from e (zoom m) (λ a e', ∃ db, e' = put db e ∧ Q a db) (λ x e', ∃ db, e' = put db e ∧ R x db).
Proof. intros Hm. apply from_zoom. eapply from_conseq; [exact Hm|..]; simpl; eauto. Qed.
Lemma from_newStack name (e : Env) R :
  from e (newStack name) (λ s e', e' = e ∧ DirectoryName s = name ∧ ArchivedAt s = None ∧ CreatedAt s = UpdatedAt s) R.
Proof. apply from_now. intros t. apply from_rand_text. intros id. apply from_rand_text. intros x. by apply from_ret. Qed.
(** Undoing that is not looked at. *)
Lemma from_undo {A : Type} (e : Env) (m : M Env unit) x Q1 R1 (Q : A → Env → Prop) (R : error → Env → Prop) :
  from e m Q1 R1 → (∀ u e', Q1 u e' → R x e') → (∀ y e', R1 y e' → R x e') → from e (_ ← ignore m; fail x) Q R.
Proof.
  intros Hm HQ HR. eapply (from_bind _ _ _ (λ _ e', R x e')); [|intros ? ? Hx; exact Hx|intros u e' Hx; by apply from_fail].
  eapply from_catch; [eapply from_conseq; [exact Hm|exact HQ|intros y e' Hy; exact Hy]|]. intros y e' Hy. apply from_ret. by eapply HR.
Qed.

Lemma Create_from name e :
  FilesystemLaws.WF (files e) → from e (Create name) (λ s, done_ (CCreateStack name) e (AStack s)) (failed_ (CCreateStack name) e).
Proof.
  intros Hwf. eapply from_bind; [exact (from_zoom_files e _ _ _ (FilesystemLaws.CreateStack_sure limits (files e) name Hwf))|..].
  - intros x e' (fs & -> & Hw & Hl). split; [by eapply within_keeps; [|exact Hw|]|]. split; [done|]. simpl.
    destruct Hl as [->|[Hn _]]; auto.
  - intros u e' (fs & -> & Hw & Heff). pose proof Heff as (Hv & Hn & Hfs).
    eapply from_bind; [apply (from_newStack _ _ (λ _ _, False))|done|]. intros s e' (-> & Hname & Ha & Ht).
    eapply from_bind; [|intros x e' Hx; exact Hx|].
    + eapply from_catch; [exact (from_zoom_store _ _ _ _ (db_Create s _ Ht Ha))|].
      intros x e' (db & -> & ->). eapply from_undo; [eapply (from_zoom_files _ (λ L, Filesystem.RemoveStack name));
        apply (FilesystemLaws.RemoveStack_sure limits); by destruct Hw|..].
      * intros u' e' (fs2 & -> & Hw2 & _). split; [|by split; [|right]].
        eapply within_keeps; [done|exact (FilesystemLaws.within_trans _ _ _ _ Hw Hw2)|done].
      * intros y e' (fs2 & -> & Hw2 & _). split; [|by split; [|right]].
        eapply within_keeps; [done|exact (FilesystemLaws.within_trans _ _ _ _ Hw Hw2)|done].
    + intros u' e' (db & -> & Hid & Hd & Hdb). apply from_ret. split; [by eapply within_keeps; [|exact Hw|]|].
      simpl in *. exists s. rewrite Hname in Hd. done.
Unshelve. all: exact (λ _ _, True).
Qed.
Lemma Rename_from id s name e :
  stacks (store e) !! id = Some s → StkID s = id → FilesystemLaws.WF (files e) →
  from e (Rename s name) (λ s', done_ (CRenameStack id name) e (AStack s')) (failed_ (CRenameStack id name) e).
Proof.
  intros Hs Hid Hwf.
  assert (∀ e', coordinator e' = coordinator e →
    FilesystemLaws.within (λ k, Filesystem.below [DirectoryName s] k ∨ Filesystem.below [name] k) (files e) (files e') →
    keeps (CRenameStack id name) e e') as Hkeep.
  { intros e' Hc Hw. eapply within_keeps; [done|exact Hw|]. intros k Hk. by exists s. }
  eapply from_bind; [exact (from_zoom_files e _ _ _ (FilesystemLaws.RenameStack_sure limits (files e) (DirectoryName s) name Hwf))|..].
  - intros x e' (fs & -> & Hw & _). split; [by apply Hkeep|done].
  - intros u e' (fs & -> & Hw & Heff). apply from_now. intros t.
    eapply from_bind; [|intros x e' Hx; exact Hx|].
    + eapply from_catch; [exact (from_zoom_store _ _ _ _ (db_Rename (StkID s) name t _))|].
      intros x e' (db & -> & ->). eapply from_undo; [eapply (from_zoom_files _ (λ L, Filesystem.RenameStack name (DirectoryName s)));
        apply (FilesystemLaws.RenameStack_sure limits); by destruct Hw|..].
      all: intros y e' (fs2 & -> & Hw2 & _); split; [|done].
      all: apply Hkeep; [done|]; eapply FilesystemLaws.within_trans; [exact Hw|].
      all: destruct Hw2 as [Hwf2 Hk2]; split; [done|]; intros k Hk; apply Hk2; simpl; tauto.
    + intros u' e' (db & -> & Hdb). apply from_ret. split; [by apply Hkeep|]. simpl in Hdb. exists s, t. simpl.
      split; [done|]. split; [done|]. split; [|done]. subst db. rewrite Hid, Hs. by destruct (ArchivedAt s).
Unshelve. all: exact (λ _ _, True).
Qed.
Lemma Delete_from id s e e0 :
  stacks (store e) !! id = Some s → StkID s = id → FilesystemLaws.WF (files e) →
  store e0 = store e → files e0 = files e → coordinator e0 = coordinator e →
  from e0 (Delete s) (λ _, done_ (CDeleteStack id) e ADone) (failed_ (CDeleteStack id) e).
Proof.
  intros Hs Hid Hwf Est Efs Eco.
  assert (∀ e', coordinator e' = coordinator e → FilesystemLaws.within (Filesystem.below [DirectoryName s]) (files e) (files e') →
    keeps (CDeleteStack id) e e') as Hkeep.
  { intros e' Hc Hw. eapply within_keeps; [done|exact Hw|]. intros k Hk. by exists s. }
  rewrite <-Efs in Hwf. eapply (from_bind _ _ _ (λ _ e', ∃ fs, e' = put fs e0 ∧
      FilesystemLaws.done_ limits (FilesystemLaws.OpRemoveStack (DirectoryName s)) (files e0) FilesystemLaws.RDone fs)); [|intros x e' Hx; exact Hx|].
  - eapply from_catch.
    + apply from_zoom. eapply from_conseq; [exact (fs_RemoveStack (DirectoryName s) (files e0) Hwf)|..]; simpl.
      * intros u fs Hd. by exists fs.
      * intros x fs [-> Hx]. instantiate (1 := λ x e', e' = e0 ∧ Is x Stack_ErrNotFound = false). simpl. by destruct e0.
    + intros x e' [-> Hx]. rewrite Hx. apply from_fail. rewrite <-Efs in Hkeep. split; [by apply Hkeep|]. simpl. rewrite Est, Efs. auto.
  - intros u e' (fs & -> & Hw & Hv & Hd & ->). apply from_now. intros t.
    eapply from_conseq; [exact (from_zoom_store _ _ _ _ (db_exec _ _))|..].
    + intros u' e' (db & -> & ->). split; [apply Hkeep; [done|by rewrite <-Efs]|]. exists s, t. simpl. rewrite Est, <-Efs.
      split; [done|]. split; [|done]. f_equal. rewrite Hid. apply map_eq. intros i. destruct (decide (i = id)) as [->|Hne].
      * by rewrite lookup_alter_eq, lookup_insert_eq, Hs.
      * by rewrite lookup_alter_ne, lookup_insert_ne.
    + intros x e' (db & -> & ->). split; [apply Hkeep; [done|by rewrite <-Efs]|]. split; [done|]. right. exists s.
      simpl. by rewrite Efs.
Qed.
Lemma registered_has fs db db' name : registered fs db db' → has_directory db name → has_directory db' name.
Proof. intros (_ & Hk & _) (id & s & Hs & E). exists id, s. auto. Qed.
Lemma registered_insert fs db db' s :
  registered fs db db' → FilesystemLaws.isStack fs (DirectoryName s) → ArchivedAt s = None →
  stacks db' !! StkID s = None → ¬ has_directory db' (DirectoryName s) →
  registered fs db (set_stacks db' (<[StkID s := s]> (stacks db'))).
Proof.
  intros Hr Hs Ha Hn Hd. pose proof Hr as (Hdb & Hk & Hnew). split; [by rewrite Hdb|]. simpl. split.
  - intros id x Hx. rewrite lookup_insert_ne; [auto|]. intros <-. by rewrite (Hk _ _ Hx) in Hn.
  - intros id x [[<- <-]|[Hne Hx]]%lookup_insert_Some; [|by apply Hnew]. right. do 3 (split; [done|]).
    intros Hh. by apply Hd, (registered_has fs db).
Qed.
Lemma register_from e : ∀ l e0,
  Forall (FilesystemLaws.isStack (files e)) l →
  registered (files e) (store e) (store e0) → files e0 = files e → coordinator e0 = coordinator e →
  from e0 (register l)
    (λ _ e', registered (files e) (store e) (store e') ∧ files e' = files e ∧ coordinator e' = coordinator e ∧
      (∀ d, has_directory (store e0) d ∨ d ∈ l → has_directory (store e') d))
    (λ _ e', registered (files e) (store e) (store e') ∧ files e' = files e ∧ coordinator e' = coordinator e).
Proof.
  induction l as [|d l IH]; intros e0 Hl Hr Hf Hc; [apply from_ret; do 3 (split; [done|]); intros d [|[]%elem_of_nil]; done|].
  apply Forall_cons in Hl as [Hd Hl]. simpl.
  eapply (from_attempt _ _ _ (λ _ e', e' = e0 ∧ has_directory (store e0) d) (λ _ e', e' = e0)).
  { apply from_zoom, from_call; [by destruct e0|intros x _; by destruct e0|]. intros s db. simpl.
    destruct (filter _ _) as [|s' l'] eqn:E; [done|]. intros [= <- <-]. split; [by destruct e0|].
    assert (s' ∈ filter (λ s, DirectoryName s = d) (map_to_list (stacks (store e0))).*2) as Hin by (rewrite E; left).
    apply list_elem_of_filter in Hin as [Hdir Hin]. apply list_elem_of_fmap in Hin as ([id s''] & -> & Hin%elem_of_map_to_list).
    by exists id, s''. }
  - intros s e' [-> Hh]. eapply from_bind; [apply (from_ret _ _ (λ _ e', e' = e0) (λ _ _, False)); done|done|].
    intros u e' ->. eapply from_conseq; [by apply IH| |done]. intros u' e' (H1 & H2 & H3 & H4).
    do 3 (split; [done|]). intros d' [Hd'|[->|Hd']%elem_of_cons]; auto.
  - intros x e' ->. eapply (from_bind _ _ _ (λ _ e', ∃ s, DirectoryName s = d ∧ registered (files e) (store e) (store e') ∧ files e' = files e ∧
       coordinator e' = coordinator e ∧ store e' = set_stacks (store e0) (<[StkID s := s]> (stacks (store e0))) ∧ stacks (store e0) !! StkID s = None)
      (λ _ e', e' = e0)).
    + eapply from_bind; [apply (from_newStack _ _ (λ _ _, False))|done|]. intros s e' (-> & Hname & Ha & Ht).
      eapply from_conseq; [exact (from_zoom_store _ _ _ _ (db_Create s _ Ht Ha))|..].
      * intros u e' (db & -> & Hn & Hh & ->). exists s. split; [done|]. split; [|done].
        by apply registered_insert; rewrite ?Hname; [..|rewrite <-Hname].
      * intros y e' (db & -> & ->). by destruct e0.
    + by intros y e' ->.
    + intros u e' (s & Hname & Hr' & Hf' & Hc' & Hst & Hn). eapply from_conseq; [by apply IH| |done].
      intros u' e2 (H1 & H2 & H3 & H4). do 3 (split; [done|]). intros d' [(id & s' & Hs' & E)|[->|Hd']%elem_of_cons]; apply H4; [left|left|by right].
      * exists id, s'. rewrite Hst. simpl. rewrite lookup_insert_ne; [done|]. intros <-. by rewrite Hn in Hs'.
      * exists (StkID s), s. rewrite Hst. simpl. by rewrite lookup_insert_eq.
Qed.
Lemma Discover_from e :
  FilesystemLaws.WF (files e) → from e ListStacks (λ l, done_ CListStacks e (AStacks l)) (failed_ CListStacks e).
Proof.
  intros Hwf. eapply from_bind; [exact (from_zoom_files e _ _ _ (FilesystemLaws.Discover_sure limits (files e) Hwf))|..].
  - intros x e' (fs & -> & _ & [->|[]]). destruct e; by apply failed_same.
  - intros l e' (fs & -> & _ & -> & l' & [= <-] & Hl).
    eapply from_bind; [apply (register_from e); [done|apply registered_refl|done|done]|..].
    + intros x e' (Hr & Hf & Hc). split; [by apply keeps_files|done].
    + intros u e' (Hr & Hf & Hc & _). eapply from_conseq; [exact (from_zoom_store _ _ _ _ (db_query _ _))|..].
      * intros a e2 (db & -> & -> & ->). split; [by apply keeps_files|]. done.
      * intros x e2 (db & -> & ->). split; [by apply keeps_files|]. done.
Qed.
(** ** Calls on the records alone *)
Lemma store_call {A : Type} c (m : M DB A) (ans : A → Answer) e Q :
  FilesystemLaws.WF (files e) →
  from (store e) m Q (λ _ db, db = store e) → (∀ a db, Q a db → Done c e (ans a) (put db e)) →
  from e (zoom m) (λ a, done_ c e (ans a)) (failed_ c e).
Proof.
  intros Hwf Hm HQ. eapply from_conseq; [exact (from_zoom_store _ _ _ _ Hm)|..].
  - intros a e' (db & -> & Hd). split; [by apply keeps_files|auto].
  - intros x e' (db & -> & ->). destruct e. by apply failed_same.
Qed.
Lemma guarded_call {A : Type} c (b : bool) x (m : M Env A) (ans : A → Answer) e :
  FilesystemLaws.WF (files e) → (b = false → from e m (λ a, done_ c e (ans a)) (failed_ c e)) →
  from e (_ ← guard_not b x; m) (λ a, done_ c e (ans a)) (failed_ c e).
Proof. intros Hwf Hm. apply from_guard; [|done]. intros _. by apply failed_same. Qed.
Definition keyed (db : DB) : Prop := ∀ id s, stacks db !! id = Some s → StkID s = id.

(** The work of [DeleteStack] under the lock. *)
Lemma DeleteStack_from id (e1 : Env) :
  FilesystemLaws.WF (files e1) → keyed (store e1) →
  from e1 (
    stack ← ByID id;
    _ ← match runtime with
        | Some r =>
          values ← Values id;
          Down r (mkRequest (root, DirectoryName stack) (ComposeProjectName stack) values)
        | None => mret tt
        end;
    Delete stack) (λ _, done_ (CDeleteStack id) e1 ADone) (failed_ (CDeleteStack id) e1).
Proof.
  intros Hwf Hkey.
  eapply from_bind; [apply from_ByID|by intros x e' ->; apply failed_same|]. intros s e' [-> Hs].
  eapply (from_bind _ _ _ (λ _ e', store e' = store e1 ∧ files e' = files e1 ∧ coordinator e' = coordinator e1)
    (failed_ (CDeleteStack id) e1)); [|done|].
  + destruct runtime as [r|]; [|by apply from_ret].
    eapply from_bind; [unfold Values; eapply (from_zoom_store _ _ (λ _ db, db = store e1) (λ _ db, db = store e1))|..].
    * eapply from_bind; [apply (from_call _ _ (λ _ db, db = store e1) (λ _ db, db = store e1))|done|].
      -- done.
      -- done.
      -- intros [] db. by destruct (stacks (store e1) !! id); [intros [= <-]|].
      -- intros u db ->. eapply from_conseq; [apply db_query|by intros a db [-> _]|done].
    * intros x e' (db & -> & ->). destruct e1. by apply failed_same.
    * intros values e' (db & -> & ->). intros n. unfold Down. destruct (down _ n) as [x|]; simpl; [|done].
      split; [by apply keeps_files|]. split; [done|by left].
  + intros u e' (H1 & H2 & H3). by apply (Delete_from id s e1 e' Hs); [apply Hkey|..].
Qed.
(** The environment of a stack. *)
Lemma Keys_from id e :
  FilesystemLaws.WF (files e) → from e (EnvironmentKeys id) (λ l, done_ (CEnvironmentKeys id) e (AKeys l)) (failed_ (CEnvironmentKeys id) e).
Proof.
  intros Hwf. eapply from_bind; [eapply (from_zoom_store _ _ (λ a db, db = store e ∧ a = OperationStore.environmentOf (store e) id) (λ _ db, db = store e))|..].
  - eapply (from_bind _ _ _ (λ _ db, db = store e) (λ _ db, db = store e)); [|done|].
    + apply from_call; [done|done|]. intros [] db. by destruct (stacks (store e) !! id); [intros [= <-]|].
    + intros u db ->. exact (db_query (λ db, OperationStore.environmentOf db id) (store e)).
  - intros x e' (db & -> & ->). destruct e; by apply failed_same.
  - intros a e' (db & -> & -> & ->). apply from_ret. destruct e. by split; [apply keeps_files|].
Qed.
Lemma Value_from id key e :
  FilesystemLaws.WF (files e) →
  from e (EnvironmentValue id key) (λ v, done_ (CEnvironmentValue id key) e (AValue v)) (failed_ (CEnvironmentValue id key) e).
Proof.
  intros Hwf. apply guarded_call; [done|]. intros _.
  eapply (store_call (CEnvironmentValue id key) _ AValue _ (λ v db, db = store e ∧ ∃ r, environment (store e) !! (id, key) = Some r ∧ v = (EnvValue r, EnvSecret r)));
    [done| |by intros v db [-> (r & Hr & ->)]; split; [|split; [|exists r]]].
  apply from_call; [done|done|]. intros v db.
  destruct (stacks (store e) !! id), (environment (store e) !! (id, key)) as [r|]; try done. intros [= <- <-]. by split; [|exists r].
Qed.
Lemma Set_from id key value e :
  FilesystemLaws.WF (files e) →
  from e (Set_ id key value) (λ _, done_ (CSetEnvironment id key value) e ADone) (failed_ (CSetEnvironment id key value) e).
Proof.
  intros Hwf. apply (guarded_call _ _ _ _ (λ _, ADone)); [done|]. intros Hv.
  eapply (store_call (CSetEnvironment id key value) _ (λ _, ADone) _ (λ _ db, Done (CSetEnvironment id key value) e ADone (put db e)));
    [done| |done].
  apply from_now. intros t. apply from_call; [done|done|]. intros u db. destruct (stacks (store e) !! id) as [s|] eqn:Es; [|done].
  intros [= _ <-]. split; [done|]. split; [done|]. split; [by rewrite Es|]. by exists t.
Qed.
Lemma SetWithSecret_from id key value secret e :
  FilesystemLaws.WF (files e) →
  from e (SetWithSecret id key value secret) (λ _, done_ (CSetEnvironmentWithSecret id key value secret) e ADone)
    (failed_ (CSetEnvironmentWithSecret id key value secret) e).
Proof.
  intros Hwf. apply (guarded_call _ _ _ _ (λ _, ADone)); [done|]. intros Hv.
  eapply (store_call (CSetEnvironmentWithSecret id key value secret) _ (λ _, ADone) _
    (λ _ db, Done (CSetEnvironmentWithSecret id key value secret) e ADone (put db e))); [done| |done].
  apply from_now. intros t. apply from_call; [done|done|]. intros u db. destruct (stacks (store e) !! id) as [s|] eqn:Es; [|done].
  intros Hdb. split; [done|]. split; [done|]. split; [by rewrite Es|].
  destruct (environment (store e) !! (id, key)) as [r|].
  - destruct (eqb (EnvSecret r) secret) eqn:E; [|done]. injection Hdb as _ <-. apply eqb_prop in E.
    split; [by intros r' [= <-]|]. by exists t.
  - injection Hdb as _ <-. split; [done|]. by exists t.
Qed.
Lemma DeleteKey_from id key e :
  FilesystemLaws.WF (files e) →
  from e (DeleteKey id key) (λ _, done_ (CDeleteEnvironment id key) e ADone) (failed_ (CDeleteEnvironment id key) e).
Proof.
  intros Hwf. apply (guarded_call _ _ _ _ (λ _, ADone)); [done|]. intros _.
  by eapply (store_call (CDeleteEnvironment id key) _ (λ _, ADone)); [|apply db_exec|intros u db ->].
Qed.
Lemma exec_from c e :
  FilesystemLaws.WF (files e) → keyed (store e) → locks c ≠ Some ""%string →
  from e (exec c) (done_ c e) (failed_ c e).
Proof.
  intros Hwf Hkey Hid.
  assert (∀ id, locks c = Some id → false = true ∨ id ≠ ""%string) as Hlock by (intros id E; right; congruence).
  assert (∀ (k : Coordinator.Coordinator), FilesystemLaws.WF (files (put k e))) as Hwfk by done.
  destruct c; simpl in Hlock; apply from_answer.
  - by apply Discover_from.
  - apply (call_locked (CCreateStack name) _ _ _ AStack); [intros k; by apply Create_from|done|by left].
  - apply (call_locked (CRenameStack id name) _ _ _ AStack); [|done|auto]. intros k.
    eapply from_bind; [apply from_ByID|by intros x e' ->; apply failed_same|]. intros s e' [-> Hs].
    by apply (Rename_from id s name _ Hs); [apply Hkey|].
  - apply (call_locked (CDeleteStack id) _ _ _ (λ _, ADone)); [intros k; by apply (DeleteStack_from id)|done|auto].
  - apply (call_locked (CPurgeStack id) _ _ _ (λ _, ADone)); [|done|auto]. intros k.
    by eapply (store_call (CPurgeStack id) _ (λ _, ADone)); [|apply db_Purge|].
  - by eapply (file_call (CTree id) id _ (λ L, Filesystem.Tree limits) FilesystemLaws.RTree); [done|intros; apply FilesystemLaws.Tree_sure|].
  - by eapply (file_call (CReadFile id p) id _ (λ L s, Filesystem.Read limits s p) FilesystemLaws.RFile); [done|intros; apply FilesystemLaws.Read_sure|].
  - apply (call_locked _ _ _ _ (λ f, AFile (FilesystemLaws.RFile f))); [intros k|done|auto].
    by eapply (file_call (CWriteFile id p contents expected) id _ (λ L s, Filesystem.Write limits s p contents expected) FilesystemLaws.RFile);
      [done|intros; apply FilesystemLaws.Write_sure|].
  - apply (call_locked _ _ _ _ (λ f, AFile (FilesystemLaws.RFile f))); [intros k|done|auto].
    by eapply (file_call (CCreateFile id p contents) id _ (λ L s, Filesystem.CreateFile limits s p contents) FilesystemLaws.RFile);
      [done|intros; apply FilesystemLaws.CreateFile_sure|].
  - apply (call_locked _ _ _ _ (λ _, AFile FilesystemLaws.RDone)); [intros k|done|auto].
    by eapply (file_call (CCreateDirectory id p) id _ (λ L s, Filesystem.CreateDirectory s p) (λ _, FilesystemLaws.RDone));
      [done|intros; apply FilesystemLaws.CreateDirectory_sure|].
  - apply (call_locked _ _ _ _ (λ _, AFile FilesystemLaws.RDone)); [intros k|done|auto].
    by eapply (file_call (CMoveFile id from to) id _ (λ L s, Filesystem.Move s from to) (λ _, FilesystemLaws.RDone));
      [done|intros; apply FilesystemLaws.Move_sure|].
  - apply (call_locked _ _ _ _ (λ _, AFile FilesystemLaws.RDone)); [intros k|done|auto].
    by eapply (file_call (CRemoveFile id p) id _ (λ L s, Filesystem.RemoveEntry s p) (λ _, FilesystemLaws.RDone));
      [done|intros; apply FilesystemLaws.RemoveEntry_sure|].
  - by apply Keys_from.
  - by apply Value_from.
  - apply (call_locked _ _ _ _ (λ _, ADone)); [intros k; by apply Set_from|done|auto].
  - apply (call_locked _ _ _ _ (λ _, ADone)); [intros k; by apply SetWithSecret_from|done|auto].
  - apply (call_locked _ _ _ _ (λ _, ADone)); [intros k; by apply DeleteKey_from|done|auto].
Qed.
(** ** The theorems *)
Lemma keyed_registered fs db db' : keyed db → registered fs db db' → keyed db'.
Proof. intros Hk (_ & _ & Hn) id s Hs. destruct (Hn id s Hs) as [Ho|(E & _)]; auto. Qed.
Lemma keyed_insert db s : keyed db → keyed (set_stacks db (<[StkID s := s]> (stacks db))).
Proof. intros Hk id x Hx. simpl in Hx. apply lookup_insert_Some in Hx as [[<- <-]|[_ Hx]]; auto. Qed.
Lemma Done_keyed c e a e' : keyed (store e) → Done c e a e' → keyed (store e').
Proof.
  intros Hk Hd. destruct c; simpl in Hd.
  - destruct Hd as (_ & _ & Hr). by eapply keyed_registered.
  - destruct Hd as (s & _ & _ & _ & _ & _ & -> & _). by apply keyed_insert.
  - destruct Hd as (s & t & Hs & _ & -> & _). destruct (ArchivedAt s); [done|]. pose proof (Hk _ _ Hs) as <-.
    by apply (keyed_insert _ (renamed name t s)).
  - destruct Hd as (s & t & Hs & -> & _). pose proof (Hk _ _ Hs) as <-. by apply (keyed_insert _ (OperationStore.archive t s)).
  - destruct Hd as (_ & s & t & _ & _ & ->). intros i x Hx. simpl in Hx. apply lookup_delete_Some in Hx as [_ Hx]. by apply Hk.
  - by destruct Hd as [-> _].
  - by destruct Hd as [-> _].
  - by destruct Hd as [-> _].
  - by destruct Hd as [-> _].
  - by destruct Hd as [-> _].
  - by destruct Hd as [-> _].
  - by destruct Hd as [-> _].
  - by destruct Hd as (_ & -> & _).
  - by destruct Hd as (_ & -> & _).
  - by destruct Hd as (_ & _ & _ & t & ->).
  - by destruct Hd as (_ & _ & _ & _ & t & ->).
  - by destruct Hd as (_ & ->).
Qed.
Lemma Failed_keyed c e e' : keyed (store e) → Failed c e e' → keyed (store e').
Proof.
  intros Hk Hd. destruct c; simpl in Hd; try first [by rewrite Hd|by destruct Hd as [-> _]].
  destruct Hd as (_ & Hr). by eapply keyed_registered.
Qed.
Lemma call_run c e n r e' n' :
  FilesystemLaws.WF (files e) → keyed (store e) → locks c ≠ Some ""%string → exec c e n = (r, (e', n')) →
  match r with Ok a => done_ c e a e' | Err x => failed_ c e x e' end.
Proof. intros Hwf Hk Hid E. pose proof (exec_from c e Hwf Hk Hid n) as Hr. rewrite E in Hr. by destruct r. Qed.


(** C32. A stack whose directory is gone can never be deleted: the service means
    to let the removal of a missing directory pass, but the file manager reports
    it as an invalid path.  So a deletion that removed the directory and then
    failed to archive the record cannot be completed. *)
Theorem missing_directory_blocks_deletion id e n r e' n' s :
  FilesystemLaws.WF (files e) → keyed (store e) → id ≠ ""%string →
  stacks (store e) !! id = Some s → files e !! [DirectoryName s] ≠ Some Filesystem.Directory →
  DeleteStack runtime root id e n = (r, (e', n')) → (∃ x, r = Err x) ∧ store e' = store e.
Proof.
  intros Hwf Hk Hid Hs Hd E.
  assert (exec (CDeleteStack id) e n = (match r with Ok _ => Ok ADone | Err x => Err x end, (e', n'))) as E'.
  { simpl. unfold mbind, M_bind. rewrite E. by destruct r. }
  apply call_run in E'; [|done|done|simpl; congruence]. destruct r as [u|x].
  - destruct E' as [_ (s' & t & Hs' & _ & _ & Hdir & _)]. congruence.
  - destruct E' as [_ [Hst _]]. split; [by eexists|done].
Qed.

(** While an operation holds the lock, calls that change the stack, its
    files or its environment are refused and change nothing. *)
Theorem busy_stacks_are_refused c id e n :
  locks c = Some id → id ≠ ""%string →
  Coordinator.repository (coordinator e) = true ∨ id ∈ Coordinator.stacks (coordinator e) →
  exec c e n = (Err Operation_ErrConflict, (e, n)).
Proof.
  intros Hl Hid Hb.
  assert (∀ A (m : M Env A), Locking.locked false id m e n = (Err Operation_ErrConflict, (e, n))) as Hrefuse.
  { intros A m. unfold Locking.locked. assert (∃ k, Coordinator.Try (view e) false id = (k, Err Operation_ErrConflict)) as [k Ek].
    { unfold Coordinator.Try. simpl. destruct (Coordinator.repository (coordinator e)) eqn:Er; [by eexists|].
      destruct Hb as [|Hb]; [done|]. destruct (String.eqb_spec id ""); [done|]. simpl. rewrite bool_decide_eq_true_2 by done. by eexists. }
    rewrite Ek. apply Locking.Try_refused in Ek as [-> _]. by rewrite put_view. }
  destruct c; try discriminate Hl; injection Hl as ->; simpl; unfold mbind, M_bind;
    unfold RenameStack, DeleteStack, PurgeStack, WriteFile, CreateFile, CreateDirectory, MoveFile, RemoveFile, SetEnvironment,
      SetEnvironmentWithSecret, DeleteEnvironment; by rewrite Hrefuse.
Qed.
(** Listing registers every stack directory, unless a call fails. *)
Theorem listing_registers_every_stack `{F : !Faultless W} e n l e' n' name :
  FilesystemLaws.WF (files e) → ListStacks e n = (Ok l, (e', n')) →
  FilesystemLaws.isStack (files e) name → has_directory (store e') name.
Proof.
  intros Hwf E Hs. destruct (FilesystemContract.discovery_is_exact (files e)) as (dirs & Hd & Hin).
  apply bind_ok in E as (dirs' & e1 & n1 & E1 & E). apply zoom_ok in E1 as (fs & E1 & ->).
  destruct (Hd n) as [n2 E2]. simpl in E1. rewrite E2 in E1. injection E1 as <- <- <-.
  apply bind_ok in E as (u & e2 & n3 & E3 & E4).
  assert (Forall (FilesystemLaws.isStack (files e)) dirs) as Hall by (apply Forall_forall; intros d Hdd; by apply Hin).
  pose proof (register_from (put (files e) e) dirs (put (files e) e) Hall (registered_refl _ _) eq_refl eq_refl n2) as Hr.
  rewrite E3 in Hr. destruct Hr as (_ & _ & _ & Hr). apply zoom_ok in E4 as (db & E4 & ->).
  pose proof (db_query (A := list Stack) (λ db, active db) (store e2) n3) as Hq.
  change (Database.query (λ db, active db)) with (OperationStore.Active) in Hq. simpl in E4. rewrite E4 in Hq. destruct Hq as [-> _]. simpl.
  apply Hr. right. by apply Hin.
Qed.
End calls.

(** ** A stack in its directory *)
Module Example.
#[local] Existing Instances FilesystemContract.Example.world FilesystemContract.Example.mask FilesystemContract.Example.digest
  FilesystemContract.Example.links.
Definition web : Stack := mkStack "stk_1" "web" "porty-web-1" None 1%Z 1%Z.
Definition env : Env := mkEnv (set_stacks emptyDB {["stk_1"%string := web]}) FilesystemContract.Example.files Coordinator.NewCoordinator [].
Definition runtime : option StackShutdown := Some (λ _ _, None).
Definition limits : Filesystem.Limits := FilesystemContract.Example.limits.
Lemma env_keyed : keyed (store env).
Proof. intros id s Hs. simpl in Hs. apply lookup_singleton_Some in Hs as [<- <-]. reflexivity. Qed.
Definition call : Call := CDeleteStack "stk_1".
(** The same stack without its directory. *)
Definition bare : Env := mkEnv (store env) (Filesystem.without ["web"%string] (files env)) Coordinator.NewCoordinator [].
Lemma bare_WF : FilesystemLaws.WF (files bare).
Proof.
  refine (proj1 (FilesystemLaws.within_without (Filesystem.below ["web"%string]) _ _ _ _)); [exact (FilesystemLaws.below_region "web")|exact FilesystemContract.Example.files_WF|].
  apply FilesystemLaws.below_refl.
Qed.
Lemma missing_directory_blocks_deletion_witness :
  ∃ x e' n', DeleteStack runtime "/stacks" "stk_1" bare 0 = (Err x, (e', n')) ∧ store e' = store env.
Proof.
  destruct (DeleteStack runtime "/stacks" "stk_1" bare 0) as [r [e' n']] eqn:E.
  destruct (missing_directory_blocks_deletion limits runtime "/stacks" "stk_1" bare 0 r e' n' web) as [[x Hx] Hs];
    [exact bare_WF|exact env_keyed|discriminate|vm_compute; reflexivity|intros Hd; vm_compute in Hd; discriminate Hd|exact E|].
  exists x, e', n'. rewrite Hx. split; [reflexivity|exact Hs].
Defined.
(** The stack while one of its operations runs. *)
Definition busy : Env := put (Coordinator.mkCoordinator false {["stk_1"%string]}) env.
Lemma busy_stacks_are_refused_witness :
  exec limits runtime "/stacks" (CWriteFile "stk_1" "conf/app.ini" "a=2" "sha256:a=1") busy 0 = (Err Operation_ErrConflict, (busy, 0)).
Proof.
  apply (busy_stacks_are_refused limits runtime "/stacks" (CWriteFile "stk_1" "conf/app.ini" "a=2" "sha256:a=1") "stk_1" busy 0).
  - reflexivity.
  - discriminate.
  - right. change ("stk_1"%string ∈ ({["stk_1"%string]} : gset string)). apply elem_of_singleton. reflexivity.
Defined.
(** A directory that nobody registered yet. *)
Definition fresh : Env := mkEnv emptyDB (files env) Coordinator.NewCoordinator [].
Lemma listing_registers_every_stack_witness : ∃ l e' n', ListStacks fresh 0 = (Ok l, (e', n')) ∧ has_directory (store e') "web".
Proof.
  assert (is_ok (fst (ListStacks fresh 0)) = true) as Er by (vm_compute; reflexivity).
  destruct (ok_run (ListStacks fresh 0) Er) as [l E].
  exists l, (ListStacks fresh 0).2.1, (ListStacks fresh 0).2.2. split; [exact E|].
  refine (listing_registers_every_stack fresh 0 l _ _ "web" FilesystemContract.Example.files_WF E _).
  split; [vm_compute; reflexivity|]. split; [vm_compute; reflexivity|]. exists 420%Z, "services"%string. vm_compute. reflexivity.
Defined.
End Example.
End StackLaws.
