(* ===== verification/Controller.v ===== *)
(** * The on-demand controller (src/internal/ondemand/controller.go)

    One goroutine per group reads the policy, observes the containers, keeps
    the group's ports reserved while it sleeps and asks for transitions.  The
    workers are objects that the map of the controller points to; what is done
    under a worker's mutex is one step, and the steps of all goroutines, of the
    callers and of the store interleave. *)
From S2P Require Import Prelude Traffic OnDemandPolicy.

Module Controller.
Import OnDemandPolicy.
#[local] Existing Instances Traffic.Binding_eq_dec Traffic.Binding_countable.

(** ** The controller *)
Record groupWorker := mkWorker {
  group : Group;
  listener : option Traffic.Listener;
  suspended : bool;
  reason : string;
  cancelled : bool;
}.
Record Controller := mkController {
  heap : gmap nat groupWorker;           (* the workers by their addresses *)
  workers : gmap string nat;
  changed : bool;                        (* the channel of one element is full *)
  sockets : gset Traffic.Binding;        (* the endpoints that are bound *)
}.
#[export] Program Instance controller_sockets : Lens Controller (gset Traffic.Binding) := {|
  view := sockets; put x c := mkController (heap c) (workers c) (changed c) x |}.
Next Obligation. done. Qed.
Next Obligation. by intros []. Qed.
Next Obligation. done. Qed.
Definition set_worker (p : nat) (w : groupWorker) (c : Controller) : Controller :=
  mkController (<[p := w]> (heap c)) (workers c) (changed c) (sockets c).
Definition waiting : string := "Automation is waiting for runtime observation.".
Definition unreadable : string := "Policy could not be read. Automatic wake and sleep are unavailable.".
Definition unobservable : string := "Runtime observation is unavailable. Check Docker access, host networking, deployment state, and container health. No automatic stop is permitted.".

Definition NewController : Controller := mkController ∅ ∅ false ∅.
Definition worker (c : Controller) (id : string) : option (nat * groupWorker) :=
  p ← workers c !! id; w ← heap c !! p; Some (p, w).
Definition enabled (g : Group) : bool :=
  Enabled (GroupPolicy g) && (HoldReason g =? "")%string && (PausedReason g =? "")%string.
Definition ObservationReason (c : Controller) (g : Group) : string :=
  if negb (enabled g) then ""
  else match worker c (GroupID g) with None => waiting | Some (_, w) => reason w end.
Definition Notify (c : Controller) : Controller := mkController (heap c) (workers c) true (sockets c).

(** Closing gives the sockets back, unless the listener has failed and has done
    so itself. *)
Definition closeListener (p : nat) (c : Controller) : Controller :=
  match heap c !! p with
  | Some w =>
    match listener w with
    | Some l =>
      mkController (<[p := mkWorker (group w) None (suspended w) (reason w) (cancelled w)]> (heap c)) (workers c) (changed c)
        (if Traffic.released l then sockets c else sockets c ∖ list_to_set (Traffic.Bindings (Traffic.config l)))
    | None => c
    end
  | None => c
  end.
Definition suspend (p : nat) (c : Controller) : Controller :=
  match heap c !! p with
  | Some w => closeListener p (set_worker p (mkWorker (group w) (listener w) true (reason w) (cancelled w)) c)
  | None => c
  end.
Definition SuspendGroup (id : string) (c : Controller) : Controller :=
  Notify (match workers c !! id with Some p => suspend p c | None => c end).
Definition ofStack (id : string) (c : Controller) (p : nat) : bool :=
  match heap c !! p with Some w => (GroupStackID (group w) =? id)%string | None => false end.
Definition SuspendStack (id : string) (c : Controller) : Controller :=
  Notify (foldl (λ c p, if ofStack id c p then suspend p c else c) c (map_to_list (workers c)).*2).

Section ports.
Context `{W : World}.
(** The guard of both: the worker has the caller's revision and is not
    suspended. *)
Definition guarded (g : Group) (f : nat → groupWorker → M Controller unit) : M Controller unit := λ c n,
  match worker c (GroupID g) with
  | None => (Err OnDemand_ErrConflict, (c, n))
  | Some (p, w) =>
    if negb (Revision (group w) =? Revision g)%Z || suspended w then (Err OnDemand_ErrConflict, (c, n)) else f p w c n
  end.
Definition Release (g : Group) : M Controller unit := guarded g (λ p w c n, (Ok tt, (closeListener p c, n))).
Definition wakeConfig (g : Group) : Traffic.Config :=
  Traffic.mkConfig (wrapU64 (Revision g)) (WakeThreshold (GroupPolicy g)) (wrap64 (WakeWindowMS (GroupPolicy g) * Millisecond))
    (EvidenceBindings (GroupEvidence g)).
Definition keep (p : nat) (w : groupWorker) (l : Traffic.Listener) : M Controller unit := λ c n,
  (Ok tt, (set_worker p (mkWorker (group w) (Some l) (suspended w) (reason w) (cancelled w)) c, n)).
Definition Reserve (g : Group) : M Controller unit := guarded g (λ p w,
  match listener w with
  | Some _ => mret tt
  | None => l ← zoom (Traffic.Listen (wakeConfig g)); keep p w l
  end).
End ports.

(** ** Run: the workers follow the groups *)
Definition startWorker (c : Controller) (g : Group) : Controller :=
  match workers c !! GroupID g with
  | Some _ => c
  | None =>
    let p := fresh (dom (heap c)) in
    mkController (<[p := mkWorker g None false waiting false]> (heap c)) (<[GroupID g := p]> (workers c)) (changed c) (sockets c)
  end.
Definition cancel (w : groupWorker) : groupWorker := mkWorker (group w) (listener w) (suspended w) (reason w) true.
Definition dropWorker (seen : list string) (c : Controller) (e : string * nat) : Controller :=
  if bool_decide (e.1 ∈ seen) then c
  else mkController (alter cancel e.2 (heap c)) (delete e.1 (workers c)) (changed c) (sockets c).
(** One round of the loop, with the groups that were listed. *)
Definition reconcile (groups : list Group) (c : Controller) : result Controller :=
  if (MaxGroups <? Z.of_nat (length groups))%Z then Err OnDemand_ErrUnavailable
  else let c' := foldl startWorker c groups in
       Ok (foldl (dropWorker (GroupID <$> groups)) c' (map_to_list (workers c'))).
(** The deferred end of [Run], before it waits for the workers. *)
Definition cancelAll (c : Controller) : Controller :=
  mkController (foldl (λ h p, alter cancel p h) (heap c) (map_to_list (workers c)).*2) (workers c) (changed c) (sockets c).

(** ** runGroup: what it does under its worker's mutex *)
Definition setReason (r : string) (p : nat) (c : Controller) : Controller :=
  match heap c !! p with
  | Some w => set_worker p (mkWorker (group w) (listener w) (suspended w) r (cancelled w)) c
  | None => c
  end.
Definition policyUnreadable (p : nat) (c : Controller) : Controller := setReason unreadable p (closeListener p c).
Definition observationFailed (p : nat) (c : Controller) : Controller := setReason unobservable p (closeListener p c).
(** The policy that was read takes effect; whether the group is to be watched. *)
Definition activeFor (g : Group) (s : bool) : bool :=
  enabled g && negb s && ((GroupPhase g =? Sleeping)%string || (GroupPhase g =? Running)%string).
Definition install (p : nat) (g : Group) (c : Controller) : Controller * bool :=
  match heap c !! p with
  | None => (c, false)
  | Some w =>
    let newer := negb (Revision g =? Revision (group w))%Z in
    let c1 := if newer then closeListener p c else c in
    let l := match heap c1 !! p with Some w1 => listener w1 | None => None end in
    let s := if newer then false else suspended w in
    let c2 := set_worker p (mkWorker g l s (reason w) (cancelled w)) c1 in
    if activeFor g s then (c2, true) else (closeListener p c2, false)
  end.
(** The state of the listener: whether a wake is pending, and whether it could
    not be read, in which case the listener is closed. *)
Definition snapshot (p : nat) (c : Controller) : Controller * bool * bool :=
  match heap c !! p with
  | Some w =>
    match listener w with
    | Some l => match Traffic.Snapshot l with
                | Ok st => (c, Traffic.Pending st, false)
                | Err _ => (closeListener p c, false, true)
                end
    | None => (c, false, false)
    end
  | None => (c, false, false)
  end.

(** ** The goroutines *)
Inductive Place :=
| Top
| Got (r : result Group)                 (* GetGroup has returned *)
| Active (g : Group)                     (* waiting for a probe *)
| Probing (g : Group)                    (* ObserveOnDemand runs *)
| Sampled (g : Group) (s : Sample)
| Reserved (g : Group) (s : Sample)
| Polled (g : Group) (s : Sample) (pending : bool)
| Deciding (g : Group) (a : Action)
| Executing (g : Group) (a : Action)     (* ExecuteOnDemand runs *)
| Idle
| Gone.
Record Loop := mkLoop { tracker : Tracker; place : Place }.
Record System := mkSystem {
  control : Controller;
  loops : gmap nat Loop;
  probes : nat;
  transitions : nat;
  stored : gmap string Group;            (* the groups in the database *)
}.
Definition initial (db : gmap string Group) : System := mkSystem NewController ∅ 0 0 db.
Definition with_control (c : Controller) (s : System) : System := mkSystem c (loops s) (probes s) (transitions s) (stored s).
Definition with_loop (p : nat) (l : Loop) (s : System) : System :=
  mkSystem (control s) (<[p := l]> (loops s)) (probes s) (transitions s) (stored s).
Definition with_probes (n : nat) (s : System) : System := mkSystem (control s) (loops s) n (transitions s) (stored s).
Definition with_transitions (n : nat) (s : System) : System := mkSystem (control s) (loops s) (probes s) n (stored s).
(** A goroutine for every worker that has none. *)
Definition spawn (c : Controller) (l : gmap nat Loop) : gmap nat Loop :=
  l ∪ ((λ _, mkLoop zeroTracker Top) <$> heap c).

(** The goroutine at [p] moves on. *)
Inductive loop_step (p : nat) : System → System → Prop :=
| l_read s t w r :
    loops s !! p = Some (mkLoop t Top) → heap (control s) !! p = Some w → cancelled w = false →
    match r with Ok g => stored s !! GroupID (group w) = Some g ∧ GroupID g = GroupID (group w) | Err _ => True end →
    loop_step p s (with_loop p (mkLoop t (Got r)) s)
| l_end s t w pl :
    loops s !! p = Some (mkLoop t pl) → pl = Top ∨ pl = Idle → heap (control s) !! p = Some w → cancelled w = true →
    loop_step p s (with_loop p (mkLoop t Gone) (with_control (closeListener p (control s)) s))
| l_unreadable s t e now :
    loops s !! p = Some (mkLoop t (Got (Err e))) →
    loop_step p s (with_loop p (mkLoop (Invalidate t now) Idle) (with_control (policyUnreadable p (control s)) s))
| l_install s t g now :
    loops s !! p = Some (mkLoop t (Got (Ok g))) →
    loop_step p s
      (let '(c, active) := install p g (control s) in
       with_loop p (if active : bool then mkLoop t (Active g) else mkLoop (Invalidate t now) Idle) (with_control c s))
| l_probe s t g :
    loops s !! p = Some (mkLoop t (Active g)) → probes s < 4 →
    loop_step p s (with_loop p (mkLoop t (Probing g)) (with_probes (S (probes s)) s))
| l_no_probe s t g :
    loops s !! p = Some (mkLoop t (Active g)) → loop_step p s (with_loop p (mkLoop t Idle) s)
| l_observe_fails s t g now :
    loops s !! p = Some (mkLoop t (Probing g)) →
    loop_step p s (with_loop p (mkLoop (Invalidate t now) Idle)
      (with_probes (pred (probes s)) (with_control (observationFailed p (control s)) s)))
| l_observe s t g sample :
    loops s !! p = Some (mkLoop t (Probing g)) →
    loop_step p s (with_loop p (mkLoop t (Sampled g sample))
      (with_probes (pred (probes s)) (with_control (setReason "" p (control s)) s)))
| l_awake s t g sample :
    loops s !! p = Some (mkLoop t (Sampled g sample)) → GroupPhase g ≠ Sleeping →
    loop_step p s (with_loop p (mkLoop t (Polled g sample false)) s)
| l_reserve s t g sample (W : World) n r c n' :
    loops s !! p = Some (mkLoop t (Sampled g sample)) → GroupPhase g = Sleeping → Reserve g (control s) n = (r, (c, n')) →
    loop_step p s (with_loop p (mkLoop t (if is_ok r then Reserved g sample else Polled g sample false)) (with_control c s))
| l_snapshot s t g sample now :
    loops s !! p = Some (mkLoop t (Reserved g sample)) →
    loop_step p s
      (let '(c, pending, invalid) := snapshot p (control s) in
       with_loop p (mkLoop (if invalid : bool then Invalidate t now else t) (Polled g sample pending)) (with_control c s))
| l_evaluate s t g sample pending now :
    loops s !! p = Some (mkLoop t (Polled g sample pending)) →
    loop_step p s
      (let '(t', d) := Evaluate t g sample pending now in
       with_loop p (mkLoop t' (if (DAction d =? "")%string then Idle else Deciding g (DAction d)))
         (with_control (if (PauseReason d =? "")%string then control s else closeListener p (control s)) s))
| l_execute s t g a :
    loops s !! p = Some (mkLoop t (Deciding g a)) → transitions s < 2 →
    loop_step p s (with_loop p (mkLoop t (Executing g a)) (with_transitions (S (transitions s)) s))
| l_busy s t g a :
    loops s !! p = Some (mkLoop t (Deciding g a)) → 2 ≤ transitions s → loop_step p s (with_loop p (mkLoop t Idle) s)
| l_release s t g a (W : World) n r c n' :
    loops s !! p = Some (mkLoop t (Executing g a)) → Release g (control s) n = (r, (c, n')) → loop_step p s (with_control c s)
| l_take s t g a (W : World) n r c n' :
    loops s !! p = Some (mkLoop t (Executing g a)) → Reserve g (control s) n = (r, (c, n')) → loop_step p s (with_control c s)
| l_executed s t g a now :
    loops s !! p = Some (mkLoop t (Executing g a)) →
    loop_step p s (with_loop p (mkLoop (Invalidate t now) Idle) (with_transitions (pred (transitions s)) s))
| l_again s t :
    loops s !! p = Some (mkLoop t Idle) → loop_step p s (with_loop p (mkLoop t Top) s).

(** Everything else that happens to the controller. *)
Inductive call_step : System → System → Prop :=
| c_run s groups c :
    reconcile groups (control s) = Ok c →
    call_step s (mkSystem c (spawn c (loops s)) (probes s) (transitions s) (stored s))
| c_stop s : call_step s (with_control (cancelAll (control s)) s)
| c_suspend s id : call_step s (with_control (SuspendGroup id (control s)) s)
| c_suspend_stack s id : call_step s (with_control (SuspendStack id (control s)) s)
| c_notify s : call_step s (with_control (Notify (control s)) s)
| c_traffic s p w l l' :
    heap (control s) !! p = Some w → listener w = Some l → Traffic.config l' = Traffic.config l →
    call_step s (with_control (set_worker p (mkWorker (group w) (Some l') (suspended w) (reason w) (cancelled w)) (control s)) s).
(** The steps that leave the database alone, and all steps. *)
Definition local_step (s s' : System) : Prop := (∃ p, loop_step p s s') ∨ call_step s s'.
Inductive step : System → System → Prop :=
| step_local s s' : local_step s s' → step s s'
| step_store s db : step s (mkSystem (control s) (loops s) (probes s) (transitions s) db).
End Controller.
