(* ===== verification/ControllerLaws.v ===== *)
(** * What the on-demand controller guarantees

    Ports are only held for the revision of the policy that is in effect, and
    never while the group is suspended; observations and transitions are
    bounded; and under which condition a suspension lasts. *)
From S2P Require Import Prelude Traffic OnDemandPolicy Controller.

Module ControllerLaws.
Import OnDemandPolicy Controller.
#[local] Existing Instances Traffic.Binding_eq_dec Traffic.Binding_countable.

(** ** The effect of the operations on the heap *)
Definition unlisten (w : groupWorker) : groupWorker := mkWorker (group w) None (suspended w) (reason w) (cancelled w).
Definition suspended_ (w : groupWorker) : groupWorker := mkWorker (group w) None true (reason w) (cancelled w).
Definition with_reason (r : string) (w : groupWorker) : groupWorker := mkWorker (group w) (listener w) (suspended w) r (cancelled w).

Lemma heap_close p c : heap (closeListener p c) = alter unlisten p (heap c).
Proof.
  unfold closeListener. apply map_eq. intros q. destruct (decide (q = p)) as [->|Hne].
  - rewrite lookup_alter_eq. destruct (heap c !! p) as [w|] eqn:E; [|by rewrite E]. destruct w as [g [l|] s r k]; simpl.
    + by rewrite lookup_insert_eq.
    + by rewrite E.
  - rewrite lookup_alter_ne by done. destruct (heap c !! p) as [w|]; [|done]. destruct (listener w); [|done]. simpl.
    by rewrite lookup_insert_ne.
Qed.
Lemma workers_close p c : workers (closeListener p c) = workers c.
Proof. unfold closeListener. destruct (heap c !! p) as [w|]; [|done]. by destruct (listener w). Qed.
Lemma heap_suspend p c : heap (suspend p c) = alter suspended_ p (heap c).
Proof.
  unfold suspend. apply map_eq. intros q. destruct (heap c !! p) as [w|] eqn:E.
  - rewrite heap_close. destruct (decide (q = p)) as [->|Hne].
    + rewrite !lookup_alter_eq. simpl. by rewrite lookup_insert_eq, E.
    + rewrite !lookup_alter_ne by done. simpl. by rewrite lookup_insert_ne.
  - destruct (decide (q = p)) as [->|Hne]; [by rewrite lookup_alter_eq, E|by rewrite lookup_alter_ne].
Qed.
Lemma workers_suspend p c : workers (suspend p c) = workers c.
Proof. unfold suspend. destruct (heap c !! p); [|done]. by rewrite workers_close. Qed.
Lemma heap_reason r p c : heap (setReason r p c) = alter (with_reason r) p (heap c).
Proof.
  unfold setReason. apply map_eq. intros q. destruct (heap c !! p) as [w|] eqn:E.
  - destruct (decide (q = p)) as [->|Hne]; simpl.
    + by rewrite lookup_alter_eq, lookup_insert_eq, E.
    + by rewrite lookup_alter_ne, lookup_insert_ne.
  - destruct (decide (q = p)) as [->|Hne]; [by rewrite lookup_alter_eq, E|by rewrite lookup_alter_ne].
Qed.
(** What [install] makes of a worker. *)
Definition installed (g : Group) (w : groupWorker) : groupWorker :=
  let newer := negb (Revision g =? Revision (group w))%Z in
  let s := if newer then false else suspended w in
  mkWorker g (if activeFor g s && negb newer then listener w else None) s (reason w) (cancelled w).
Lemma install_spec p g c :
  heap (install p g c).1 = alter (installed g) p (heap c) ∧
  (install p g c).2 = match heap c !! p with
    | Some w => activeFor g (if negb (Revision g =? Revision (group w))%Z then false else suspended w) | None => false end.
Proof.
  unfold install. destruct (heap c !! p) as [w|] eqn:E.
  2: { split; [|done]. simpl. apply map_eq. intros q. destruct (decide (q = p)) as [->|Hne]; [by rewrite lookup_alter_eq, E|by rewrite lookup_alter_ne]. }
  set (newer := negb (Revision g =? Revision (group w))%Z). set (s := if newer then false else suspended w).
  assert (∀ c1 l, heap c1 = (if newer then alter unlisten p (heap c) else heap c) → l = (if newer then None else listener w) →
    heap (set_worker p (mkWorker g l s (reason w) (cancelled w)) c1) =
      <[p := mkWorker g (if newer then None else listener w) s (reason w) (cancelled w)]> (heap c)) as Hset.
  { intros c1 l Hc ->. simpl. rewrite Hc. apply map_eq. intros q. destruct (decide (q = p)) as [->|Hne]; [by rewrite !lookup_insert_eq|].
    rewrite !lookup_insert_ne by done. destruct newer; [by rewrite lookup_alter_ne|done]. }
  assert (heap (if newer then closeListener p c else c) = if newer then alter unlisten p (heap c) else heap c) as Hc1
    by (destruct newer; [apply heap_close|done]).
  assert (match heap (if newer then closeListener p c else c) !! p with Some w1 => listener w1 | None => None end =
    if newer then None else listener w) as Hl.
  { rewrite Hc1. destruct newer; [by rewrite lookup_alter_eq, E|by rewrite E]. }
  assert (alter (installed g) p (heap c) = <[p := installed g w]> (heap c)) as Hins.
  { apply map_eq. intros q. destruct (decide (q = p)) as [->|Hne]; [by rewrite lookup_alter_eq, lookup_insert_eq, E|].
    by rewrite lookup_alter_ne, lookup_insert_ne. }
  destruct (activeFor g s) eqn:Ea; cbn [fst snd]; (split; [|done]); rewrite Hins.
  - rewrite Hset by done. f_equal. unfold installed. fold newer s. rewrite Ea. by destruct newer.
  - rewrite heap_close, Hset by done. apply map_eq. intros q. destruct (decide (q = p)) as [->|Hne].
    + rewrite lookup_alter_eq, !lookup_insert_eq. simpl. f_equal. unfold unlisten, installed. simpl. fold newer s. by rewrite Ea.
    + by rewrite lookup_alter_ne, !lookup_insert_ne.
Qed.
Lemma workers_install p g c : workers (install p g c).1 = workers c.
Proof.
  unfold install. destruct (heap c !! p) as [w|]; [|done].
  destruct (activeFor _ _); cbn [fst]; rewrite ?workers_close; simpl; by destruct (negb _); rewrite ?workers_close.
Qed.
Lemma heap_snapshot p c : heap (snapshot p c).1.1 = heap c ∨ heap (snapshot p c).1.1 = alter unlisten p (heap c).
Proof.
  unfold snapshot. destruct (heap c !! p) as [w|]; [|by left]. destruct (listener w) as [l|]; [|by left].
  destruct (Traffic.Snapshot l); [by left|]. right. apply heap_close.
Qed.
Lemma alter_twice {A : Type} (f g : A → A) p (m : gmap nat A) : alter f p (alter g p m) = alter (λ x, f (g x)) p m.
Proof.
  apply map_eq. intros q. destruct (decide (q = p)) as [->|Hne]; [|by rewrite !lookup_alter_ne].
  rewrite !lookup_alter_eq. by destruct (m !! p).
Qed.
(** ** The ports *)
Lemma guarded_cases `{W : World} g f c n :
  guarded g f c n = (Err OnDemand_ErrConflict, (c, n)) ∨
  ∃ p w, workers c !! GroupID g = Some p ∧ heap c !! p = Some w ∧ Revision (group w) = Revision g ∧ suspended w = false ∧
    guarded g f c n = f p w c n.
Proof.
  unfold guarded, worker. destruct (workers c !! GroupID g) as [p|] eqn:Ep; simpl; [|by left].
  destruct (heap c !! p) as [w|] eqn:Ew; simpl; [|by left].
  destruct (Z.eqb_spec (Revision (group w)) (Revision g)) as [Er|]; simpl; [|by left].
  destruct (suspended w) eqn:Es; [by left|]. right. by exists p, w.
Qed.
Lemma Release_spec `{W : World} g c n r c' n' :
  Release g c n = (r, (c', n')) → workers c' = workers c ∧ (heap c' = heap c ∨ ∃ q, heap c' = alter unlisten q (heap c)).
Proof.
  unfold Release. intros E. destruct (guarded_cases g (λ p w c n, (Ok tt, (closeListener p c, n))) c n) as [Ec|(p & w & _ & _ & _ & _ & Ec)];
    rewrite Ec in E; injection E as <- <- <-; [by split; [|left]|].
  split; [apply workers_close|]. right. exists p. apply heap_close.
Qed.
Lemma Listen_config `{W : World} k s n l s' n' : Traffic.Listen k s n = (Ok l, (s', n')) → Traffic.config l = k.
Proof.
  unfold Traffic.Listen. intros E. apply bind_ok in E as (u & s1 & n1 & _ & E). apply bind_ok in E as (u2 & s2 & n2 & _ & E).
  by apply ret_ok in E as (<- & _ & _).
Qed.
Definition listening (l : Traffic.Listener) (w : groupWorker) : groupWorker :=
  mkWorker (group w) (Some l) (suspended w) (reason w) (cancelled w).
Lemma Reserve_spec `{W : World} g c n r c' n' :
  Reserve g c n = (r, (c', n')) →
  workers c' = workers c ∧
  (heap c' = heap c ∨ ∃ q w l, workers c !! GroupID g = Some q ∧ heap c !! q = Some w ∧ Revision (group w) = Revision g ∧
     suspended w = false ∧ Traffic.config l = wakeConfig g ∧ heap c' = <[q := listening l w]> (heap c)).
Proof.
  unfold Reserve. set (f := λ (p : nat) (w : groupWorker), match listener w with Some _ => mret tt | None => _ end).
  intros E. destruct (guarded_cases g f c n) as [Ec|(p & w & Hp & Hw & Hr & Hs & Ec)]; rewrite Ec in E.
  - injection E as _ <- _. by split; [|left].
  - unfold f in E. destruct (listener w) as [l0|] eqn:El.
    + injection E as _ <- _. by split; [|left].
    + unfold zoom, mbind, M_bind, keep in E. destruct (Traffic.Listen (wakeConfig g) (view c) n) as [[l|e] [s1 n1]] eqn:E1.
      * injection E as _ <- _. split; [done|]. right. exists p, w, l. by apply Listen_config in E1.
      * injection E as _ <- _. by split; [|left].
Qed.

(** ** Listeners belong to the policy in effect *)
Definition good (w : groupWorker) : Prop :=
  ∀ l, listener w = Some l → suspended w = false ∧ Traffic.Generation (Traffic.config l) = wrapU64 (Revision (group w)).
Definition Good (h : gmap nat groupWorker) : Prop := map_Forall (λ _, good) h.
Lemma Good_alter f p h : (∀ w, good w → good (f w)) → Good h → Good (alter f p h).
Proof.
  intros Hf Hg q w. destruct (decide (q = p)) as [->|Hne].
  - rewrite lookup_alter_eq. intros (w0 & Hw & ->)%fmap_Some. apply Hf. by apply (Hg p).
  - rewrite lookup_alter_ne by done. apply Hg.
Qed.
Lemma good_unlisten w : good w → good (unlisten w).
Proof. by intros _ l. Qed.
Lemma good_suspended w : good w → good (suspended_ w).
Proof. by intros _ l. Qed.
Lemma good_reason r w : good w → good (with_reason r w).
Proof. done. Qed.
Lemma good_cancel w : good w → good (cancel w).
Proof. done. Qed.
Lemma good_installed g w : good w → good (installed g w).
Proof.
  intros Hw l. unfold installed. cbn [listener suspended group]. destruct (Z.eqb_spec (Revision g) (Revision (group w))) as [Er|]; simpl; [|by rewrite andb_false_r].
  destruct (activeFor g (suspended w)); simpl; [|done]. intros Hl. rewrite Er. by apply Hw.
Qed.
Lemma Good_insert p w h : good w → Good h → Good (<[p := w]> h).
Proof. intros Hw Hh. by apply map_Forall_insert_2. Qed.
Lemma Good_foldl {A : Type} (f : Controller → A → Controller) l : ∀ c,
  (∀ c x, Good (heap c) → Good (heap (f c x))) → Good (heap c) → Good (heap (foldl f c l)).
Proof. induction l as [|x l IH]; intros c Hf Hc; simpl; [done|]. apply IH; auto. Qed.
Lemma Good_heap_eq (c c' : Controller) : heap c' = heap c → Good (heap c) → Good (heap c').
Proof. by intros ->. Qed.
Lemma Good_suspend p c : Good (heap c) → Good (heap (suspend p c)).
Proof. intros Hc. rewrite heap_suspend. apply Good_alter; [apply good_suspended|done]. Qed.
Lemma Good_reconcile groups c c' : reconcile groups c = Ok c' → Good (heap c) → Good (heap c').
Proof.
  unfold reconcile. destruct (_ <? _)%Z; [done|]. intros [= <-] Hc. apply Good_foldl; [|apply Good_foldl; [|done]].
  - intros c0 [id p] H0. unfold dropWorker. destruct (bool_decide _); [done|]. simpl. apply Good_alter; [apply good_cancel|done].
  - intros c0 g H0. unfold startWorker. destruct (workers c0 !! GroupID g); [done|]. simpl. apply Good_insert; [by intros l|done].
Qed.
Lemma Good_cancelAll c : Good (heap c) → Good (heap (cancelAll c)).
Proof.
  unfold cancelAll. simpl. generalize (heap c) as h. induction (map_to_list (workers c)).*2 as [|p l IH]; intros h Hh; simpl; [done|].
  apply IH, Good_alter; [apply good_cancel|done].
Qed.
Lemma Good_loop p s s' : loop_step p s s' → Good (heap (control s)) → Good (heap (control s')).
Proof.
  intros Hs Hg. destruct Hs; try exact Hg; simpl.
  - rewrite heap_close. apply Good_alter; [apply good_unlisten|done].
  - unfold policyUnreadable. rewrite heap_reason, heap_close. apply Good_alter; [done|]. apply Good_alter; [apply good_unlisten|done].
  - destruct (install p g (control s)) as [c a] eqn:E. simpl. destruct (install_spec p g (control s)) as [Eh _].
    rewrite E in Eh. simpl in Eh. rewrite Eh. apply Good_alter; [apply good_installed|done].
  - unfold observationFailed. rewrite heap_reason, heap_close. apply Good_alter; [done|]. apply Good_alter; [apply good_unlisten|done].
  - rewrite heap_reason. by apply Good_alter.
  - apply Reserve_spec in H1 as [_ [->|(q & w & l & _ & Hw & Hr & Hsu & Hl & ->)]]; [done|].
    apply Good_insert; [|done]. intros l' [= <-]. split; [done|]. cbn [group listening]. by rewrite Hl, Hr.
  - pose proof (heap_snapshot p (control s)) as Hsn. destruct (snapshot p (control s)) as [[c pe] iv]. simpl in *.
    destruct Hsn as [->| ->]; [done|]. apply Good_alter; [apply good_unlisten|done].
  - destruct (Evaluate t g sample pending now) as [t' d]. simpl. destruct (_ =? _)%string; [done|].
    rewrite heap_close. apply Good_alter; [apply good_unlisten|done].
  - apply Release_spec in H0 as [_ [->|[q ->]]]; [done|]. apply Good_alter; [apply good_unlisten|done].
  - apply Reserve_spec in H0 as [_ [->|(q & w & l & _ & Hw & Hr & Hsu & Hl & ->)]]; [done|].
    apply Good_insert; [|done]. intros l' [= <-]. split; [done|]. cbn [group listening]. by rewrite Hl, Hr.
Qed.
Lemma Good_call s s' : call_step s s' → Good (heap (control s)) → Good (heap (control s')).
Proof.
  intros Hs Hg. destruct Hs; simpl.
  - by eapply Good_reconcile.
  - by apply Good_cancelAll.
  - unfold SuspendGroup. simpl. destruct (workers (control s) !! id); [by apply Good_suspend|done].
  - unfold SuspendStack. simpl. apply Good_foldl; [|done]. intros c p Hc. destruct (ofStack id c p); [by apply Good_suspend|done].
  - done.
  - apply Good_insert; [|done]. intros l2 [= <-]. cbn [group suspended]. rewrite H1. by apply (Hg p w).
Qed.
Definition reachable (s : System) : Prop := ∃ db, star step (initial db) s.
Lemma Good_reachable s : reachable s → Good (heap (control s)).
Proof.
  intros [db Hr]. apply (star_invariant step (λ s, Good (heap (control s)))) in Hr; [done| |intros ? ? Hx; simpl in Hx; by apply lookup_empty_Some in Hx].
  intros s1 s2 Hg Hs. destruct Hs as [s1 s2 [[p Hl]|Hc]|s1 db']; [by eapply Good_loop|by eapply Good_call|done].
Qed.
(** ** Bounded observations and transitions *)
Definition isProbing (l : Loop) : bool := match place l with Probing _ => true | _ => false end.
Definition isExecuting (l : Loop) : bool := match place l with Executing _ _ => true | _ => false end.
Definition count (f : Loop → bool) (m : gmap nat Loop) : nat := size (filter (λ e, f e.2 = true) m).
Lemma count_insert f p l0 l m :
  m !! p = Some l0 → count f (<[p := l]> m) + (if f l0 then 1 else 0) = count f m + (if f l then 1 else 0).
Proof.
  intros Hp. assert (∀ l m, m !! p = None → count f (<[p := l]> m) = count f m + (if f l then 1 else 0)) as Hnew.
  { intros x k Hk. unfold count. destruct (f x) eqn:E.
    - rewrite map_filter_insert_True by done. rewrite map_size_insert_None; [lia|]. by apply map_lookup_filter_None; left.
    - rewrite map_filter_insert_False by (simpl; congruence). rewrite delete_id by done. lia. }
  assert (delete p m !! p = None) as Hd by apply lookup_delete_eq.
  rewrite <-(insert_delete_eq m p l), Hnew by done.
  rewrite <-(insert_delete_id m p l0) at 2 by done. rewrite Hnew by done. destruct (f l0), (f l); lia.
Qed.
Lemma count_spawn f c m : f (mkLoop zeroTracker Top) = false → count f (spawn c m) = count f m.
Proof.
  intros Hf. unfold count, spawn. f_equal. apply map_eq. intros p. apply option_eq. intros l. rewrite !map_lookup_filter_Some.
  rewrite lookup_union_Some_raw, lookup_fmap. split; [|naive_solver].
  intros [[Hl|[_ Hl]] Hx]; [done|]. apply fmap_Some in Hl as (w & _ & ->). simpl in Hx. congruence.
Qed.
Definition Bounded (s : System) : Prop :=
  count isProbing (loops s) = probes s ∧ probes s ≤ 4 ∧ count isExecuting (loops s) = transitions s ∧ transitions s ≤ 2.
(** The goroutine at [p] goes from [l0] to [l]. *)
Lemma Bounded_move p l0 l c n m s :
  loops s !! p = Some l0 → Bounded s →
  n + (if isProbing l0 then 1 else 0) = probes s + (if isProbing l then 1 else 0) → n ≤ 4 →
  m + (if isExecuting l0 then 1 else 0) = transitions s + (if isExecuting l then 1 else 0) → m ≤ 2 →
  Bounded (mkSystem c (<[p := l]> (loops s)) n m (stored s)).
Proof.
  intros Hp (H1 & H2 & H3 & H4) Hn Hn4 Hm Hm2. pose proof (count_insert isProbing p l0 l _ Hp). pose proof (count_insert isExecuting p l0 l _ Hp).
  unfold Bounded. simpl. lia.
Qed.
Lemma count_pos f p l m : m !! p = Some l → f l = true → 1 ≤ count f m.
Proof.
  intros Hp Hf. unfold count. destruct (size (filter _ m)) as [|k] eqn:E; [|lia].
  apply map_size_empty_inv in E. assert (filter (λ e : nat * Loop, f e.2 = true) m !! p = Some l) as Hl by by apply map_lookup_filter_Some.
  by rewrite E in Hl.
Qed.
Lemma Bounded_loop p s s' : loop_step p s s' → Bounded s → Bounded s'.
Proof.
  intros Hs Hb. pose proof Hb as (H1 & H2 & H3 & H4). destruct Hs as
    [s t w r Hp|s t w pl Hp Hpl|s t e now Hp|s t g now Hp|s t g Hp Hlt|s t g Hp|s t g now Hp|s t g sample Hp|s t g sample Hp|s t g sample W n r c n' Hp|
     s t g sample now Hp|s t g sample pending now Hp|s t g a Hp Hlt|s t g a Hp|s t g a W n r c n' Hp|s t g a W n r c n' Hp|s t g a now Hp|s t Hp].
  all: try (pose proof (count_pos isProbing p _ _ Hp eq_refl) as Hpos).
  all: try (pose proof (count_pos isExecuting p _ _ Hp eq_refl) as Hpos2).
  - apply (Bounded_move p _ _ _ _ _ s Hp Hb); simpl; lia.
  - destruct Hpl as [->| ->]; apply (Bounded_move p _ _ _ _ _ s Hp Hb); simpl; lia.
  - apply (Bounded_move p _ _ _ _ _ s Hp Hb); simpl; lia.
  - destruct (install p g (control s)) as [c []]; apply (Bounded_move p _ _ _ _ _ s Hp Hb); simpl; lia.
  - apply (Bounded_move p _ _ _ _ _ s Hp Hb); simpl; lia.
  - apply (Bounded_move p _ _ _ _ _ s Hp Hb); simpl; lia.
  - apply (Bounded_move p _ _ _ _ _ s Hp Hb); simpl; lia.
  - apply (Bounded_move p _ _ _ _ _ s Hp Hb); simpl; lia.
  - apply (Bounded_move p _ _ _ _ _ s Hp Hb); simpl; lia.
  - destruct (is_ok r); apply (Bounded_move p _ _ _ _ _ s Hp Hb); simpl; lia.
  - destruct (snapshot p (control s)) as [[c pe] iv]. apply (Bounded_move p _ _ _ _ _ s Hp Hb); simpl; lia.
  - destruct (Evaluate t g sample pending now) as [t' d]. destruct (DAction d =? "")%string; apply (Bounded_move p _ _ _ _ _ s Hp Hb); simpl; lia.
  - apply (Bounded_move p _ _ _ _ _ s Hp Hb); simpl; lia.
  - apply (Bounded_move p _ _ _ _ _ s Hp Hb); simpl; lia.
  - done.
  - done.
  - apply (Bounded_move p _ _ _ _ _ s Hp Hb); simpl; lia.
  - apply (Bounded_move p _ _ _ _ _ s Hp Hb); simpl; lia.
Qed.
Lemma Bounded_call s s' : call_step s s' → Bounded s → Bounded s'.
Proof. intros Hs Hb. destruct Hs; try exact Hb. unfold Bounded. simpl. by rewrite !count_spawn. Qed.
Lemma Bounded_reachable s : reachable s → Bounded s.
Proof.
  intros [db Hr]. apply (star_invariant step Bounded) in Hr; [done| |].
  - intros s1 s2 Hg Hs. destruct Hs as [s1 s2 [[p Hl]|Hc]|s1 db']; [by eapply Bounded_loop|by eapply Bounded_call|done].
  - unfold Bounded, count. simpl. rewrite !map_filter_empty, map_size_empty. lia.
Qed.

(** Whatever the goroutines, the callers and the store do: a listener is only
    armed while its group is not suspended, for the revision of the policy in
    effect; at most four observations and two transitions run at a time. *)
Theorem armed_for_the_policy_in_effect s :
  reachable s →
  (∀ p w l, heap (control s) !! p = Some w → listener w = Some l →
     suspended w = false ∧ Traffic.Generation (Traffic.config l) = wrapU64 (Revision (group w))) ∧
  count isProbing (loops s) ≤ 4 ∧ count isExecuting (loops s) ≤ 2.
Proof.
  intros Hr. split; [intros p w l Hw Hl; by apply (Good_reachable s Hr p w)|].
  destruct (Bounded_reachable s Hr) as (-> & H1 & -> & H2). done.
Qed.
(** ** Workers are filed under their groups *)
Definition ids (h : gmap nat groupWorker) : gmap nat string := (λ w, GroupID (group w)) <$> h.
Lemma ids_alter f p h : (∀ w, h !! p = Some w → GroupID (group (f w)) = GroupID (group w)) → ids (alter f p h) = ids h.
Proof.
  intros Hf. apply map_eq. intros q. unfold ids. rewrite !lookup_fmap. destruct (decide (q = p)) as [->|Hne].
  - rewrite lookup_alter_eq. destruct (h !! p) as [w|]; [|done]. simpl. f_equal. by apply Hf.
  - by rewrite lookup_alter_ne.
Qed.
Lemma ids_insert p w w' h : h !! p = Some w → GroupID (group w') = GroupID (group w) → ids (<[p := w']> h) = ids h.
Proof.
  intros Hp E. apply map_eq. intros q. unfold ids. rewrite !lookup_fmap. destruct (decide (q = p)) as [->|Hne].
  - rewrite lookup_insert_eq, Hp. simpl. by rewrite E.
  - by rewrite lookup_insert_ne.
Qed.
Lemma ids_installed p g (h : gmap nat groupWorker) : ids h !! p = Some (GroupID g) → ids (alter (installed g) p h) = ids h.
Proof.
  intros Hp. apply ids_alter. intros w Hw. unfold ids in Hp. rewrite lookup_fmap, Hw in Hp. simpl in *. by injection Hp as <-.
Qed.
Lemma ids_suspend p c : ids (heap (suspend p c)) = ids (heap c).
Proof. rewrite heap_suspend. by apply ids_alter. Qed.

Definition Filed (s : System) : Prop :=
  (∀ id p, workers (control s) !! id = Some p → ids (heap (control s)) !! p = Some id) ∧
  (∀ p t g, loops s !! p = Some (mkLoop t (Got (Ok g))) → ids (heap (control s)) !! p = Some (GroupID g)) ∧
  (∀ p, is_Some (loops s !! p) → is_Some (heap (control s) !! p)).
(** A step of a goroutine changes neither the map nor the names of workers. *)
Lemma loop_names p s s' :
  loop_step p s s' → Filed s → workers (control s') = workers (control s) ∧ ids (heap (control s')) = ids (heap (control s)).
Proof.
  intros Hs (_ & Hgot & _). destruct Hs; try done; simpl.
  - rewrite workers_close, heap_close. split; [done|by apply ids_alter].
  - unfold policyUnreadable. rewrite heap_reason, heap_close. split.
    + unfold setReason. destruct (heap (closeListener p (control s)) !! p); simpl; apply workers_close.
    + rewrite !ids_alter; done.
  - pose proof (workers_install p g (control s)) as Hw. destruct (install_spec p g (control s)) as [Eh _].
    destruct (install p g (control s)) as [c a]. simpl in *. rewrite Eh. split; [done|]. by apply ids_installed, (Hgot p t).
  - unfold observationFailed. rewrite heap_reason, heap_close. split.
    + unfold setReason. destruct (heap (closeListener p (control s)) !! p); simpl; apply workers_close.
    + rewrite !ids_alter; done.
  - rewrite heap_reason. split; [unfold setReason; by destruct (heap (control s) !! p)|by apply ids_alter].
  - apply Reserve_spec in H1 as [-> [->|(q & w & l & _ & Hw & _ & _ & _ & ->)]]; [done|]. split; [done|]. by eapply ids_insert.
  - pose proof (heap_snapshot p (control s)) as Hsn.
    assert (workers (snapshot p (control s)).1.1 = workers (control s)) as Hw.
    { unfold snapshot. destruct (heap (control s) !! p) as [w|]; [|done]. destruct (listener w) as [l|]; [|done].
      destruct (Traffic.Snapshot l); [done|]. apply workers_close. }
    destruct (snapshot p (control s)) as [[c pe] iv]. simpl in *. split; [done|]. destruct Hsn as [->| ->]; [done|by apply ids_alter].
  - destruct (Evaluate t g sample pending now) as [t' d]. simpl. destruct (_ =? _)%string; [done|].
    rewrite workers_close, heap_close. split; [done|by apply ids_alter].
  - apply Release_spec in H0 as [-> [->|[q ->]]]; [done|]. split; [done|by apply ids_alter].
  - apply Reserve_spec in H0 as [-> [->|(q & w & l & _ & Hw & _ & _ & _ & ->)]]; [done|]. split; [done|]. by eapply ids_insert.
Qed.
(** The group that a goroutine is busy with. *)
Definition carries (pl : Place) (g : Group) : Prop :=
  match pl with
  | Active g' | Probing g' | Sampled g' _ | Reserved g' _ | Polled g' _ _ | Deciding g' _ | Executing g' _ => g' = g
  | _ => False
  end.
(** The goroutines' places after a step: what was read is what was stored, and a
    goroutine gets busy with a group that [install] found active. *)
Lemma loop_places p s s' :
  loop_step p s s' → stored s' = stored s ∧ ∃ l0, loops s !! p = Some l0 ∧
    (loops s' = loops s ∨ ∃ l, loops s' = <[p := l]> (loops s) ∧
      (∀ g, place l = Got (Ok g) → ∃ w, heap (control s) !! p = Some w ∧ stored s !! GroupID (group w) = Some g ∧ GroupID g = GroupID (group w)) ∧
      (∀ g, carries (place l) g → carries (place l0) g ∨ (place l0 = Got (Ok g) ∧ (install p g (control s)).2 = true))).
Proof.
  intros Hs. destruct Hs; simpl; try (split; [done|]; eexists; split; [eassumption|]).
  all: try (right; eexists; split; [reflexivity|]; simpl; split; [done|by auto]).
  all: try (by left).
  - right. eexists. split; [done|]. simpl. split; [|done]. intros g [= ->]. exists w. destruct H2. done.
  - destruct (install p g (control s)) as [c a] eqn:Ei. simpl. split; [done|]. eexists. split; [eassumption|].
    right. eexists. split; [done|]. destruct a; simpl; (split; [done|]); [|done]. intros g' <-. right. by rewrite Ei.
  - right. eexists. split; [done|]. destruct (is_ok r); simpl; (split; [done|by auto]).
  - destruct (snapshot p (control s)) as [[c pe] iv]. simpl. split; [done|]. eexists. split; [eassumption|].
    right. eexists. split; [done|]. simpl. split; [done|auto].
  - destruct (Evaluate t g sample pending now) as [t' d]. simpl. split; [done|]. eexists. split; [eassumption|].
    right. eexists. split; [done|]. destruct (DAction d =? "")%string; simpl; (split; [done|]); [done|auto].
Qed.
Lemma Filed_loop p s s' : loop_step p s s' → Filed s → Filed s'.
Proof.
  intros Hs Hf. destruct (loop_names p s s' Hs Hf) as [Hw Hi]. destruct (loop_places p s s' Hs) as (_ & l0 & Hp & Hl).
  destruct Hf as (H1 & H2 & H3). assert (∀ q, is_Some (heap (control s') !! q) ↔ is_Some (heap (control s) !! q)) as Hdom.
  { intros q. rewrite <-!(fmap_is_Some (λ w, GroupID (group w))), <-!lookup_fmap. by fold (ids (heap (control s'))) (ids (heap (control s))); rewrite Hi. }
  split; [intros id q; rewrite Hw, Hi; apply H1|]. rewrite Hi. split.
  - intros q t g. destruct Hl as [->|(l & -> & Hgot & _)]; [apply H2|].
    intros [[<- ->]|[_ Hq]]%lookup_insert_Some; [|by apply (H2 q t)].
    destruct (Hgot g eq_refl) as (w & Hh & _ & Hid). unfold ids. rewrite lookup_fmap, Hh, Hid. done.
  - intros q Hq. apply Hdom. destruct Hl as [Hl|(l & Hl & _)]; rewrite Hl in Hq; [by apply H3|].
    destruct (decide (q = p)) as [->|Hne]; [apply H3; by eexists|]. rewrite lookup_insert_ne in Hq by done. by apply H3.
Qed.
(** ** The workers follow the groups *)
Definition Wf (c : Controller) : Prop := ∀ id p, workers c !! id = Some p → ids (heap c) !! p = Some id.
(** [c'] has the workers of [c], as they were. *)
Definition Keeps (c c' : Controller) : Prop :=
  workers c ⊆ workers c' ∧ heap c ⊆ heap c' ∧ (∀ p w, heap c !! p = None → heap c' !! p = Some w → cancelled w = false ∧ listener w = None).
Lemma start_spec c g :
  Wf c → Wf (startWorker c g) ∧ Keeps c (startWorker c g) ∧ dom (workers (startWorker c g)) = {[GroupID g]} ∪ dom (workers c).
Proof.
  intros Hw. unfold startWorker. destruct (workers c !! GroupID g) as [p|] eqn:E.
  - split; [done|]. split; [split; [done|]; split; [done|]; intros p' w H1 H2; by rewrite H1 in H2|].
    apply leibniz_equiv. assert (GroupID g ∈ dom (workers c)) by by apply elem_of_dom. set_solver.
  - set (p := fresh (dom (heap c))). assert (heap c !! p = None) as Hp by (apply not_elem_of_dom, is_fresh). split; [|split].
    + intros id q. simpl. unfold ids. rewrite fmap_insert. simpl. intros [[<- <-]|[Hne Hq]]%lookup_insert_Some; [by rewrite lookup_insert_eq|].
      rewrite lookup_insert_ne; [by apply Hw|]. intros <-. apply Hw in Hq. unfold ids in Hq. by rewrite lookup_fmap, Hp in Hq.
    + split; [by apply insert_subseteq|]. split; [by apply insert_subseteq|]. simpl. intros q w Hq [[_ <-]|[_ Hx]]%lookup_insert_Some; [done|].
      by rewrite Hq in Hx.
    + simpl. by rewrite dom_insert_L.
Qed.
Lemma starts_spec groups : ∀ c,
  Wf c → Wf (foldl startWorker c groups) ∧ Keeps c (foldl startWorker c groups) ∧
  dom (workers (foldl startWorker c groups)) = list_to_set (GroupID <$> groups) ∪ dom (workers c).
Proof.
  induction groups as [|g groups IH]; intros c Hw; simpl.
  - split; [done|]. split; [split; [done|]; split; [done|]; intros p w H1 H2; by rewrite H1 in H2|]. apply leibniz_equiv. set_solver.
  - destruct (start_spec c g Hw) as (Hw1 & (H1 & H2 & H3) & Hd). destruct (IH _ Hw1) as (Hw2 & (H4 & H5 & H6) & Hd2).
    split; [done|]. split; [|rewrite Hd2, Hd; apply leibniz_equiv; set_solver]. split; [by etrans|]. split; [by etrans|].
    intros p w Hp Hq. destruct (heap (startWorker c g) !! p) as [w1|] eqn:E; [|by eapply H6].
    rewrite (lookup_weaken _ _ _ _ E H5) in Hq. injection Hq as <-. by eapply H3.
Qed.
Lemma drops_spec seen l : ∀ c,
  (∀ id, workers (foldl (dropWorker seen) c l) !! id =
     if bool_decide (id ∈ l.*1) && negb (bool_decide (id ∈ seen)) then None else workers c !! id) ∧
  (∀ p, heap (foldl (dropWorker seen) c l) !! p =
     if existsb (λ e, bool_decide (e.2 = p) && negb (bool_decide (e.1 ∈ seen))) l then cancel <$> heap c !! p else heap c !! p).
Proof.
  induction l as [|[id0 p0] l IH]; intros c; [split; done|]. destruct (IH (dropWorker seen c (id0, p0))) as [Hw Hh].
  split.
  - intros id. cbn [foldl]. rewrite Hw. rewrite fmap_cons. cbn [fst].
    assert (workers (dropWorker seen c (id0, p0)) !! id = if bool_decide (id = id0) && negb (bool_decide (id0 ∈ seen)) then None else workers c !! id) as ->.
    { unfold dropWorker. cbn [fst]. destruct (bool_decide (id0 ∈ seen)); [by rewrite andb_false_r|]. rewrite andb_true_r. cbn [workers].
      destruct (bool_decide_reflect (id = id0)) as [->|]; [by rewrite lookup_delete_eq|by rewrite lookup_delete_ne]. }
    destruct (bool_decide_reflect (id = id0)) as [->|Hne].
    + rewrite (bool_decide_eq_true_2 (id0 ∈ id0 :: l.*1)) by left. by destruct (bool_decide (id0 ∈ seen)), (bool_decide (id0 ∈ l.*1)).
    + rewrite andb_false_l. assert (bool_decide (id ∈ id0 :: l.*1) = bool_decide (id ∈ l.*1)) as ->; [|done].
      apply bool_decide_ext. rewrite elem_of_cons. tauto.
  - intros p. simpl foldl. rewrite Hh. unfold dropWorker. simpl. destruct (bool_decide_reflect (id0 ∈ seen)) as [Hs|Hs].
    + by rewrite andb_false_r.
    + simpl. rewrite andb_true_r. destruct (bool_decide_reflect (p0 = p)) as [->|Hne]; simpl.
      * rewrite lookup_alter_eq. destruct (existsb _ l); [|done]. by destruct (heap c !! p).
      * rewrite lookup_alter_ne by done. done.
Qed.

(** After a round of [Run] there is a worker for every group that was listed
    and for no other; workers that stay are left alone, new ones have nothing
    reserved, and the workers of groups that are gone have been told to stop. *)
Theorem workers_follow_the_groups groups c c' :
  Wf c → reconcile groups c = Ok c' →
  Wf c' ∧ dom (workers c') = list_to_set (GroupID <$> groups) ∧
  (∀ id p, workers c !! id = Some p →
     if bool_decide (id ∈ GroupID <$> groups) then workers c' !! id = Some p ∧ heap c' !! p = heap c !! p
     else heap c' !! p = cancel <$> heap c !! p) ∧
  (∀ p w, heap c !! p = None → heap c' !! p = Some w → cancelled w = false ∧ listener w = None).
Proof.
  intros Hw. unfold reconcile. destruct (_ <? _)%Z; [done|]. intros [= <-]. set (seen := GroupID <$> groups).
  destruct (starts_spec groups c Hw) as (Hw1 & (H1 & H2 & H3) & Hd). set (c1 := foldl startWorker c groups) in *.
  destruct (drops_spec seen (map_to_list (workers c1)) c1) as [Hdw Hdh]. set (c2 := foldl (dropWorker seen) c1 _) in *.
  assert (∀ id, (id ∈ (map_to_list (workers c1)).*1) ↔ is_Some (workers c1 !! id)) as Hin.
  { intros id. rewrite list_elem_of_fmap. split.
    - intros ([i p] & -> & Hi%elem_of_map_to_list). by eexists.
    - intros [p Hp]. exists (id, p). by rewrite elem_of_map_to_list. }
  assert (∀ id, workers c2 !! id = if bool_decide (id ∈ seen) then workers c1 !! id else None) as Hc2.
  { intros id. rewrite Hdw. destruct (bool_decide_reflect (id ∈ seen)) as [|]; [by rewrite andb_false_r|]. rewrite andb_true_r.
    destruct (bool_decide_reflect (id ∈ (map_to_list (workers c1)).*1)) as [|Hn]; [done|]. apply eq_None_not_Some. by rewrite <-Hin. }
  (* who is cancelled *)
  assert (∀ id p, workers c1 !! id = Some p →
    existsb (λ e, bool_decide (e.2 = p) && negb (bool_decide (e.1 ∈ seen))) (map_to_list (workers c1)) = negb (bool_decide (id ∈ seen))) as Hex.
  { intros id p Hp. destruct (bool_decide_reflect (id ∈ seen)) as [Hs|Hs]; simpl.
    - apply not_true_is_false. intros ([i q] & Hi%list_elem_of_In%elem_of_map_to_list & Hb%andb_prop)%existsb_exists.
      simpl in Hb. destruct Hb as [->%bool_decide_eq_true Hb%negb_true_iff%bool_decide_eq_false].
      apply Hw1 in Hp. apply Hw1 in Hi. congruence.
    - apply existsb_exists. exists (id, p). split; [by apply list_elem_of_In, elem_of_map_to_list|]. simpl.
      rewrite bool_decide_eq_true_2, bool_decide_eq_false_2 by done. done. }
  split; [|split; [|split]].
  - intros id p Hp. rewrite Hc2 in Hp. destruct (bool_decide _); [|done]. apply Hw1 in Hp. unfold ids in *. rewrite lookup_fmap in *. rewrite Hdh.
    destruct (existsb _ _); [|done]. by destruct (heap c1 !! p).
  - apply leibniz_equiv. intros id. rewrite elem_of_dom, Hc2, elem_of_list_to_set. destruct (bool_decide_reflect (id ∈ seen)) as [Hs|Hs].
    + split; [done|]. intros _. apply elem_of_dom. rewrite Hd. apply elem_of_union_l, elem_of_list_to_set. done.
    + split; [by intros []|done].
  - intros id p Hp. pose proof (lookup_weaken _ _ _ _ Hp H1) as Hp1. rewrite Hc2, Hdh, (Hex id p Hp1).
    assert (heap c1 !! p = heap c !! p) as ->.
    { apply Hw in Hp. unfold ids in Hp. rewrite lookup_fmap in Hp. destruct (heap c !! p) as [w|] eqn:E; [|done].
      by eapply lookup_weaken. }
    by destruct (bool_decide (id ∈ seen)).
  - intros p w Hn. rewrite Hdh. destruct (existsb _ _) eqn:Ee.
    + intros (w1 & Hw1' & ->)%fmap_Some. apply existsb_exists in Ee as ([i q] & Hi%list_elem_of_In%elem_of_map_to_list & Hb%andb_prop).
      simpl in Hb. destruct Hb as [->%bool_decide_eq_true Hb%negb_true_iff%bool_decide_eq_false].
      assert (i ∈ dom (workers c1)) as Hi1 by (by apply elem_of_dom; eexists). rewrite Hd in Hi1.
      apply elem_of_union in Hi1 as [Hi1|Hi1]; [by apply elem_of_list_to_set in Hi1|]. apply elem_of_dom in Hi1 as [q' Hq'].
      pose proof (lookup_weaken _ _ _ _ Hq' H1) as Hq1. rewrite Hi in Hq1. injection Hq1 as <-.
      apply Hw in Hq'. unfold ids in Hq'. by rewrite lookup_fmap, Hn in Hq'.
    + by apply H3.
Qed.
(** Every call keeps the workers there are, under their names. *)
Lemma call_names s s' :
  call_step s s' → Filed s → Wf (control s') ∧ (∀ p x, ids (heap (control s)) !! p = Some x → ids (heap (control s')) !! p = Some x).
Proof.
  intros Hs (Hf & _). destruct Hs; simpl.
  - unfold reconcile in H. destruct (_ <? _)%Z; [done|]. injection H as <-.
    destruct (starts_spec groups (control s) Hf) as (Hw1 & (_ & Hk & _) & _). set (c1 := foldl startWorker (control s) groups) in *.
    destruct (drops_spec (GroupID <$> groups) (map_to_list (workers c1)) c1) as [Hdw Hdh].
    assert (∀ p, ids (heap (foldl (dropWorker (GroupID <$> groups)) c1 (map_to_list (workers c1)))) !! p = ids (heap c1) !! p) as Hi.
    { intros p. unfold ids. rewrite !lookup_fmap, Hdh. destruct (existsb _ _); [|done]. by destruct (heap c1 !! p). }
    split.
    + intros id p Hp. rewrite Hi. apply Hw1. rewrite Hdw in Hp. by destruct (_ && _).
    + intros p x Hp. rewrite Hi. unfold ids in *. rewrite lookup_fmap in *. destruct (heap (control s) !! p) as [w|] eqn:E; [|done].
      by rewrite (lookup_weaken _ _ _ _ E Hk).
  - assert (∀ l h, ids (foldl (λ h p, alter cancel p h) h l) = ids h) as Hi.
    { induction l as [|p l IH]; intros h; simpl; [done|]. rewrite IH. by apply ids_alter. }
    unfold cancelAll. simpl. unfold Wf. simpl. rewrite Hi. done.
  - unfold SuspendGroup, Wf. simpl. destruct (workers (control s) !! id) as [p|]; [|done]. by rewrite workers_suspend, ids_suspend.
  - assert (∀ l c, workers (foldl (λ c p, if ofStack id c p then suspend p c else c) c l) = workers c ∧
      ids (heap (foldl (λ c p, if ofStack id c p then suspend p c else c) c l)) = ids (heap c)) as Hi.
    { induction l as [|p l IH]; intros c; simpl; [done|]. destruct (IH (if ofStack id c p then suspend p c else c)) as [-> ->].
      destruct (ofStack id c p); [by rewrite workers_suspend, ids_suspend|done]. }
    unfold SuspendStack, Wf. simpl. destruct (Hi (map_to_list (workers (control s))).*2 (control s)) as [-> ->]. done.
  - done.
  - unfold Wf. simpl. rewrite (ids_insert p w) by done. done.
Qed.
Lemma Filed_call s s' : call_step s s' → Filed s → Filed s'.
Proof.
  intros Hs Hf. destruct (call_names s s' Hs Hf) as [Hw Hk]. pose proof Hf as (H1 & H2 & H3). split; [done|].
  assert (∀ q, is_Some (heap (control s) !! q) → is_Some (heap (control s') !! q)) as Hdom.
  { intros q [w Hq]. specialize (Hk q (GroupID (group w))). unfold ids in Hk. rewrite !lookup_fmap, Hq in Hk. specialize (Hk eq_refl).
    destruct (heap (control s') !! q); [by eexists|done]. }
  destruct Hs; try (split; [intros p' t g Hp; by apply Hk, (H2 p' t)|intros q Hq; apply Hdom; by apply H3]).
  split.
  - intros p t g Hp. cbn [loops control] in *. unfold spawn in Hp. rewrite lookup_union_Some_raw, lookup_fmap in Hp.
    destruct Hp as [Hp|[_ Hp]]; [by apply Hk, (H2 p t)|]. by apply fmap_Some in Hp as (w & _ & [=]).
  - intros q [l Hq]. cbn [loops control] in *. unfold spawn in Hq. rewrite lookup_union_Some_raw, lookup_fmap in Hq.
    destruct Hq as [Hq|[_ Hq]]; [apply Hdom, H3; by eexists|]. apply fmap_Some in Hq as (w & Hq & _). by eexists.
Qed.
Lemma Filed_step s s' : step s s' → Filed s → Filed s'.
Proof. intros Hs Hf. destruct Hs as [s s' [[p Hl]|Hc]|s db']; [by eapply Filed_loop|by eapply Filed_call|done]. Qed.
Lemma Filed_reachable s : reachable s → Filed s.
Proof.
  intros [db Hr]. apply (star_invariant step Filed) in Hr; [done|by intros ? ? ? ?; eapply Filed_step|].
  split; [|split]; simpl; [intros ? ? Hx|intros ? ? ? Hx|intros ? [? Hx]]; by apply lookup_empty_Some in Hx.
Qed.

(** ** Suspension *)
Section quiet.
Context (held : Group) (p : nat).
(** What has been read since the policy was changed is that policy; what was
    read before has another revision. *)
Definition known (g : Group) : Prop := g = held ∨ Revision g ≠ Revision held.
Record Quiet (s : System) : Prop := {
  q_stored : stored s !! GroupID held = Some held;
  q_name : ids (heap (control s)) !! p = Some (GroupID held);
  q_worker : ∀ w, heap (control s) !! p = Some w → listener w = None ∧ (suspended w = true ∨ group w = held);
  q_busy : ∀ q l g, loops s !! q = Some l → carries (place l) g → GroupID g = GroupID held → Revision g ≠ Revision held;
  q_read : ∀ q t g, loops s !! q = Some (mkLoop t (Got (Ok g))) → GroupID g = GroupID held → known g;
  q_own : ∀ t g w, loops s !! p = Some (mkLoop t (Got (Ok g))) → heap (control s) !! p = Some w →
    g = held ∨ (suspended w = true ∧ Revision g = Revision (group w));
}.
Hypothesis (inactive : enabled held = false).
Lemma inactive_install s : activeFor held s = false.
Proof. unfold activeFor. by rewrite inactive. Qed.

(** The worker at [p] after a step. *)
Definition still (w w' : groupWorker) : Prop :=
  listener w' = None ∧ GroupID (group w') = GroupID (group w) ∧
  (suspended w' = true ∨ suspended w' = suspended w) ∧ group w' = group w.
Lemma still_alter f q (h : gmap nat groupWorker) w' :
  (∀ w, h !! p = Some w → listener w = None) →
  (∀ w, listener w = None → listener (f w) = None) →
  (∀ w, group (f w) = group w ∧ (suspended (f w) = true ∨ suspended (f w) = suspended w)) →
  alter f q h !! p = Some w' → ∃ w, h !! p = Some w ∧ still w w'.
Proof.
  intros Hn Hl Hf. destruct (decide (p = q)) as [<-|Hne].
  - rewrite lookup_alter_eq. intros (w & E & ->)%fmap_Some. exists w. split; [done|]. destruct (Hf w) as [H1 H2].
    unfold still. rewrite H1. split; [by apply Hl, Hn|done].
  - rewrite lookup_alter_ne by done. intros E. exists w'. unfold still. split; [done|]. split; [by apply Hn|auto].
Qed.
Lemma still_refl (h : gmap nat groupWorker) w' : (∀ w, h !! p = Some w → listener w = None) → h !! p = Some w' → ∃ w, h !! p = Some w ∧ still w w'.
Proof. intros Hn E. exists w'. unfold still. split; [done|]. split; [by apply Hn|auto]. Qed.
Lemma quiet_none s : Quiet s → ∀ w, heap (control s) !! p = Some w → listener w = None.
Proof. intros Hq w Hw. by destruct (q_worker _ Hq w Hw). Qed.
(** Nobody can arm the worker: whoever is busy with the group has another
    revision than the one that has been put in. *)
Lemma quiet_reserve `{W : World} s q l g n r c n' w' :
  Filed s → Quiet s → loops s !! q = Some l → carries (place l) g → Reserve g (control s) n = (r, (c, n')) →
  heap c !! p = Some w' → ∃ w, heap (control s) !! p = Some w ∧ still w w'.
Proof.
  intros (Hf & _) Hq Hl Hc E Hw'. apply Reserve_spec in E as [_ [Eh|(q0 & w & l0 & Hm & Hw & Hr & Hs & _ & Eh)]]; rewrite Eh in Hw'.
  - by apply still_refl; [apply quiet_none|].
  - apply lookup_insert_Some in Hw' as [[-> <-]|[Hne Hw']]; [|by apply still_refl; [apply quiet_none|]].
    exfalso. apply Hf in Hm. rewrite (q_name _ Hq) in Hm. injection Hm as Hid.
    destruct (q_worker _ Hq w Hw) as [_ [Hx|Hx]]; [congruence|].
    apply (q_busy _ Hq q l g Hl Hc); [done|]. by rewrite <-Hr, Hx.
Qed.
Lemma quiet_worker q s s' w' :
  loop_step q s s' → Filed s → Quiet s → heap (control s') !! p = Some w' →
  ∃ w, heap (control s) !! p = Some w ∧
    (still w w' ∨ (∃ t g, q = p ∧ loops s !! p = Some (mkLoop t (Got (Ok g))) ∧ w' = installed g w ∧
      ∀ t' g', loops s' !! p ≠ Some (mkLoop t' (Got (Ok g'))))).
Proof.
  intros Hs Hf Hq Hw'. pose proof (quiet_none s Hq) as Hn.
  assert (∀ w', (∃ w, heap (control s) !! p = Some w ∧ still w w') → ∃ w, heap (control s) !! p = Some w ∧
    (still w w' ∨ (∃ t g, q = p ∧ loops s !! p = Some (mkLoop t (Got (Ok g))) ∧ w' = installed g w ∧
      ∀ t' g', loops s' !! p ≠ Some (mkLoop t' (Got (Ok g')))))) as Hstill by (intros ? (w & ? & ?); eauto).
  assert (∀ r x w', alter (with_reason r) x (alter unlisten x (heap (control s))) !! p = Some w' →
    ∃ w, heap (control s) !! p = Some w ∧ still w w') as Hfail.
  { intros r x w1 H1. rewrite alter_twice in H1. eapply still_alter; [exact Hn| | |exact H1]; auto. }
  destruct Hs as
    [s t w r Hp|s t w pl Hp Hpl|s t e now Hp|s t g now Hp|s t g Hp Hlt|s t g Hp|s t g now Hp|s t g sample Hp|s t g sample Hp|s t g sample W n r c n' Hp Hph E|
     s t g sample now Hp|s t g sample pending now Hp|s t g a Hp Hlt|s t g a Hp|s t g a W n r c n' Hp E|s t g a W n r c n' Hp E|s t g a now Hp|s t Hp].
  all: try (apply Hstill; by apply still_refl).
  - apply Hstill. cbn [control with_loop with_control] in Hw'. rewrite heap_close in Hw'. eapply still_alter; [exact Hn| | |exact Hw']; auto.
  - apply Hstill. cbn [control with_loop with_control] in Hw'. unfold policyUnreadable in Hw'. rewrite heap_reason, heap_close in Hw'. by eapply Hfail.
  - destruct (install_spec q g (control s)) as [Eh _]. destruct (install q g (control s)) as [c a]. cbn [fst control with_loop with_control] in *. rewrite Eh in Hw'.
    destruct (decide (p = q)) as [<-|Hne].
    + rewrite lookup_alter_eq in Hw'. apply fmap_Some in Hw' as (w & Hw & ->). exists w. split; [done|]. right. exists t, g. repeat split; [done|].
      intros t' g'. cbn [loops with_loop]. rewrite lookup_insert_eq. by destruct a.
    + rewrite lookup_alter_ne in Hw' by done. apply Hstill. by apply still_refl.
  - apply Hstill. cbn [control with_loop with_control with_probes] in Hw'. unfold observationFailed in Hw'. rewrite heap_reason, heap_close in Hw'. by eapply Hfail.
  - apply Hstill. cbn [control with_loop with_control with_probes] in Hw'. rewrite heap_reason in Hw'. eapply still_alter; [exact Hn| | |exact Hw']; auto.
  - apply Hstill. eapply quiet_reserve; [done|done|exact Hp|reflexivity|exact E|done].
  - apply Hstill. pose proof (heap_snapshot q (control s)) as Hsn. destruct (snapshot q (control s)) as [[c pe] iv].
    cbn [fst control with_loop with_control] in *. destruct Hsn as [Eh|Eh]; rewrite Eh in Hw'; [by apply still_refl|].
    eapply still_alter; [exact Hn| | |exact Hw']; auto.
  - apply Hstill. destruct (Evaluate t g sample pending now) as [t' d]. cbn [control with_loop with_control] in Hw'.
    destruct (_ =? _)%string; [by apply still_refl|]. rewrite heap_close in Hw'. eapply still_alter; [exact Hn| | |exact Hw']; auto.
  - apply Hstill. cbn [control with_control] in Hw'. apply Release_spec in E as [_ [Eh|[x Eh]]]; rewrite Eh in Hw'; [by apply still_refl|].
    eapply still_alter; [exact Hn| | |exact Hw']; auto.
  - apply Hstill. eapply quiet_reserve; [done|done|exact Hp|reflexivity|exact E|done].
Qed.
Lemma quiet_loop q s s' : loop_step q s s' → Filed s → Quiet s → Quiet s'.
Proof.
  intros Hs Hf Hq. pose proof (λ w', quiet_worker q s s' w' Hs Hf Hq) as Hw.
  destruct (loop_names q s s' Hs Hf) as [_ Hi]. destruct (loop_places q s s' Hs) as (Hst & l0 & Hp & Hl).
  split.
  - rewrite Hst. apply Hq.
  - rewrite Hi. apply Hq.
  - intros w' Hw'. destruct (Hw w' Hw') as (w & E & [(H1 & _ & Hs1 & Hg1)|(t & g & -> & El & -> & _)]); destruct (q_worker _ Hq w E) as [Hn Hd].
    + split; [done|]. rewrite Hg1. destruct Hs1 as [->| ->]; auto.
    + unfold installed. cbn [listener suspended group]. destruct (q_own _ Hq t g w El E) as [->|[Hsu Hr]].
      * rewrite inactive_install. auto.
      * rewrite Hr, Z.eqb_refl. cbn [negb]. rewrite Hn, Hsu. split; [by destruct (_ && _)|by left].
  - intros q' l g Hl' Hc Hid. destruct Hl as [Hl|(l1 & Hl & _ & Hc1)]; rewrite Hl in Hl'; [by apply (q_busy _ Hq q' l g)|].
    apply lookup_insert_Some in Hl' as [[<- ->]|[_ Hl']]; [|by apply (q_busy _ Hq q' l g)].
    destruct (Hc1 g Hc) as [Hc0|[Hgot Ha]]; [by apply (q_busy _ Hq q l0 g)|]. destruct l0 as [t0 pl0]. cbn [place] in Hgot. subst pl0.
    destruct (q_read _ Hq q t0 g Hp Hid) as [->|Hr]; [|done]. exfalso. destruct (install_spec q held (control s)) as [_ Ha'].
    rewrite Ha' in Ha. destruct (heap (control s) !! q); [|done]. by rewrite inactive_install in Ha.
  - intros q' t g Hl' Hid. destruct Hl as [Hl|(l1 & Hl & Hg1 & _)]; rewrite Hl in Hl'; [by apply (q_read _ Hq q' t g)|].
    apply lookup_insert_Some in Hl' as [[_ ->]|[_ Hl']]; [|by apply (q_read _ Hq q' t g)].
    destruct (Hg1 g eq_refl) as (w & _ & Hsto & Hgid). rewrite <-Hgid, Hid, (q_stored _ Hq) in Hsto. left. by injection Hsto.
  - intros t g w' Hl' Hw'. destruct (Hw w' Hw') as (w & E & [(H1 & Hid & Hs1 & Hg1)|(t0 & g0 & -> & _ & _ & Hno)]); [|by apply Hno in Hl'].
    assert (∀ t, loops s !! p = Some (mkLoop t (Got (Ok g))) → g = held ∨ suspended w' = true ∧ Revision g = Revision (group w')) as Hold.
    { intros t0 Ht. destruct (q_own _ Hq t0 g w Ht E) as [->|[Hsu Hr]]; [by left|]. right. rewrite Hg1. destruct Hs1 as [->| ->]; done. }
    destruct Hl as [Hl|(l1 & Hl & Hg2 & _)]; rewrite Hl in Hl'; [by eapply Hold|].
    apply lookup_insert_Some in Hl' as [[-> ->]|[_ Hl']]; [|by eapply Hold].
    destruct (Hg2 g eq_refl) as (w0 & E0 & Hsto & _). rewrite E in E0. injection E0 as <-.
    pose proof (q_name _ Hq) as Hn. unfold ids in Hn. rewrite lookup_fmap, E in Hn. injection Hn as Hn. rewrite Hn, (q_stored _ Hq) in Hsto.
    left. by injection Hsto.
Qed.
(** What a call leaves of the worker. *)
Lemma quiet_call_worker s s' w' :
  call_step s s' → Filed s → Quiet s → heap (control s') !! p = Some w' → ∃ w, heap (control s) !! p = Some w ∧ still w w'.
Proof.
  intros Hs (Hf & _) Hq Hw'. pose proof (quiet_none s Hq) as Hn. pose proof (q_name _ Hq) as Hname.
  assert (∃ w0, heap (control s) !! p = Some w0) as [w0 E0].
  { unfold ids in Hname. rewrite lookup_fmap in Hname. destruct (heap (control s) !! p) as [w0|]; [by exists w0|done]. }
  destruct Hs as [s groups c Hr|s|s id|s id|s|s q w l l' Hw Hl Hk]; cbn [control with_control] in Hw'.
  - assert (∃ f, heap c !! p = f <$> heap (control s) !! p ∧ (f = cancel ∨ f = id)) as (f & Ef & Hff).
    { unfold reconcile in Hr. destruct (_ <? _)%Z; [done|]. injection Hr as <-.
      destruct (starts_spec groups (control s) Hf) as (_ & (_ & Hk & _) & _). set (c1 := foldl startWorker (control s) groups) in *.
      destruct (drops_spec (GroupID <$> groups) (map_to_list (workers c1)) c1) as [_ Hdh]. rewrite Hdh, (lookup_weaken _ _ _ _ E0 Hk), E0.
      destruct (existsb _ _); [exists cancel|exists id]; auto. }
    rewrite Ef, E0 in Hw'. injection Hw' as <-. exists w0. split; [done|]. pose proof (Hn w0 E0). destruct Hff as [->| ->]; unfold still; auto.
  - unfold cancelAll in Hw'. cbn [heap] in Hw'. exists w0. split; [done|].
    assert (∀ (ps : list nat) (h : gmap nat groupWorker) w, h !! p = Some w → ∃ f, foldl (λ h p, alter cancel p h) h ps !! p = Some (f w) ∧ (∀ w, still w w → still w (f w))) as Hfold.
    { induction ps as [|q ps IH]; intros h w Hh; cbn [foldl]; [by exists id|]. destruct (decide (q = p)) as [->|Hne].
      - destruct (IH (alter cancel p h) (cancel w)) as (f & Hf1 & Hf2); [by rewrite lookup_alter_eq, Hh|].
        exists (λ w, f (cancel w)). split; [done|]. intros w1 H1. apply (Hf2 (cancel w1)). exact H1.
      - apply IH. by rewrite lookup_alter_ne. }
    destruct (Hfold (map_to_list (workers (control s))).*2 _ _ E0) as (f & Ef & Hst). rewrite Ef in Hw'. injection Hw' as <-.
    apply Hst. pose proof (Hn w0 E0). unfold still; auto.
  - unfold SuspendGroup in Hw'. cbn [heap Notify] in Hw'. destruct (workers (control s) !! id) as [q|]; [|by apply still_refl].
    rewrite heap_suspend in Hw'. eapply still_alter; [exact Hn| | |exact Hw']; auto.
  - unfold SuspendStack in Hw'. cbn [heap Notify] in Hw'. revert Hw'.
    assert (∀ ps (c : Controller) (w : groupWorker), listener w = None → heap c !! p = Some w →
      heap (foldl (λ c p, if ofStack id c p then suspend p c else c) c ps) !! p = Some w' → still w w') as Hfold.
    { induction ps as [|q ps IH]; intros c w Hwn Hc Hw'; cbn [foldl] in Hw'.
      - rewrite Hc in Hw'. injection Hw' as <-. unfold still; auto.
      - destruct (ofStack id c q); [|by eapply IH]. destruct (decide (q = p)) as [->|Hne].
        + assert (still (suspended_ w) w') as Hst by (eapply IH; [|rewrite heap_suspend, lookup_alter_eq, Hc; done|exact Hw']; done).
          destruct Hst as (H1 & H2 & H3 & H4). split; [done|]. split; [done|]. split; [|done]. left. by destruct H3.
        + eapply IH; [done| |exact Hw']. by rewrite heap_suspend, lookup_alter_ne. }
    intros Hw'. exists w0. split; [done|]. eapply Hfold; [by apply Hn|exact E0|exact Hw'].
  - by apply still_refl.
  - cbn [heap set_worker] in Hw'. apply lookup_insert_Some in Hw' as [[-> <-]|[_ Hw']]; [|by apply still_refl].
    apply Hn in Hw. congruence.
Qed.
Lemma quiet_call s s' : call_step s s' → Filed s → Quiet s → Quiet s'.
Proof.
  intros Hs Hf Hq. pose proof (λ w', quiet_call_worker s s' w' Hs Hf Hq) as Hw. destruct (call_names s s' Hs Hf) as [_ Hk].
  assert (stored s' = stored s) as Hst by by destruct Hs.
  assert (∀ q l, loops s' !! q = Some l → loops s !! q = Some l ∨ place l = Top) as Hlo.
  { intros q l. destruct Hs; try (by left). cbn [loops]. unfold spawn. rewrite lookup_union_Some_raw, lookup_fmap.
    intros [Hl|[_ Hl]]; [by left|]. apply fmap_Some in Hl as (w & _ & ->). by right. }
  split.
  - rewrite Hst. apply Hq.
  - by apply Hk, Hq.
  - intros w' Hw'. destruct (Hw w' Hw') as (w & E & H1 & _ & Hs1 & Hg1). destruct (q_worker _ Hq w E) as [_ Hd]. split; [done|].
    rewrite Hg1. destruct Hs1 as [->| ->]; auto.
  - intros q l g Hl Hc. destruct (Hlo q l Hl) as [Ho|Ho]; [by apply (q_busy _ Hq q l g)|]. by rewrite Ho in Hc.
  - intros q t g Hl. destruct (Hlo q _ Hl) as [Ho|[=]]. by apply (q_read _ Hq q t g).
  - intros t g w' Hl Hw'. destruct (Hlo p _ Hl) as [Ho|[=]]. destruct (Hw w' Hw') as (w & E & _ & _ & Hs1 & Hg1).
    destruct (q_own _ Hq t g w Ho E) as [->|[Hsu Hr]]; [by left|]. right. rewrite Hg1. destruct Hs1 as [->| ->]; done.
Qed.
(** The worker as a suspension leaves it. *)
Definition silenced (w w' : groupWorker) : Prop := listener w' = None ∧ suspended w' = true ∧ group w' = group w.
Lemma Quiet_suspended s c w w' :
  stored s !! GroupID held = Some held → heap (control s) !! p = Some w → GroupID (group w) = GroupID held →
  heap c !! p = Some w' → silenced w w' →
  (∀ q l g, loops s !! q = Some l → carries (place l) g → GroupID g = GroupID held → Revision g ≠ Revision held) →
  (∀ q t g, loops s !! q = Some (mkLoop t (Got (Ok g))) → GroupID g = GroupID held → known g) →
  (∀ t g, loops s !! p = Some (mkLoop t (Got (Ok g))) → g = held ∨ Revision g = Revision (group w)) →
  Quiet (with_control c s).
Proof.
  intros Hst Hw Hid Hw' (H1 & H2 & H3) Hbusy Hread Hown. split; cbn [with_control stored control loops]; try done.
  - unfold ids. rewrite lookup_fmap, Hw'. cbn. by rewrite H3, Hid.
  - intros w1 E. rewrite Hw' in E. injection E as <-. auto.
  - intros t g w1 Hl E. rewrite Hw' in E. injection E as <-. rewrite H3. destruct (Hown t g Hl); auto.
Qed.
Lemma Quiet_lasts s s' w : Filed s → Quiet s → star local_step s s' → heap (control s') !! p = Some w → listener w = None.
Proof.
  intros Hf Hq Hr Hw. apply (star_invariant local_step (λ s, Filed s ∧ Quiet s)) in Hr; [by apply (q_worker _ (proj2 Hr) w)| |done].
  intros s1 s2 [H1 H2] [[q Hl]|Hc].
  - split; [by eapply Filed_loop|by eapply quiet_loop].
  - split; [by eapply Filed_call|by eapply quiet_call].
Qed.
End quiet.

Lemma SuspendGroup_spec id p c w :
  workers c !! id = Some p → heap c !! p = Some w → ∃ w', heap (SuspendGroup id c) !! p = Some w' ∧ silenced w w'.
Proof.
  intros Hp Hw. unfold SuspendGroup. simpl. rewrite Hp, heap_suspend, lookup_alter_eq, Hw. by eexists.
Qed.
Lemma suspends_spec id p ps : ∀ (c : Controller) w,
  heap c !! p = Some w → GroupStackID (group w) = id →
  ∃ w', heap (foldl (λ c p, if ofStack id c p then suspend p c else c) c ps) !! p = Some w' ∧
    group w' = group w ∧ (p ∈ ps ∨ (listener w = None ∧ suspended w = true) → silenced w w').
Proof.
  induction ps as [|q ps IH]; intros c w Hw Hid; cbn [foldl].
  - exists w. split; [done|]. split; [done|]. intros [[]%elem_of_nil|[? ?]]. done.
  - destruct (decide (q = p)) as [->|Hne].
    + assert (ofStack id c p = true) as -> by (unfold ofStack; rewrite Hw, Hid; apply String.eqb_refl).
      destruct (IH (suspend p c) (suspended_ w)) as (w' & H1 & H2 & H3); [by rewrite heap_suspend, lookup_alter_eq, Hw|done|].
      exists w'. split; [done|]. split; [done|]. intros _. by apply H3; right.
    + destruct (IH (if ofStack id c q then suspend q c else c) w) as (w' & H1 & H2 & H3);
        [destruct (ofStack id c q); [by rewrite heap_suspend, lookup_alter_ne|done]|done|].
      exists w'. split; [done|]. split; [done|]. intros [Hin|Hs]; apply H3; [|by right]. left. by apply elem_of_cons in Hin as [->|].
Qed.
Lemma SuspendStack_spec id g p c w :
  workers c !! g = Some p → heap c !! p = Some w → GroupStackID (group w) = id →
  ∃ w', heap (SuspendStack id c) !! p = Some w' ∧ silenced w w'.
Proof.
  intros Hp Hw Hid. unfold SuspendStack. simpl. destruct (suspends_spec id p (map_to_list (workers c)).*2 c w Hw Hid) as (w' & H1 & _ & H3).
  exists w'. split; [done|]. apply H3. left. apply list_elem_of_fmap. exists (g, p). by rewrite elem_of_map_to_list.
Qed.
Lemma Filed_reached s s' : reachable s → local_step s s' → Filed s'.
Proof. intros Hr Hs. eapply Filed_step; [by apply step_local|by apply Filed_reachable]. Qed.

(** C13. Once the policy in the database keeps a group from being watched and its
    worker has been suspended, by group or by stack, the worker holds no port
    again as long as the policy stays, whatever the goroutines and callers do:
    provided that nobody was busy with that policy before and that the worker,
    if it had just read a policy, had read that one or the one it had. *)
Theorem suspension_lasts s c s' held p w :
  reachable s → enabled held = false → stored s !! GroupID held = Some held →
  workers (control s) !! GroupID held = Some p → heap (control s) !! p = Some w →
  c = SuspendGroup (GroupID held) (control s) ∨
    (c = SuspendStack (GroupStackID held) (control s) ∧ GroupStackID (group w) = GroupStackID held) →
  (∀ q l g, loops s !! q = Some l → carries (place l) g → GroupID g = GroupID held → Revision g ≠ Revision held) →
  (∀ q t g, loops s !! q = Some (mkLoop t (Got (Ok g))) → GroupID g = GroupID held → g = held ∨ Revision g ≠ Revision held) →
  (∀ t g, loops s !! p = Some (mkLoop t (Got (Ok g))) → g = held ∨ Revision g = Revision (group w)) →
  star local_step (with_control c s) s' →
  ∀ w', heap (control s') !! p = Some w' → listener w' = None.
Proof.
  intros Hr Hin Hst Hp Hw Hc Hbusy Hread Hown Hs w' Hw'. pose proof (Filed_reachable s Hr) as (Hf & _).
  apply Hf in Hp as Hid. unfold ids in Hid. rewrite lookup_fmap, Hw in Hid. injection Hid as Hid.
  assert (∃ w1, heap c !! p = Some w1 ∧ silenced w w1) as (w1 & H1 & H2).
  { destruct Hc as [->|[-> Hsid]]; [by apply SuspendGroup_spec|by eapply SuspendStack_spec]. }
  refine (Quiet_lasts held p Hin (with_control c s) s' w' _ _ Hs Hw').
  - eapply Filed_reached; [exact Hr|]. right. destruct Hc as [->|[-> _]]; constructor.
  - by eapply Quiet_suspended.
Qed.

(** ** Witnesses *)
Definition ex_evidence : Evidence := mkEvidence "d" ["c1"%string] [Traffic.mkBinding "tcp4" "0.0.0.0:80"].
Definition ex_group (revision : Z) (hold : string) : Group :=
  mkGroup "odg_1" "stk_1" web_policy revision Sleeping hold "" ex_evidence.
Definition ex_held : Group := ex_group 3 "manual_operation".
Definition ex_started : System :=
  let c := foldl startWorker NewController [ex_group 1 ""] in
  mkSystem c (spawn c ∅) 0 0 {["odg_1"%string := ex_group 1 ""]}.
Lemma ex_started_reachable : star step (initial {["odg_1"%string := ex_group 1 ""]}) ex_started.
Proof.
  eapply star_step; [|apply star_refl]. apply step_local. right.
  assert (reconcile [ex_group 1 ""] NewController = Ok (foldl startWorker NewController [ex_group 1 ""])) as E by (vm_compute; reflexivity).
  exact (c_run (initial {["odg_1"%string := ex_group 1 ""]}) [ex_group 1 ""] _ E).
Qed.
Definition in_store (g : Group) (s : System) : System :=
  mkSystem (control s) (loops s) (probes s) (transitions s) {["odg_1"%string := g]}.
Lemma stored_step g s s' : star step s s' → star step s (in_store g s').
Proof. intros Hs. eapply star_trans; [exact Hs|]. eapply star_step; [apply step_store|apply star_refl]. Qed.
Definition fetched (g : Group) (s : System) : System := with_loop 0 (mkLoop zeroTracker (Got (Ok g))) s.
Lemma fetched_step g s :
  loops s !! 0 = Some (mkLoop zeroTracker Top) → is_Some (heap (control s) !! 0) →
  (∀ w, heap (control s) !! 0 = Some w → cancelled w = false ∧ stored s !! GroupID (group w) = Some g ∧ GroupID g = GroupID (group w)) →
  local_step s (fetched g s).
Proof.
  intros Hl [w Hw] H. destruct (H w Hw) as (H1 & H2 & H3). left. exists 0. by eapply (l_read 0 s zeroTracker w (Ok g)).
Qed.
(** The worker had read the second revision when the third one was put in. *)
Definition ex_late : System := in_store ex_held (fetched (ex_group 2 "") (in_store (ex_group 2 "") ex_started)).
Lemma ex_late_reachable : star step (initial {["odg_1"%string := ex_group 1 ""]}) ex_late.
Proof.
  apply stored_step. eapply star_trans; [apply stored_step, ex_started_reachable|].
  eapply star_step; [|apply star_refl]. apply step_local, fetched_step; [vm_compute; reflexivity|vm_compute; eauto|].
  intros w [= <-]. vm_compute. auto.
Qed.
(** The worker then installs the second revision and takes the ports. *)
Definition ex_rearmed : result unit * (Controller * nat) :=
  Reserve (W := calm) (ex_group 2 "") (install 0 (ex_group 2 "") (SuspendStack "stk_1" (control ex_late))).1 0.

(** C33. A suspension is lost when the policy in the database was changed twice
    while the worker was reading it: the worker takes the middle policy for the
    news that ends the suspension, and holds the ports of a group that is on
    hold until it reads again. *)
Theorem suspension_can_be_lost :
  ∃ s s' p w l,
    reachable s ∧ stored s !! "odg_1"%string = Some ex_held ∧ enabled ex_held = false ∧
    workers (control s) !! "odg_1"%string = Some p ∧
    star local_step (with_control (SuspendStack "stk_1" (control s)) s) s' ∧ stored s' = stored s ∧
    heap (control s') !! p = Some w ∧ listener w = Some l ∧ Traffic.Bindings (Traffic.config l) ⊆ elements (sockets (control s')).
Proof.
  exists ex_late. eexists. exists 0. eexists. eexists.
  split; [eexists; exact ex_late_reachable|]. split; [vm_compute; reflexivity|]. split; [reflexivity|]. split; [vm_compute; reflexivity|].
  split; [|split; [|split; [|split]]].
  - eapply star_step; [left; exists 0; eapply (l_install 0 _ zeroTracker (ex_group 2 "") 0%Z); vm_compute; reflexivity|].
    eapply star_step; [left; exists 0; eapply (l_probe 0 _ zeroTracker (ex_group 2 "")); [vm_compute; reflexivity|vm_compute; lia]|].
    eapply star_step; [left; exists 0; eapply (l_observe 0 _ zeroTracker (ex_group 2 "") (web_sample 0%Z)); vm_compute; reflexivity|].
    eapply star_step; [left; exists 0; eapply (l_reserve 0 _ zeroTracker (ex_group 2 "") (web_sample 0%Z) calm 0 (Ok tt));
      [vm_compute; reflexivity|reflexivity|vm_compute; reflexivity]|].
    apply star_refl.
  - vm_compute; reflexivity.
  - vm_compute; reflexivity.
  - reflexivity.
  - vm_compute. apply list_subseteq_skip, list_subseteq_nil.
Qed.

Lemma armed_for_the_policy_in_effect_witness :
  (∀ p w l, heap (control ex_late) !! p = Some w → listener w = Some l →
     suspended w = false ∧ Traffic.Generation (Traffic.config l) = wrapU64 (Revision (group w))) ∧
  count isProbing (loops ex_late) ≤ 4 ∧ count isExecuting (loops ex_late) ≤ 2.
Proof. exact (armed_for_the_policy_in_effect ex_late (ex_intro _ _ ex_late_reachable)). Defined.

Lemma workers_follow_the_groups_witness :
  dom (workers (foldl startWorker NewController [ex_group 1 ""])) = {["odg_1"%string]}.
Proof.
  assert (Wf NewController) as Hw by (intros id p Hp; cbn [workers NewController] in Hp; by apply lookup_empty_Some in Hp).
  assert (reconcile [ex_group 1 ""] NewController = Ok (foldl startWorker NewController [ex_group 1 ""])) as E by (vm_compute; reflexivity).
  destruct (workers_follow_the_groups [ex_group 1 ""] NewController _ Hw E) as (_ & Hd & _). rewrite Hd. vm_compute. reflexivity.
Defined.

Definition ex_before : System := in_store ex_held ex_started.
Definition ex_worker : groupWorker := mkWorker (ex_group 1 "") None false waiting false.
Definition ex_after : System := fetched ex_held (with_control (SuspendGroup "odg_1" (control ex_before)) ex_before).
Lemma suspension_lasts_witness : ∃ w', heap (control ex_after) !! 0 = Some w' ∧ suspended w' = true ∧ listener w' = None.
Proof.
  assert (star local_step (with_control (SuspendGroup "odg_1" (control ex_before)) ex_before) ex_after) as Hs.
  { eapply star_step; [|apply star_refl]. apply fetched_step; [vm_compute; reflexivity|vm_compute; eauto|].
    intros w [= <-]. vm_compute. auto. }
  assert (∀ q l, loops ex_before !! q = Some l → place l = Top) as Hl.
  { intros q l. unfold ex_before, in_store, ex_started. cbn [loops]. unfold spawn. rewrite lookup_union_Some_raw, lookup_fmap.
    intros [Hq|[_ Hq]]; [by apply lookup_empty_Some in Hq|]. by apply fmap_Some in Hq as (w & _ & ->). }
  assert (heap (control ex_after) !! 0 = Some (suspended_ ex_worker)) as Hw by (vm_compute; reflexivity).
  exists (suspended_ ex_worker). split; [exact Hw|]. split; [reflexivity|].
  refine (suspension_lasts ex_before _ ex_after ex_held 0 ex_worker (ex_intro _ _ (stored_step _ _ _ ex_started_reachable)) _ _ _ _ (or_introl eq_refl) _ _ _ Hs _ Hw).
  - reflexivity.
  - vm_compute. reflexivity.
  - vm_compute. reflexivity.
  - vm_compute. reflexivity.
  - intros q l g Hq. rewrite (Hl q l Hq). intros [].
  - intros q t g Hq. by apply Hl in Hq.
  - intros t g Hq. by apply Hl in Hq.
Defined.
End ControllerLaws.
