(* ===== verification/Scheduler.v ===== *)
(** * The scheduler of automatic updates (src/internal/autoupdate/scheduler.go,
    policy.go)

    A loop admits the runs that are due and hands them to two workers through
    a queue; a worker marks its run and lets the control plane check the stack.
    The policy service checks a policy before it stores it.  The control plane
    is an interface here: what it does to the database is arbitrary. *)
From S2P Require Import Prelude TimeText Alerts Database AutoUpdateStore.

Module Scheduler.
Import Data Database AutoUpdateStore.

(** ** The executor *)
Class Executor := CheckAndUpdate : Run → duration → M DB unit.
Record Env := mkEnv {
  store : DB;
  checks : list (Run * duration);       (* the calls of CheckAndUpdate, with their time limits *)
}.
#[export] Program Instance env_store : Lens Env DB := {| view := store; put db e := mkEnv db (checks e) |}.
Next Obligation. done. Qed.
Next Obligation. by intros []. Qed.
Next Obligation. done. Qed.

Section execute.
Context `{W : World} `{C : Cron} `{X : Executor}.
Definition finish (run : Run) (outcome reason : string) : M Env unit := zoom (FinishRun (RunID run) outcome reason []).
Definition check (run : Run) (limit : duration) : M Env unit := λ e n,
  let '(r, (db, n')) := CheckAndUpdate run limit (store e) n in (r, (mkEnv db (checks e ++ [(run, limit)]), n')).
Definition execute (run : Run) : M Env unit :=
  t ← now;
  let remaining := Sub (Add (ScheduledAt run) (20 * Minute)%Z) t in
  if (remaining <=? 0)%Z then finish run "skipped" "capacity_deadline"
  else
    t ← now;
    r ← attempt (zoom (MarkChecking run t));
    match r with
    | Err e => if Is e AutoUpdate_ErrConflict then finish run "skipped" "policy_changed" else fail e
    | Ok _ => check run remaining
    end.

(** ** The loop *)
Definition delayUntil (next t : time) : duration :=
  let d := Sub next t in
  let d := if (d <? Millisecond)%Z then Millisecond else d in
  if (30 * Second <? d)%Z then (30 * Second)%Z else d.
(** How long to sleep; the clock is only read if something is scheduled. *)
Definition delay : M DB duration :=
  next ← NextScheduled;
  if IsZero next then mret (30 * Second)%Z else t ← now; mret (delayUntil next t).
Definition listDue : M DB (list Policy) := t ← now; ListDue t 200.
Definition admitDue (p : Policy) : M DB (Run * bool) := t ← now; Admit p t.
Definition reset : M DB unit := t ← now; ResetAfterStartup t.

Inductive Place :=
| Starting
| Listing
| Admitting (l : list Policy) (full : bool)
| Sending (run : Run) (l : list Policy) (full : bool)
| Asleep (d : duration)
| Ended (e : error).
Inductive Worker := Ready | Busy (run : Run) | Gone.
Record System := mkSystem {
  db : DB; tick : nat;
  queue : list Run;                     (* a channel of 200 *)
  failed : option error;                (* a channel of one *)
  wake : bool;                          (* a channel of one *)
  cancelled : bool;
  loop : Place;
  workers : list Worker;
  admitted : list Run;                  (* ghost: the runs that were accepted *)
  begun : list Run;                     (* ghost: the runs that a worker took *)
}.
Definition start (db : DB) (n : nat) : System := mkSystem db n [] None false false Starting [Ready; Ready] [] [].
Definition at_ (l : Place) (s : System) : System :=
  mkSystem (db s) (tick s) (queue s) (failed s) (wake s) (cancelled s) l (workers s) (admitted s) (begun s).
Definition stored (sn : DB * nat) (s : System) : System :=
  mkSystem sn.1 sn.2 (queue s) (failed s) (wake s) (cancelled s) (loop s) (workers s) (admitted s) (begun s).
Definition accept (run : Run) (s : System) : System :=
  mkSystem (db s) (tick s) (queue s) (failed s) (wake s) (cancelled s) (loop s) (workers s) (admitted s ++ [run]) (begun s).
Definition send (run : Run) (s : System) : System :=
  mkSystem (db s) (tick s) (queue s ++ [run]) (failed s) (wake s) (cancelled s) (loop s) (workers s) (admitted s) (begun s).
Definition woken (b : bool) (s : System) : System :=
  mkSystem (db s) (tick s) (queue s) (failed s) b (cancelled s) (loop s) (workers s) (admitted s) (begun s).
Definition failure (f : option error) (s : System) : System :=
  mkSystem (db s) (tick s) (queue s) f (wake s) (cancelled s) (loop s) (workers s) (admitted s) (begun s).
Definition cancel (s : System) : System :=
  mkSystem (db s) (tick s) (queue s) (failed s) (wake s) true (loop s) (workers s) (admitted s) (begun s).
Definition worker (i : nat) (w : Worker) (s : System) : System :=
  mkSystem (db s) (tick s) (queue s) (failed s) (wake s) (cancelled s) (loop s) (<[i := w]> (workers s)) (admitted s) (begun s).
Definition take (run : Run) (q : list Run) (s : System) : System :=
  mkSystem (db s) (tick s) q (failed s) (wake s) (cancelled s) (loop s) (workers s) (admitted s) (begun s ++ [run]).
(** The loop ends: [defer cancel()]. *)
Definition end_ (e : error) (s : System) : System := cancel (at_ (Ended e) s).

Inductive loop_step : System → System → Prop :=
| l_reset s sn : loop s = Starting → reset (db s) (tick s) = (Ok tt, sn) → loop_step s (at_ Listing (stored sn s))
| l_reset_fails s e sn : loop s = Starting → reset (db s) (tick s) = (Err e, sn) → loop_step s (end_ e (stored sn s))
| l_list s l sn :
    loop s = Listing → cancelled s = false → listDue (db s) (tick s) = (Ok l, sn) →
    loop_step s (at_ (Admitting l (bool_decide (length l = 200))) (stored sn s))
| l_list_fails s e sn :
    loop s = Listing → cancelled s = false → listDue (db s) (tick s) = (Err e, sn) → loop_step s (end_ e (stored sn s))
| l_admit s p l full run sn :
    loop s = Admitting (p :: l) full → admitDue p (db s) (tick s) = (Ok (run, true), sn) →
    loop_step s (accept run (at_ (Sending run l full) (stored sn s)))
| l_skip s p l full run sn :
    loop s = Admitting (p :: l) full → admitDue p (db s) (tick s) = (Ok (run, false), sn) →
    loop_step s (at_ (Admitting l full) (stored sn s))
| l_admit_fails s p l full e sn :
    loop s = Admitting (p :: l) full → admitDue p (db s) (tick s) = (Err e, sn) → loop_step s (end_ e (stored sn s))
| l_send s run l full :
    loop s = Sending run l full → length (queue s) < 200 → loop_step s (send run (at_ (Admitting l full) s))
| l_failed s e : (∃ run l full, loop s = Sending run l full) ∨ (∃ d, loop s = Asleep d) → failed s = Some e →
    loop_step s (end_ e (failure None s))
| l_cancelled s : loop s = Listing ∨ (∃ run l full, loop s = Sending run l full) ∨ (∃ d, loop s = Asleep d) →
    cancelled s = true → loop_step s (end_ Context_Canceled s)
| l_more s : loop s = Admitting [] true → loop_step s (at_ Listing s)
| l_sleep s d sn : loop s = Admitting [] false → delay (db s) (tick s) = (Ok d, sn) → loop_step s (at_ (Asleep d) (stored sn s))
| l_sleep_fails s e sn : loop s = Admitting [] false → delay (db s) (tick s) = (Err e, sn) → loop_step s (end_ e (stored sn s))
| l_wake s d : loop s = Asleep d → wake s = true → loop_step s (at_ Listing (woken false s))
| l_timer s d : loop s = Asleep d → loop_step s (at_ Listing s).

Inductive step : System → System → Prop :=
| s_loop s s' : loop_step s s' → step s s'
| s_take s i run q :
    workers s !! i = Some Ready → queue s = run :: q → step s (worker i (Busy run) (take run q s))
| s_stop s i : workers s !! i = Some Ready → cancelled s = true → step s (worker i Gone s)
| s_done s i run e n :
    workers s !! i = Some (Busy run) → execute run (mkEnv (db s) []) (tick s) = (Ok tt, (e, n)) →
    step s (worker i Ready (stored (store e, n) s))
| s_broken s i run x e n :
    workers s !! i = Some (Busy run) → execute run (mkEnv (db s) []) (tick s) = (Err x, (e, n)) →
    step s (worker i Gone (failure (match failed s with Some y => Some y | None => Some x end) (stored (store e, n) s)))
| s_notify s : step s (woken true s)
| s_cancel s : step s (cancel s)
| s_elsewhere s db' n : tick s ≤ n → step s (stored (db', n) s).

End execute.

(** ** PolicyService (policy.go) *)
Record Eligibility := mkEligibility {
  Available : bool; AvailabilityReason : string; Eligible : bool; EligibilityReason : string; Excluded : gmap string string;
}.
Record Status := mkStatus { SPolicy : Policy; LastRun : option Run; SEligibility : Eligibility }.
Class PolicyValidator := {
  InspectAutoUpdate : string → M DB Eligibility;
  EnableAutoUpdate : string → M DB unit;
  ResumeAutoUpdate : string → Z → string → M DB unit;
}.
Record Policies := mkPolicies { tables : DB; notified : nat }.
#[export] Program Instance policies_tables : Lens Policies DB := {| view := tables; put db e := mkPolicies db (notified e) |}.
Next Obligation. done. Qed.
Next Obligation. by intros []. Qed.
Next Obligation. done. Qed.

Section policies.
Context `{W : World} `{C : Cron} `{V : PolicyValidator}.
(** Whether there is somebody to notify. *)
Context (notifies : bool).
Definition notify : M Policies unit := λ e n, (Ok tt, (if notifies then mkPolicies (tables e) (S (notified e)) else e, n)).
Definition Get (id : string) : M Policies Status :=
  policy ← zoom (GetPolicy id);
  eligibility ← zoom (InspectAutoUpdate id);
  last ← attempt (zoom (LatestRun id));
  match last with
  | Ok run => mret (mkStatus policy (Some run) eligibility)
  | Err e => if Is e ErrNoRows then mret (mkStatus policy None eligibility) else fail e
  end.
Definition Update (id : string) (update : PolicyUpdate) : M Policies Status :=
  t ← now;
  _ ← lift (NextRun (UExpression update) t);
  _ ← (if UEnabled update then zoom (EnableAutoUpdate id) else mret tt);
  t ← now;
  _ ← zoom (SavePolicy id update t);
  _ ← notify;
  Get id.
Definition Resume (id : string) (revision : Z) (actor : string) : M Policies Status :=
  _ ← zoom (ResumeAutoUpdate id revision actor);
  _ ← notify;
  Get id.
End policies.
End Scheduler.
