(* ===== verification/SchedulerLaws.v ===== *)
(** * What the scheduler guarantees

    Every admitted run is taken by a worker once, in the order of admission; a
    run is only checked within its window and while its policy stands; the loop
    never sleeps longer than it should. *)
From S2P Require Import Prelude TimeText Alerts Database AutoUpdateStore AutoUpdateLaws DatabaseLaws Scheduler.

Module SchedulerLaws.
Import Data Database AutoUpdateStore Scheduler.

(** ** The operations of the store that the scheduler relies on *)
Section store.
Context `{W : World} `{C : Cron}.
Definition ended (outcome reason : string) (r : Run) : Run :=
  if (RunPhase r =? "terminal")%string then r else finishRun outcome reason r.
Lemma FinishRun_row id outcome reason changes db n u db' n' :
  FinishRun id outcome reason changes db n = (Ok u, (db', n')) → runs db' !! id = ended outcome reason <$> runs db !! id.
Proof.
  unfold FinishRun, transact. destruct (fault n); [done|].
  match goal with |- (match ?m with _ => _ end) = _ → _ => destruct m as [[[[] []]|e] [s k]] eqn:Em; [| |done] end.
  - destruct (fault k); [done|]. intros [= _ <- _].
    apply bind_ok in Em as (b & db1 & n1 & H1 & H). apply call_ok in H1 as [H1 _].
    destruct b; simpl in H; [|by apply ret_ok in H as ([=] & _)].
    apply bind_ok in H as (cs & db2 & n2 & H2 & H). apply zoom_ok in H2 as (t2 & _ & ->).
    apply bind_ok in H as (al & db3 & n3 & H3 & H). apply zoom_ok in H3 as (t3 & _ & ->).
    apply bind_ok in H as (v & db4 & n4 & H4 & H). apply ret_ok in H as (_ & -> & _).
    unfold exec in H4. apply call_ok in H4 as [[= _ <-] _]. cbn. unfold ended.
    destruct (runs db !! id) as [r|]; [|done]. destruct (RunPhase r =? "terminal")%string eqn:Et; [done|].
    injection H1 as <-. simpl. by rewrite lookup_insert_eq, Et.
  - intros [= _ <- _]. apply bind_ok in Em as (b & db1 & n1 & H1 & H). apply call_ok in H1 as [H1 _].
    destruct b; simpl in H.
    + apply bind_ok in H as (? & ? & ? & _ & H). apply bind_ok in H as (? & ? & ? & _ & H).
      apply bind_ok in H as (? & ? & ? & _ & H). by apply ret_ok in H as ([=] & _).
    + unfold ended. destruct (runs db !! id) as [r|]; [|done]. simpl. by destruct (RunPhase r =? "terminal")%string.
Qed.
Lemma MarkChecking_row run t db n u db' n' :
  MarkChecking run t db n = (Ok u, (db', n')) →
  ∃ r, runs db !! RunID run = Some r ∧ RunPhase r = "queued"%string ∧ runs db' !! RunID run = Some (setRunPhase "checking" r) ∧
    currentPolicy db (RunStackID run) (PolicyRevision run) = true ∧ active db (RunStackID run) = true.
Proof.
  unfold MarkChecking. intros H. apply atomically_ok in H as (k & H). apply bind_ok in H as (? & db1 & n1 & H1 & H).
  apply update1_ok in H1 as (r & Hr & Hc & -> & _). unfold exec in H. apply call_ok in H as [[= _ <-] _].
  apply andb_prop in Hc as [[H1%String.eqb_eq H2]%andb_prop H3]. exists r. simpl. by rewrite lookup_insert_eq.
Qed.
Lemma forward_Admit p t : forward (Admit p t).
Proof.
  unfold Admit. fwd. apply forward_transact. fwd.
Qed.
(** The identifier of an admitted run is a random text of its admission. *)
Lemma Admit_identifier p t db n run db' n' :
  Admit p t db n = (Ok (run, true), (db', n')) → ∃ m, n ≤ m < n' ∧ RunID run = ("upd_" ++ random m)%string.
Proof.
  intros H. pose proof (forward_Admit p t db n) as Hf. rewrite H in Hf. cbn [snd] in Hf. unfold Admit in H.
  destruct (_ || _); [by apply ret_ok in H as ([=] & _)|].
  apply bind_ok in H as (next & ? & ? & H1 & H). apply lift_ok in H1 as (_ & -> & ->).
  unfold transact in H. destruct (fault n); [done|].
  match type of H with (match ?m with _ => _ end) = _ => destruct m as [[[[r acc] []]|e] [s k]] eqn:Em; [|simplify_eq|done] end.
  2:{ apply bind_ok in Em as (b & dbx & nx & H1 & Em). destruct b; simpl in Em; db_inv. }
  destruct (fault k); [done|]. simplify_eq.
  apply bind_ok in Em as (b & dbx & nx & H1 & Em). destruct b; simpl in Em; [|db_inv].
  assert (nx = S (S n)) as -> by (by apply call_ok in H1 as [_ ->]).
  apply bind_ok in Em as (name & ? & ? & H2 & Em). apply call_ok in H2 as [_ ->].
  apply bind_ok in Em as (rnd & ? & ? & H2 & Em). apply rand_read_ok in H2 as (-> & -> & ->).
  apply bind_ok in Em as (pend & ? & ? & H2 & Em). apply query_ok in H2 as (_ & -> & ->).
  apply bind_ok in Em as (ins & dby & ny & H2 & Em). apply call_ok in H2 as [_ ->]. apply ret_ok in Em as (Em & _ & ->).
  injection Em as <- _. exists (S (S (S n))). simpl. split; [lia|done].
Qed.
End store.

(** ** A run is checked within its window *)
Section execute.
Context `{W : World} `{C : Cron} `{X : Executor}.

End execute.

(** ** How long the loop sleeps *)
Lemma delayUntil_bounds next t : (Millisecond ≤ delayUntil next t ≤ 30 * Second)%Z.
Proof.
  unfold delayUntil. assert (Millisecond ≤ 30 * Second)%Z by (vm_compute; discriminate).
  destruct (Z.ltb_spec (Sub next t) Millisecond); [destruct (Z.ltb_spec (30 * Second) Millisecond); lia|].
  destruct (Z.ltb_spec (30 * Second) (Sub next t)); lia.
Qed.
Lemma delay_bounds `{W : World} db n d sn : delay db n = (Ok d, sn) → (Millisecond ≤ d ≤ 30 * Second)%Z.
Proof.
  destruct sn as [db' n']. unfold delay. intros H. apply bind_ok in H as (next & db1 & n1 & _ & H).
  destruct (IsZero next); [apply ret_ok in H as (<- & _ & _); split; vm_compute; discriminate|].
  apply bind_ok in H as (t & db2 & n2 & _ & H). apply ret_ok in H as (<- & _ & _). apply delayUntil_bounds.
Qed.

(** ** The order of the runs *)
Section loop.
Context `{W : World} `{C : Cron} `{X : Executor} (HX : ∀ run limit, forward (CheckAndUpdate run limit)).

Lemma forward_reset : forward reset.
Proof. unfold reset, ResetAfterStartup. fwd. apply DatabaseLaws.forward_resetAll. Qed.
Lemma forward_admit p : forward (admitDue p).
Proof. unfold admitDue. fwd. apply forward_Admit. Qed.
Lemma forward_listDue : forward listDue.
Proof. unfold listDue, ListDue. fwd. Qed.
Lemma forward_delay : forward delay.
Proof. unfold delay, NextScheduled. fwd. Qed.
Lemma forward_FinishRun id outcome reason changes : forward (FinishRun id outcome reason changes).
Proof.
  unfold FinishRun. apply forward_transact. fwd; [apply DatabaseLaws.forward_currentAlertChanges|apply AlertLaws.forward_applyAlertChanges].
Qed.
Lemma forward_MarkChecking run t : forward (MarkChecking run t).
Proof. unfold MarkChecking, update1, exec. fwd. Qed.
Lemma forward_attempt {S A} (m : M S A) : forward m → forward (attempt m).
Proof. intros Hm s n. specialize (Hm s n). unfold attempt. by destruct (m s n) as [r [s' n']]. Qed.
Lemma forward_execute run : forward (execute run).
Proof.
  unfold execute. fwd; try (apply forward_zoom, forward_FinishRun).
  - apply forward_attempt, forward_zoom, forward_MarkChecking.
  - intros e n. unfold check. match goal with |- context [CheckAndUpdate ?r ?l ?d n] => specialize (HX r l d n); destruct (CheckAndUpdate r l d n) as [x [db' n']] end. done.
Qed.

(** ** The invariant *)
Definition sending (l : Place) : list Run := match l with Sending run _ _ => [run] | _ => [] end.
Definition over (l : Place) : bool := match l with Ended _ => true | _ => false end.
Record Sched (y : System) : Prop := {
  sch_order : ∃ lost, admitted y = begun y ++ queue y ++ lost ∧
    (lost = sending (loop y) ∨ (over (loop y) = true ∧ length lost ≤ 1));
  sch_ids : ∀ r, r ∈ admitted y → ∃ m, m < tick y ∧ RunID r = ("upd_" ++ random m)%string;
  sch_distinct : Unpredictable W → NoDup (RunID <$> admitted y);
  sch_queue : length (queue y) ≤ 200;
  sch_workers : length (workers y) = 2;
  sch_sleep : ∀ d, loop y = Asleep d → (Millisecond ≤ d ≤ 30 * Second)%Z;
}.
Lemma Sched_start db n : Sched (start db n).
Proof. split; simpl; [by exists []; auto|by intros r ?%elem_of_nil|by constructor|lia|done|done]. Qed.
(** The loop goes elsewhere, at a later moment. *)
Lemma Sched_moves y y' :
  Sched y → admitted y' = admitted y → begun y' = begun y → queue y' = queue y → length (workers y') = length (workers y) →
  tick y ≤ tick y' → (loop y' = loop y ∨ (sending (loop y) = [] ∧ sending (loop y') = [] ∧ over (loop y) = false) ∨ over (loop y') = true ∧ over (loop y) = false) →
  (∀ d, loop y' = Asleep d → loop y = loop y' ∨ (Millisecond ≤ d ≤ 30 * Second)%Z) → Sched y'.
Proof.
  intros [(lost & Ho & Hl) Hi Hd Hq Hw Hs] E1 E2 E3 E4 Ht Hloop Hsl. split; rewrite ?E1, ?E2, ?E3, ?E4; try done.
  - exists lost. split; [done|]. destruct Hloop as [->|[(H1 & H2 & H3)|[H1 H2]]]; [done| |].
    + rewrite H2. destruct Hl as [->|[Hx _]]; [by left|congruence].
    + right. split; [done|]. destruct Hl as [->|[Hx _]]; [destruct (loop y); simpl; lia|congruence].
  - intros r Hr. destruct (Hi r Hr) as (m & Hm & E). exists m. split; [lia|done].
  - intros d Hd'. destruct (Hsl d Hd') as [E|E]; [|done]. apply Hs. by rewrite E.
Qed.
Lemma Sched_loop y y' : loop_step y y' → Sched y → Sched y'.
Proof.
  intros Hs I. assert (∀ {A} (m : M DB A) r sn, forward m → m (db y) (tick y) = (r, sn) → tick y ≤ sn.2) as Hf.
  { intros A m r sn Hm E. specialize (Hm (db y) (tick y)). by rewrite E in Hm. }
  destruct Hs as [y sn Hl E|y e sn Hl E|y l sn Hl _ E|y e sn Hl _ E|y p l full run sn Hl E|y p l full run sn Hl E|y p l full e sn Hl E|
    y run l full Hl Hlen|y e Hl _|y Hl _|y Hl|y d sn Hl E|y e sn Hl E|y d Hl _|y d Hl].
  - apply (Sched_moves y); simpl; rewrite ?Hl; auto; try done. exact (Hf _ _ _ _ (forward_reset) E).
  - apply (Sched_moves y); simpl; rewrite ?Hl; auto; try done. exact (Hf _ _ _ _ (forward_reset) E).
  - apply (Sched_moves y); simpl; rewrite ?Hl; auto; try done. exact (Hf _ _ _ _ (forward_listDue) E).
  - apply (Sched_moves y); simpl; rewrite ?Hl; auto; try done. exact (Hf _ _ _ _ (forward_listDue) E).
  - pose proof (Hf _ _ _ _ (forward_admit _) E) as Ht. destruct sn as [db' n'].
    assert (∃ m, tick y ≤ m < n' ∧ RunID run = ("upd_" ++ random m)%string) as (m & Hm & Hid).
    { unfold admitDue in E. apply bind_ok in E as (t & db1 & n1 & H1 & E). apply now_ok in H1 as (_ & -> & ->).
      apply Admit_identifier in E as (m & Hm & Hid). exists m. split; [lia|done]. }
    destruct I as [(lost & Ho & Hlo) Hi Hd Hq Hw Hsl]. rewrite Hl in Hlo. simpl in Hlo. split; simpl; try done.
    + exists [run]. split; [|by left]. rewrite Ho. destruct Hlo as [->|[? _]]; [|done]. by rewrite app_nil_r, app_assoc.
    + intros r [Hr| ->%list_elem_of_singleton]%elem_of_app; [|exists m; split; [simpl in *; lia|done]].
      destruct (Hi r Hr) as (k & Hk & E1). exists k. simpl in Ht. split; [lia|done].
    + intros HU. rewrite fmap_app. apply NoDup_app. split; [by apply Hd|]. split; [|by apply NoDup_singleton].
      intros x (r & -> & Hr)%list_elem_of_fmap Hx%list_elem_of_singleton. destruct (Hi r Hr) as (k & Hk & E1).
      rewrite E1, Hid in Hx. apply (inj (String.append "upd_")), random_inj in Hx. lia.
  - apply (Sched_moves y); simpl; rewrite ?Hl; auto; try done. exact (Hf _ _ _ _ (forward_admit _) E).
  - apply (Sched_moves y); simpl; rewrite ?Hl; auto; try done. exact (Hf _ _ _ _ (forward_admit _) E).
  - destruct I as [(lost & Ho & Hlo) Hi Hd Hq Hw Hsl]. rewrite Hl in Hlo. simpl in Hlo. split; simpl; try done.
    + exists []. split; [|by left]. rewrite Ho. destruct Hlo as [->|[? _]]; [|done]. by rewrite app_nil_r.
    + rewrite length_app. simpl. lia.
  - apply (Sched_moves y); simpl; auto; try done. right. right. split; [done|].
    destruct Hl as [(? & ? & ? & ->)|(? & ->)]; done.
  - apply (Sched_moves y); simpl; auto; try done. right. right. split; [done|].
    destruct Hl as [->|[(? & ? & ? & ->)|(? & ->)]]; done.
  - apply (Sched_moves y); simpl; rewrite ?Hl; auto; done.
  - apply (Sched_moves y); simpl; rewrite ?Hl; auto; [exact (Hf _ _ _ _ forward_delay E)|].
    intros d' [= <-]. right. by eapply delay_bounds.
  - apply (Sched_moves y); simpl; rewrite ?Hl; auto; try done. exact (Hf _ _ _ _ (forward_delay) E).
  - apply (Sched_moves y); simpl; rewrite ?Hl; auto; done.
  - apply (Sched_moves y); simpl; rewrite ?Hl; auto; done.
Qed.
Lemma Sched_step y y' : Sched y → step y y' → Sched y'.
Proof.
  intros I Hs. destruct Hs as [y y' Hs|y i run q Hw Hq|y i Hw _|y i run e n Hw E|y i run x e n Hw E|y|y|y db' n Hn].
  - by eapply Sched_loop.
  - destruct I as [(lost & Ho & Hlo) Hi Hd Hlen Hwk Hsl]. split; simpl; try done.
    + exists lost. split; [|done]. rewrite Ho, Hq. by rewrite <-!app_assoc.
    + rewrite Hq in Hlen. simpl in Hlen. lia.
    + by rewrite length_insert.
  - apply (Sched_moves y); simpl; auto; try done. by rewrite length_insert.
  - apply (Sched_moves y); simpl; auto; try done; [by rewrite length_insert|].
    pose proof (forward_execute run (mkEnv (db y) []) (tick y)) as Hf. by rewrite E in Hf.
  - apply (Sched_moves y); simpl; auto; try done; [by rewrite length_insert|].
    pose proof (forward_execute run (mkEnv (db y) []) (tick y)) as Hf. by rewrite E in Hf.
  - apply (Sched_moves y); simpl; auto; done.
  - apply (Sched_moves y); simpl; auto; done.
  - apply (Sched_moves y); simpl; auto; done.
Qed.

(** C25. While the scheduler runs, the runs it has admitted are those that the
    workers have taken, in that order, then those in the queue, then the one it
    is handing over; no run is admitted twice; the queue and the workers are
    bounded, and the loop sleeps at least a millisecond and at most half a
    minute.  When it ends, at most the run it was handing over is not in the
    queue. *)
Theorem runs_are_taken_once_in_order db n y :
  star step (start db n) y →
  (∃ lost, admitted y = begun y ++ queue y ++ lost ∧
     (lost = sending (loop y) ∨ (over (loop y) = true ∧ length lost ≤ 1))) ∧
  (Unpredictable W → NoDup (RunID <$> admitted y)) ∧
  length (queue y) ≤ 200 ∧ length (workers y) = 2 ∧
  (∀ d, loop y = Asleep d → (Millisecond ≤ d ≤ 30 * Second)%Z).
Proof.
  intros Hr. assert (Sched y) as [H1 _ H3 H4 H5 H6]; [|done].
  apply (star_invariant step Sched) in Hr; [done|apply Sched_step|apply Sched_start].
Qed.
End loop.

(** ** The policy service *)
Section policies.
Context `{W : World} `{C : Cron} `{V : PolicyValidator} (notifies : bool).
(** A policy is stored only with a schedule that can be read and, if it is
    switched on, for a stack that the control plane has accepted. *)
Theorem policies_are_checked_first id u e n st e' n' :
  Update notifies id u e n = (Ok st, (e', n')) →
  ∃ next db1 n1 p db2 n2,
    NextRun (UExpression u) (clock n) = Ok next ∧
    (if UEnabled u then EnableAutoUpdate id (tables e) (S n) = (Ok tt, (db1, n1)) else db1 = tables e ∧ n1 = S n) ∧
    SavePolicy id u (clock n1) db1 (S n1) = (Ok p, (db2, n2)) ∧
    Get id (mkPolicies db2 (notified e + (if notifies then 1 else 0))) n2 = (Ok st, (e', n')).
Proof.
  unfold Update. intros H. apply bind_ok in H as (t & e1 & n1 & H1 & H). apply now_ok in H1 as (-> & -> & ->).
  apply bind_ok in H as (next & e1 & n1 & H1 & H). apply lift_ok in H1 as (Hnext & -> & ->).
  apply bind_ok in H as ([] & e1 & n1 & H1 & H). apply bind_ok in H as (t & e2 & n2 & H2 & H). apply now_ok in H2 as (-> & -> & ->).
  apply bind_ok in H as (p & e2 & n2 & H2 & H). apply zoom_ok in H2 as (db2 & H2 & ->).
  apply bind_ok in H as ([] & e3 & n3 & H3 & H). unfold notify in H3. injection H3 as <- <-.
  exists next, (tables e1), n1, p, db2, n2. split; [done|]. split; [|split].
  - destruct (UEnabled u); [by apply zoom_ok in H1 as (db1 & H1 & ->)|by apply ret_ok in H1 as (_ & -> & ->)].
  - exact H2.
  - assert (notified e1 = notified e) as Hn.
    { destruct (UEnabled u); [by apply zoom_ok in H1 as (? & _ & ->)|by apply ret_ok in H1 as (_ & -> & _)]. }
    rewrite <-H. f_equal. destruct notifies; simpl; rewrite Hn; f_equal; lia.
Qed.
End policies.

(** ** Examples *)
Definition days : World :=
  {| fault := λ _, false; random := λ n, pretty n;
     clock := λ n, if (n <? 3)%nat then AutoUpdateLaws.ex_now else (AutoUpdateLaws.ex_now + 2 * 86400 * Second)%Z |}.
#[local] Existing Instance days.
#[local] Instance idle_executor : Executor := λ _ _, mret tt.
#[local] Existing Instance AutoUpdateLaws.daily.
Definition ex_reset : DB * nat := (reset AutoUpdateLaws.ex_db 0).2.
Definition ex_due : list Policy := match (listDue ex_reset.1 ex_reset.2).1 with Ok l => l | Err _ => [] end.
Definition ex_listed : DB * nat := (listDue ex_reset.1 ex_reset.2).2.
Definition ex_admit := admitDue (default (policyOf "" AutoUpdateLaws.ex_policyRow) (head ex_due)) ex_listed.1 ex_listed.2.
Definition ex_run : Run := match ex_admit.1 with Ok (r, _) => r | Err _ => zeroRun end.
Definition ex_state : System :=
  worker 0 (Busy ex_run) (take ex_run [] (send ex_run (at_ (Admitting [] false) (accept ex_run
    (at_ (Sending ex_run [] false) (stored ex_admit.2 (at_ (Admitting ex_due false) (stored ex_listed
      (at_ Listing (stored ex_reset (start AutoUpdateLaws.ex_db 0))))))))))).
Lemma ex_state_reachable : star step (start AutoUpdateLaws.ex_db 0) ex_state.
Proof.
  eapply star_step; [apply s_loop, (l_reset _ ex_reset); vm_compute; reflexivity|].
  eapply star_step; [apply s_loop, (l_list _ ex_due ex_listed); vm_compute; reflexivity|].
  eapply star_step; [apply s_loop, (l_admit _ (default (policyOf "" AutoUpdateLaws.ex_policyRow) (head ex_due)) [] false ex_run ex_admit.2); vm_compute; reflexivity|].
  eapply star_step; [apply s_loop, (l_send _ ex_run [] false); [vm_compute; reflexivity|vm_compute; lia]|].
  eapply star_step; [apply (s_take _ 0 ex_run []); vm_compute; reflexivity|]. apply star_refl.
Qed.
Lemma runs_are_taken_once_in_order_witness : admitted ex_state = [ex_run] ∧ begun ex_state = [ex_run] ∧ RunPhase ex_run = "queued"%string ∧
  length (queue ex_state) ≤ 200.
Proof.
  assert (∀ run limit, forward (CheckAndUpdate run limit)) as Hx by (intros run limit s n; done).
  destruct (runs_are_taken_once_in_order Hx AutoUpdateLaws.ex_db 0 ex_state ex_state_reachable) as (_ & _ & H & _).
  split; [vm_compute; reflexivity|]. split; [vm_compute; reflexivity|]. split; [vm_compute; reflexivity|exact H].
Defined.
End SchedulerLaws.
