(* ===== verification/OnDemandService.v ===== *)
(** * The on-demand service (src/internal/control/on_demand.go)

    It saves, holds and resumes groups, observes them for the controller and
    executes the transitions the controller decides on: between the database,
    the operation lock, the controller's ports and the containers. *)
From S2P Require Import Prelude GoStrings Traffic OnDemandPolicy Alerts Database OnDemandStore OperationStore.
From S2P Require Import Coordinator Locking Operation Tracked Compose Controller Stacks.

Module OnDemandService.
Import Data Database OnDemandPolicy.
#[export] Existing Instances Operations.env_store Operations.env_rest Tracked.env_coordinator Tracked.pair_store Tracked.pair_rest.
#[local] Existing Instances Traffic.Binding_eq_dec OnDemandPolicy.Counters_eq_dec.

(** ** The service's surroundings *)

(** The runtime is an interface; every call that starts or stops a container is
    recorded with its moment. *)
Notation Engine := (list (Compose.Action * nat)).
Class OnDemandRuntime := {
  CheckOnDemandHost : string → M Engine unit;
  SnapshotOnDemand : Stacks.Request → list string → M Engine Compose.OnDemandSnapshot;
  OnDemandCounters : list string → M Engine (gmap string Compose.OnDemandCounters * time);
  StartOnDemand : Compose.OnDemandSnapshot → duration → M Engine unit;
  StopOnDemand : Compose.OnDemandSnapshot → Z → M Engine unit;
}.
Record Rest := mkRest {
  controller : Controller.Controller;
  coordinator : Coordinator.Coordinator;
  service : Operations.Service;
  hostChecked : gmap string time;
  engine : Engine;
}.
Notation Env := (Operations.Env Rest).
#[export] Program Instance rest_controller : Lens Rest Controller.Controller := {|
  view := controller; put x r := mkRest x (coordinator r) (service r) (hostChecked r) (engine r) |}.
Next Obligation. done. Qed.
Next Obligation. by intros []. Qed.
Next Obligation. done. Qed.
#[export] Program Instance rest_coordinator : Lens Rest Coordinator.Coordinator := {|
  view := coordinator; put x r := mkRest (controller r) x (service r) (hostChecked r) (engine r) |}.
Next Obligation. done. Qed.
Next Obligation. by intros []. Qed.
Next Obligation. done. Qed.
#[export] Program Instance rest_checked : Lens Rest (gmap string time) := {|
  view := hostChecked; put x r := mkRest (controller r) (coordinator r) (service r) x (engine r) |}.
Next Obligation. done. Qed.
Next Obligation. by intros []. Qed.
Next Obligation. done. Qed.
#[export] Program Instance rest_engine : Lens Rest Engine := {|
  view := engine; put x r := mkRest (controller r) (coordinator r) (service r) (hostChecked r) x |}.
Next Obligation. done. Qed.
Next Obligation. by intros []. Qed.
Next Obligation. done. Qed.
#[export] Program Instance rest_service : Lens Rest Operations.Service := {|
  view := service; put x r := mkRest (controller r) (coordinator r) x (hostChecked r) (engine r) |}.
Next Obligation. done. Qed.
Next Obligation. by intros []. Qed.
Next Obligation. done. Qed.
#[export] Instance lock_service : Tracked.Apart Rest rest_coordinator rest_service.
Proof. done. Qed.

(** ** Evidence *)
Definition demandEvidence (s : Compose.OnDemandSnapshot) : Evidence :=
  mkEvidence (Compose.SourceDigest s) (Compose.OID <$> Compose.Containers s) (Compose.Bindings s).
Definition demandPhase (s : Compose.OnDemandSnapshot) : Phase := if Compose.SRunning s then Running else Sleeping.
Definition verifiedDemandEvidence (s : Compose.OnDemandSnapshot) (previous : Evidence) : result Evidence :=
  let e := demandEvidence s in
  _ ← reject_if (negb (SourceDigest e =? SourceDigest previous)%string
                 || negb (bool_decide (ContainerIDs e = ContainerIDs previous))) OnDemand_ErrConflict;
  if Compose.SRunning s then
    _ ← reject_if (negb (bool_decide (EvidenceBindings e = EvidenceBindings previous))) OnDemand_ErrConflict; Ok e
  else Ok (mkEvidence (SourceDigest e) (ContainerIDs e) (EvidenceBindings previous)).
(** fmt.Sprintf("%s:%s:%d;", ..) of every container. *)
Definition epoch (s : Compose.OnDemandSnapshot) : string :=
  foldr String.append "" ((λ m, Compose.OID m +:+ ":" +:+ Compose.OStartedAt m +:+ ":" +:+ pretty (Compose.ORestartCount m) +:+ ";")
    <$> Compose.Containers s).
Definition countersOf (counts : gmap string Compose.OnDemandCounters) : gmap string Counters :=
  (λ c, mkCounters (Compose.Received c) (Compose.Sent c)) <$> counts.

Section service.
Context `{W : World} `{R : OnDemandRuntime} {E : Type} `{!Lens E DB} `{!Lens E Rest}.
(** The root of the workspace and whether there is a store of deployments. *)
Context (root : string) (stateful : bool).
Notation IO := (M E).
Definition part {A X} `{!Lens Rest A} (m : M A X) : IO X := zoom (zoom m : M Rest X).
Definition ports (f : Controller.Controller → Controller.Controller) : IO unit :=
  part ((λ c n, (Ok tt, (f c, n))) : M Controller.Controller unit).
Definition checkContext (ctx : nat → option error) : IO unit := λ e n,
  (match ctx n with Some x => Err x | None => Ok tt end, (e, S n)).

(** ** snapshot *)
Definition depends (s : Compose.OnDemandSnapshot) (g other : Group) : bool :=
  negb (GroupID other =? GroupID g)%string &&
  existsb (λ dep, existsb (String.eqb dep) (Members (GroupPolicy other))) (Compose.ExternalDependencies s).
Definition snapshot (g : Group) (host : bool) : IO Compose.OnDemandSnapshot :=
  _ ← guard_not (negb stateful) OnDemand_ErrUnavailable;
  target ← zoom (OperationStore.ByID (GroupStackID g));
  _ ← guard_not (bool_decide (is_Some (ArchivedAt target))) OnDemand_ErrUnavailable;
  _ ← (if host then part (CheckOnDemandHost (ComposeProjectName target)) else mret tt);
  values ← zoom (OperationStore.Environment (GroupStackID g));
  s ← part (SnapshotOnDemand (Stacks.mkRequest (root, DirectoryName target) (ComposeProjectName target) values)
              (Members (GroupPolicy g)));
  baseline ← zoom (OperationStore.LatestDeployment (GroupStackID g));
  _ ← guard_not (negb (DepStatus baseline =? DeploymentSucceeded)%string
                 || negb (ComposeDigest baseline =? Compose.SourceDigest s)%string) OnDemand_ErrUnavailable;
  groups ← zoom (OnDemandStore.ListGroups (GroupStackID g));
  _ ← guard_not (existsb (depends s g) groups) OnDemand_ErrUnavailable;
  mret s.

(** ** ObserveOnDemand *)
Definition remember (id : string) (t : time) : IO unit :=
  part ((λ m n, (Ok tt, (<[id := t]> (if (MaxGroups <=? Z.of_nat (size m))%Z then ∅ else m), n))) : M (gmap string time) unit).
Definition changedIdentity : string := "Container identity or configuration changed. Review and resume.".
Definition ObserveOnDemand (g : Group) : IO Sample :=
  last ← part ((λ m n, (Ok (default zeroTime (m !! GroupStackID g)), (m, n))) : M (gmap string time) time);
  t ← now;
  let check := (Minute <=? Sub t last)%Z in
  s ← snapshot g check;
  _ ← (if check then t ← now; remember (GroupStackID g) t else mret tt);
  match verifiedDemandEvidence s (GroupEvidence g) with
  | Err e => _ ← attempt (zoom (OnDemandStore.PauseGroup g changedIdentity)); fail e
  | Ok evidence =>
    t ← now;
    if Compose.SRunning s then
      '(counts, observed) ← part (OnDemandCounters (ContainerIDs evidence));
      mret (mkSample (epoch s) (demandPhase s) observed (countersOf counts) evidence)
    else mret (mkSample (epoch s) (demandPhase s) t ∅ evidence)
  end.

(** ** ExecuteOnDemand: what is checked first *)
Definition outdated (fresh g : Group) : bool :=
  negb (Revision fresh =? Revision g)%Z || negb (Enabled (GroupPolicy fresh)) || negb (HoldReason fresh =? "")%string
  || negb (PausedReason fresh =? "")%string || negb (GroupPhase fresh =? GroupPhase g)%string.
Definition misplaced (action : Action) (g : Group) (s : Compose.OnDemandSnapshot) : bool :=
  (action =? Sleep)%string && (negb (Compose.SRunning s) || negb (GroupPhase g =? Running)%string)
  || (action =? WakeUp)%string && (Compose.SRunning s || negb (GroupPhase g =? Sleeping)%string).
(** Nothing was sent or received since the group was observed. *)
Definition stillQuiet (g : Group) (observed latest : Sample) : bool :=
  bool_decide (size (SampleCounters latest) = length (Members (GroupPolicy g)))
  && bool_decide (SampleCounters latest = SampleCounters observed) && (SampleEpoch latest =? SampleEpoch observed)%string.
Definition confirmQuiet (g : Group) (observed : Sample) : IO unit :=
  t ← now;
  t2 ← now;
  _ ← guard_not (IsZero (ObservedAt observed) || (10 * Second <? Sub t (ObservedAt observed))%Z
                 || After (ObservedAt observed) t2) OnDemand_ErrConflict;
  latest ← ObserveOnDemand g;
  guard_not (negb (stillQuiet g observed latest)) OnDemand_ErrConflict.
Definition transitionTimeout (g : Group) : duration :=
  let p := GroupPolicy g in
  wrap64 (wrap64 (StartupSeconds p + wrap64 (StopGraceSeconds p * Z.of_nat (length (Members p))) + 30) * Second).
Definition alertKey (g : Group) : Alert.Key := Alert.mkKey (GroupStackID g) "on-demand" ("group:" +:+ GroupID g).
Definition transitionRequest (g : Group) (action : Action) (target : Stack) (values : gmap string string) (id : string)
    : Operations.OperationRequest :=
  Operations.mkOperationRequest [] (transitionTimeout g) ("op_" +:+ id) ("on-demand-" +:+ action) "stack" (GroupStackID g) "" ""
    (map_to_list values).*2 false [alertKey g] "automatic" (DirectoryName target).
Definition prepare (g : Group) (action : Action) (observed : Sample) : IO (Operations.OperationRequest * Compose.OnDemandSnapshot) :=
  fresh ← zoom (OnDemandStore.GetGroup (GroupStackID g) (GroupID g));
  _ ← guard_not (outdated fresh g) OnDemand_ErrConflict;
  s ← snapshot fresh true;
  _ ← lift (verifiedDemandEvidence s (GroupEvidence g));
  _ ← guard_not (misplaced action g s) OnDemand_ErrConflict;
  _ ← (if (action =? Sleep)%string then confirmQuiet g observed else mret tt);
  target ← zoom (OperationStore.ByID (GroupStackID g));
  values ← zoom (OperationStore.Environment (GroupStackID g));
  id ← rand_text;
  mret (transitionRequest g action target values id, s).

(** ** ExecuteOnDemand: the work of the operation *)
Definition unverified : string := "Transition could not be verified. Review containers and resume explicitly.".
Definition mutate (g : Group) (action : Action) (s : Compose.OnDemandSnapshot) : IO unit :=
  if (action =? WakeUp)%string then
    _ ← part (Controller.Release g);
    part (StartOnDemand s (wrap64 (StartupSeconds (GroupPolicy g) * Second)))
  else
    _ ← part (StopOnDemand s (StopGraceSeconds (GroupPolicy g)));
    part (Controller.Reserve g).
Definition completionOf (g : Group) (action : Action) (r : result unit) : OnDemandCompletion :=
  match r with
  | Ok _ => mkOnDemandCompletion (GroupID g) (if (action =? WakeUp)%string then Running else Sleeping) ""
  | Err _ => mkOnDemandCompletion (GroupID g) Unknown unverified
  end.
Definition errorOf {A} (r : result A) : option error := match r with Ok _ => None | Err e => Some e end.
Definition transition (ctx : nat → option error) (g : Group) (action : Action) (s : Compose.OnDemandSnapshot) (id : string)
    : IO Result :=
  c ← attempt (checkContext ctx);
  match c with
  | Err e => mret (mkResult None None "" (Some e) [])
  | Ok _ =>
    b ← attempt (zoom (OnDemandStore.BeginTransition g action id));
    match b with
    | Err e => mret (mkResult None None "" (Some e) [])
    | Ok _ =>
      m ← attempt (mutate g action s);
      _ ← (if is_ok m then mret (Ok tt) else attempt (part (Controller.Release g)));
      mret (mkResult (Some (completionOf g action m)) None "" (errorOf m) [])
    end
  end.
End service.

(** ** The service *)
Section operations.
Context `{W : World} `{R : OnDemandRuntime} (root : string) (stateful : bool).
(** The operation service's fields. *)
Context (Error : error → string) (publisher : option bool) (maxOutput : Z).
Notation IO := (M Env).

(** *** ExecuteOnDemand *)
Definition failedOperation : error := ErrText "on-demand operation failed; review operation history".
Definition run (ctx : nat → option error) (g : Group) (action : Action) (request : Operations.OperationRequest)
    (s : Compose.OnDemandSnapshot) (o : Operation) (gr : Coordinator.Grant) : IO unit :=
  answer ← Tracked.carryOut Error publisher maxOutput request
             (Tracked.asWork (transition ctx g action s (Operations.RequestID request))) o gr;
  match answer with
  | Some (Ok completed) => guard_not (negb (Status completed =? OperationSucceeded)%string) failedOperation
  | Some (Err x) => _ ← attempt (part (Controller.Release g)); fail x
  | None => mret tt                     (* it waits on; not reached, see [Tracked.carried_out] *)
  end.
(** Until the operation is accepted, an error gives the lock back; afterwards
    the operation does. *)
Definition ExecuteOnDemand (ctx : nat → option error) (g : Group) (action : Action) (observed : Sample) : IO unit :=
  _ ← checkContext ctx;
  _ ← guard_not (negb (action =? WakeUp)%string && negb (action =? Sleep)%string) OnDemand_ErrInvalid;
  gr ← Tracked.admitted false (GroupStackID g);
  '(request, s) ← Tracked.held gr (prepare root stateful g action observed);
  o ← Tracked.held gr (Tracked.startTracked publisher request);
  run ctx g action request s o gr.

(** *** SaveGroup and its siblings *)
Definition proposed (id groupID : string) (p : OnDemandPolicy.Policy) : Group :=
  mkGroup groupID id p 0 "" "" "" (mkEvidence "" [] []).
Definition save (id groupID : string) (update : PolicyUpdate) (evidence : Evidence) (phase : Phase) : IO Group :=
  saved ← zoom (OnDemandStore.SaveGroup id groupID update evidence phase);
  _ ← ports Controller.Notify;
  mret saved.
Definition disables (groupID : string) (update : PolicyUpdate) (previous : Group) : bool :=
  negb (Enabled (UpdatePolicy update)) && bool_decide (Members (UpdatePolicy update) = Members (GroupPolicy previous)).
Definition disable (id groupID : string) (update : PolicyUpdate) (previous : Group) : IO Group :=
  saved ← zoom (OnDemandStore.SaveGroup id groupID update (GroupEvidence previous)
                  (if (GroupPhase previous =? Unknown)%string then Running else GroupPhase previous));
  _ ← ports (Controller.SuspendGroup groupID);
  mret saved.
Definition SaveGroup (id groupID : string) (update : PolicyUpdate) : IO Group :=
  _ ← lift (ValidatePolicy (UpdatePolicy update));
  Locking.locked false id (
    if (groupID =? "")%string then
      s ← snapshot root stateful (proposed id groupID (UpdatePolicy update)) true;
      _ ← guard_not (negb (Compose.SRunning s)) OnDemand_ErrUnavailable;
      save id groupID update (demandEvidence s) (demandPhase s)
    else
      previous ← zoom (OnDemandStore.GetGroup id groupID);
      _ ← guard_not (negb (Revision previous =? ExpectedRevision update)%Z) OnDemand_ErrConflict;
      if disables groupID update previous then disable id groupID update previous
      else
        s ← snapshot root stateful (proposed id groupID (UpdatePolicy update)) true;
        evidence ← lift (if Compose.SRunning s then Ok (demandEvidence s) else verifiedDemandEvidence s (GroupEvidence previous));
        save id groupID update evidence (demandPhase s)).
Definition DeleteGroup (id groupID : string) (revision : Z) : IO unit :=
  Locking.locked false id (
    _ ← zoom (OnDemandStore.DeleteGroup id groupID revision);
    ports (Controller.SuspendGroup groupID)).
Definition heldReason : string := "Manually held. Resume explicitly to enable automatic wake and sleep.".
Definition HoldGroup (id groupID : string) (revision : Z) : IO unit :=
  Locking.locked false id (
    _ ← zoom (OnDemandStore.HoldGroup id groupID revision heldReason);
    ports (Controller.SuspendGroup groupID)).
Definition ResumeGroup (id groupID : string) (revision : Z) : IO Group :=
  Locking.locked false id (
    g ← zoom (OnDemandStore.GetGroup id groupID);
    _ ← guard_not (negb (Revision g =? revision)%Z) OnDemand_ErrConflict;
    s ← snapshot root stateful g true;
    evidence ← lift (if Compose.SRunning s then Ok (demandEvidence s) else verifiedDemandEvidence s (GroupEvidence g));
    saved ← zoom (OnDemandStore.ResumeGroup id groupID revision evidence (demandPhase s));
    _ ← ports Controller.Notify;
    mret saved).
(** Every group with what is observed of it. *)
Definition ListGroups (id : string) : IO (list (Group * string)) :=
  _ ← zoom (OperationStore.ByID id);
  groups ← zoom (OnDemandStore.ListGroups id);
  c ← part ((λ c n, (Ok c, (c, n))) : M Controller.Controller Controller.Controller);
  mret ((λ g, (g, Controller.ObservationReason c g)) <$> groups).
(** What [Run] does before the controller runs. *)
Definition recover : IO unit := zoom OnDemandStore.RecoverInterrupted.
End operations.

(** A manual operation on a stack suspends the groups that it has held; it is
    part of the operation's work. *)
Section holds.
Context `{W : World} {E : Type} `{!Lens E DB} `{!Lens E Controller.Controller}.
Fixpoint suspendHeld (l : list Group) : M E unit :=
  match l with
  | [] => mret tt
  | g :: rest =>
    _ ← (if negb (HoldReason g =? "")%string || negb (PausedReason g =? "")%string || negb (Enabled (GroupPolicy g))
         then zoom ((λ c n, (Ok tt, (Controller.SuspendGroup (GroupID g) c, n))) : M Controller.Controller unit) else mret tt);
    suspendHeld rest
  end.
(** [present]: the control plane has an on-demand service. *)
Definition releaseOnDemandHolds (present : bool) (scopeType scopeID : string) : M E unit :=
  if negb present || negb (scopeType =? "stack")%string then mret tt
  else groups ← zoom (OnDemandStore.ListGroups scopeID); suspendHeld groups.
End holds.
End OnDemandService.
