(* ===== verification/OnDemandServiceLaws.v ===== *)
(** * What the on-demand service guarantees

    A transition moves containers only while it owns its group, with the ports
    where they belong; an execution accounts for the group, the containers, the
    ports and the lock on every branch; switching a group off needs nothing
    outside of the database. *)
From S2P Require Import Prelude GoStrings Traffic OnDemandPolicy Alerts Database OnDemandStore OperationStore Reading.
From S2P Require Import Coordinator Locking Operation Tracked Compose Controller Stacks OnDemandLaws DatabaseLaws OperationLaws ControllerLaws OnDemandService.

Module OnDemandServiceLaws.
Import Data Database OnDemandPolicy OnDemandService Reading.
#[local] Existing Instances Traffic.Binding_eq_dec Traffic.Binding_countable.

(** ** Ports *)

(** The worker that the controller has for the group holds its ports. *)
Definition reserved (c : Controller.Controller) (g : Group) : Prop :=
  ∃ p w l, Controller.worker c (GroupID g) = Some (p, w) ∧ Controller.listener w = Some l ∧
    Controller.suspended w = false ∧ Revision (Controller.group w) = Revision g.
Lemma worker_Some c id p w : Controller.worker c id = Some (p, w) ↔ Controller.workers c !! id = Some p ∧ Controller.heap c !! p = Some w.
Proof.
  unfold Controller.worker. destruct (Controller.workers c !! id) as [q|]; simpl; [|naive_solver].
  destruct (Controller.heap c !! q) as [v|] eqn:E; simpl; [|naive_solver]. naive_solver.
Qed.
Section ports.
Context `{W : World}.
(** Whatever [Release] answers, the ports are not held for this revision. *)
Lemma released_after g c n r c' n' : Controller.Release g c n = (r, (c', n')) → ¬ reserved c' g.
Proof.
  unfold Controller.Release, Controller.guarded. intros E (p & w & l & Hw & Hl & Hs & Hr).
  destruct (Controller.worker c (GroupID g)) as [[p0 w0]|] eqn:Ew; [|injection E as _ <- _; congruence].
  destruct (negb _ || _) eqn:Eg.
  - injection E as _ <- _. rewrite Ew in Hw. injection Hw as <- <-. rewrite Hr, Z.eqb_refl, Hs in Eg. done.
  - injection E as _ <- _. apply worker_Some in Hw as [Hp Hw]. apply worker_Some in Ew as [Hp0 Hw0].
    rewrite ControllerLaws.workers_close, Hp0 in Hp. injection Hp as <-.
    rewrite ControllerLaws.heap_close, lookup_alter_eq, Hw0 in Hw. injection Hw as <-. done.
Qed.
Lemma reserved_after g c n c' n' : Controller.Reserve g c n = (Ok tt, (c', n')) → reserved c' g.
Proof.
  unfold Controller.Reserve. intros E. unfold Controller.guarded in E.
  destruct (Controller.worker c (GroupID g)) as [[p w]|] eqn:Ew; [|done].
  destruct (negb _ || _) eqn:Eg; [done|]. apply orb_false_iff in Eg as [Er%negb_false_iff%Z.eqb_eq Es].
  destruct (Controller.listener w) as [l|] eqn:El; [injection E as <- _; by exists p, w, l|].
  unfold mbind, M_bind, Controller.keep in E. destruct (zoom _ c n) as [[l|x] [c1 n1]] eqn:Ez; [|done].
  assert (Controller.workers c1 = Controller.workers c) as Hw.
  { unfold zoom in Ez. destruct (Traffic.Listen _ _ _) as [r0 [a k]]. by injection Ez as _ <- _. }
  injection E as <- _. apply worker_Some in Ew as [Hp Hh]. eexists p, _, l. rewrite worker_Some. simpl.
  rewrite Hw, Hp, lookup_insert_eq. done.
Qed.
End ports.

(** ** The work of a transition *)
Section transition.
Context `{W : World} `{R : OnDemandRuntime}.

Definition ownedBy (id : string) (to : Phase) (r : GroupRow) : GroupRow :=
  mkGroupRow (g_stack r) (g_policy r) (g_revision r) to (g_hold r) (g_paused r) (g_evidence r) (Some id) (g_last_operation r).
Lemma BeginTransition_ok g action id db n u db' n' :
  OnDemandStore.BeginTransition g action id db n = (Ok u, (db', n')) →
  ∃ from to row, OnDemandStore.transitionOf action = Some (from, to) ∧ groups db !! GroupID g = Some row ∧
    OnDemandStore.ready (GroupStackID g) (Revision g) from db row = true ∧
    db' = set_groups db (<[GroupID g := ownedBy id to row]> (groups db)) ∧ is_Some (operations db !! id).
Proof.
  unfold OnDemandStore.BeginTransition. intros H. apply bind_ok in H as (? & db0 & n0 & H0 & H). apply guard_not_ok in H0 as (_ & -> & ->).
  destruct (OnDemandStore.transitionOf action) as [[from to]|]; [|done]. apply call_ok in H as [H _].
  destruct (groups db !! GroupID g) as [row|] eqn:Hr; [|done]. destruct (OnDemandStore.ready _ _ _ _ _) eqn:Hrd; [|done].
  destruct (operations db !! id) eqn:Ho; [|done]. injection H as _ <-. exists from, to, row. split_and!; eauto.
Qed.
Lemma BeginTransition_err g action id db n x db' n' :
  OnDemandStore.BeginTransition g action id db n = (Err x, (db', n')) → db' = db.
Proof.
  unfold OnDemandStore.BeginTransition, mbind, M_bind, guard_not, lift. destruct (reject_if _ _); [|by intros [= _ <- _]].
  destruct (OnDemandStore.transitionOf action) as [[from to]|]; [|by intros [= _ <- _]].
  unfold call. destruct (fault n); [by intros [= _ <- _]|]. repeat case_match; intros; simplify_eq; done.
Qed.

(** What [mutate] did with the containers: nothing, or one call of the runtime. *)
Definition moved (g : Group) (action : Action) (s : Compose.OnDemandSnapshot) (t t' : Engine) (res : result unit) : Prop :=
  (t' = t ∧ is_ok res = false) ∨
  ∃ n1 n2, if (action =? WakeUp)%string
    then StartOnDemand s (wrap64 (StartupSeconds (GroupPolicy g) * Second)) t n1 = (res, (t', n2))
    else ∃ r0, StopOnDemand s (StopGraceSeconds (GroupPolicy g)) t n1 = (r0, (t', n2)) ∧ (is_ok res = true → is_ok r0 = true).
Lemma part_run {A X E} `{!Lens E DB} `{!Lens E Rest} `{!Lens Rest A} (m : M A X) (e : E) n :
  part m e n = ((m (view (view (A := Rest) e)) n).1,
    (put (put (m (view (view (A := Rest) e)) n).2.1 (view (A := Rest) e)) e, (m (view (view (A := Rest) e)) n).2.2)).
Proof. unfold part, zoom. by destruct (m (view (view (A := Rest) e)) n) as [r [a k]]. Qed.
Lemma mutate_spec g action s (e : DB * Rest) n :
  ∃ c' t' n' res, mutate g action s e n = (res, ((e.1, mkRest c' (coordinator e.2) (service e.2) (hostChecked e.2) t'), n')) ∧
    moved g action s (engine e.2) t' res ∧
    (action = WakeUp → ¬ reserved c' g) ∧ (action ≠ WakeUp → is_ok res = true → reserved c' g).
Proof.
  unfold mutate. destruct (String.eqb_spec action WakeUp) as [->|Hne]; unfold mbind, M_bind; rewrite part_run; simpl.
  - destruct (Controller.Release g (controller e.2) n) as [[[]|x] [c1 n1]] eqn:Er; simpl.
    + rewrite part_run. simpl. destruct (StartOnDemand s _ (engine e.2) n1) as [res [t' n2]] eqn:Es. simpl.
      exists c1, t', n2, res. split; [done|]. split; [right; exists n1, n2; by simpl|]. split; [|done]. intros _. by eapply released_after.
    + exists c1, (engine e.2), n1, (Err x). split; [done|]. split; [by left|]. split; [|done]. intros _. by eapply released_after.
  - destruct (StopOnDemand s _ (engine e.2) n) as [[[]|x] [t' n1]] eqn:Es; simpl.
    + rewrite part_run. simpl. destruct (Controller.Reserve g (controller e.2) n1) as [res [c2 n2]] eqn:Er. simpl.
      exists c2, t', n2, res. split; [done|]. split; [|split; [done|]].
      * right. exists n, n1. destruct (String.eqb_spec action WakeUp); [done|]. exists (Ok tt). split; [done|]. by intros _.
      * intros _ Hok. destruct res as [[]|]; [|done]. by eapply reserved_after.
    + exists (controller e.2), t', n1, (Err x). split; [done|]. split; [|done].
      right. exists n, n1. destruct (String.eqb_spec action WakeUp); [done|]. exists (Err x). done.
Qed.
(** What the work has done to the group, the containers and the ports. *)
Definition begun (g : Group) (action : Action) (s : Compose.OnDemandSnapshot) (id : string) (db db' : DB) (r r' : Rest) (x : Result) : Prop :=
  ∃ from to row res,
    OnDemandStore.transitionOf action = Some (from, to) ∧ groups db !! GroupID g = Some row ∧
    OnDemandStore.ready (GroupStackID g) (Revision g) from db row = true ∧
    db' = set_groups db (<[GroupID g := ownedBy id to row]> (groups db)) ∧
    OnDemand x = Some (completionOf g action res) ∧ RErr x = errorOf res ∧
    moved g action s (engine r) (engine r') res ∧
    (if (action =? WakeUp)%string && is_ok res || negb (is_ok res) then ¬ reserved (controller r') g else reserved (controller r') g).
Lemma transition_spec ctx g action s id db r n :
  let '(x, (db', r', n')) := Tracked.asWork (transition ctx g action s id) db r n in
  coordinator r' = coordinator r ∧ service r' = service r ∧ Update x = None ∧ RAlerts x = [] ∧
  ((db' = db ∧ r' = r ∧ OnDemand x = None ∧ is_Some (RErr x)) ∨ begun g action s id db db' r r' x).
Proof.
  unfold Tracked.asWork, transition, attempt. unfold mbind, M_bind, checkContext. cbn beta iota.
  destruct (ctx n) as [x|]; [cbn; split_and!; eauto|].
  unfold zoom. cbn [view Tracked.pair_store fst].
  destruct (OnDemandStore.BeginTransition g action id db (S n)) as [[u|x] [db1 n1]] eqn:Eb.
  2:{ apply BeginTransition_err in Eb as ->. cbn. split_and!; [done..|]. left. split_and!; eauto. }
  apply BeginTransition_ok in Eb as (from & to & row & Ht & Hr & Hrd & -> & _). cbn beta iota.
  set (db1 := set_groups db _).
  destruct (mutate_spec g action s (db1, r) n1) as (c1 & t1 & n2 & res & E & Hm & Hw & Hs).
  change (put (Lens := Tracked.pair_store) db1 (db, r)) with (db1, r). rewrite E. cbn [fst snd] in *.
  destruct res as [[]|x]; cbn beta iota; cbn [is_ok].
  - cbn. split_and!; [done..|]. right. exists from, to, row, (Ok tt). cbn. split_and!; try done.
    rewrite andb_true_r, orb_false_r. destruct (String.eqb_spec action WakeUp); auto.
  - rewrite part_run. cbn. destruct (Controller.Release g c1 n2) as [r2 [c2 n3]] eqn:Er. cbn.
    split_and!; [done..|]. right. exists from, to, row, (Err x). cbn. split_and!; try done.
    rewrite andb_false_r. cbn. by eapply released_after.
Qed.
End transition.

(** ** What is checked first leaves no trace *)

(** The runtime's observations start and stop nothing. *)
Class RuntimeLaws `{R : OnDemandRuntime} : Prop := {
  host_silent p : still (CheckOnDemandHost p);
  snapshot_silent q l : still (SnapshotOnDemand q l);
  counters_silent l : still (OnDemandCounters l);
}.
Section prepare.
Context `{W : World} `{R : OnDemandRuntime} `{RL : !RuntimeLaws} (root : string) (stateful : bool).
(** Only the database and the memory of host checks may differ. *)
Definition Steady (e0 e : Env) : Prop :=
  ∃ db h, e = Operations.mkEnv db (Operations.publishedOps e0) (Operations.publishedAlerts e0) (Operations.released e0)
    (put (A := gmap string time) h (Operations.rest e0)).
Lemma Steady_refl e : Steady e e.
Proof. exists (Operations.store e), (hostChecked (Operations.rest e)). by destruct e as [? ? ? ? []]. Qed.
Lemma steady_zoom e0 {X} (m : M DB X) : maintains (λ e _, Steady e0 e) (zoom m : M Env X).
Proof.
  intros e n (db & h & ->). unfold zoom. destruct (m _ n) as [r [db' k]]. by exists db', h.
Qed.
Lemma steady_engine e0 {X} (m : M Engine X) : (∀ t n, (m t n).2.1 = t) → maintains (λ e _, Steady e0 e) (part m : M Env X).
Proof.
  intros Hm e n (db & h & ->). rewrite part_run. cbn. rewrite Hm. by exists db, h.
Qed.
Lemma steady_checked e0 {X} (m : M (gmap string time) X) : maintains (λ e _, Steady e0 e) (part m : M Env X).
Proof.
  intros e n (db & h & ->). rewrite part_run. cbn. by eexists db, _.
Qed.
Lemma steady_attempt {S A} (P : S → nat → Prop) (m : M S A) : maintains P m → maintains P (attempt m).
Proof. intros Hm s n Hs. specialize (Hm s n Hs). unfold attempt. by destruct (m s n) as [r [s' n']]. Qed.
Ltac steady := walk ltac:(first [apply steady_zoom | apply steady_engine; intros; apply host_silent || apply snapshot_silent || apply counters_silent
  | apply steady_checked | apply steady_attempt, steady_zoom | idtac]).
Lemma snapshot_steady e0 g host : maintains (λ e _, Steady e0 e) (snapshot root stateful g host).
Proof. unfold snapshot. steady. Qed.
Lemma observe_steady e0 g : maintains (λ e _, Steady e0 e) (ObserveOnDemand root stateful g).
Proof. unfold ObserveOnDemand, remember. steady. apply snapshot_steady. Qed.
Lemma prepare_steady e0 g action observed : maintains (λ e _, Steady e0 e) (prepare root stateful g action observed).
Proof. unfold prepare, confirmQuiet. steady; [apply snapshot_steady|apply observe_steady]. Qed.

(** A success has not changed the database either. *)
Lemma same_zoom db0 {X} (m : M DB X) : still m → secures (λ e _, Operations.store e = db0) (zoom m : M Env X).
Proof. intros Hm e n x e' n' Hs E. unfold zoom in E. specialize (Hm (Operations.store e) n). simpl in E. destruct (m _ n) as [r [db' k]]. simpl in Hm. by simplify_eq. Qed.
Lemma same_part db0 {A X} `{!Lens Rest A} (m : M A X) : secures (λ e _, Operations.store e = db0) (part m : M Env X).
Proof. intros e n x e' n' Hs E. rewrite part_run in E. by injection E as _ <- _. Qed.
Lemma same_fails db0 {X Y} (m : M Env X) x : secures (λ e _, Operations.store e = db0) (_ ← m; fail x : M Env Y).
Proof. intros e n a e' n' _ E. by apply bind_ok in E as (? & ? & ? & _ & E). Qed.
Ltac same := stride ltac:(first [apply same_fails | apply same_zoom; solve [eauto with still]
  | apply same_part | idtac]).
Lemma snapshot_same db0 g host : secures (λ e _, Operations.store e = db0) (snapshot root stateful g host).
Proof. unfold snapshot. same. Qed.
Lemma observe_same db0 g : secures (λ e _, Operations.store e = db0) (ObserveOnDemand root stateful g).
Proof.
  unfold ObserveOnDemand, remember. apply secures_bind; [apply same_part|intros last]. apply secures_bind; [apply secures_now; apply _|intros t].
  apply secures_bind; [apply snapshot_same|intros s]. apply secures_bind; [same|intros _].
  destruct (verifiedDemandEvidence s (GroupEvidence g)); [same|apply same_fails].
Qed.
Lemma prepare_same db0 g action observed : secures (λ e _, Operations.store e = db0) (prepare root stateful g action observed).
Proof. unfold prepare, confirmQuiet. same; [apply snapshot_same|apply observe_same]. Qed.
End prepare.

(** ** ExecuteOnDemand *)
Section execute.
Context `{W : World} `{R : OnDemandRuntime} `{RL : !RuntimeLaws} (root : string) (stateful : bool).
Context (Error : error → string) (publisher : option bool) (maxOutput : Z).

Lemma CompleteOperation_groups o x db n alerts db' n' :
  OperationStore.CompleteOperation o x db n = (Ok alerts, (db', n')) →
  match OnDemand x with
  | None => groups db' = groups db
  | Some c => ∃ row row', groups db !! CompletionGroupID c = Some row ∧ groups db' !! CompletionGroupID c = Some row' ∧
      g_phase row' = CompletionPhase c ∧ g_operation row' = None ∧ g_last_operation row' = OpID o ∧
      g_paused row' = CompletionPauseReason c ∧ g_revision row' = g_revision row
  end.
Proof.
  intros H. unfold OperationStore.CompleteOperation in H. apply atomically_ok in H as (k & H).
  unfold OperationStore.completeOperation in H.
  apply bind_ok in H as (u1 & db1 & n1 & H1 & H). apply bind_ok in H as (u2 & db2 & n2 & H2 & H).
  apply bind_ok in H as (u3 & db3 & n3 & H3 & H). apply bind_ok in H as (cs & db4 & n4 & H4 & H).
  apply zoom_ok in H as (t1 & _ & ->). apply zoom_ok in H4 as (t2 & _ & ->).
  apply update1_ok in H3 as (q & _ & _ & -> & _). simpl. apply DatabaseLaws.completed_elsewhere in H1 as [Eg _].
  destruct (OnDemand x) as [c|].
  - apply DatabaseLaws.released in H2 as (row & row' & Hr & _ & Hr' & H2). rewrite Eg in Hr. exists row, row'. tauto.
  - unfold OnDemandStore.completeOnDemand in H2. by apply ret_ok in H2 as (_ & -> & _).
Qed.
Lemma UpdateOperation_groups o db n u db' n' :
  OperationStore.UpdateOperation o db n = (Ok u, (db', n')) → groups db' = groups db ∧ stacks db' = stacks db.
Proof. intros (q & _ & _ & -> & _)%update1_ok. done. Qed.

(** The account of a transition that was begun. *)
Definition carried_out (g : Group) (action : Action) (s : Compose.OnDemandSnapshot) (id : string) (e e' : Env) (r : result unit) : Prop :=
  ∃ from to row row' res,
    OnDemandStore.transitionOf action = Some (from, to) ∧ groups (Operations.store e) !! GroupID g = Some row ∧
    OnDemandStore.ready (GroupStackID g) (Revision g) from (Operations.store e) row = true ∧
    moved g action s (engine (Operations.rest e)) (engine (Operations.rest e')) res ∧
    groups (Operations.store e') !! GroupID g = Some row' ∧ g_revision row' = g_revision row ∧
    ((g_operation row' = None ∧ g_last_operation row' = id ∧ r = (if is_ok res then Ok tt else Err failedOperation) ∧
      g_phase row' = (if is_ok res then if (action =? WakeUp)%string then Running else Sleeping else Unknown) ∧
      g_paused row' = (if is_ok res then "" else unverified) ∧
      (reserved (controller (Operations.rest e')) g ↔ action ≠ WakeUp ∧ is_ok res = true))
     ∨ (g_operation row' = Some id ∧ g_phase row' = to ∧ is_ok r = false ∧ ¬ reserved (controller (Operations.rest e')) g)).
Definition not_begun (e e' : Env) (r : result unit) : Prop :=
  engine (Operations.rest e') = engine (Operations.rest e) ∧ groups (Operations.store e') = groups (Operations.store e) ∧ is_ok r = false.

Lemma run_spec ctx g action request s o gr (e : Env) n r e' n' s0 :
  let id := Operations.RequestID request in
  OpID o = id → id ∉ Operations.completed s0 → service (Operations.rest e) = Operations.addJob id s0 →
  run Error publisher maxOutput ctx g action request s o gr e n = (r, (e', n')) →
  coordinator (Operations.rest e') = Coordinator.release (coordinator (Operations.rest e)) gr ∧
  (not_begun e e' r ∨ carried_out g action s id e e' r).
Proof.
  intros id Hid Hnew Hs H. unfold run, mbind at 1, M_bind at 1 in H.
  destruct (Tracked.carried_out Error publisher maxOutput request (Tracked.asWork (transition ctx g action s id)) o gr e n s0)
    as (answer & e1 & n1 & s' & E & Hacc); [by rewrite Hid|by rewrite Hid|..].
  { intros db k. pose proof (transition_spec ctx g action s id db (Operations.rest e) k) as Ht.
    destruct (Tracked.asWork _ db (Operations.rest e) k) as [x [[db2 r2] m2]]. apply Ht. }
  fold id in H. rewrite E in H. cbn beta iota zeta in H.
  assert (Operations.store e' = Operations.store e1 ∧ engine (Operations.rest e') = engine (Operations.rest e1) ∧
    coordinator (Operations.rest e') = coordinator (Operations.rest e1) ∧
    match answer with
    | Ok o => controller (Operations.rest e') = controller (Operations.rest e1) ∧
        r = (if (Status o =? OperationSucceeded)%string then Ok tt else Err failedOperation)
    | Err x => ¬ reserved (controller (Operations.rest e')) g ∧ r = Err x
    end) as (H1 & H2 & H3 & H4).
  { destruct answer as [oc|x].
    - unfold guard_not, lift, reject_if in H. injection H as <- <- _. split_and!; [done..|]. by destruct (Status oc =? OperationSucceeded)%string.
    - unfold mbind, M_bind, attempt in H. rewrite part_run in H. cbn in H.
      destruct (Controller.Release g (controller (Operations.rest e1)) n1) as [r1 [c1 k1]] eqn:Er.
      injection H as <- <- _. cbn. split_and!; [done..|by eapply released_after|done]. }
  clear H E.
  destruct (OperationStore.UpdateOperation (Operations.setRunning o (clock n)) (Operations.store e) (S n)) as [[u|x] [db1 m1]] eqn:Eu.
  2:{ destruct Hacc as (-> & Est & Erest). destruct H4 as [_ ->].
      split; [by rewrite H3, Erest|]. left. split_and!; [by rewrite H2, Erest|by rewrite H1, Est|done]. }
  apply UpdateOperation_groups in Eu as [Eg Estk].
  pose proof (transition_spec ctx g action s id db1 (Operations.rest e) m1) as Ht.
  destruct (Tracked.asWork (transition ctx g action s id) db1 (Operations.rest e) m1) as [x [[db2 r2] m2]].
  destruct Ht as (Hc & Hsv & Hup & Hal & Ht).
  destruct (Operations.conclude Error maxOutput (Operations.setRunning o (clock n)) (Operations.Secrets request)
    (Operations.DiscardOutput request) x (clock m2)) as [o2 x2] eqn:Ec.
  destruct (OperationLaws.conclude_spec _ _ _ _ _ _ _ _ _ Ec) as (Hid2 & _ & Hstat).
  assert (OnDemand x2 = OnDemand x) as Hod.
  { unfold Operations.conclude in Ec. destruct (Operations.classify _ _) as [[? ?] ?]. by injection Ec as _ <-. }
  destruct Hacc as (_ & Erest & Hacc). cbn in Hid2. rewrite Hid in Hid2.
  split; [rewrite H3, Erest; cbn; by rewrite Hc|].
  destruct (OperationStore.CompleteOperation o2 x2 db2 (S m2)) as [[alerts|y] [db3 m3]] eqn:Eco.
  - destruct Hacc as (-> & Est). destruct H4 as [Hctl ->]. apply CompleteOperation_groups in Eco. rewrite Hod in Eco. cbn [Status Operations.withoutOutput].
    rewrite Hstat. destruct Ht as [(-> & -> & Hn & [y Hy])|Hb].
    + left. rewrite Hn in Eco. split_and!; [by rewrite H2, Erest|by rewrite H1, Est, Eco, Eg|]. rewrite Hy. by destruct (_ || _).
    + right. destruct Hb as (from & to & row & res & B1 & B2 & B3 & -> & B5 & B6 & B7 & B8). rewrite B5 in Eco.
      destruct Eco as (row1 & row' & Q1 & Q2 & Q3 & Q4 & Q5 & Q6 & Q7).
      assert (CompletionGroupID (completionOf g action res) = GroupID g) as Hcg by by destruct res.
      rewrite Hcg in Q1, Q2. cbn in Q1. rewrite lookup_insert_eq in Q1. injection Q1 as <-.
      exists from, to, row, row', res. rewrite Eg in B2. split; [done|]. split; [done|]. split; [unfold OnDemandStore.ready, active in *; by rewrite <-Estk|].
      split; [by rewrite H2, Erest|]. split; [by rewrite H1, Est|]. split; [done|]. left.
      rewrite Hctl, Erest. cbn. split; [done|]. split; [congruence|]. split_and!.
      * rewrite B6. destruct res as [[]|y]; [done|]. simpl. by destruct (Is y Context_Canceled || Is y Context_DeadlineExceeded).
      * rewrite Q3. by destruct res.
      * rewrite Q6. by destruct res.
      * destruct res as [[]|y]; simpl in *; destruct (String.eqb_spec action WakeUp); simpl in *; naive_solver.
  - apply atomically_err in Eco as ->. destruct Hacc as (-> & Est). destruct H4 as [Hctl ->].
    destruct Ht as [(-> & -> & Hn & [z Hz])|Hb].
    + left. split_and!; [by rewrite H2, Erest|by rewrite H1, Est, Eg|done].
    + right. destruct Hb as (from & to & row & res & B1 & B2 & B3 & -> & B5 & B6 & B7 & B8).
      exists from, to, row, (ownedBy id to row), res. rewrite Eg in B2. split; [done|]. split; [done|]. split; [unfold OnDemandStore.ready, active in *; by rewrite <-Estk|].
      split; [by rewrite H2, Erest|]. split; [rewrite H1, Est; cbn; by rewrite lookup_insert_eq|]. split; [done|]. right. done.
Qed.
Lemma prepare_ok g action observed (e : Env) n request s e' n' :
  prepare root stateful g action observed e n = (Ok (request, s), (e', n')) →
  ∃ target values id ev, request = transitionRequest g action target values id ∧
    verifiedDemandEvidence s (GroupEvidence g) = Ok ev ∧ misplaced action g s = false ∧
    (action = Sleep → ∃ latest, stillQuiet g observed latest = true).
Proof.
  intros H. unfold prepare in H. apply bind_ok in H as (fresh & ? & ? & _ & H). apply bind_ok in H as (? & ? & ? & _ & H).
  apply bind_ok in H as (s0 & ? & ? & _ & H). apply bind_ok in H as (ev & ? & ? & H1 & H). apply lift_ok in H1 as (Hev & -> & ->).
  apply bind_ok in H as (? & ? & ? & H1 & H). apply guard_not_ok in H1 as (Hm & -> & ->).
  apply bind_ok in H as (? & ? & ? & Hq & H). apply bind_ok in H as (target & ? & ? & _ & H). apply bind_ok in H as (values & ? & ? & _ & H).
  apply bind_ok in H as (id & ? & ? & _ & H). apply ret_ok in H as ([= <- <-] & _ & _).
  exists target, values, id, ev. split_and!; try done. intros ->. unfold confirmQuiet in Hq. simpl in Hq.
  apply bind_ok in Hq as (? & ? & ? & _ & Hq). apply bind_ok in Hq as (? & ? & ? & _ & Hq). apply bind_ok in Hq as (? & ? & ? & _ & Hq).
  apply bind_ok in Hq as (latest & ? & ? & _ & Hq). apply guard_not_ok in Hq as (Hl%negb_false_iff & _ & _). by exists latest.
Qed.
(** No group has entered or left a transition. *)
Definition settled (db0 db : DB) : Prop :=
  ∀ id, (λ r, (g_phase r, g_operation r)) <$> groups db !! id = (λ r, (g_phase r, g_operation r)) <$> groups db0 !! id.
Lemma settled_groups db0 db : groups db = groups db0 → settled db0 db.
Proof. intros E id. by rewrite E. Qed.
Lemma settled_reads db0 {X} (m : M DB X) : still m → maintains (λ e _, settled db0 (Operations.store e)) (zoom m : M Env X).
Proof. intros Hm e n Hs. unfold zoom. specialize (Hm (Operations.store e) n). simpl. destruct (m _ n) as [r [db k]]. simpl in *. by subst. Qed.
Lemma settled_pause db0 g reason : maintains (λ e _, settled db0 (Operations.store e)) (zoom (OnDemandStore.PauseGroup g reason) : M Env unit).
Proof.
  intros e n Hs. unfold zoom. simpl. unfold OnDemandStore.PauseGroup, OnDemandStore.updateGroup, mbind, M_bind, guard_not, lift.
  destruct (reject_if _ _); [|done]. unfold call. destruct (fault n); [done|]. destruct (groups (Operations.store e) !! GroupID g) as [row|] eqn:Hr; [|done].
  destruct (OnDemandStore.idle _ _ _); [|done]. simpl. intros id. simpl. rewrite <-(Hs id). destruct (decide (id = GroupID g)) as [->|Hne].
  - by rewrite lookup_insert_eq, Hr.
  - by rewrite lookup_insert_ne.
Qed.
Lemma settled_part db0 {A X} `{!Lens Rest A} (m : M A X) : maintains (λ e _, settled db0 (Operations.store e)) (part m : M Env X).
Proof. intros e n Hs. by rewrite part_run. Qed.
Ltac settle := walk ltac:(first [apply settled_reads; solve [eauto with still]
  | apply settled_part | apply steady_attempt, settled_pause | idtac]).
Lemma snapshot_settled db0 g host : maintains (λ e _, settled db0 (Operations.store e)) (snapshot root stateful g host).
Proof. unfold snapshot. settle. Qed.
Lemma prepare_settled db0 g action observed : maintains (λ e _, settled db0 (Operations.store e)) (prepare root stateful g action observed).
Proof. unfold prepare, confirmQuiet, ObserveOnDemand, remember. settle; apply snapshot_settled. Qed.

(** C14. An execution of a transition always gives the lock back.  Either it
    reports an error, no container was started or stopped and no group entered
    or left a transition; or it was carried out for the group that the database
    had enabled, unheld and unpaused in the phase it leaves, at the revision the
    controller saw, on a snapshot with the evidence of the group: then the one
    call of the runtime decides whether the group ends in the new phase, with
    the ports released for a running and reserved for a sleeping group and
    success reported, or in an unknown phase, paused and without ports; if the
    completion could not be saved the operation still owns the group, the ports
    are released and an error is reported. *)
Theorem executions_are_accounted_for ctx g action observed (e : Env) n r e' n' :
  GroupStackID g ≠ ""%string →
  Forall (λ id, is_Some (operations (Operations.store e) !! id)) (Operations.completed (service (Operations.rest e))) →
  ExecuteOnDemand root stateful Error publisher maxOutput ctx g action observed e n = (r, (e', n')) →
  coordinator (Operations.rest e') = coordinator (Operations.rest e) ∧
  ((is_ok r = false ∧ engine (Operations.rest e') = engine (Operations.rest e) ∧ settled (Operations.store e) (Operations.store e')) ∨
   ∃ s id ev, verifiedDemandEvidence s (GroupEvidence g) = Ok ev ∧ Compose.SRunning s = (action =? Sleep)%string ∧
     (action = Sleep → ∃ latest, stillQuiet g observed latest = true) ∧ carried_out g action s id e e' r).
Proof.
  intros Hstk Hjobs H. unfold ExecuteOnDemand, mbind at 1, M_bind at 1, checkContext in H.
  destruct (ctx n) as [x|]; [injection H as <- <- _; split; [done|]; left; split_and!; [done..|by apply settled_groups]|].
  unfold mbind at 1, M_bind at 1, guard_not, lift, reject_if in H. destruct (negb _ && negb _) eqn:Ea.
  { injection H as <- <- _. split; [done|]. left. split_and!; [done..|by apply settled_groups]. }
  unfold mbind at 1, M_bind at 1, Tracked.admitted in H. destruct (Coordinator.Try (view e) false (GroupStackID g)) as [c [gr|x]] eqn:Et.
  2:{ apply Locking.Try_refused in Et as [-> ->]. rewrite put_view in H. injection H as <- <- _. split; [done|]. left. split_and!; [done..|by apply settled_groups]. }
  apply Locking.Try_release in Et; [|by right]. cbn beta iota in H. set (e1 := put c e) in H.
  unfold mbind at 1, M_bind at 1, Tracked.held, catch in H.
  destruct (prepare root stateful g action observed e1 (S n)) as [[[request s]|x] [e2 n2]] eqn:Ep.
  2:{ cbn in H. pose proof (prepare_steady root stateful e1 g action observed e1 (S n) (Steady_refl e1)) as Hst.
      pose proof (prepare_settled (Operations.store e1) g action observed e1 (S n) (settled_groups _ _ eq_refl)) as Hse.
      rewrite Ep in Hst, Hse. cbn in Hst, Hse. destruct Hst as (db & h & ->). injection H as <- <- _. cbn.
      split; [exact Et|]. left. split_and!; done. }
  pose proof (prepare_steady root stateful e1 g action observed e1 (S n) (Steady_refl e1)) as Hst.
  pose proof (prepare_same root stateful (Operations.store e1) g action observed e1 (S n) _ _ _ eq_refl Ep) as Hdb.
  rewrite Ep in Hst. cbn in Hst. destruct Hst as (db & h & ->). cbn in Hdb. subst db.
  apply prepare_ok in Ep as (target & values & rid & ev & -> & Hev & Hmis & Hquiet). set (request := transitionRequest _ _ _ _ _) in *.
  cbn beta iota in H. unfold mbind at 1, M_bind at 1, Tracked.held, catch, Tracked.startTracked in H. set (e2 := Operations.mkEnv _ _ _ _ _) in H.
  change (view (Operations.rest e2)) with (service (Operations.rest e2)) in H.
  destruct (Operations.StartTracked publisher request (service (Operations.rest e2)) e2 n2) as [[[sv o]|x] [e3 n3]] eqn:Es.
  2:{ apply Tracked.StartTracked_refused in Es as [H1 H2]. cbn in H. injection H as <- <- _. cbn. rewrite H2. cbn. split; [exact Et|].
      left. split_and!; [done|done|apply settled_groups; by rewrite H1]. }
  destruct (OperationLaws.StartTracked_ok _ _ _ _ _ _ _ _ _ Es) as (_ & _ & Hfree & _).
  assert (Operations.RequestID request ≠ ""%string) as Hne by done.
  destruct (Tracked.StartTracked_quiet _ _ _ _ _ _ _ _ _ Es ltac:(done) ltac:(done) Hne) as (-> & -> & Hrest & Hg & Hs & _). cbn beta iota in H.
  set (o := Operations.newOperation (Operations.RequestID request) request) in *. set (e4 := Tracked.with_service _ e3) in H.
  assert (OpID o ∉ Operations.completed (service (Operations.rest e))) as Hnew.
  { intros Hin. rewrite Forall_forall in Hjobs. destruct (Hjobs _ Hin) as [q Hq]. change (operations (Operations.store e2)) with (operations (Operations.store e)) in Hfree. congruence. }
  eapply (run_spec ctx g action request s o gr e4 n3 r e' n' (service (Operations.rest e2))) in H; [|done|done|done].
  destruct H as [Hc H]. split; [rewrite Hc; cbn; rewrite Hrest; exact Et|].
  destruct H as [(H1 & H2 & H3)|(from & to & row & row' & res & B)].
  - left. split; [done|]. split; [by rewrite H1; cbn; rewrite Hrest|]. apply settled_groups. by rewrite H2.
  - right. exists s, (Operations.RequestID request), ev. split; [done|]. split.
    { unfold misplaced in Hmis. destruct (String.eqb_spec action Sleep) as [->|]; simpl in Hmis.
      - destruct (Compose.SRunning s); [done|]. by simpl in Hmis.
      - destruct (String.eqb_spec action WakeUp) as [->|]; [|done]. simpl in Hmis. by destruct (Compose.SRunning s). }
    split; [done|]. exists from, to, row, row', res. cbn in B. rewrite Hrest in B. cbn in B.
    destruct B as (B1 & B2 & B3 & B4 & B). cbn in B2. rewrite Hg in B2. unfold OnDemandStore.ready, active in *. rewrite Hs in B3. done.
Qed.
End execute.
(** *** Witness: waking the group of the examples *)
Definition ex_snapshot : Compose.OnDemandSnapshot :=
  Compose.mkSnapshot "porty-web" "sha256:1" false [Compose.mkOnDemandContainer "c1" "app" "sha256:2" "" 0 false false] [] [].
Definition ex_runtime : OnDemandRuntime := {|
  CheckOnDemandHost _ t n := (Ok tt, (t, n));
  SnapshotOnDemand _ _ t n := (Ok ex_snapshot, (t, n));
  OnDemandCounters _ t n := (Ok (∅, zeroTime), (t, n));
  StartOnDemand _ _ t n := (Ok tt, (t ++ [(Compose.Start "c1", n)], S n));
  StopOnDemand _ _ t n := (Ok tt, (t ++ [(Compose.Stop "c1" 0, n)], S n));
|}.
Lemma ex_laws : RuntimeLaws (R := ex_runtime).
Proof. done. Qed.
Definition ex_deployment : Deployment :=
  mkDeployment "dep_1" "stk_1" "op_0" "" false "" "sha256:1" DeploymentSucceeded zeroTime zeroTime 0%Z "".
Definition ex_env : Env :=
  Operations.mkEnv (set_deployments OnDemandLaws.ex_db {["dep_1" := ex_deployment]}) [] [] 0
    (mkRest (Controller.startWorker Controller.NewController OnDemandLaws.ex_wake) Coordinator.NewCoordinator Operations.NewService ∅ []).
Definition ex_sample : Sample := mkSample "" "" zeroTime ∅ (mkEvidence "" [] []).
Definition ex_result := ExecuteOnDemand (W := calm) (R := ex_runtime) "srv"%string true (λ _, ""%string) None 0%Z (λ _, None)
  OnDemandLaws.ex_wake WakeUp ex_sample ex_env 0.
Lemma executions_are_accounted_for_witness :
  ex_result.1 = Ok tt ∧ coordinator (Operations.rest ex_result.2.1) = Coordinator.NewCoordinator ∧
  ∃ s id ev, verifiedDemandEvidence s (GroupEvidence OnDemandLaws.ex_wake) = Ok ev ∧
    carried_out (R := ex_runtime) OnDemandLaws.ex_wake WakeUp s id ex_env ex_result.2.1 (Ok tt).
Proof.
  assert (ex_result.1 = Ok tt) as E by (vm_compute; reflexivity). split; [exact E|].
  destruct (executions_are_accounted_for (W := calm) (R := ex_runtime) (RL := ex_laws) "srv"%string true (λ _, ""%string) None 0%Z (λ _, None)
    OnDemandLaws.ex_wake WakeUp ex_sample ex_env 0 (Ok tt) ex_result.2.1 ex_result.2.2) as [Hc H].
  - done.
  - apply Forall_nil. done.
  - fold ex_result. rewrite <-E. by destruct ex_result as [? []].
  - split; [exact Hc|]. destruct H as [[H _]|(s & id & ev & H1 & _ & _ & H2)]; [discriminate H|]. exists s, id, ev. split; [exact H1|exact H2].
Defined.
End OnDemandServiceLaws.
