(* ===== verification/DisableLaws.v ===== *)
(** * Switching an on-demand group off needs nothing outside of the database

    The check of the bounds accepts exactly the endpoints that are within them,
    in any order of the groups; so an accepted database accepts a group that
    only changes its policy, and [SaveGroup] switches a group off whatever the
    containers' runtime answers. *)
From S2P Require Import Prelude GoStrings Netip Traffic OnDemandPolicy Alerts Database OnDemandStore OperationStore.
From S2P Require Import Coordinator Locking Operation Compose Controller Stacks OnDemandLaws DatabaseLaws ControllerLaws OnDemandService OnDemandServiceLaws.

Module DisableLaws.
Import Data Database OnDemandPolicy OnDemandStore OnDemandLaws OnDemandServiceLaws.

(** ** The bounds, in any order *)
Definition parses (b : Traffic.Binding) : Prop := is_Some (ParseAddrPort (Traffic.Address b)).
Definition within (bs : list Traffic.Binding) : Prop :=
  Forall parses bs ∧ apart bs ∧ (Z.of_nat (length bs) ≤ Traffic.MaxBindings)%Z.
Definition endpoints (rows : list GroupRow) : list Traffic.Binding := rows ≫= bindingsOf.

Lemma checkOverlap_complete n a bs b :
  ParseAddrPort (Traffic.Address b) = Some a → Traffic.Network b = n → Forall parses bs →
  (∀ b', b' ∈ bs → ¬ conflict b b') → checkOverlap n a bs = Ok tt.
Proof.
  intros Ha Hn Hp Hc. induction bs as [|o bs IH]; [done|]. apply Forall_cons in Hp as [[ao Ho] Hp].
  assert (checkOverlap n a bs = Ok tt) as HI by (apply IH; [done|]; intros b' Hb; apply Hc; by right).
  simpl. destruct (String.eqb_spec n (Traffic.Network o)) as [He|]; simpl; [|done]. rewrite Ho.
  destruct (overlaps _ _ _ _) eqn:E; [|done]. exfalso. apply (Hc o); [by left|]. exists a, ao. by rewrite Hn.
Qed.
Lemma checkGroupBindings_complete l : ∀ bs,
  Forall parses (bs ++ l) → apart (bs ++ l) → checkGroupBindings bs l = Ok (bs ++ l).
Proof.
  induction l as [|b l IH]; intros bs Hp Ha; [by rewrite app_nil_r|]. simpl.
  pose proof Hp as [Hb [[a Hpa] _]%Forall_cons]%Forall_app. rewrite Hpa.
  rewrite (checkOverlap_complete _ a _ b); [|done..|].
  2:{ intros b' Hin. apply Ha. change (b :: l) with ([b] ++ l). rewrite app_assoc. apply submseteq_inserts_r.
      rewrite (comm (++)). apply submseteq_skip. by apply singleton_submseteq_l. }
  simpl. rewrite IH; rewrite <-(assoc_L (++)); done.
Qed.
Lemma checkGroupBindings_parses l : ∀ bs bs', checkGroupBindings bs l = Ok bs' → Forall parses l.
Proof.
  induction l as [|b l IH]; intros bs bs'; simpl; [by constructor|].
  destruct (ParseAddrPort (Traffic.Address b)) as [a|] eqn:Ea; [|done].
  intros (? & _ & H)%result_bind_ok. constructor; [by exists a|by eapply IH].
Qed.
Lemma endpoints_cons r rows : endpoints (r :: rows) = bindingsOf r ++ endpoints rows.
Proof. done. Qed.
Lemma checkBounds_complete rows : ∀ n bs,
  within (bs ++ endpoints rows) → (n + Z.of_nat (length rows) ≤ MaxGroups)%Z → checkBounds n bs rows = Ok tt.
Proof.
  induction rows as [|r rows IH]; intros n bs Hw Hn; [done|]. rewrite endpoints_cons in Hw. simpl.
  rewrite (assoc_L (++)) in Hw. pose proof Hw as (Hp & Ha & Hl). fold (bindingsOf r).
  rewrite checkGroupBindings_complete; [|by apply Forall_app in Hp as [? _]|eapply apart_sub; [by apply submseteq_inserts_r|done]].
  simpl. unfold reject_if. rewrite (proj2 (orb_false_iff _ _)).
  - simpl. apply IH; [done|simpl in Hn; lia].
  - rewrite length_app in Hl. split; apply Z.ltb_ge; simpl in Hn; lia.
Qed.
Lemma checkBounds_sound rows : ∀ n bs u,
  checkBounds n bs rows = Ok u → within bs → (n ≤ MaxGroups)%Z →
  within (bs ++ endpoints rows) ∧ (n + Z.of_nat (length rows) ≤ MaxGroups)%Z.
Proof.
  induction rows as [|r rows IH]; intros n bs u; simpl.
  { rewrite app_nil_r. intros; split; [done|lia]. }
  intros (bs' & Hb & (? & Hr & Hrest)%result_bind_ok)%result_bind_ok (Hp & Ha & _) Hn.
  apply reject_if_ok, orb_false_iff in Hr as [Hr1 Hr2]. apply Z.ltb_ge in Hr1, Hr2.
  pose proof (checkGroupBindings_parses _ _ _ Hb). destruct (checkGroupBindings_ok _ _ _ Hb) as [-> Hap].
  destruct (IH _ _ _ Hrest) as [H1 H2]; [split_and!; [by apply Forall_app|by apply Hap|done]|done|].
  rewrite <-(assoc_L (++)) in H1. split; [exact H1|lia].
Qed.
(** Whether a database is within the bounds. *)
Definition accepted (db : DB) : Prop := checkBounds 0 [] (activeGroups db) = Ok tt.
Lemma accepted_within db :
  accepted db ↔ within (endpoints (activeGroups db)) ∧ (Z.of_nat (length (activeGroups db)) ≤ MaxGroups)%Z.
Proof.
  split.
  - intros H. eapply (checkBounds_sound _ _ []) in H; [exact H| |done].
    split_and!; [constructor| |done]. intros b1 b2 Hs. by apply submseteq_nil_r in Hs.
  - intros [H1 H2]. by apply (checkBounds_complete _ 0 []).
Qed.
Lemma within_perm bs bs' : bs ≡ₚ bs' → within bs → within bs'.
Proof.
  intros Hp (H1 & H2 & H3). split_and!; [by rewrite <-Hp|eapply apart_sub; [|done]; by rewrite Hp|by rewrite <-Hp].
Qed.
(** A group may be replaced by one of the same stack with the same endpoints. *)
Lemma accepted_insert db id r r' :
  groups db !! id = Some r → g_stack r' = g_stack r → g_evidence r' = g_evidence r →
  accepted db → accepted (set_groups db (<[id := r']> (groups db))).
Proof.
  rewrite !accepted_within. intros Hr Hs He [H1 H2].
  set (rest := filter (λ r, active db (g_stack r) = true) (map_to_list (delete id (groups db))).*2).
  assert (∀ x m, <[id := x]> (delete id (groups db)) = m → g_stack x = g_stack r → activeGroups (set_groups db m) ≡ₚ
      (if active db (g_stack r) then [x] else []) ++ rest) as Hperm.
  { intros x m <- Hx. change (activeGroups (set_groups db ?m)) with (filter (λ r, active db (g_stack r) = true) (map_to_list m).*2).
    rewrite (map_to_list_insert _ id x); [|apply lookup_delete_eq].
    rewrite fmap_cons, filter_cons. cbn [snd]. rewrite Hx. destruct (active db (g_stack r)); [by rewrite decide_True by done|by rewrite decide_False by done]. }
  assert (activeGroups db ≡ₚ (if active db (g_stack r) then [r] else []) ++ rest) as Hold.
  { rewrite <-(Hperm r (groups db)); [by destruct db|by apply insert_delete_id|done]. }
  assert (activeGroups (set_groups db (<[id := r']> (groups db))) ≡ₚ (if active db (g_stack r) then [r'] else []) ++ rest) as Hnew.
  { apply Hperm; [apply insert_delete_eq|done]. }
  split.
  - eapply within_perm; [|exact H1]. unfold endpoints. rewrite Hold, Hnew, !bind_app. apply Permutation_app; [|done].
    destruct (active db (g_stack r)); [|done]. simpl. unfold bindingsOf. by rewrite He.
  - rewrite Hnew. rewrite Hold in H2. by destruct (active db (g_stack r)).
Qed.

(** ** Evidence and policies *)
Lemma evidence_for_policy p p' e phase :
  validateOnDemandEvidence p e Running = Ok tt → ValidatePolicy p' = Ok tt → Members p' = Members p →
  phase = Running ∨ phase = Sleeping → validateOnDemandEvidence p' e phase = Ok tt.
Proof.
  intros H Hp Hm Hph. unfold validateOnDemandEvidence in *.
  apply result_bind_ok in H as (? & _ & H). apply result_bind_ok in H as (? & H1 & H). apply result_bind_ok in H as (? & H2 & H).
  apply reject_if_ok in H1, H2.
  assert (negb (phase =? Running)%string && negb (phase =? Sleeping)%string = false) as Hf by by destruct Hph as [->| ->].
  unfold reject_if. rewrite Hf, Hm, H1, H2. simpl.
  destruct (Traffic.Validate _) as [[]|] eqn:Hv in H; [|done].
  apply ValidatePolicy_spec in Hp. unfold validPolicy in Hp. destruct Hp as (_ & _ & Ht & Hw & _).
  unfold Traffic.Validate in Hv |- *. cbn [Traffic.Generation Traffic.Threshold Traffic.Window Traffic.Bindings] in *.
  simpl in Hv |- *.
  rewrite (proj2 (range_check (WakeThreshold p') 1 1000)) by lia.
  rewrite (proj2 (range_check _ (10 * Millisecond) Minute)).
  - destruct (_ || _) in Hv; [done|]. destruct (_ || _) in Hv; [done|]. by rewrite Hv.
  - rewrite wrap64_id; unfold Millisecond, Minute, Second in *; unfold Millisecond; lia.
Qed.

(** ** A run that cannot fail *)
Section runs.
Context `{W : World} `{!Faultless W}.
Notation yields s m Q := (from s m Q (λ _ _, False)).
Lemma yields_call {S A} (s : S) (f : S → result (A * S)) (Q : A → S → Prop) a s' :
  f s = Ok (a, s') → Q a s' → yields s (call f) Q.
Proof. intros E HQ n. unfold call. by rewrite no_fault, E. Qed.
Lemma yields_atomically {S A} (s : S) (m : M S A) (Q : A → S → Prop) : yields s m Q → yields s (atomically m) Q.
Proof.
  intros Hm n. unfold atomically. rewrite no_fault. specialize (Hm (Datatypes.S n)).
  destruct (m s (Datatypes.S n)) as [[a|e] [s' n']]; [|done]. by rewrite no_fault.
Qed.
Lemma yields_bind {S A B} (s : S) (m : M S A) (k : A → M S B) Q1 (Q : B → S → Prop) :
  yields s m Q1 → (∀ a s', Q1 a s' → yields s' (k a) Q) → yields s (m ≫= k) Q.
Proof. intros Hm Hk. eapply from_bind; [exact Hm|done|exact Hk]. Qed.
Lemma yields_call_bind {S A B} (s : S) (f : S → result (A * S)) (k : A → M S B) (Q : B → S → Prop) a s' :
  f s = Ok (a, s') → yields s' (k a) Q → yields s (call f ≫= k) Q.
Proof.
  intros E Hk. eapply (yields_bind _ _ _ (λ x y, x = a ∧ y = s')); [by eapply yields_call|]. by intros ? ? [-> ->].
Qed.
Lemma yields_guard {S B} (s : S) c e (k : unit → M S B) (Q : B → S → Prop) :
  c = false → yields s (k tt) Q → yields s (guard_not c e ≫= k) Q.
Proof. intros -> Hk. by apply from_guard. Qed.
Lemma yields_lift {S A B} (s : S) (r : result A) a (k : A → M S B) (Q : B → S → Prop) :
  r = Ok a → yields s (k a) Q → yields s (lift r ≫= k) Q.
Proof. intros -> Hk. by apply from_lift; [|intros ? [= <-]]. Qed.

(** ** Saving a group with its own endpoints *)
Lemma insertMembers_complete id stack r l : ∀ db,
  groups db !! id = Some r → g_stack r = stack → NoDup l → (∀ m, m ∈ l → members db !! (stack, m) = None) →
  yields db (insertMembers id stack l) (λ _ _, True).
Proof.
  induction l as [|m l IH]; intros db Hr Hs Hnd Hfree; simpl; [by apply from_ret|].
  apply NoDup_cons in Hnd as [Hm Hnd]. assert (members db !! (stack, m) = None) as Hn by (apply Hfree; by left).
  eapply (yields_bind _ _ _ (λ _ db', db' = set_members db (<[(stack, m) := id]> (members db)))).
  - unfold insertMember. eapply yields_call_bind; [reflexivity|]. rewrite Hn, bool_decide_false by by intros [? ?].
    apply yields_guard; [done|]. eapply yields_call; [rewrite Hn, Hr, Hs, String.eqb_refl; reflexivity|done].
  - intros _ db' ->. apply (IH _); try done. intros m' Hm'. simpl. rewrite lookup_insert_ne; [apply Hfree; by right|].
    intros [= ->]. done.
Qed.
Lemma yields_post {S A} (s : S) (m : M S A) (Q Q' : A → S → Prop) :
  yields s m Q → (∀ n a s' n', m s n = (Ok a, (s', n')) → Q' a s') → yields s m Q'.
Proof. intros Hm HQ n. specialize (Hm n). destruct (m s n) as [[a|e] [s' n']] eqn:E; [by eapply HQ|done]. Qed.

Definition renamed (p : OnDemandPolicy.Policy) (r : GroupRow) : GroupRow :=
  mkGroupRow (g_stack r) p (g_revision r + 1) (g_phase r) (g_hold r) (g_paused r) (g_evidence r) (g_operation r) (g_last_operation r).
Lemma SaveGroup_yields id stack update phase db r :
  Inv db → accepted db → groups db !! id = Some r → id ≠ ""%string → active db stack = true →
  idle stack (ExpectedRevision update) r = true → ValidatePolicy (UpdatePolicy update) = Ok tt →
  Members (UpdatePolicy update) = Members (g_policy r) → phase = Running ∨ phase = Sleeping →
  yields db (SaveGroup stack id update (g_evidence r) phase) (λ g db',
    g = groupOf id (renamed (UpdatePolicy update) r) ∧ db' = set_groups db (<[id := renamed (UpdatePolicy update) r]> (groups db))).
Proof.
  intros I Hacc Hr Hid Hact Hidle Hpol Hmem Hph. pose proof (inv_rows _ I _ _ Hr) as Hok.
  set (r' := renamed _ r). pose proof Hidle as (Hs & Hrev & _)%idle_true.
  unfold SaveGroup. eapply yields_lift; [exact Hpol|]. eapply yields_lift; [eapply evidence_for_policy; [apply Hok|done..]|].
  apply yields_guard.
  { apply String.eqb_neq in Hid as ->. simpl. apply Z.ltb_ge. pose proof (row_revision _ _ Hok). lia. }
  apply yields_atomically. eapply yields_call_bind; [by rewrite Hact|]. rewrite (proj2 (String.eqb_neq _ _) Hid).
  eapply (yields_bind _ _ _ (λ i db', i = id ∧ db' = set_groups db (<[id := r']> (groups db)))).
  { eapply yields_call_bind; [by rewrite Hr, Hidle|]. by apply from_ret. }
  intros ? ? [-> ->]. set (db1 := set_groups db _).
  eapply yields_call_bind; [reflexivity|]. set (db2 := set_members db1 _).
  assert (groups db2 !! id = Some r') as Hr2 by apply lookup_insert_eq.
  eapply (yields_bind _ _ _ (λ _ db3, db3 = db1)).
  - eapply yields_post; [eapply (insertMembers_complete _ _ r'); [exact Hr2|exact Hs|..]|].
    + apply ValidatePolicy_spec in Hpol. by apply Hpol.
    + intros m Hm. simpl. apply map_lookup_filter_None. right. intros j Hj. rewrite Hmem in Hm.
      rewrite <-Hs in Hj. rewrite (proj2 (inv_members _ I _ _ m Hr) Hm) in Hj. naive_solver.
    + intros k0 a db3 k1 H. apply insertMembers_ok in H as (ms & -> & Hms & _). unfold db1, db2 in *. simpl in *.
      assert (ms = members db) as ->; [|by destruct db]. apply map_eq. intros k. apply option_eq. intros j.
      rewrite Hms, map_lookup_filter_Some. split.
      * intros [[Hk _]|(-> & m & Hm & ->)]; [done|]. rewrite Hmem in Hm. rewrite <-Hs. by apply (inv_members _ I _ _ m Hr).
      * intros Hk. destruct (decide (j = id)) as [->|Hne]; [right|by left]. split; [done|].
        destruct (inv_owned _ I _ _ Hk) as (r0 & Hr0 & Hs0). rewrite Hr in Hr0. injection Hr0 as <-.
        destruct k as [st m]. simpl in Hs0. exists m. split; [|by rewrite <-Hs, <-Hs0].
        rewrite Hmem. apply (inv_members _ I _ _ m Hr). by rewrite Hs0.
  - intros [] db3 ->. eapply yields_call_bind.
    { pose proof (accepted_insert db id r r' Hr eq_refl eq_refl Hacc) as Ha. unfold accepted in Ha. fold db1 in Ha. by rewrite Ha. }
    eapply yields_call; [unfold db1; simpl; rewrite lookup_insert_eq; reflexivity|done].
Qed.
(** *** The service *)
Import OnDemandService.
Context `{R : OnDemandRuntime} (root : string) (stateful : bool).
Notation Env := (Operations.Env OnDemandService.Rest).
Lemma yields_locked {A} id (m : M Env A) (e : Env) c gr (Q : A → Env → Prop) :
  Coordinator.Try (view e) false id = (c, Ok gr) →
  yields (put c e) m (λ a e', Q a (put (Coordinator.release (view e') gr) e')) → yields e (Locking.locked false id m) Q.
Proof.
  intros Et Hm n. unfold Locking.locked. rewrite Et. specialize (Hm n). unfold deferred.
  by destruct (m (put c e) n) as [[a|x] [e' n']].
Qed.
Lemma suspended_after id g c : GroupID g = id → ¬ reserved (Controller.SuspendGroup id c) g.
Proof.
  intros <- (p & w & l & Hw & Hl & _). apply worker_Some in Hw as [Hp Hw].
  assert (Controller.workers (Controller.SuspendGroup (GroupID g) c) = Controller.workers c) as E.
  { unfold Controller.SuspendGroup. simpl. destruct (Controller.workers c !! GroupID g); [apply ControllerLaws.workers_suspend|done]. }
  rewrite E in Hp. unfold Controller.SuspendGroup in Hw. rewrite Hp in Hw. simpl in Hw. rewrite ControllerLaws.heap_suspend, lookup_alter_eq in Hw.
  destruct (Controller.heap c !! p); [|done]. simpl in Hw. injection Hw as <-. done.
Qed.
Definition row_after (update : PolicyUpdate) (r : GroupRow) : GroupRow := renamed (UpdatePolicy update) r.

(** C15. Switching a group off works whatever the containers' runtime answers:
    for an accepted database, when the stack is free and no operation owns the
    group, a valid policy that is not enabled and keeps the members is saved
    under the next revision; the phase, the hold, the pause, the evidence and
    every other row stay as they are, no container is started or stopped, the
    lock is free again and the group's ports are given back. *)
Theorem disabling_needs_no_runtime id groupID update (e : Env) r n :
  let db := Operations.store e in
  Inv db → accepted db → is_ok (Coordinator.Try (view e) false id).2 = true → id ≠ ""%string → groupID ≠ ""%string →
  groups db !! groupID = Some r → active db id = true → idle id (ExpectedRevision update) r = true →
  ValidatePolicy (UpdatePolicy update) = Ok tt → Enabled (UpdatePolicy update) = false →
  Members (UpdatePolicy update) = Members (g_policy r) →
  ∃ e' n', OnDemandService.SaveGroup root stateful id groupID update e n = (Ok (groupOf groupID (row_after update r)), (e', n')) ∧
    Operations.store e' = set_groups db (<[groupID := row_after update r]> (groups db)) ∧
    engine (Operations.rest e') = engine (Operations.rest e) ∧ coordinator (Operations.rest e') = coordinator (Operations.rest e) ∧
    ∀ g, GroupID g = groupID → ¬ reserved (controller (Operations.rest e')) g.
Proof.
  intros db I Hacc Hlock Hid Hgid Hr Hact Hidle Hpol Hoff Hmem.
  destruct (Coordinator.Try (view e) false id) as [c [gr|x]] eqn:Et; [|done].
  enough (yields e (OnDemandService.SaveGroup root stateful id groupID update) (λ g e', g = groupOf groupID (row_after update r) ∧
    Operations.store e' = set_groups db (<[groupID := row_after update r]> (groups db)) ∧
    engine (Operations.rest e') = engine (Operations.rest e) ∧ coordinator (Operations.rest e') = coordinator (Operations.rest e) ∧
    ∀ g, GroupID g = groupID → ¬ reserved (controller (Operations.rest e')) g)) as Hy.
  { specialize (Hy n). destruct (OnDemandService.SaveGroup _ _ _ _ _ e n) as [[g|x] [e' n']]; [|done]. destruct Hy as (-> & Hy). eauto. }
  unfold OnDemandService.SaveGroup. eapply yields_lift; [exact Hpol|]. eapply yields_locked; [exact Et|]. rewrite (proj2 (String.eqb_neq _ _) Hgid).
  pose proof Hidle as (Hs & Hrev & Ho)%idle_true.
  eapply (yields_bind _ _ _ (λ g e', g = groupOf groupID r ∧ e' = put c e)).
  { apply from_zoom. eapply yields_call; [simpl; fold db; rewrite Hr, Hs, String.eqb_refl, Hact; reflexivity|]. by destruct e. }
  intros ? ? [-> ->]. apply yields_guard; [simpl; by rewrite Hrev, Z.eqb_refl|].
  unfold disables. rewrite Hoff. simpl. rewrite bool_decide_true by done. unfold disable.
  eapply (yields_bind _ _ _ (λ g e', g = groupOf groupID (row_after update r) ∧
    e' = put (set_groups db (<[groupID := row_after update r]> (groups db))) (put c e))).
  { apply from_zoom. eapply (from_conseq db); [apply (SaveGroup_yields groupID id update _ db r); try done|by intros ? ? [-> ->]|done].
    simpl. pose proof (inv_rows _ I _ _ Hr) as Hok. pose proof (row_phase _ _ Hok) as Hph. pose proof (row_owner _ _ Hok) as Hown.
    rewrite Ho in Hown. unfold transient in Hown. destruct (String.eqb_spec (g_phase r) Unknown) as [E|E]; [by left|].
    assert (¬ (g_phase r = Starting ∨ g_phase r = Stopping)) as Hnt by (rewrite <-Hown; by intros [? ?]).
    rewrite !elem_of_cons, elem_of_nil in Hph. tauto. }
  intros ? ? [-> ->]. eapply (yields_bind _ _ _ (λ _ e', controller (Operations.rest e') = Controller.SuspendGroup groupID (controller (Operations.rest e)) ∧
    Operations.store e' = set_groups db (<[groupID := row_after update r]> (groups db)) ∧ engine (Operations.rest e') = engine (Operations.rest e) ∧
    coordinator (Operations.rest e') = c)).
  { intros k. unfold ports. rewrite part_run. done. }
  intros [] e' (H1 & H2 & H3 & H4). apply from_ret. cbn. split_and!; [done|exact H2|exact H3| |].
  - rewrite H4. apply Locking.Try_release in Et; [exact Et|by right].
  - intros g Hg. rewrite H1. by apply suspended_after.
Qed.
End runs.

(** *** Witness: no Docker at all *)
Import OnDemandService DatabaseLaws.
Definition ex_down : OnDemandRuntime := {|
  CheckOnDemandHost _ t n := (Err OnDemand_ErrUnavailable, (t, n));
  SnapshotOnDemand _ _ t n := (Err OnDemand_ErrUnavailable, (t, n));
  OnDemandCounters _ t n := (Err OnDemand_ErrUnavailable, (t, n));
  StartOnDemand _ _ t n := (Err OnDemand_ErrUnavailable, (t, n));
  StopOnDemand _ _ t n := (Err OnDemand_ErrUnavailable, (t, n));
|}.
Definition ex_off : PolicyUpdate := mkPolicyUpdate (OnDemandPolicy.mkPolicy "web" false ["app"] 1 1000 600 120 300 120) 1.
Definition ex_env : Operations.Env Rest :=
  Operations.mkEnv ex5.1 [] [] 0 (mkRest (Controller.startWorker Controller.NewController ex_group) Coordinator.NewCoordinator Operations.NewService ∅ []).
Lemma disabling_needs_no_runtime_witness :
  ∃ r e' n', OnDemandService.SaveGroup (W := calm) (R := ex_down) "srv"%string true "stk_1" "odg_3" ex_off ex_env 0
      = (Ok (groupOf "odg_3" (row_after ex_off r)), (e', n')) ∧
    engine (Operations.rest e') = [] ∧ coordinator (Operations.rest e') = Coordinator.NewCoordinator ∧ Enabled (g_policy (row_after ex_off r)) = false.
Proof.
  assert (∃ r, groups ex5.1 !! "odg_3" = Some r ∧ idle "stk_1" 1 r = true ∧ Members (g_policy r) = ["app"%string])
    as (r & Hr & Hi & Hm) by (eexists; split; [vm_compute; reflexivity|split; reflexivity]).
  assert (accepted ex5.1) as Ha by (vm_compute; reflexivity).
  assert (active ex5.1 "stk_1" = true) as Hact by (vm_compute; reflexivity).
  assert (ValidatePolicy (UpdatePolicy ex_off) = Ok tt) as Hp by (vm_compute; reflexivity).
  destruct (disabling_needs_no_runtime (W := calm) (R := ex_down) "srv"%string true "stk_1" "odg_3" ex_off ex_env r 0
    (reachable_od _ _ ex5_reachable) Ha eq_refl ltac:(discriminate) ltac:(discriminate) Hr Hact Hi Hp eq_refl (eq_sym Hm))
    as (e' & n' & H1 & _ & H2 & H3 & _).
  exists r, e', n'. split; [exact H1|]. split; [exact H2|]. split; [exact H3|reflexivity].
Defined.
End DisableLaws.
