(* ===== verification/SelfGuard.v ===== *)
(** * The guard of Porty's own stack (src/internal/compose/self_guard.go,
    on_demand_host.go)

    Porty must not update or stop the stack that it runs in.  It leaves a file
    with a secret in its own file system and looks for the file in every
    container that runs: a container that holds it is Porty's. *)
From S2P Require Import Prelude GoStrings Compose.

Module SelfGuard.
Import Compose.

(** ** What the guard asks *)
Record Summary := mkSummary { RowID : string; RowState : string; RowLabels : gmap string string }.
Record Info := mkInfo { DaemonID : string; OSType : string; SecurityOptions : list string }.
Record Inspected := mkInspected { InspectedID : string; IsRunning : option bool (* State *); NetMode : option string (* HostConfig *) }.
Record FileStat := mkFileStat { IsRegular : bool; Perm : Z; StatSize : Z }.
Record TarHeader := mkTarHeader { TypeReg : bool; HName : string; HSize : Z }.
Class GuardDocker := {
  GetInfo : nat → result Info;
  ContainerList : nat → result (list Summary);
  ContainerInspect : string → nat → result Inspected;
  (** No content, or what reading and closing it gives. *)
  CopyFromContainer : string → string → nat → result (option (result string));
  IsNotFound : error → bool;
  DaemonHost : option string;
}.
Class GuardFiles := { Lstat : string → nat → option FileStat; ReadFile : string → nat → option string }.
(** archive/tar on a whole archive: the first header, its content up to 65
    bytes, and whether nothing follows. *)
Class TarReader := { firstHeader : string → option TarHeader; firstContent : string → option string; endsThere : string → bool }.
Class NativeNetwork := { goosLinux : bool; verifyNativeDockerNetwork : string → nat → option error }.

Record RuntimeGuard := mkGuard {
  path : string; token : string; daemon : string;
  protected : gset string;                (* projects *)
  matchedContainers : list string;
}.
Definition NewRuntimeGuard (path token : string) : RuntimeGuard := mkGuard path token "" ∅ [].

Section guard.
Context `{ComposeApi} `{G : GuardDocker} `{F : GuardFiles} `{T : TarReader} `{N : NativeNetwork}.
Notation IO := (M RuntimeGuard).
Definition ask {A} (f : nat → A) : IO A := λ g n, (Ok (f n), (g, S n)).
Definition update (f : RuntimeGuard → RuntimeGuard) : IO unit := λ g n, (Ok tt, (f g, n)).
Definition get : IO RuntimeGuard := λ g n, (Ok g, (g, n)).
Definition unavailable {A} : IO A := fail Compose_ErrProtectionUnavailable.
(** filepath.Base of a path that does not end in a slash. *)
Definition Base (p : string) : string := List.last (Split p "/") "".
Definition project_of (r : Summary) : string := label (RowLabels r) ProjectLabel.
Definition membershipKey (r : Summary) : string := RowID r +:+ ":" +:+ RowState r +:+ ":" +:+ project_of r.
Definition containerMembership (rows : list Summary) : string :=
  String.concat (String (ascii_of_nat 10) "") (SortStrings (membershipKey <$> rows)).

(** The marker file is there as it was written. *)
Definition checkMarker : IO unit :=
  g ← get;
  stat ← ask (Lstat (path g));
  match stat with
  | Some st =>
    _ ← guard_not (negb (IsRegular st) || negb (Perm st =? 384)%Z || negb (StatSize st =? len (token g))%Z)
          Compose_ErrProtectionUnavailable;                 (* 0600 *)
    data ← ask (ReadFile (path g));
    guard_not (negb (bool_decide (data = Some (token g)))) Compose_ErrProtectionUnavailable
  | None => unavailable
  end.
Definition checkDaemon : IO unit :=
  info ← ask GetInfo;
  match info with
  | Ok i =>
    g ← get;
    _ ← guard_not ((DaemonID i =? "")%string || negb (daemon g =? "")%string && negb (daemon g =? DaemonID i)%string)
          Compose_ErrProtectionUnavailable;
    update (λ g, mkGuard (path g) (token g) (DaemonID i) (protected g) (matchedContainers g))
  | Err _ => unavailable
  end.
(** The content that was copied is the marker and nothing else. *)
Definition isMarker (g : RuntimeGuard) (content : string) : bool :=
  match firstHeader content with
  | Some h =>
    TypeReg h && (HName h =? Base (path g))%string && (HSize h =? len (token g))%Z
    && bool_decide (firstContent content = Some (token g)) && endsThere content
  | None => false
  end.
Inductive Found := Absent | Gone | Ours (name : string).
Definition inspectRow (standalone : bool) (r : Summary) : IO Found :=
  _ ← guard_not (negb (RowState r =? "running")%string) Compose_ErrProtectionUnavailable;
  g ← get;
  copied ← ask (CopyFromContainer (RowID r) (path g));
  match copied with
  | Err e =>
    _ ← guard_not (negb (IsNotFound e)) Compose_ErrProtectionUnavailable;
    current ← ask (ContainerInspect (RowID r));
    match current with
    | Err e => if IsNotFound e then mret Gone else unavailable
    | Ok c =>
      _ ← guard_not (negb (InspectedID c =? RowID r)%string || negb (bool_decide (IsRunning c = Some true))) Compose_ErrProtectionUnavailable;
      mret Absent
    end
  | Ok (Some (Ok content)) =>
    _ ← guard_not ((8192 <? len content)%Z || negb (isMarker g content)) Compose_ErrProtectionUnavailable;
    _ ← guard_not ((project_of r =? "")%string && negb standalone) Compose_ErrProtectionUnavailable;
    mret (Ours (project_of r))
  | Ok _ => unavailable
  end.
(** [None] if a container vanished. *)
Fixpoint inspectRows (standalone : bool) (matched : gset string) (ids : list string) (rows : list Summary)
    : IO (option (gset string * list string)) :=
  match rows with
  | [] => mret (Some (matched, ids))
  | r :: rest =>
    f ← inspectRow standalone r;
    match f with
    | Gone => mret None
    | Absent => inspectRows standalone matched ids rest
    | Ours name => inspectRows standalone ({[name]} ∪ matched) (ids ++ [RowID r]) rest
    end
  end.
(** One pass over the containers; [false] asks for another one. *)
Definition attemptOnce (project : string) (standalone : bool) : IO bool :=
  rows ← ask ContainerList;
  match rows with
  | Err _ => unavailable
  | Ok rows =>
    _ ← guard_not (bool_decide (1024 < length rows)) Compose_ErrProtectionUnavailable;
    found ← inspectRows standalone ∅ [] rows;
    match found with
    | None => mret false
    | Some (matched, ids) =>
      after ← ask ContainerList;
      match after with
      | Err _ => mret false
      | Ok after =>
        if negb (containerMembership rows =? containerMembership after)%string then mret false
        else
          final ← ask GetInfo;
          g ← get;
          match final with
          | Ok i =>
            _ ← guard_not (negb (DaemonID i =? daemon g)%string) Compose_ErrProtectionUnavailable;
            _ ← update (λ g, mkGuard (path g) (token g) (daemon g) (matched ∪ protected g) ids);
            g ← get;
            _ ← guard_not (bool_decide (project ∈ protected g)) Compose_ErrSelfProtected;
            mret true
          | Err _ => unavailable
          end
      end
    end
  end.
Definition checkProject (project : string) (standalone : bool) : IO unit :=
  _ ← update (λ g, mkGuard (path g) (token g) (daemon g) (protected g) []);
  _ ← checkMarker;
  _ ← checkDaemon;
  first ← attemptOnce project standalone;
  if first : bool then mret tt
  else second ← attemptOnce project standalone; if second : bool then mret tt else unavailable.
Definition CheckProject (project : string) : IO unit := checkProject project false.

(** ** CheckOnDemandHost (on_demand_host.go) *)
Definition unix : string := "unix://".
Definition CheckOnDemandHost (project : string) : IO unit :=
  _ ← guard_not (negb goosLinux || (project =? "")%string) Compose_ErrOnDemandIneligible;
  _ ← checkProject project true;
  match DaemonHost with
  | None => fail Compose_ErrOnDemandIneligible
  | Some endpoint =>
    _ ← guard_not (negb (HasPrefix endpoint unix)) Compose_ErrOnDemandIneligible;
    info ← ask GetInfo;
    g ← get;
    match info with
    | Err _ => unavailable
    | Ok i =>
      _ ← guard_not (negb (DaemonID i =? daemon g)%string || negb (OSType i =? "linux")%string) Compose_ErrProtectionUnavailable;
      _ ← guard_not (existsb (λ o, Contains o "rootless") (SecurityOptions i)) Compose_ErrOnDemandIneligible;
      match matchedContainers g with
      | [] =>
        e ← ask (verifyNativeDockerNetwork (TrimPrefix endpoint unix));
        match e with None => mret tt | Some e => fail (ErrJoin Compose_ErrOnDemandHostUnavailable e) end
      | [id] =>
        c ← ask (ContainerInspect id);
        match c with
        | Ok c => guard_not (negb (InspectedID c =? id)%string || negb (bool_decide (IsRunning c = Some true))
                             || negb (bool_decide (NetMode c = Some "host"%string))) Compose_ErrOnDemandIneligible
        | Err _ => fail Compose_ErrOnDemandIneligible
        end
      | _ => unavailable
      end
    end
  end.
End guard.
End SelfGuard.
