(* ===== verification/Updates.v ===== *)
(** * Automatic image updates: the running stack (src/internal/compose/
    update_types.go, update_snapshot.go, update_apply.go)

    What runs is inspected container by container; an update selects services
    that can be recreated on their own and gives them images by digest.  The
    packages of Docker, Compose and the image references are third-party: their
    data appear with the fields that the code reads. *)
From S2P Require Import Prelude GoStrings Netip Environment TimeParse Compose.
From S2P Require Database.

(** github.com/containerd/platforms, github.com/distribution/reference and
    github.com/opencontainers/go-digest. *)
Class Images := {
  OCIPlatform : Type;
  mkPlatform : string → string → string → OCIPlatform;   (* OS, architecture, variant *)
  Normalize : OCIPlatform → OCIPlatform;
  Format : OCIPlatform → string;
  ParsePlatform : string → option OCIPlatform;
  OnlyStrict : OCIPlatform → OCIPlatform → bool;              (* OnlyStrict(p).Match(q) *)
  validDigest : string → bool;                          (* Validate() == nil *)
  Named : Type;
  ParseNormalizedNamed : string → option Named;
  Digested : Named → bool;
  TagNameOnly : Named → Named;
  TrimNamed : Named → Named;
  WithDigest : Named → string → option Named;
  NamedString : Named → string;
}.

Module Updates.
Import Environment Compose.
Export Database.Data (ImageChange, ServiceUpdateResult).

(** ** Projects, as far as the updates read them *)
Record Dependency := mkDependency { Condition : string; Restart : bool }.
Record Service := mkService {
  Scale : Z;                            (* GetScale() *)
  DependsOn : gmap string Dependency;
  Health : option HealthCheck;
  SImage : string;
  SPlatform : string;
  Build : bool;                         (* Build != nil *)
  PullPolicy : string;
  PostStart : nat; PreStop : nat;       (* the numbers of hooks *)
  SLinks : list string; ExternalLinks : list string; VolumesFrom : list string;
  SNetworkMode : string; Ipc : string; Pid : string;
}.
Definition zeroService : Service := mkService 1 ∅ None "" "" false "" 0 0 [] [] [] "" "" "".
Record Project := mkProject { PName : string; Services : gmap string Service; DisabledServices : gset string }.
Definition ServiceConditionCompletedSuccessfully : string := "service_completed_successfully".
Definition PullPolicyNever : string := "never".

(** ** Snapshots *)
Record UpdateContainer := mkUpdateContainer {
  UID : string; UService : string; UImageID : string; UState : string; UHealth : string; UPlatform : string;
  UReplica : Z; URestartCount : Z; UStartedAt : time;
}.
Record UpdateSnapshot := mkUpdateSnapshot {
  SProject : option Project; SSourceDigest : string; SContainers : list UpdateContainer; Excluded : gmap string string;
}.
Definition zeroSnapshot : UpdateSnapshot := mkUpdateSnapshot None "" [] ∅.
Record PreparedUpdate := mkPreparedUpdate { Snapshot : UpdateSnapshot; Changes : list ImageChange }.
Record ImageInfo := mkImageInfo { IID : string; Os : string; Architecture : string; Variant : string; RepoDigests : list string }.
Class UpdateDocker `{ComposeApi} := {
  ContainerList : string → nat → result (list (string * gmap string string));   (* by project: ID and labels *)
  ContainerInspect : string → nat → result InspectResponse;
  ImageInspect : string → nat → result ImageInfo;
}.
Definition ineligible (reason : string) : error := ErrWrap Compose_ErrUpdateIneligible reason.

Section snapshot.
Context `{ComposeApi} `{W : World} `{I : Images} `{D : !UpdateDocker} `{Dg : !Digests Project} {S : Type}.
(** Whether there is an engine to ask. *)
Context (updates : bool).
Notation IO := (M S).
Definition ask {A} (f : nat → result A) : IO A := λ s n, (f n, (s, Datatypes.S n)).
Definition or_reject {A} (m : IO A) (reason : string) : IO A := catch m (λ _, fail (ineligible reason)).
Definition reject_when (c : bool) (reason : string) : IO unit := guard_not c (ineligible reason).

Definition hasHealthcheck (s : Service) : bool :=
  match Health s with
  | Some h => negb (Disable h) && match HTest h with t :: _ => negb (t =? "NONE")%string | [] => false end
  | None => false
  end.
Definition fit (allowStarting : bool) (health : string) : bool :=
  (health =? "healthy")%string || allowStarting && (health =? "starting")%string.
Definition reasonFor (s : Service) (i : ImageInfo) : string :=
  if Build s then "locally built service"
  else if Contains (SImage s) "@" then "digest pinned"
  else if (PullPolicy s =? PullPolicyNever)%string then "pull policy never"
  else if (SImage s =? "")%string || bool_decide (length (RepoDigests i) = 0) then "local image without registry provenance"
  else "".
(** What the loop over the containers has collected. *)
Record Found := mkFound {
  counts : gmap string Z; identities : gmap string string; replicas : gset string;
  containers : list UpdateContainer; excluded : gmap string string;
}.
Definition replicaKey (name : string) (replica : Z) : string := name +:+ ":" +:+ pretty replica.
Definition running (st : State) : bool :=
  Running st && (Status st =? "running")%string && negb (Paused st) && negb (Restarting st) && negb (Dead st).
Definition inspectContainer (p : Project) (allowStarting : bool) (f : Found) (row : string * gmap string string) : IO Found :=
  _ ← reject_when (foldsToTrue (label row.2 OneoffLabel)) "one-off containers present";
  a ← or_reject (ask (ContainerInspect row.1)) "container changed during inspection";
  match Config a, CState a with
  | Some labels, Some st =>
    _ ← reject_when (negb (ID a =? row.1)%string) "container ownership unavailable";
    let name := label labels ServiceLabel in
    match Services p !! name with
    | Some s =>
      _ ← reject_when (negb (label labels ProjectLabel =? PName p)%string || foldsToTrue (label labels OneoffLabel))
            "unexpected container ownership";
      match Atoi (label labels ContainerNumberLabel) with
      | None => fail (ineligible "replica identity unavailable")
      | Some replica =>
        _ ← reject_when ((replica <? 1)%Z || bool_decide (replicaKey name replica ∈ replicas f)) "replica identity unavailable";
        _ ← reject_when (negb (running st)) "stack is not fully running";
        let health := default "" (StHealth st) in
        _ ← reject_when (bool_decide (is_Some (StHealth st)) && negb (fit allowStarting health)) "container is not healthy";
        _ ← reject_when (hasHealthcheck s && negb (fit allowStarting health)) "health result unavailable";
        started ← or_reject (lift (match TimeParse.Parse (StartedAt st) with
          | Some t => _ ← reject_if (IsZero t) (ErrText ""); Ok t
          | None => Err (ErrText "")
          end)) "start identity unavailable";
        _ ← reject_when (negb (validDigest (Image a))) "image identity unavailable";
        i ← or_reject (ask (ImageInspect (Image a))) "image platform unavailable";
        _ ← reject_when (negb (IID i =? Image a)%string || (Os i =? "")%string || (Architecture i =? "")%string)
              "image platform unavailable";
        let actual := Normalize (mkPlatform (Os i) (Architecture i) (Variant i)) in
        _ ← reject_when (negb (SPlatform s =? "")%string &&
              negb (match ParsePlatform (SPlatform s) with Some expected => OnlyStrict expected actual | None => false end))
              "running platform differs from configuration";
        let prior := default "" (identities f !! name) in
        _ ← reject_when (negb (prior =? "")%string && negb (prior =? Image a)%string) "replicas have mixed images";
        mret (mkFound (<[name := (default 0 (counts f !! name) + 1)%Z]> (counts f)) (<[name := Image a]> (identities f))
                ({[replicaKey name replica]} ∪ replicas f)
                (containers f ++ [mkUpdateContainer (ID a) name (Image a) "running" health (Format actual) replica (RestartCount a) started])
                (if (reasonFor s i =? "")%string then excluded f else <[name := reasonFor s i]> (excluded f)))
      end
    | None => fail (ineligible "unexpected container ownership")
    end
  | _, _ => fail (ineligible "container ownership unavailable")
  end.
(** An error keeps what was collected before it. *)
Fixpoint inspectContainers (p : Project) (allowStarting : bool) (f : Found) (rows : list (string * gmap string string))
    : IO (Found * option error) :=
  match rows with
  | [] => mret (f, None)
  | row :: rest =>
    r ← attempt (inspectContainer p allowStarting f row);
    match r with
    | Ok f' => inspectContainers p allowStarting f' rest
    | Err e => mret (f, Some e)
    end
  end.
Fixpoint checkScale (f : Found) (excl : gmap string string) (l : list (string * Service)) : gmap string string * option error :=
  match l with
  | [] => (excl, None)
  | (name, s) :: rest =>
    if negb (default 0 (counts f !! name) =? Scale s)%Z then (excl, Some (ineligible "missing or unexpected service replicas"))
    else checkScale f (if (Scale s =? 0)%Z then <[name := "scaled to zero"]> excl else excl) rest
  end.
Definition completes (s : Service) : bool :=
  existsb (λ d, (Condition d =? ServiceConditionCompletedSuccessfully)%string) (map_to_list (DependsOn s)).*2.
Definition container_le (a b : UpdateContainer) : Prop := string_le (UID a) (UID b).
#[export] Instance container_le_dec : RelDecision container_le.
Proof. intros a b. unfold container_le. apply _. Defined.
Definition no_rows : Found := mkFound ∅ ∅ ∅ [] ∅.
Definition inspectUpdateProject (p : Project) (environment : gmap string string) (allowStarting : bool)
    : IO (UpdateSnapshot * option error) :=
  let at_ digest f e := mret (mkUpdateSnapshot (Some p) digest (containers f) (excluded f), Some e) in
  if negb updates then at_ ""%string no_rows (ineligible "Docker inspection unavailable")
  else if negb (bool_decide (DisabledServices p = ∅)) then at_ ""%string no_rows (ineligible "profiles are unsupported")
  else if existsb completes (map_to_list (Services p)).*2
  then at_ ""%string no_rows (ineligible "completion dependencies are unsupported")
  else match Digest p environment with
  | Err e => at_ ""%string no_rows e
  | Ok digest =>
    list_ ← attempt (or_reject (ask (ContainerList (PName p))) "unable to inspect containers");
    match list_ with
    | Err e => at_ digest no_rows e
    | Ok rows =>
      '(f, err) ← inspectContainers p allowStarting no_rows rows;
      match err with
      | Some e => at_ digest f e
      | None =>
        let '(excl, err) := checkScale f (excluded f) (map_to_list (Services p)) in
        let f := mkFound (counts f) (identities f) (replicas f) (containers f) excl in
        match err with
        | Some e => at_ digest f e
        | None =>
          if bool_decide (containers f = []) then at_ digest f (ineligible "no running services")
          else mret (mkUpdateSnapshot (Some p) digest (merge_sort container_le (containers f)) excl, None)
        end
      end
    end
  end.
End snapshot.

(** ** The selection (validateUpdateSelection) *)
Definition attached (selected : gset string) (name : string) (mode : string) : bool :=
  HasPrefix mode "service:" && (bool_decide (name ∈ selected) || bool_decide (TrimPrefix mode "service:" ∈ selected))
  || HasPrefix mode "container:".
Definition serviceOf (link : string) : string := hd "" (Split link ":").
Definition blocks (selected : gset string) (e : string * Service) : bool :=
  let '(name, s) := e in
  let chosen n := bool_decide (n ∈ selected) in
  chosen name && (bool_decide (0 < PostStart s) || bool_decide (0 < PreStop s) || bool_decide (0 < length (SLinks s))
                  || bool_decide (0 < length (ExternalLinks s)) || bool_decide (0 < length (VolumesFrom s)))
  || existsb (λ '(dep, d), Restart d && (chosen name || chosen dep)) (map_to_list (DependsOn s))
  || existsb (λ link, chosen (serviceOf link)) (SLinks s ++ VolumesFrom s)
  || existsb (attached selected name) [SNetworkMode s; Ipc s; Pid s].
Definition validateUpdateSelection (p : Project) (selected : gset string) : result unit :=
  reject_if (existsb (blocks selected) (map_to_list (Services p))) Compose_ErrUpdateIneligible.

(** ** ApplyUpdate

    Every call of Compose that recreates services is recorded with its moment. *)
Record UpCall := mkUpCall { UpProject : Project; UpServices : list string }.
Class UpdateEngine := {
  WithSelectedServices : Project → list string → option Project;   (* with IgnoreDependencies *)
  Up : UpCall → nat → result unit;
  CheckProject : string → nat → option error;                      (* Client.CheckProject *)
}.
Notation Ups := (list (UpCall * nat)).
Section apply.
Context `{I : Images} `{U : UpdateEngine}.
Definition eligible (p : Project) (selected : gset string) (c : ImageChange) : bool :=
  match Services p !! Database.Data.Service c with
  | None => false
  | Some s =>
    negb (Scale s =? 0)%Z && negb (Build s) && negb (bool_decide (Database.Data.Service c ∈ selected)) &&
    match ParseNormalizedNamed (Database.Data.TargetReference c) with Some r => Digested r | None => false end
  end.
Fixpoint selectChanges (p : Project) (selected : gset string) (l : list ImageChange) : result (gset string) :=
  match l with
  | [] => Ok selected
  | c :: rest =>
    _ ← reject_if (negb (eligible p selected c)) Compose_ErrUpdateIneligible;
    selectChanges p ({[Database.Data.Service c]} ∪ selected) rest
  end.
Definition retarget (services : gmap string Service) (c : ImageChange) : gmap string Service :=
  let s := default zeroService (services !! Database.Data.Service c) in
  <[Database.Data.Service c := mkService (Scale s) (DependsOn s) (Health s) (Database.Data.TargetReference c)
      (if (Database.Data.Platform c =? "")%string then SPlatform s else Database.Data.Platform c) false PullPolicyNever
      (PostStart s) (PreStop s) (SLinks s) (ExternalLinks s) (VolumesFrom s) (SNetworkMode s) (Ipc s) (Pid s)]> services.
Definition ApplyUpdate (prepared : PreparedUpdate) : M Ups unit :=
  match SProject (Snapshot prepared) with
  | None => fail Compose_ErrUpdateIneligible
  | Some original =>
    _ ← guard_not (bool_decide (length (Changes prepared) = 0)) Compose_ErrUpdateIneligible;
    selected ← lift (selectChanges original ∅ (Changes prepared));
    _ ← lift (validateUpdateSelection original selected);
    let names := Database.Data.Service <$> Changes prepared in
    match WithSelectedServices original names with
    | None => fail Compose_ErrUpdateIneligible
    | Some p =>
      let p := mkProject (PName p) (foldl retarget (Services p) (Changes prepared)) (DisabledServices p) in
      _ ← (λ t n, (match CheckProject (PName p) n with None => Ok tt | Some e => Err e end, (t, S n)));
      catch (λ t n, (Up (mkUpCall p names) n, (t ++ [(mkUpCall p names, n)], S n))) (λ _, fail Compose_ErrUpdateApplyFailed)
    end
  end.
End apply.
End Updates.
