(* ===== verification/UpdateImages.v ===== *)
(** * Automatic image updates: looking for newer images
    (src/internal/compose/update_images.go)

    Every service that may be updated is resolved to the digest its tag stands
    for now, pulled for the platform it runs on, and compared with what runs. *)
From S2P Require Import Prelude GoStrings Compose Lifecycle Updates.

Module UpdateImages.
Import Database.Data.
Import Updates.

(** What the engine says of an image, with its descriptor if it has one. *)
Record Selected `{Images} := mkSelected { SelID : string; SelPlatform : OCIPlatform; SelDescriptor : option string }.
Record Manifest `{Images} := mkManifest { MImage : bool; MAvailable : bool; MPlatform : option OCIPlatform; MDigest : string }.
#[global] Arguments mkSelected {_}.
#[global] Arguments mkManifest {_}.
Class ImageDocker `{Images} := {
  DistributionInspect : string → nat → result string;                     (* the digest *)
  ImagePull : string → OCIPlatform → nat → result (option (result unit));     (* no response, or what Wait returns *)
  ImageInspectPlatform : string → OCIPlatform → nat → result Selected;
  ImageInspectManifests : string → nat → result (list Manifest);
}.
(** How errors of the engine are classified (errdefs, jsonstream, net). *)
Class Errdefs := {
  IsUnauthorized : error → bool; IsPermissionDenied : error → bool; IsResourceExhausted : error → bool;
  IsUnavailable : error → bool; IsInternal : error → bool; IsConnectionFailed : error → bool;
  streamCode : error → option Z; isNetwork : error → bool;
}.

Section images.
Context `{W : World} `{I : Images} `{D : !ImageDocker} `{E : Errdefs} `{Wt : Waiting} {S : Type}.
(** Whether there is an engine, and the deadline of the caller's context. *)
Context (images : bool) (limit : option time).
Notation IO := (M S).

Definition safeImageError (e : error) : error :=
  if IsUnauthorized e || IsPermissionDenied e then Compose_ErrPublicImageUnavailable
  else if Is e Context_Canceled || Is e Context_DeadlineExceeded then e
  else Compose_ErrImageCheckFailed.
Definition transientRegistry (e : error) : bool :=
  if IsResourceExhausted e || IsUnauthorized e || IsPermissionDenied e then false
  else match streamCode e with
  | Some code => (500 <=? code)%Z && (code <? 600)%Z
  | None => isNetwork e || IsConnectionFailed e || IsUnavailable e || IsInternal e
  end.

(** *** retryRegistry: three attempts at most *)
Definition checkContext (ctx : nat → option error) : IO unit := λ s n,
  (match ctx n with Some e => Err e | None => Ok tt end, (s, Datatypes.S n)).
Definition Wait (ctx : nat → option error) : IO unit := λ s n,
  (if fired n then Ok tt else Err (default Context_Canceled (ctx (Datatypes.S n))), (s, Datatypes.S n)).
Fixpoint retry {A} (ctx : nat → option error) (deadline : time) (left : nat) (attempt_ : Z) (run : IO A) : IO A :=
  _ ← checkContext ctx;
  r ← attempt run;
  match r with
  | Ok a => mret a
  | Err e =>
    match left with
    | O => fail e
    | Datatypes.S left' =>
      if negb (transientRegistry e) then fail e
      else
        let delay := ((attempt_ + 1) * Second)%Z in
        t ← now;
        if (Sub deadline t <=? delay)%Z then fail e
        else _ ← Wait ctx; retry ctx deadline left' (attempt_ + 1) run
    end
  end.
Definition retryRegistry {A} (ctx : nat → option error) (deadline : time) (run : IO A) : IO A := retry ctx deadline 2 0 run.
Definition pull (ref : string) (p : OCIPlatform) : IO unit :=
  response ← ask (ImagePull ref p);
  match response with None => fail Compose_ErrImageCheckFailed | Some r => lift r end.

(** *** PrepareUpdate *)
Definition runningOf (s : UpdateSnapshot) (name : string) : option UpdateContainer :=
  head (filter (λ c, UService c = name) (SContainers s)).
Definition usable (platform : OCIPlatform) (m : Manifest) : bool :=
  MImage m && MAvailable m && match MPlatform m with Some q => OnlyStrict platform q | None => false end.
Definition or_failed {A} (m : IO A) : IO A := catch m (λ _, fail Compose_ErrImageCheckFailed).
Definition present {A} (x : option A) : IO A := match x with Some a => mret a | None => fail Compose_ErrImageCheckFailed end.
Definition must (c : bool) : IO unit := guard_not (negb c) Compose_ErrImageCheckFailed.
(** Some stores answer with an index: the manifest of the platform is resolved. *)
Definition resolve (named : Named) (immutable : string) (platform : OCIPlatform) (digest : string) (sel : Selected) : IO (Selected * string) :=
  if bool_decide (SelDescriptor sel = Some (SelID sel)) then
    all ← or_failed (ask (ImageInspectManifests immutable));
    match filter (λ m, usable platform m = true) all with
    | [m] =>
      _ ← must (validDigest (MDigest m));
      ref ← present (WithDigest (TrimNamed named) (MDigest m));
      sel' ← or_failed (ask (ImageInspectPlatform (NamedString ref) platform));
      _ ← must (validDigest (SelID sel') && negb (SelID sel' =? MDigest m)%string);
      mret (sel', MDigest m)
    | _ => fail Compose_ErrImageCheckFailed
    end
  else mret (sel, digest).
(** One service: the change it needs, if any. *)
Definition checkService (ctx : nat → option error) (deadline : time) (name : string) (service : Service) (running : UpdateContainer)
    : IO (option ImageChange) :=
  named ← present (ParseNormalizedNamed (SImage service));
  if Digested named then mret None
  else
    let named := TagNameOnly named in
    platform ← present (ParsePlatform (UPlatform running));
    digest ← catch (retryRegistry ctx deadline (ask (DistributionInspect (NamedString named)))) (λ e, fail (safeImageError e));
    _ ← must (validDigest digest);
    ref ← present (WithDigest (TrimNamed named) digest);
    let immutable := NamedString ref in
    _ ← catch (retryRegistry ctx deadline (pull immutable platform)) (λ e, fail (safeImageError e));
    sel ← or_failed (ask (ImageInspectPlatform immutable platform));
    _ ← must (OnlyStrict platform (Normalize (SelPlatform sel)) && validDigest (SelID sel));
    '(sel, manifest) ← resolve named immutable platform digest sel;
    mret (if (SelID sel =? UImageID running)%string then None
          else Some (mkImageChange name (SImage service) immutable (UPlatform running) (UImageID running) (SelID sel) manifest)).
Definition checkName (ctx : nat → option error) (deadline : time) (s : UpdateSnapshot) (p : Project) (name : string) : IO (option ImageChange) :=
  if negb (default "" (Excluded s !! name) =? "")%string then mret None
  else match runningOf s name with
  | None => mret None
  | Some running => checkService ctx deadline name (default zeroService (Services p !! name)) running
  end.
Fixpoint checkNames (ctx : nat → option error) (deadline : time) (s : UpdateSnapshot) (p : Project) (names : list string)
    : IO (list ImageChange) :=
  match names with
  | [] => mret []
  | name :: rest =>
    c ← checkName ctx deadline s p name;
    cs ← checkNames ctx deadline s p rest;
    mret (match c with Some c => c :: cs | None => cs end)
  end.
Definition deadlineOf (t : time) : time :=
  match limit with Some l => Z.min l (Add t (5 * Minute)%Z) | None => Add t (5 * Minute)%Z end.
Definition PrepareUpdate (s : UpdateSnapshot) : IO PreparedUpdate :=
  match SProject s with
  | Some p =>
    _ ← must images;
    t ← now;
    let deadline := deadlineOf t in
    let ctx := Lifecycle.withTimeout parent deadline in
    changes ← checkNames ctx deadline s p (SortStrings (elements (dom (Services p))));
    _ ← (if bool_decide (changes = []) then mret tt
         else lift (validateUpdateSelection p (list_to_set (Database.Data.Service <$> changes))));
    mret (mkPreparedUpdate s changes)
  | None => fail Compose_ErrImageCheckFailed
  end.
End images.
End UpdateImages.
