(* ===== verification/UpdateVerify.v ===== *)
(** * Automatic image updates: verification (VerifyUpdate,
    src/internal/compose/update_verify.go)

    After services were recreated the stack is inspected every second, until
    everything that was updated runs its new image and is healthy, or has run
    undisturbed for thirty seconds if it has no health check. *)
From S2P Require Import Prelude GoStrings Environment TimeText Compose Lifecycle Updates.

Module UpdateVerify.
Import Database.Data.
Import Environment Compose Updates.

Record UpdateResult := mkUpdateResult { UServices : list ServiceUpdateResult; RecoveryRequired : bool }.

(** ** One inspection *)
Definition selection (changes : list ImageChange) : gmap string ImageChange :=
  foldl (λ m c, <[Database.Data.Service c := c]> m) ∅ changes.
Definition initialResults (changes : list ImageChange) : list ServiceUpdateResult :=
  (λ c, mkServiceUpdateResult (Database.Data.Service c) (BeforeImageID c) (AfterImageID c) "" "unverified") <$> changes.
(** The containers that must not change. *)
Definition untouched (selected : gmap string ImageChange) (s : UpdateSnapshot) : gset string :=
  list_to_set (UID <$> filter (λ c, selected !! UService c = None) (SContainers s)).
Definition noteActual (rows : list UpdateContainer) (r : ServiceUpdateResult) : ServiceUpdateResult :=
  foldl (λ r c, if (UService c =? RService r)%string
    then mkServiceUpdateResult (RService r) (RBeforeImageID r) (RTargetImageID r) (UImageID c) (ROutcome r) else r) r rows.
Definition setVerified (r : ServiceUpdateResult) : ServiceUpdateResult :=
  mkServiceUpdateResult (RService r) (RBeforeImageID r) (RTargetImageID r) (ActualImageID r) "verified".
Record Round := mkRound { healthPending : bool; needsStability : bool; identity : list string; seen : gset string }.
Definition identityOf (c : UpdateContainer) : string :=
  UID c +:+ ":" +:+ pretty (URestartCount c) +:+ ":" +:+ TimeText.encodeTime (UStartedAt c).
Fixpoint judge (selected : gmap string ImageChange) (unchanged : gset string) (r : Round) (rows : list UpdateContainer) : option Round :=
  match rows with
  | [] => Some r
  | c :: rest =>
    match selected !! UService c with
    | None =>
      if bool_decide (UID c ∈ unchanged)
      then judge selected unchanged (mkRound (healthPending r) (needsStability r) (identity r) ({[UID c]} ∪ seen r)) rest
      else None
    | Some change =>
      if negb (UImageID c =? AfterImageID change)%string then None
      else
        let quiet := (UHealth c =? "")%string in
        judge selected unchanged
          (mkRound (healthPending r || (UHealth c =? "starting")%string) (needsStability r || quiet)
             (if quiet then identity r ++ [identityOf c] else identity r) (seen r)) rest
    end
  end.
Definition emptyRound : Round := mkRound false false [] ∅.
Definition judged (selected : gmap string ImageChange) (unchanged : gset string) (rows : list UpdateContainer) : option Round :=
  r ← judge selected unchanged emptyRound rows;
  if bool_decide (size (seen r) = size unchanged) then Some r else None.
Definition fingerprint (r : Round) : string := String.concat "|" (SortStrings (identity r)).

(** ** VerifyUpdate

    The loop has fuel; [None] says that it was used up ([rounds] is enough, see
    [UpdateVerifyLaws]). *)
Section verify.
Context `{ComposeApi} `{W : World} `{I : Images} `{D : !UpdateDocker} `{Dg : !Digests Project} `{Wt : Waiting} {S : Type}.
Context (updates : bool).
Notation IO := (M S).
Definition expired (ctx : nat → option error) (deadline : time) : IO bool := λ s n,
  match ctx n with
  | Some _ => (Ok true, (s, Datatypes.S n))
  | None => (Ok (negb (Before (clock (Datatypes.S n)) deadline)), (s, Datatypes.S (Datatypes.S n)))
  end.
Definition Wait (ctx : nat → option error) : IO bool := λ s n, (Ok (fired n), (s, Datatypes.S n)).
Definition failed (services : list ServiceUpdateResult) : UpdateResult * option error :=
  (mkUpdateResult services true, Some Compose_ErrUpdateVerification).
Fixpoint poll (fuel : nat) (ctx : nat → option error) (deadline : time) (p : Project) (selected : gmap string ImageChange)
    (unchanged : gset string) (services : list ServiceUpdateResult) (print : string) (stableSince : time)
    : IO (option (UpdateResult * option error)) :=
  match fuel with
  | O => mret None
  | Datatypes.S fuel' =>
    over ← expired ctx deadline;
    if over : bool then mret (Some (failed services))
    else
      '(s, err) ← inspectUpdateProject updates p ∅ true;
      let services := noteActual (SContainers s) <$> services in
      match err, judged selected unchanged (SContainers s) with
      | None, Some r =>
        stable ← (if (fingerprint r =? print)%string then mret stableSince else now);
        quiet ← (if healthPending r then mret false
                 else if negb (needsStability r) then mret true
                 else t ← now; mret (30 * Second <=? Sub t stable)%Z);
        if quiet : bool then mret (Some (mkUpdateResult (setVerified <$> services) false, None))
        else
          ok ← Wait ctx;
          if ok : bool then poll fuel' ctx deadline p selected unchanged services (fingerprint r) stable
          else mret (Some (failed services))
      | _, _ => mret (Some (failed services))
      end
  end.
Definition rounds : nat := 302.
Definition VerifyUpdate (prepared : PreparedUpdate) : IO (option (UpdateResult * option error)) :=
  let services := initialResults (Changes prepared) in
  let selected := selection (Changes prepared) in
  match SProject (Snapshot prepared) with
  | None => mret (Some (failed services))
  | Some p =>
    if bool_decide (selected = ∅) then mret (Some (failed services))
    else
      t0 ← now;
      t1 ← now;
      t2 ← now;
      poll rounds (Lifecycle.withTimeout parent (Add t0 (5 * Minute)%Z)) (Add t1 (5 * Minute)%Z) p selected
        (untouched selected (Snapshot prepared)) services "" t2
  end.
End verify.
End UpdateVerify.
