(* ===== verification/OperationAlerts.v ===== *)
(** * Alerts of operations (src/internal/control/operation_alerts.go)

    An operation has the problems it may cause or solve as its targets: their
    open alerts are read before it starts, and when it ends it reports a
    failure, or a recovery of what was open, for each of them. *)
From S2P Require Import Prelude GoStrings Alerts Reading.

Module OperationAlerts.
Import Alert Reading.

#[export] Instance Key_countable : Countable Key :=
  inj_countable' (λ k, (StackID k, Problem k, Target k)) (λ '(a, b, c), mkKey a b c) ltac:(by intros []).

Definition stackAlertTargets (id action : string) : list Key :=
  let target problem := [mkKey id problem "stack"] in
  if bool_decide (action ∈ ["deploy"; "recreate"]%string) then target "deployment"
  else if bool_decide (action ∈ ["start"; "stop"; "restart"; "pull"]%string) then target action
  else [].
(** A container's row, as far as it names the alert. *)
Definition containerAlertKey (id action service name : string) : Key :=
  mkKey id action ("service:" +:+ service +:+ "/replica:" +:+ name).

Section alerts.
Context `{W : World} {E : Type} {LA : Lens E AlertDB}.
(** Whether the control plane has a reader of alerts. *)
Context (reader : bool).
Fixpoint openAlerts (revisions : gmap Key Z) (keys : list Key) : M E (gmap Key Z) :=
  match keys with
  | [] => mret revisions
  | key :: rest =>
    a ← attempt (zoom (AlertStore.Find key));
    match a with
    | Ok a => openAlerts (if ResolvedAt a then revisions else <[key := Revision a]> revisions) rest
    | Err e => if Is e Alert_ErrNotFound then openAlerts revisions rest else fail e
    end
  end.
Definition previousAlerts (keys : list Key) : M E (gmap Key Z) := if reader then openAlerts ∅ keys else mret ∅.
Definition revisionOf (revisions : gmap Key Z) (key : Key) : Z := default 0%Z (revisions !! key).
(** The change of an operation [id] on the stack [name]. *)
Definition observedChange (id name : string) (key : Key) (revision : Z) (err : option error) (verified : bool) : M E (list Change) :=
  match err with
  | None =>
    if negb verified || (revision =? 0)%Z then mret []
    else t ← now; mret [mkChange "recovery" key name id id "Verified recovery" revision t true]
  | Some _ =>
    t ← now; mret [mkChange "failure" key name id id "Stack operation failed. See operation details." revision t true]
  end.
End alerts.
Lemma still_previousAlerts `{W : World} {E : Type} {LA : Lens E AlertDB} reader keys : still (previousAlerts reader keys : M E (gmap Key Z)).
Proof.
  unfold previousAlerts. destruct reader; [|apply still_ret]. generalize (∅ : gmap Key Z).
  induction keys as [|k keys IH]; intros acc; [apply still_ret|]. cbn [openAlerts]. quietly idtac; apply IH.
Qed.
#[export] Hint Resolve still_previousAlerts : still.
End OperationAlerts.
