(* ===== verification/AutoUpdate.v ===== *)
(** * Automatic updates of a stack (src/internal/control/auto_update.go,
    auto_update_policy.go, update_recovery.go)

    A scheduled run collects evidence about its stack under the lock, prepares
    the images without the lock, collects the evidence again and, if it is the
    same, applies and verifies the update as an operation.  The intent is in
    the database before anything is recreated, and a restart settles what was
    interrupted. *)
From S2P Require Import Prelude GoStrings Alerts Database AutoUpdateStore OperationStore Coordinator Locking Operation Tracked.
From S2P Require Import Filesystem Repository Stacks Updates UpdateVerify OperationAlerts.

Module AutoUpdate.
Import Data Database.
#[export] Existing Instances Operations.env_store Operations.env_rest Tracked.env_coordinator Tracked.pair_store Tracked.pair_rest.
#[export] Existing Instances OperationAlerts.Key_countable.

(** ** The control plane's surroundings

    The runtime is an interface; every recreation is recorded.  A snapshot and
    a verification also have a value if they report an error. *)
Notation Ups := (list (Updates.UpCall * nat)).
Class UpdateRuntime := {
  SnapshotUpdate : Stacks.Request → M Ups (Updates.UpdateSnapshot * option error);
  PrepareUpdate : Updates.UpdateSnapshot → M Ups Updates.PreparedUpdate;
  ApplyUpdate : Updates.PreparedUpdate → M Ups unit;
  VerifyUpdate : Updates.PreparedUpdate → M Ups (UpdateVerify.UpdateResult * option error);
  CheckProject : string → M Ups unit;
}.
Record Rest := mkRest {
  coordinator : Coordinator.Coordinator;
  service : Operations.Service;
  updatesBlocked : bool;
  ups : Ups;
  noticed : list Alert.Alert;           (* PublishAlert *)
}.
Notation Env := (Operations.Env Rest).
#[export] Program Instance rest_coordinator : Lens Rest Coordinator.Coordinator := {|
  view := coordinator; put x r := mkRest x (service r) (updatesBlocked r) (ups r) (noticed r) |}.
Next Obligation. done. Qed.
Next Obligation. by intros []. Qed.
Next Obligation. done. Qed.
#[export] Program Instance rest_service : Lens Rest Operations.Service := {|
  view := service; put x r := mkRest (coordinator r) x (updatesBlocked r) (ups r) (noticed r) |}.
Next Obligation. done. Qed.
Next Obligation. by intros []. Qed.
Next Obligation. done. Qed.
#[export] Program Instance rest_ups : Lens Rest Ups := {|
  view := ups; put x r := mkRest (coordinator r) (service r) (updatesBlocked r) x (noticed r) |}.
Next Obligation. done. Qed.
Next Obligation. by intros []. Qed.
Next Obligation. done. Qed.
#[export] Instance lock_service : Tracked.Apart Rest rest_coordinator rest_service.
Proof. done. Qed.
#[export] Instance Stack_eq_dec : EqDecision Stack.
Proof. solve_decision. Defined.
#[export] Instance UpdateContainer_eq_dec : EqDecision Updates.UpdateContainer.
Proof. solve_decision. Defined.

(** ** Evidence *)
Record updateEvidence := mkUpdateEvidence {
  EStack : Stack;
  ESnapshot : Updates.UpdateSnapshot;
  EBaseline : Deployment;
  EHead : string; EDiff : string;
  EEnvironment : gmap string string;
  EPolicy : Policy;
}.
Definition sameUpdateEvidence (a b : updateEvidence) : bool :=
  bool_decide (EStack a = EStack b) && (PRevision (EPolicy a) =? PRevision (EPolicy b))%Z
  && (Updates.SSourceDigest (ESnapshot a) =? Updates.SSourceDigest (ESnapshot b))%string
  && bool_decide (Updates.SContainers (ESnapshot a) = Updates.SContainers (ESnapshot b))
  && bool_decide (EEnvironment a = EEnvironment b) && (DepID (EBaseline a) =? DepID (EBaseline b))%string
  && (EHead a =? EHead b)%string && (EDiff a =? EDiff b)%string.
Definition eligibilityReason (e : error) : string :=
  if Is e Compose_ErrSelfProtected then "hosting_stack"
  else if Is e Compose_ErrProtectionUnavailable then "protection_unavailable"
  else if Is e AutoUpdate_ErrConflict then "policy_changed"
  else if Is e ErrNoRows then "no_deployed_baseline"
  else "stack_not_eligible".
(** errors.Join of two errors that may be nil. *)
Definition join (a b : option error) : option error :=
  match a, b with
  | Some x, Some y => Some (ErrJoin x y)
  | Some x, None | None, Some x => Some x
  | None, None => None
  end.
Definition errorOf {A} (r : result A) : option error := match r with Ok _ => None | Err e => Some e end.
Definition value {A} (x : A * option error) : result A := match x.2 with None => Ok x.1 | Some e => Err e end.

Section plane.
Context `{W : World} `{C : Cron} `{R : UpdateRuntime} `{H : FileHash} {G : Type} `{GR : !Repository.GitRepository G}.
(** The root of the workspace, the repository in use, and which optional parts
    the control plane was given: the table of deployments, a reader of alerts
    and a publisher for them. *)
Context (root : string) (git : G) (stateful reader notifier : bool).

Section anywhere.
Context {E : Type} {LD : Lens E DB} {LR : Lens E Rest}.
Notation IO := (M E).
Definition part {A X} `{!Lens Rest A} (m : M A X) : IO X := zoom (zoom m : M Rest X).
Definition ask {A} (f : nat → result A) : IO A := λ e n, (f n, (e, S n)).
Definition setBlocked (b : bool) : IO unit :=
  zoom ((λ r n, (Ok tt, (mkRest (coordinator r) (service r) b (ups r) (noticed r), n))) : M Rest unit).
Definition isBlocked : IO bool := zoom ((λ r n, (Ok (updatesBlocked r), (r, n))) : M Rest bool).
Definition notice (a : Alert.Alert) : IO unit :=
  zoom ((λ r n, (Ok tt, (mkRest (coordinator r) (service r) (updatesBlocked r) (ups r) (noticed r ++ [a]), n))) : M Rest unit).

(** The request for the compose runtime, and the state of the repository. *)
Definition requestFor (target : Stack) (values : gmap string string) : Stacks.Request :=
  Stacks.mkRequest (root, DirectoryName target) (ComposeProjectName target) values.
Definition snapshotOf (target : Stack) (values : gmap string string) : IO Updates.UpdateSnapshot :=
  s ← part (SnapshotUpdate (requestFor target values));
  lift (value s).
Definition sources (target : Stack) : IO (string * string) :=
  head ← ask (Repository.gHead git);
  status ← ask (Repository.gStatus git);
  if Repository.Dirty status then
    diff ← ask (Repository.gDiff git (DirectoryName target));
    mret (head, "sha256:" +:+ fileDigest diff)
  else mret (head, "").

(** *** updateEvidence *)
Definition suspended (p : Policy) (run : Run) : bool :=
  negb (PEnabled p) || negb (PPausedReason p =? "")%string || negb (PRevision p =? PolicyRevision run)%Z.
Definition collect (run : Run) : IO updateEvidence :=
  policy ← zoom (AutoUpdateStore.GetPolicy (RunStackID run));
  _ ← guard_not (suspended policy run) AutoUpdate_ErrConflict;
  target ← zoom (OperationStore.ByID (RunStackID run));
  _ ← guard_not (bool_decide (is_Some (ArchivedAt target))) Compose_ErrUpdateIneligible;
  _ ← part (CheckProject (ComposeProjectName target));
  _ ← guard_not (negb stateful) Compose_ErrUpdateIneligible;
  baseline ← zoom (OperationStore.LatestDeployment (RunStackID run));
  _ ← guard_not (negb (DepStatus baseline =? DeploymentSucceeded)%string) Compose_ErrUpdateIneligible;
  values ← zoom (OperationStore.Environment (RunStackID run));
  snapshot ← snapshotOf target values;
  _ ← guard_not (negb (Updates.SSourceDigest snapshot =? ComposeDigest baseline)%string) Compose_ErrUpdateIneligible;
  '(head, diff) ← sources target;
  _ ← guard_not (negb (head =? GitCommit baseline)%string || negb (diff =? DiffDigest baseline)%string) Compose_ErrUpdateIneligible;
  mret (mkUpdateEvidence target snapshot baseline head diff values policy).

(** *** finishUpdateCheck *)
Fixpoint publishChanges (changes : list Alert.Change) : IO unit :=
  match changes with
  | [] => mret tt
  | change :: rest =>
    a ← attempt (zoom (zoom (AlertStore.Find (Alert.CKey change)) : M DB Alert.Alert));
    _ ← (match a with Ok a => notice a | Err _ => mret tt end);
    publishChanges rest
  end.
Definition finishUpdateCheck (run : Run) (outcome reason : string) (changes : list Alert.Change) : IO unit :=
  r ← attempt (zoom (AutoUpdateStore.FinishRun (RunID run) outcome reason changes));
  match r with
  | Err e => _ ← setBlocked true; fail e
  | Ok _ => if notifier && reader then publishChanges changes else mret tt
  end.
(** What the store could not do blocks updates, unless somebody was faster. *)
Definition blockUnlessConflict (e : error) : IO unit := if Is e AutoUpdate_ErrConflict then mret tt else setBlocked true.

(** *** CheckAndUpdate: the work of the operation *)
Definition checkKey (run : Run) : Alert.Key := Alert.mkKey (RunStackID run) "update_check" "stack".
Definition deploymentKey (run : Run) : Alert.Key := Alert.mkKey (RunStackID run) "deployment" "stack".
Definition failureText : string :=
  "Automatic update failed after recreation began. Verify runtime state and recover manually before resuming.".
Definition apply (run : Run) (prepared : Updates.PreparedUpdate) : IO (option error) :=
  applied ← attempt (part (ApplyUpdate prepared));
  match applied with
  | Err e => mret (Some e)
  | Ok _ =>
    marked ← attempt (zoom (AutoUpdateStore.MarkVerifying (RunID run)));
    match marked with
    | Err e => _ ← setBlocked true; mret (Some e)
    | Ok _ => mret None
    end
  end.
Definition deploymentOf (run : Run) (id : string) (e : updateEvidence) (started completed : time) (failed : bool) : Deployment :=
  mkDeployment ("dep_" +:+ id) (RunStackID run) id (EHead e) (Dirty (EBaseline e)) (EDiff e) (Updates.SSourceDigest (ESnapshot e))
    (if failed then DeploymentFailed else DeploymentSucceeded) started completed (Sub completed started)
    (if failed then "auto_update_failed" else "").
Definition mutate (run : Run) (id : string) (e : updateEvidence) (prepared : Updates.PreparedUpdate) (revision : Z)
    (recovery : list Alert.Change) : IO Result :=
  started ← now;
  applyErr ← apply run prepared;
  v ← attempt (part (VerifyUpdate prepared));
  let '(verified, verifyErr) := match v with Ok x => x | Err x => (UpdateVerify.mkUpdateResult [] true, Some x) end in
  let mutationErr := match join applyErr verifyErr with
                     | None => if UpdateVerify.RecoveryRequired verified then Some Compose_ErrUpdateVerification else None
                     | Some x => Some x
                     end in
  completed ← now;
  let failed := bool_decide (is_Some mutationErr) in
  let completion := mkUpdateCompletion (RunID run) (deploymentOf run id e started completed failed) (UpdateVerify.UServices verified)
                      (if failed then "recovery_required" else "") in
  changes ← OperationAlerts.observedChange id (RunStackName run) (deploymentKey run) revision mutationErr (negb failed);
  mret (mkResult None (Some completion) (if failed then failureText else "Automatic image update verified.")
          (if failed then Some Compose_ErrUpdateVerification else None) (recovery ++ changes)).
Definition intentOf (run : Run) (id : string) : Operation :=
  mkOperation [] [] id "" "" (RunStackID run) "" "" zeroTime zeroTime 0 "" "" false "" "" [] "".
Definition update (run : Run) (id : string) (e : updateEvidence) (prepared : Updates.PreparedUpdate) (revision : Z)
    (recovery : list Alert.Change) : IO Result :=
  saved ← attempt (zoom (AutoUpdateStore.SavePrepared run (intentOf run id) (Updates.SSourceDigest (Updates.Snapshot prepared))
                           (Updates.Changes prepared) (EBaseline e)));
  match saved with
  | Err x =>
    _ ← blockUnlessConflict x;
    f ← attempt (finishUpdateCheck run "skipped" "intent_not_saved" []);
    mret (mkResult None None "" (join (Some x) (errorOf f)) [])
  | Ok _ =>
    marked ← attempt (zoom (AutoUpdateStore.MarkApplying (RunID run) (PolicyRevision run)));
    match marked with
    | Err x =>
      _ ← blockUnlessConflict x;
      f ← attempt (finishUpdateCheck run "skipped" "policy_changed" []);
      mret (mkResult None None "Update discarded before mutation." (errorOf f) [])
    | Ok _ => mutate run id e prepared revision recovery
    end
  end.
End anywhere.

(** *** CheckAndUpdate *)
Section check.
(** The operation service's fields, and how long the caller waits for the
    operation: [gaveUp] is the state of its context. *)
Context (Error : error → string) (publisher : option bool) (maxOutput : Z) (gaveUp : nat → option error).
(** Whether the control plane was given the store, and a runtime that can
    update. *)
Context (stored capable : bool).
Notation IO := (M Env).
Definition updateRequest (run : Run) (id : string) (e : updateEvidence) (timeout : duration) : Operations.OperationRequest :=
  Operations.mkOperationRequest [] timeout id "auto_update" "stack" (RunStackID run) "" "" (map_to_list (EEnvironment e)).*2 false []
    "scheduled" (RunStackName run).
(** Accepted: the operation runs to its end, and the caller waits for it. *)
Definition await (request : Operations.OperationRequest) (work : Operations.Work) (o : Operation) (gr : Coordinator.Grant) : IO unit :=
  answer ← Tracked.carryOut Error publisher maxOutput request work o gr;
  ended ← (λ e n, (Ok (gaveUp n), (e, S n)));
  match ended, answer with
  | Some x, _ | None, Some (Err x) => _ ← setBlocked true; fail x
  | None, Some (Ok _) => mret tt
  | None, None => mret tt               (* it waits on; not reached, see [Tracked.carried_out] *)
  end.
(** From the second look at the stack on. *)
Definition applyPrepared (run : Run) (id : string) (deadline : time) (evidence : updateEvidence) (prepared : Updates.PreparedUpdate)
    (revisions : gmap Alert.Key Z) : IO unit :=
  admission ← attempt (Tracked.admitted false (RunStackID run));
  match admission with
  | Err _ => finishUpdateCheck run "skipped" "busy" []
  | Ok gr =>
    fresh ← attempt (collect run);
    let same := match fresh with Ok f => sameUpdateEvidence evidence f | Err _ => false end in
    if negb same then _ ← Tracked.releases gr; finishUpdateCheck run "skipped" "changed_during_check" []
    else
      recovery ← OperationAlerts.observedChange (RunID run) (RunStackName run) (checkKey run)
                   (OperationAlerts.revisionOf revisions (checkKey run)) None true;
      if bool_decide (Updates.Changes prepared = []) then
        f ← attempt (finishUpdateCheck run "unchanged" "" recovery);
        _ ← Tracked.releases gr;
        lift f
      else
        t ← now;
        let request := updateRequest run id evidence (Sub deadline t) in
        if (Operations.Timeout request <=? 0)%Z then _ ← Tracked.releases gr; finishUpdateCheck run "skipped" "expired" []
        else
          let work := Tracked.asWork (update run id evidence prepared (OperationAlerts.revisionOf revisions (deploymentKey run)) recovery) in
          o ← attempt (Tracked.startTracked publisher request);
          match o with
          | Err _ => _ ← Tracked.releases gr; finishUpdateCheck run "failed" "operation_not_accepted" []
          | Ok o => await request work o gr
          end
  end.
(** [limit]: the deadline of the caller's context, if it has one. *)
Definition CheckAndUpdate (limit : option time) (run : Run) : IO unit :=
  blocked ← isBlocked;
  _ ← guard_not (negb stored || blocked) AutoUpdate_ErrUnavailable;
  _ ← guard_not (negb capable) AutoUpdate_ErrUnavailable;
  t ← now;
  let deadline := match limit with Some l => Z.min l (Add t (20 * Minute)%Z) | None => Add t (20 * Minute)%Z end in
  admission ← attempt (Tracked.admitted false (RunStackID run));
  match admission with
  | Err _ => finishUpdateCheck run "skipped" "busy" []
  | Ok gr =>
    evidence ← attempt (collect run);
    _ ← Tracked.releases gr;
    match evidence with
    | Err x => finishUpdateCheck run "skipped" (eligibilityReason x) []
    | Ok evidence =>
      revisions ← zoom (OperationAlerts.previousAlerts reader [checkKey run; deploymentKey run] : M DB (gmap Alert.Key Z));
      id ← rand_text;
      prepared ← attempt (part (PrepareUpdate (ESnapshot evidence)));
      match prepared with
      | Err x =>
        if Is x Compose_ErrUpdateIneligible then finishUpdateCheck run "skipped" "unsupported_configuration" []
        else
          changes ← OperationAlerts.observedChange (RunID run) (RunStackName run) (checkKey run) 0 (Some Compose_ErrImageCheckFailed) false;
          finishUpdateCheck run "failed" "image_check_failed" changes
      | Ok prepared => applyPrepared run ("op_" +:+ id) deadline evidence prepared revisions
      end
    end
  end.
End check.
(** *** Policies (auto_update_policy.go) *)
Section policies.
Context (stored capable : bool).
Notation IO := (M Env).
Definition UpdatesAvailable : IO bool := blocked ← isBlocked; mret (stored && negb blocked).
Definition SuspendUpdates : IO unit := setBlocked true.
Definition EnableAutoUpdate (id : string) : IO unit :=
  available ← UpdatesAvailable;
  _ ← guard_not (negb available) AutoUpdate_ErrUnavailable;
  s ← zoom (OperationStore.ByID id);
  _ ← guard_not (bool_decide (is_Some (ArchivedAt s))) ErrNoRows;
  _ ← guard_not (negb capable) AutoUpdate_ErrUnavailable;
  part (CheckProject (ComposeProjectName s)).
Record Eligibility := mkEligibility {
  Available : bool; AvailabilityReason : string;
  Eligible : bool; EligibilityReason : string;
  EligibilityExcluded : gmap string string;
}.
Definition noBaseline (excluded : gmap string string) : Eligibility :=
  mkEligibility true "" false "No successful deployment baseline." excluded.
Definition judgeBaseline (baseline : Deployment) (s : Updates.UpdateSnapshot) : Eligibility :=
  let eligible := (DepStatus baseline =? DeploymentSucceeded)%string && (ComposeDigest baseline =? Updates.SSourceDigest s)%string in
  mkEligibility true "" eligible
    (if eligible then "" else "Deploy pending configuration and recover failed deployments before updating.") (Updates.Excluded s).
Definition InspectAutoUpdate (id : string) : IO Eligibility :=
  s ← zoom (OperationStore.ByID id);
  available ← attempt (EnableAutoUpdate id);
  match available with
  | Err e => mret (mkEligibility false (eligibilityReason e) false "" ∅)
  | Ok _ =>
    values ← zoom (OperationStore.Environment id);
    snapshot ← attempt (snapshotOf s values);
    match snapshot with
    | Err _ => mret (mkEligibility true "" false "Requires a fully running, healthy stack with supported Compose configuration." ∅)
    | Ok snapshot =>
      if negb stateful then mret (noBaseline (Updates.Excluded snapshot))
      else
        baseline ← attempt (zoom (OperationStore.LatestDeployment id));
        match baseline with
        | Err e => if Is e ErrNoRows then mret (noBaseline (Updates.Excluded snapshot)) else fail e
        | Ok baseline => mret (judgeBaseline baseline snapshot)
        end
    end
  end.

(** The images that run, one entry for each service. *)
Fixpoint currentImages (p : option Updates.Project) (seen : gset string) (rows : list Updates.UpdateContainer) : list ImageChange :=
  match rows with
  | [] => []
  | row :: rest =>
    let name := Updates.UService row in
    if bool_decide (name ∈ seen) then currentImages p seen rest
    else
      let source := default "" (p ← p; Updates.SImage <$> Updates.Services p !! name) in
      mkImageChange name source (Updates.UImageID row) (Updates.UPlatform row) "" (Updates.UImageID row) ""
        :: currentImages p ({[name]} ∪ seen) rest
  end.
Definition selected (s : Updates.UpdateSnapshot) (c : ImageChange) : Prop :=
  default "" (Updates.Excluded s !! Service c) = "".
#[local] Instance selected_dec s c : Decision (selected s c).
Proof. unfold selected. apply _. Defined.
Definition recovered (baseline : Deployment) (id operation : string) (t : time) : Deployment :=
  mkDeployment id (DepStackID baseline) operation (GitCommit baseline) (Dirty baseline) (DiffDigest baseline) (ComposeDigest baseline)
    DeploymentSucceeded t t 0%Z "".
Definition ResumeAutoUpdate (id : string) (revision : Z) (actor : string) : IO unit :=
  _ ← EnableAutoUpdate id;
  Locking.locked false id (
    policy ← zoom (AutoUpdateStore.GetPolicy id);
    _ ← guard_not (negb (PRevision policy =? revision)%Z || (PPausedReason policy =? "")%string) AutoUpdate_ErrConflict;
    _ ← guard_not (negb stateful) AutoUpdate_ErrUnavailable;
    baseline ← zoom (OperationStore.LatestSuccessfulDeployment id);
    s ← zoom (OperationStore.ByID id);
    values ← zoom (OperationStore.Environment id);
    snapshot ← snapshotOf s values;
    _ ← guard_not (negb (Updates.SSourceDigest snapshot =? ComposeDigest baseline)%string) Compose_ErrUpdateIneligible;
    '(head, diff) ← sources s;
    _ ← guard_not (negb (head =? GitCommit baseline)%string || negb (diff =? DiffDigest baseline)%string) Compose_ErrUpdateIneligible;
    let verification := currentImages (Updates.SProject snapshot) ∅ (Updates.SContainers snapshot) in
    v ← part (VerifyUpdate (Updates.mkPreparedUpdate snapshot verification));
    _ ← lift (value v);
    freshValues ← zoom (OperationStore.Environment id);
    fresh ← snapshotOf s freshValues;
    _ ← guard_not (negb (Updates.SSourceDigest fresh =? Updates.SSourceDigest snapshot)%string
                   || negb (bool_decide (Updates.SContainers fresh = Updates.SContainers snapshot))
                   || negb (bool_decide (freshValues = values))) Compose_ErrUpdateIneligible;
    let key := Alert.mkKey id "deployment" "stack" in
    revisions ← zoom (OperationAlerts.previousAlerts reader [key] : M DB (gmap Alert.Key Z));
    deployment ← rand_text;
    operation ← rand_text;
    t ← now;
    let baseline := recovered baseline ("dep_op_" +:+ deployment) ("op_" +:+ operation) t in
    changes ← OperationAlerts.observedChange (DepOperationID baseline) (DirectoryName s) key (OperationAlerts.revisionOf revisions key) None true;
    t ← now;
    _ ← zoom (AutoUpdateStore.ResumePolicy id revision t actor baseline (filter (selected snapshot) verification) changes);
    if notifier && reader then
      a ← attempt (zoom (zoom (AlertStore.Find key) : M DB Alert.Alert));
      match a with Ok a => notice a | Err _ => mret tt end
    else mret tt).

(** *** ReconcileUpdates (update_recovery.go) *)
Definition interrupted (c : ImageChange) : ServiceUpdateResult :=
  mkServiceUpdateResult (Service c) (BeforeImageID c) (AfterImageID c) "" "interrupted".
(** The images that run now, where the stack can still be inspected. *)
Definition observe (run : Run) (services : list ServiceUpdateResult) : IO (list ServiceUpdateResult) :=
  s ← attempt (zoom (OperationStore.ByID (RunStackID run)));
  values ← attempt (zoom (OperationStore.Environment (RunStackID run)));
  match s, values with
  | Ok s, Ok values =>
    snapshot ← attempt (part (SnapshotUpdate (requestFor s values)));
    let rows := match snapshot with Ok (snapshot, _) => Updates.SContainers snapshot | Err _ => [] end in
    mret (UpdateVerify.noteActual rows <$> services)
  | _, _ => mret services
  end.
Fixpoint recoverExecutions (byID : gmap string Run) (executions : list Execution) : IO (gmap string Run) :=
  match executions with
  | [] => mret byID
  | x :: rest =>
    let services := interrupted <$> XChanges x in
    services ← (if capable && negb (XPhase x =? "prepared")%string
                then match byID !! XRunID x with Some run => observe run services | None => mret services end
                else mret services);
    _ ← zoom (OperationStore.RecoverExecution x services);
    recoverExecutions (delete (XRunID x) byID) rest
  end.
Fixpoint finishRuns (runs : list Run) : IO unit :=
  match runs with
  | [] => mret tt
  | run :: rest =>
    _ ← zoom (AutoUpdateStore.FinishRun (RunID run) "interrupted" "restart_before_mutation" []);
    finishRuns rest
  end.
Definition ReconcileUpdates : IO unit :=
  _ ← setBlocked true;
  _ ← guard_not (negb stored) AutoUpdate_ErrUnavailable;
  executions ← zoom AutoUpdateStore.PendingExecutions;
  runs ← zoom AutoUpdateStore.PendingRuns;
  byID ← recoverExecutions (list_to_map ((λ r, (RunID r, r)) <$> runs)) executions;
  _ ← finishRuns (map_to_list byID).*2;
  setBlocked false.
End policies.
End plane.
End AutoUpdate.
