(* ===== verification/ControlPlane.v ===== *)
(** * The control plane (src/internal/control/control.go, operation_alerts.go,
    containers.go, deployment_review.go)

    It turns the requests of users into operations: it takes the lock of the
    stack, looks at the stack, accepts the operation, which gives the lock back
    at its end, and verifies and reports what the operation did. *)
From S2P Require Import Prelude GoStrings OnDemandPolicy Alerts Database OnDemandStore AutoUpdateStore OperationStore Coordinator Locking Operation Tracked.
From S2P Require Import ContainerStates Filesystem Repository Controller OnDemandService OperationAlerts Compose Updates.

Module ControlPlane.
Import Data Database ContainerStates.
#[export] Existing Instances Operations.env_store Operations.env_rest Tracked.env_coordinator Tracked.pair_store Tracked.pair_rest.
#[export] Existing Instances OperationAlerts.Key_countable Repository.env_coordinator.
Notation ComposeRequest := Deployments.ComposeRequest.

(** ** The control plane's surroundings

    The runtime is an interface with an answer for every moment; every call
    that changes something is recorded with its moment. *)
Inductive RuntimeCall :=
| CallStart (q : ComposeRequest) | CallStop (q : ComposeRequest) | CallRestart (q : ComposeRequest) | CallPull (q : ComposeRequest)
| CallContainer (q : ComposeRequest) (id action : string).
Class RuntimeController := {
  compose :: Deployments.ComposeRuntime;                            (* Validate, Digest, Deploy *)
  Status : ComposeRequest → nat → result (list ContainerSummary);
  Logs : ComposeRequest → Z → nat → string * option error;
  ContainerLogs_ : ComposeRequest → string → nat → result string;
  ContainerInspect_ : ComposeRequest → string → nat → result string;
  Act : RuntimeCall → nat → result unit;
}.
(** compose-go's loader, the JSON forms that the code makes, and HMAC-SHA256 in
    hexadecimal. *)
Class Loader := Load : ComposeRequest → nat → result Updates.Project.
Class Encoding := { encodeStatus : list ContainerSummary → result string; encodePayload : list string → string }.
Class Signing := mac : string → string → string.

Section rest.
Context {G : Type}.
Record Rest := mkRest {
  repository : Repository.Env (G := G);      (* with the coordinator that all share *)
  service : Operations.Service;
  controller : Controller.Controller;        (* of the on-demand service *)
  calls : list (RuntimeCall * nat);
  deployed : list (Deployments.call_kind * ComposeRequest * option error);
  publishedLogs : list (string * string);    (* PublishLog *)
  reviewKey : option (result string);        (* once done: its key or its error *)
}.
#[export] Program Instance rest_repository : Lens Rest (Repository.Env (G := G)) := {|
  view := repository; put x r := mkRest x (service r) (controller r) (calls r) (deployed r) (publishedLogs r) (reviewKey r) |}.
Next Obligation. done. Qed.
Next Obligation. by intros []. Qed.
Next Obligation. done. Qed.
#[export] Program Instance rest_coordinator : Lens Rest Coordinator.Coordinator := {|
  view r := Repository.coordinator (repository r);
  put x r := mkRest (put x (repository r)) (service r) (controller r) (calls r) (deployed r) (publishedLogs r) (reviewKey r) |}.
Next Obligation. done. Qed.
Next Obligation. by intros [[]]. Qed.
Next Obligation. done. Qed.
#[export] Program Instance rest_service : Lens Rest Operations.Service := {|
  view := service; put x r := mkRest (repository r) x (controller r) (calls r) (deployed r) (publishedLogs r) (reviewKey r) |}.
Next Obligation. done. Qed.
Next Obligation. by intros []. Qed.
Next Obligation. done. Qed.
#[export] Program Instance rest_controller : Lens Rest Controller.Controller := {|
  view := controller; put x r := mkRest (repository r) (service r) x (calls r) (deployed r) (publishedLogs r) (reviewKey r) |}.
Next Obligation. done. Qed.
Next Obligation. by intros []. Qed.
Next Obligation. done. Qed.
#[export] Program Instance rest_calls : Lens Rest (list (RuntimeCall * nat)) := {|
  view := calls; put x r := mkRest (repository r) (service r) (controller r) x (deployed r) (publishedLogs r) (reviewKey r) |}.
Next Obligation. done. Qed.
Next Obligation. by intros []. Qed.
Next Obligation. done. Qed.
#[export] Program Instance rest_logs : Lens Rest (list (string * string)) := {|
  view := publishedLogs; put x r := mkRest (repository r) (service r) (controller r) (calls r) (deployed r) x (reviewKey r) |}.
Next Obligation. done. Qed.
Next Obligation. by intros []. Qed.
Next Obligation. done. Qed.
#[export] Program Instance rest_key : Lens Rest (option (result string)) := {|
  view := reviewKey; put x r := mkRest (repository r) (service r) (controller r) (calls r) (deployed r) (publishedLogs r) x |}.
Next Obligation. done. Qed.
Next Obligation. by intros []. Qed.
Next Obligation. done. Qed.
#[export] Instance lock_service : Tracked.Apart Rest rest_coordinator rest_service.
Proof. done. Qed.
(** The deployment service shares the database and the coordinator. *)
#[export] Program Instance work_deployments : Lens (DB * Rest) Deployments.Env := {|
  view s := Deployments.mkEnv s.1 (Repository.coordinator (repository s.2)) (deployed s.2);
  put e s := (Deployments.store e,
    mkRest (put (Deployments.coordinator e) (repository s.2)) (service s.2) (controller s.2) (calls s.2) (Deployments.calls e)
      (publishedLogs s.2) (reviewKey s.2)) |}.
Next Obligation. by intros []. Qed.
Next Obligation. by intros [? [[]]]. Qed.
Next Obligation. done. Qed.
#[export] Program Instance work_controller : Lens (DB * Rest) Controller.Controller := {|
  view s := controller s.2; put c s := (s.1, put c s.2) |}.
Next Obligation. done. Qed.
Next Obligation. by intros [? []]. Qed.
Next Obligation. done. Qed.
End rest.
#[global] Arguments Rest : clear implicits.
#[global] Arguments mkRest {G}.
(** filepath.Join of the clean root and the name of a directory *)
Definition stackDir (root name : string) : string := if HasSuffix root "/" then root +:+ name else root +:+ "/" +:+ name.
Definition isOneOf (action : string) (l : list string) : bool := bool_decide (action ∈ l).

Section plane.
Context `{W : World} `{R : RuntimeController} `{L : Loader} `{En : Encoding} `{Sg : Signing} `{H : FileHash} `{CA : Compose.ComposeApi}.
Context {G : Type} `{GR : !Repository.GitRepository G}.
(** The root of the workspace, and which optional parts the control plane was
    given: the table of deployments, the store of updates, the on-demand
    service, the publisher of logs and the reader of alerts. *)
Context (root : string) (stateful stored demand logging reader : bool).

Section anywhere.
Context {E : Type} {LD : Lens E DB} {LR : Lens E (Rest G)}.
Notation IO := (M E).
Definition part {A X} `{!Lens (Rest G) A} (m : M A X) : IO X := zoom (zoom m : M (Rest G) X).
Definition ask {A} (f : nat → result A) : IO A := λ e n, (f n, (e, S n)).
Definition act (c : RuntimeCall) : IO unit := part ((λ l n, (Act c n, (l ++ [(c, n)], S n))) : M (list (RuntimeCall * nat)) unit).
Definition requestFor (target : Stack) (values : gmap string string) : ComposeRequest :=
  Deployments.mkComposeRequest (stackDir root (DirectoryName target)) (ComposeProjectName target) values ∅ ∅.
(** The stack, its environment and the request made of them. *)
Definition describe (id : string) : IO (Stack * ComposeRequest) :=
  target ← zoom (OperationStore.ByID id);
  values ← zoom (OperationStore.Environment id);
  mret (target, requestFor target values).

(** *** control.go: reading *)
Definition RepositoryStatus : IO Repository.GitStatus := part Repository.Status_.
Definition RepositoryHistory (limit : Z) : IO (list Repository.GitCommit) := part (Repository.History limit).
Definition RepositoryHistoryPage (limit offset : Z) : IO (list Repository.GitCommit) := part (Repository.HistoryPage limit offset).
Definition StackDiff (id : string) : IO string :=
  target ← zoom (OperationStore.ByID id); part (Repository.Diff (DirectoryName target)).
Definition sleepers (id : string) (rows : list ContainerSummary) : IO (gset string) :=
  if demand then groups ← zoom (OnDemandStore.ListGroups id); mret (sleepingContainerIDs id groups rows) else mret ∅.
Record StackState := mkStackState { Runtime_ : RuntimeState; Freshness : DeploymentFreshness; HasDeployed : bool }.
Definition lastDeployment (id : string) : IO (option DeploymentSnapshot * bool) :=
  if stateful then
    latest ← attempt (zoom (OperationStore.LatestDeployment id));
    snapshot ← (match latest with
                | Ok d => mret (Some (mkDeploymentSnapshot (DepStatus d) (ComposeDigest d) (GitCommit d)))
                | Err e => if Is e ErrNoRows then mret None else fail e
                end);
    has ← zoom (OperationStore.HasSuccessfulDeployment id);
    mret (snapshot, has)
  else mret (None, false).
Definition StackState_ (id : string) : IO StackState :=
  '(target, request) ← describe id;
  rows ← ask (Status request);
  let owned := ownedBy (ComposeProjectName target) rows in
  sleeping ← (if ArchivedAt target then mret ∅ else sleepers id owned);
  digest ← ask (Deployments.Digest request);
  '(snapshot, has) ← lastDeployment id;
  mret (mkStackState (AggregateRuntime (shownState sleeping <$> owned)) (ClassifyDeployment snapshot digest false) has).

(** *** containers.go: reading *)
Definition Containers (id : string) : IO (list Container) :=
  '(target, request) ← describe id;
  rows ← ask (Status request);
  let owned := ownedBy (ComposeProjectName target) rows in
  sleeping ← (if ArchivedAt target then mret ∅ else sleepers id owned);
  mret (sortSlice container_less (setSleeping sleeping <$> (containerFromSummary <$> owned))).
Definition ownedRow (project id : string) (rows : list ContainerSummary) : option ContainerSummary :=
  head (filter (λ row, SumID row = id ∧ Project row = project) rows).
Definition containerReadRequest (id containerID : string) : IO ComposeRequest :=
  '(target, request) ← describe id;
  rows ← ask (Status request);
  match ownedRow (ComposeProjectName target) containerID rows with
  | Some _ => mret request
  | None => fail Control_ErrContainerNotFound
  end.
Definition ContainerLogs (id containerID : string) : IO string :=
  request ← containerReadRequest id containerID; ask (ContainerLogs_ request containerID).
Definition ContainerInspect (id containerID : string) : IO string :=
  request ← containerReadRequest id containerID; ask (ContainerInspect_ request containerID).

(** *** operation_alerts.go: verification *)
Definition counted (p : Updates.Project) (project : string) (row : ContainerSummary) : bool :=
  (Project row =? project)%string && negb (EqualFold (default "" (Labels row !! Compose.OneoffLabel)) "true")
  && bool_decide (is_Some (Updates.Services p !! SumService row)).
(** Whether a row lets the action pass as verified. *)
Definition fitting (action : string) (row : ContainerSummary) : bool :=
  let state := ToLower (State row) in let health := ToLower (Health row) in
  if (action =? "stop")%string then negb (isOneOf state ["running"; "restarting"; "paused"]%string)
  else (state =? "running")%string && ((health =? "")%string || (health =? "healthy")%string).
Definition countService (counts : gmap string Z) (row : ContainerSummary) : gmap string Z :=
  <[SumService row := (default 0 (counts !! SumService row) + 1)%Z]> counts.
Definition verifyRows (p : Updates.Project) (action : string) (rows : list ContainerSummary) : bool :=
  forallb (fitting action) rows &&
  ((action =? "stop")%string
   || forallb (λ '(name, service), default 0 (foldl countService ∅ rows !! name) =? Updates.Scale service)%Z (map_to_list (Updates.Services p))
      && (0 <? size (Updates.Services p))%nat).
Definition verifyStackAction (request : ComposeRequest) (action : string) : IO bool :=
  if (action =? "pull")%string then mret true
  else
    p ← attempt (ask (Load request));
    match p with
    | Err _ => mret false
    | Ok p =>
      rows ← attempt (ask (Status request));
      match rows with
      | Err _ => mret false
      | Ok rows => mret (verifyRows p action (filter (λ row, counted p (Deployments.CProjectName request) row = true) rows))
      end
    end.
Definition verifyContainerAction (request : ComposeRequest) (id action : string) : IO bool :=
  rows ← attempt (ask (Status request));
  mret (match rows with
        | Err _ => false
        | Ok rows =>
          match ownedRow (Deployments.CProjectName request) id rows with
          | None => false
          | Some row =>
            if (action =? "stop")%string then (State row =? "exited")%string || (State row =? "created")%string
            else (State row =? "running")%string && ((Health row =? "")%string || (Health row =? "healthy")%string)
          end
        end).

(** *** deployment_review.go *)
Record DeploymentReview := mkReview { ReviewStackID : string; SourceRevision : string; UncommittedChanges : bool }.
Definition reviewKeyOnce : IO (result string) :=
  part ((λ k n, match k with
         | Some r => (Ok r, (k, n))
         | None => let '(r, (_, n')) := rand_read k n in (Ok r, (Some r, n'))
         end) : M (option (result string)) (result string)).
Definition sign (payload : string) : IO string :=
  k ← reviewKeyOnce;
  match k with Ok key => mret (mac key payload) | Err _ => fail (ErrText "deployment review key unavailable") end.
Definition payloadOf (id : string) (target : Stack) (digest head diff : string) : list string :=
  ["deployment-review-v1"%string; id; DirectoryName target; ComposeProjectName target; digest; head; fileDigest diff].
Definition reviewDeploymentLocked (id : string) (target : Stack) (request : ComposeRequest) : IO DeploymentReview :=
  _ ← guard_not (bool_decide (is_Some (ArchivedAt target))) Control_ErrStackRuntimeActionUnavailable;
  digest ← ask (Deployments.Digest request);
  head ← part Repository.Head;
  diff ← part (Repository.Diff (DirectoryName target));
  revision ← sign (encodePayload (payloadOf id target digest head diff));
  mret (mkReview id revision (negb (diff =? "")%string)).
Definition sameDeploymentRevision (actual expected : string) : bool := (actual =? expected)%string.

(** *** The work of an operation: its output and its error *)
Notation Answer := (string * option error)%type.
Definition errorOf {A} (r : result A) : option error := match r with Ok _ => None | Err e => Some e end.
Definition silent (m : IO unit) : IO Answer := r ← attempt m; mret (""%string, errorOf r).
Definition spoken (m : IO string) : IO Answer := r ← attempt m; mret (match r with Ok s => (s, None) | Err e => (""%string, Some e) end).
Definition perform (id action : string) (request : ComposeRequest) : IO Answer :=
  if (action =? "validate")%string then silent (ask (λ n, Deployments.of_option (Deployments.Validate request n)))
  else if (action =? "status")%string then spoken (rows ← ask (Status request); lift (encodeStatus rows))
  else if (action =? "start")%string then silent (act (CallStart request))
  else if (action =? "stop")%string then silent (act (CallStop request))
  else if (action =? "restart")%string then silent (act (CallRestart request))
  else if (action =? "pull")%string then
    silent (_ ← act (CallPull request); if stored then zoom (AutoUpdateStore.InvalidateImages id) else mret tt)
  else
    '(output, err) ← ask (λ n, Ok (Logs request 500 n));
    _ ← (match err with
         | None => if logging then part ((λ l n, (Ok tt, (l ++ [(id, output)], n))) : M (list (string * string)) unit) else mret tt
         | Some _ => mret tt
         end);
    mret (output, err).

(** *** manualImageOverrides (auto_update.go) *)
Definition sourceOf (images : gmap string ImageChange) (name : string) (s : Updates.Service) : option string :=
  if Updates.Build s then None
  else match images !! name with
  | Some prior => Some (if negb (Updates.SPlatform s =? "")%string && negb (Updates.SPlatform s =? Platform prior)%string then ""%string else Updates.SImage s)
  | None => Some (Updates.SImage s)
  end.
Definition overrideOf (images : gmap string ImageChange) (name : string) (s : Updates.Service) : option ImageChange :=
  if Updates.Build s then None
  else match images !! name with
  | Some image =>
    if (SourceReference image =? Updates.SImage s)%string && ((Updates.SPlatform s =? "") || (Updates.SPlatform s =? Platform image))%string
    then Some image else None
  | None => None
  end.
Record Overrides := mkOverrides { Sources : gmap string string; Images : gmap string string; Platforms : gmap string string }.
Definition manualImageOverrides (id : string) (request : ComposeRequest) : IO Overrides :=
  if negb stored then mret (mkOverrides ∅ ∅ ∅)
  else
    images ← zoom (AutoUpdateStore.EffectiveImages id);
    p ← ask (Load request);
    let overrides := map_imap (overrideOf images) (Updates.Services p) in
    mret (mkOverrides (map_imap (sourceOf images) (Updates.Services p)) (TargetReference <$> overrides) (Platform <$> overrides)).
End anywhere.

(** *** A deployment: what its operation does *)
Notation WIO := (M (DB * Rest G)).
Definition deployRequest (id operationID action : string) (request : ComposeRequest) (head : string) (dirty : bool) (diff : string)
    (o : Overrides) : Deployments.DeployRequest :=
  Deployments.mkDeployRequest (Images o) (Platforms o) id operationID (Deployments.CStackDir request) (Deployments.CProjectName request)
    (Deployments.CEnvironment request) head dirty diff (action =? "recreate")%string.
Definition deploy (id operationID action : string) (target : Stack) (request : ComposeRequest) : WIO string :=
  status ← part Repository.Status_;
  head ← part Repository.Head;
  diff ← (if Repository.Dirty status
          then diff ← part (Repository.Diff (DirectoryName target)); mret ("sha256:" +:+ fileDigest diff)
          else mret ""%string);
  overrides ← manualImageOverrides id request;
  '(deployment, err) ← zoom (Deployments.DeployLocked (deployRequest id operationID action request head (Repository.Dirty status) diff overrides));
  _ ← (match err with Some e => fail e | None => mret tt end);
  _ ← (if stored then zoom (AutoUpdateStore.PruneImages id (Sources overrides)) else mret tt);
  mret ("deployment " +:+ DepID deployment).

(** *** startObserved *)
Notation Answer := (string * option error)%type.
Notation Revisions := (gmap Alert.Key Z).
Definition withID (id : string) (r : Operations.OperationRequest) : Operations.OperationRequest :=
  Operations.mkOperationRequest (Operations.RAffectedServices r) (Operations.Timeout r) id (Operations.RKind r) (Operations.RScopeType r)
    (Operations.RScopeID r) (Operations.RRequestKey r) (Operations.RInitiatedBy r) (Operations.Secrets r) (Operations.DiscardOutput r)
    (Operations.RAlertTargets r) (Operations.RTrigger r) (Operations.RStackName r).
Definition observedFor (request : Operations.OperationRequest) (revisions : Revisions) (err : option error) (verified : bool) (key : Alert.Key)
    : WIO (list Alert.Change) :=
  OperationAlerts.observedChange (Operations.RequestID request) (Operations.RStackName request) key
    (OperationAlerts.revisionOf revisions key) err verified.
Fixpoint observedAll (request : Operations.OperationRequest) (revisions : Revisions) (err : option error) (verified : bool)
    (keys : list Alert.Key) : WIO (list Alert.Change) :=
  match keys with
  | [] => mret []
  | key :: rest =>
    a ← observedFor request revisions err verified key;
    b ← observedAll request revisions err verified rest;
    mret (a ++ b)
  end.
(** The holds of the stack's groups come first. *)
Definition unheld (request : Operations.OperationRequest) (m : WIO Result) : WIO Result :=
  h ← attempt (OnDemandService.releaseOnDemandHolds demand (Operations.RScopeType request) (Operations.RScopeID request));
  match h with
  | Err x => mret (mkResult None None "" (Some x) [])
  | Ok _ => m
  end.
Definition observed (request : Operations.OperationRequest) (revisions : Revisions) (run : WIO Answer) (verify : WIO bool) : WIO Result :=
  unheld request (
    '(output, err) ← run;
    verified ← (match err with None => if (0 <? size revisions)%nat then verify else mret false | Some _ => mret false end);
    changes ← observedAll request revisions err verified (Operations.RAlertTargets request);
    mret (mkResult None None output err changes)).

(** *** A batch: every container in its turn, whatever became of the others *)
Definition containerKey (id action : string) (row : ContainerSummary) : Alert.Key :=
  OperationAlerts.containerAlertKey id action (SumService row) (SumName row).
Definition line (id outcome : string) : string := id +:+ ": " +:+ outcome +:+ String (Ascii.ascii_of_nat 10) "".
Definition oneOrMore : error := ErrText "one or more container actions failed".
Fixpoint batch (request : Operations.OperationRequest) (q : ComposeRequest) (revisions : Revisions) (action : string)
    (rows : list ContainerSummary) (acc : Result) : WIO Result :=
  match rows with
  | [] => mret acc
  | row :: rest =>
    let key := containerKey (Operations.RScopeID request) action row in
    r ← attempt (act (CallContainer q (SumID row) action));
    verified ← (if is_ok r && (0 <? OperationAlerts.revisionOf revisions key)%Z then verifyContainerAction q (SumID row) action else mret false);
    changes ← observedFor request revisions (errorOf r) verified key;
    batch request q revisions action rest
      (mkResult None None (ROutput acc +:+ line (SumID row) (if is_ok r then "succeeded" else "failed"))
         (if is_ok r then RErr acc else Some oneOrMore) (RAlerts acc ++ changes))
  end.

(** ** Requests of users *)
Section operations.
(** The operation service's fields. *)
Context (publisher : option bool).
Notation IO := (M (Operations.Env (Rest G))).
(** An accepted operation with what its goroutine runs, and the admission that
    it gives back ([Tracked.carryOut]). *)
Record Started := mkStarted {
  SOperation : Operation; SRequest : Operations.OperationRequest; SWork : Operations.Work (X := Rest G); SGrant : Coordinator.Grant;
}.
Definition startTracked (request : Operations.OperationRequest) (gr : Coordinator.Grant) (work : WIO Result) : IO Started :=
  o ← Tracked.startTracked publisher request;
  mret (mkStarted o request (Tracked.asWork work) gr).
Definition NewOperationID : IO string := t ← rand_text; mret ("op_" +:+ t).
Definition identified (request : Operations.OperationRequest) : IO Operations.OperationRequest :=
  if (Operations.RequestID request =? "")%string then id ← NewOperationID; mret (withID id request) else mret request.
Definition previousAlerts (request : Operations.OperationRequest) : IO Revisions :=
  zoom (OperationAlerts.previousAlerts reader (Operations.RAlertTargets request) : M DB Revisions).
Definition startObserved (request : Operations.OperationRequest) (run : WIO Answer) (verify : WIO bool) (gr : Coordinator.Grant) : IO Started :=
  request ← identified request;
  revisions ← previousAlerts request;
  startTracked request gr (observed request revisions run verify).
Definition stackRequest (id operationID kind : string) (target : Stack) (q : ComposeRequest) (services : list string) (discard : bool)
    (targets : list Alert.Key) : Operations.OperationRequest :=
  Operations.mkOperationRequest services 0%Z operationID kind "stack" id "" "" (map_to_list (Deployments.CEnvironment q)).*2 discard targets ""
    (DirectoryName target).

(** *** StartAction *)
Definition running (id : string) (target : Stack) (q : ComposeRequest) : IO unit :=
  _ ← guard_not (bool_decide (is_Some (ArchivedAt target)) || negb stateful) Control_ErrStackRuntimeActionUnavailable;
  rows ← ask (Status q);
  has ← zoom (OperationStore.HasSuccessfulDeployment id);
  guard_not (negb has || negb (bool_decide (AggregateRuntime (parseContainerStates (ownedBy (ComposeProjectName target) rows)) = RuntimeRunning)))
    Control_ErrStackRuntimeActionUnavailable.
(** *** startDeployment *)
Definition reviewed (id : string) (target : Stack) (q : ComposeRequest) (expected : string) : IO unit :=
  review ← reviewDeploymentLocked id target q;
  guard_not (negb (sameDeploymentRevision (SourceRevision review) expected)) Control_ErrDeploymentReviewChanged.
Definition startDeployment (id action : string) (expected : option string) : IO Started :=
  gr ← Tracked.admitted false id;
  Tracked.held gr (
    '(target, q) ← describe id;
    _ ← (match expected with Some expected => reviewed id target q expected | None => mret tt end);
    operationID ← NewOperationID;
    startObserved (stackRequest id operationID action target q [] false (OperationAlerts.stackAlertTargets id action))
      (spoken (deploy id operationID action target q)) (verifyStackAction q action) gr).
Definition StartAction (id action : string) : IO Started :=
  if isOneOf action ["deploy"; "recreate"]%string then startDeployment id action None
  else
    '(target, q) ← describe id;
    if isOneOf action ["validate"; "status"; "start"; "stop"; "restart"; "pull"; "logs"]%string then
      gr ← Tracked.admitted false id;
      Tracked.held gr (
        _ ← (if isOneOf action ["stop"; "restart"]%string then running id target q else mret tt);
        startObserved (stackRequest id "" action target q [] (action =? "logs")%string (OperationAlerts.stackAlertTargets id action))
          (perform id action q) (verifyStackAction q action) gr)
    else fail (ErrText "unsupported stack action").
Definition StartReviewedDeployment (id expected : string) : IO Started := startDeployment id "deploy" (Some expected).
Definition ReviewDeployment (id : string) : IO DeploymentReview :=
  Locking.locked false id ('(target, q) ← describe id; reviewDeploymentLocked id target q).

(** *** StartContainerAction *)
Definition supported (action : string) : bool := isOneOf action ["start"; "stop"; "restart"]%string.
Definition inspectable (id : string) : IO (Stack * ComposeRequest) :=
  target ← zoom (OperationStore.ByID id);
  _ ← guard_not (bool_decide (is_Some (ArchivedAt target))) Control_ErrContainerArchived;
  values ← zoom (OperationStore.Environment id);
  mret (target, requestFor target values).
Definition StartContainerAction (id containerID action : string) : IO Started :=
  _ ← guard_not (negb (supported action)) Control_ErrUnsupportedContainerAction;
  gr ← Tracked.admitted false id;
  Tracked.held gr (
    '(target, q) ← inspectable id;
    rows ← ask (Status q);
    match ownedRow (ComposeProjectName target) containerID rows with
    | None => fail Control_ErrContainerNotFound
    | Some row =>
      _ ← guard_not (negb (containerActionAllowed (ToLower (State row)) action)) Control_ErrContainerStateConflict;
      startObserved (stackRequest id "" ("container_" +:+ action) target q [SumService row] false [containerKey id action row])
        (silent (act (CallContainer q containerID action))) (verifyContainerAction q containerID action) gr
    end).

(** *** StartContainerBatchAction *)
Definition plainID (id : string) : bool :=
  negb (id =? "")%string && (String.length id <=? 128)%nat
  && forallb (λ c, is_alnum c || Ascii.eqb c "-" || Ascii.eqb c "_")%char (list_ascii_of_string id).
Fixpoint validSelection (seen : gset string) (ids : list string) : bool :=
  match ids with
  | [] => true
  | id :: rest => plainID id && negb (bool_decide (id ∈ seen)) && validSelection ({[id]} ∪ seen) rest
  end.
(** The rows of the selection, in its order. *)
Definition ownedRows (project : string) (rows : list ContainerSummary) : gmap string ContainerSummary :=
  foldl (λ m row, <[SumID row := row]> m) ∅ (ownedBy project rows).
Fixpoint selectRows (owned : gmap string ContainerSummary) (action : string) (ids : list string) : result (list ContainerSummary) :=
  match ids with
  | [] => Ok []
  | id :: rest =>
    match owned !! id with
    | None => Err Control_ErrContainerNotFound
    | Some row =>
      _ ← reject_if (negb (containerActionAllowed (ToLower (State row)) action)) Control_ErrContainerStateConflict;
      rows ← selectRows owned action rest;
      Ok (row :: rows)
    end
  end.
Definition StartContainerBatchAction (id : string) (containerIDs : list string) (action : string) : IO Started :=
  _ ← guard_not (negb (supported action)) Control_ErrUnsupportedContainerAction;
  _ ← guard_not ((length containerIDs =? 0)%nat || (20 <? length containerIDs)%nat) Control_ErrInvalidContainerSelection;
  _ ← guard_not (negb (validSelection ∅ containerIDs)) Control_ErrInvalidContainerSelection;
  gr ← Tracked.admitted false id;
  Tracked.held gr (
    '(target, q) ← inspectable id;
    rows ← ask (Status q);
    selection ← lift (selectRows (ownedRows (ComposeProjectName target) rows) action containerIDs);
    operationID ← NewOperationID;
    let request := stackRequest id operationID ("container_batch_" +:+ action) target q (SumService <$> selection) false
                     (containerKey id action <$> selection) in
    revisions ← previousAlerts request;
    startTracked request gr (unheld request (batch request q revisions action selection (mkResult None None "" None [])))).

(** *** StartRepositoryAction, CommitStack *)
Definition repositoryWork (action : string) : WIO Result :=
  r ← attempt (part (if (action =? "fetch")%string then Repository.Fetch
                     else if (action =? "pull")%string then Repository.Pull else Repository.Push));
  mret (mkResult None None "" (errorOf r) []).
Definition StartRepositoryAction (action : string) : IO Started :=
  _ ← guard_not (negb (isOneOf action ["fetch"; "pull"; "push"]%string)) (ErrText "unsupported repository action");
  gr ← Tracked.admitted true "";
  Tracked.held gr (
    startTracked (Operations.mkOperationRequest [] 0%Z "" action "repository" "" "" "" [] false [] "" "") gr (repositoryWork action)).
Definition CommitStack (id message : string) : IO string :=
  Locking.locked false id (
    target ← zoom (OperationStore.ByID id);
    part (Repository.Commit (DirectoryName target) message)).
End operations.
End plane.
End ControlPlane.
