(* ===== verification/UpdateExample.v ===== *)
(** * A small stack for the examples about updates

    Two services, of which one gets a new image from tick 100 on. *)
From S2P Require Import Prelude GoStrings Environment Compose Lifecycle Updates UpdateImages.

Module UpdateExample.
Import Environment Compose Updates UpdateImages.

#[export] Instance api : ComposeApi := {|
  ProjectLabel := "project"; ServiceLabel := "service"; ContainerNumberLabel := "number"; OneoffLabel := "oneoff";
  Port := Z * string; PortFrom n p := Some (n, p); Num := fst; Proto := snd |}.
Definition parseNamed (s : string) : option (bool * string) :=
  match s with String "@" s' => Some (true, s') | _ => Some (false, s) end.
#[export] Instance images : Images := {|
  OCIPlatform := string * string;
  mkPlatform os arch _ := (os, arch); Normalize p := p; Format p := p.1 +:+ "/" +:+ p.2;
  ParsePlatform s := if (s =? "linux/amd64")%string then Some ("linux", "amd64")%string else None;
  OnlyStrict p q := bool_decide (p = q);
  validDigest s := HasPrefix s "sha256:";
  Named := bool * string; ParseNormalizedNamed := parseNamed; Digested := fst; TagNameOnly r := r; TrimNamed r := r;
  WithDigest r d := Some (true, r.2 +:+ ":" +:+ d);
  NamedString r := if r.1 then String "@" r.2 else r.2 |}.
Definition web : Service := mkService 1 ∅ None "nginx" "" false "" 0 0 [] [] [] "" "" "".
Definition db : Service := mkService 1 ∅ (Some (mkHealthCheck false ["CMD"%string])) "pg" "" false "" 0 0 [] [] [] "" "" "".
Definition project : Project := mkProject "shop" {["db"%string := db; "web"%string := web]} ∅.
Definition labelsOf (name : string) : gmap string string :=
  {["project"%string := "shop"; "service"%string := name; "number"%string := "1"]}.
Definition container (id name image : string) (health : option string) : InspectResponse :=
  mkInspect id image 0 (Some (labelsOf name)) (Some (mkState true "running" false false false "2024-01-01T00:00:00Z" health)) None None.
#[export] Instance engine : UpdateDocker := {|
  Updates.ContainerList _ _ := Ok [("c1"%string, labelsOf "db"); ("c2"%string, labelsOf "web")];
  Updates.ContainerInspect id n := Ok (if (id =? "c1")%string then container id "db" "sha256:7" (Some "healthy"%string)
    else container id "web" (if bool_decide (n < 100) then "sha256:1" else "sha256:2")%string None);
  Updates.ImageInspect id _ := Ok (mkImageInfo id "linux" "amd64" "" ["nginx@sha256:9"%string]) |}.
#[export] Instance registry : ImageDocker := {|
  DistributionInspect _ _ := Ok "sha256:9"%string;
  ImagePull _ _ _ := Ok (Some (Ok tt));
  ImageInspectPlatform ref p _ := Ok (mkSelected (if HasPrefix ref "@nginx" then "sha256:2" else "sha256:7")%string p None);
  ImageInspectManifests _ _ := Ok [] |}.
#[export] Instance classes : Errdefs := {|
  IsUnauthorized _ := false; IsPermissionDenied _ := false; IsResourceExhausted _ := false; IsUnavailable _ := true;
  IsInternal _ := false; IsConnectionFailed _ := false; streamCode _ := None; isNetwork _ := false |}.
#[export] Instance compose : UpdateEngine := {|
  WithSelectedServices p names := Some (mkProject (PName p) (filter (λ kv, kv.1 ∈ names) (Services p)) ∅);
  Up _ _ := Ok tt; CheckProject _ _ := None |}.
#[export] Instance digests : Digests Project := {| MarshalJSON _ := Ok "{}"%string; sha256 s := s |}.
#[export] Instance waiting : Waiting := {| parent _ := None; fired n := bool_decide (n < 400) |}.
#[export] Instance world : World := calm.

(** What runs, what is prepared from it, and its verification. *)
Definition inspection : result (UpdateSnapshot * option error) * (unit * nat) := inspectUpdateProject true project ∅ false tt 0.
Definition snapshot : UpdateSnapshot := match inspection.1 with Ok (s, _) => s | Err _ => zeroSnapshot end.
Definition preparation : result PreparedUpdate * (unit * nat) := PrepareUpdate true None snapshot tt 20.
Definition prepared : PreparedUpdate := match preparation.1 with Ok p => p | Err _ => mkPreparedUpdate zeroSnapshot [] end.
End UpdateExample.
