(* ===== verification/UpdateRunLaws.v ===== *)
(** * What a run of automatic updates guarantees

    It recreates nothing without evidence that was the same twice, under the
    lock, with its intent in the database; and it leaves its run settled, or
    blocks all further updates. *)
From S2P Require Import Prelude GoStrings Alerts Database AutoUpdateStore OperationStore Coordinator Locking Operation Tracked Reading.
From S2P Require Import AutoUpdateLaws DatabaseLaws OperationLaws Filesystem Repository Stacks Updates UpdateVerify OperationAlerts AutoUpdate.

Module UpdateRunLaws.
Import Data Database AutoUpdate Reading.
#[local] Existing Instances Tracked.pair_apart Tracked.pair_apart' Tracked.env_apart Tracked.env_apart'.

(** Looking, preparing and verifying recreate nothing. *)
Class RuntimeLaws `{R : UpdateRuntime} : Prop := {
  snapshot_still q : still (SnapshotUpdate q);
  prepare_still s : still (PrepareUpdate s);
  verify_still p : still (VerifyUpdate p);
  check_still p : still (CheckProject p);
}.
#[export] Hint Resolve snapshot_still prepare_still verify_still check_still : still.

(** ** The stores *)
Section stores.
Context `{W : World} `{C : Cron}.
Lemma FinishRun_ok id outcome reason cs db n u db' n' :
  AutoUpdateStore.FinishRun id outcome reason cs db n = (Ok u, (db', n')) →
  ∀ row, runs db' !! id = Some row → RunPhase row = "terminal"%string.
Proof.
  unfold AutoUpdateStore.FinishRun, transact. destruct (fault n); [done|].
  set (body := _ ≫= _). destruct (body db (S n)) as [[[u0 b]|e] [db1 n1]] eqn:E; [|done]. subst body.
  apply bind_ok in E as (ch & db2 & n2 & H1 & E). apply call_ok in H1 as [H1 ->].
  destruct (runs db !! id) as [r|] eqn:Hr; [destruct (String.eqb_spec (RunPhase r) "terminal") as [Ht|Ht]|]; injection H1 as <- <-; cbn in E.
  - apply ret_ok in E as ([= <- <-] & _ & _). intros [= <- <- <-] row Hrow. congruence.
  - apply bind_ok in E as (cs' & db3 & n3 & H1 & E). apply zoom_ok in H1 as (t1 & _ & ->).
    apply bind_ok in E as (al & db4 & n4 & H2 & E). apply zoom_ok in H2 as (t2 & _ & ->).
    apply bind_ok in E as (? & db5 & n5 & H3 & E). apply exec_ok in H3 as [-> ->].
    apply ret_ok in E as ([= <- <-] & -> & ->). destruct (fault _); [done|]. intros [= <- <- <-] row. cbn.
    rewrite lookup_insert_eq. by intros [= <-].
  - apply ret_ok in E as ([= <- <-] & _ & _). intros [= <- <- <-] row Hrow. congruence.
Qed.
Lemma SavePrepared_ok run o source cs base db n u db' n' :
  AutoUpdateStore.SavePrepared run o source cs base db n = (Ok u, (db', n')) →
  executions db' !! RunID run = Some (mkExecutionRow (OpID o) "prepared" source cs base []) ∧ policies db' = policies db ∧ stacks db' = stacks db.
Proof.
  intros H. unfold AutoUpdateStore.SavePrepared in H. db_inv. repeat case_match; try done. simplify_eq. cbn.
  split_and!; [apply lookup_insert_eq|done..].
Qed.
Lemma MarkApplying_ok id rev db n u db' n' :
  AutoUpdateStore.MarkApplying id rev db n = (Ok u, (db', n')) →
  ∃ row, runs db !! id = Some row ∧ runs db' !! id = Some (AutoUpdateStore.setRunPhase "applying" row) ∧
    AutoUpdateStore.currentPolicy db' (RunStackID row) rev = true ∧ active db' (RunStackID row) = true ∧
    executions db' = alter (λ x, if (x_phase x =? "prepared")%string then AutoUpdateStore.setExecutionPhase "applying" x else x) id (executions db).
Proof.
  intros H. unfold AutoUpdateStore.MarkApplying in H. db_inv.
  match goal with H : _ && _ = true |- _ => apply andb_prop in H as [[[_ _]%andb_prop Hc]%andb_prop Ha] end.
  eexists. split; [done|]. cbn. split; [apply lookup_insert_eq|]. done.
Qed.
Lemma MarkVerifying_db id db n : let db' := (AutoUpdateStore.MarkVerifying id db n).2.1 in
  (executions db' = executions db ∨
   executions db' = alter (λ x, if (x_phase x =? "applying")%string then AutoUpdateStore.setExecutionPhase "verifying" x else x) id (executions db)) ∧
  (is_Some (runs db !! id) → is_Some (runs db' !! id)).
Proof.
  unfold AutoUpdateStore.MarkVerifying.
  match goal with |- context [atomically ?m db n] => destruct (atomically_cases m db n) as [->|(a & db1 & n1 & E & ->)] end; [by split; [left|]|].
  split; [right; db_inv; done|]. db_inv. cbn. rewrite lookup_alter_eq. intros [r ->]. by eexists.
Qed.
(** A completion without a transition of a group. *)
Lemma CompleteOperation_runs o x db n alerts db' n' :
  OnDemand x = None → OperationStore.CompleteOperation o x db n = (Ok alerts, (db', n')) →
  ∃ u db1 n1 k, AutoUpdateStore.completeUpdate o (Update x) db k = (Ok u, (db1, n1)) ∧ runs db' = runs db1 ∧ policies db' = policies db1.
Proof.
  intros Hx H. unfold OperationStore.CompleteOperation in H. apply atomically_ok in H as (k & H).
  unfold OperationStore.completeOperation in H. rewrite Hx in H.
  apply bind_ok in H as (u1 & db1 & n1 & H1 & H). apply bind_ok in H as (u2 & db2 & n2 & H2 & H).
  apply ret_ok in H2 as (_ & -> & ->).
  apply bind_ok in H as (u3 & db3 & n3 & H3 & H). apply bind_ok in H as (cs & db4 & n4 & H4 & H).
  apply zoom_ok in H as (t1 & _ & ->). apply zoom_ok in H4 as (t2 & _ & ->).
  apply update1_ok in H3 as (q & _ & _ & -> & _). cbn. by exists u1, db1, n1, (S n).
Qed.
Lemma UpdateOperation_same o db n u db' n' :
  OperationStore.UpdateOperation o db n = (Ok u, (db', n')) →
  runs db' = runs db ∧ executions db' = executions db ∧ policies db' = policies db ∧ stacks db' = stacks db.
Proof. by intros (q & _ & _ & -> & _)%update1_ok. Qed.
(** A statement about one run leaves the other runs alone. *)
Definition elsewhere (db db' : DB) (id : string) : Prop :=
  ∀ i, i ≠ id → runs db' !! i = runs db !! i ∧ executions db' !! i = executions db !! i.
Definition over (db : DB) (id : string) : Prop :=
  (∀ r, runs db !! id = Some r → RunPhase r = "terminal"%string) ∧ (∀ x, executions db !! id = Some x → x_phase x = "terminal"%string).
(** The run of a mutation that was interrupted. *)
Definition interruptedRun (r : Run) : Prop :=
  RunPhase r = "terminal"%string ∧ RunOutcome r = "failed"%string ∧ Reason r = "interrupted_update"%string.
Definition mutating (x : ExecutionRow) : Prop := x_phase x = "applying"%string ∨ x_phase x = "verifying"%string.
Lemma alter_elsewhere {A} (m : gmap string A) f id i : i ≠ id → alter f id m !! i = m !! i.
Proof. intros. by rewrite lookup_alter_ne. Qed.
Lemma Operation_still id : still (OperationStore.Operation_ id).
Proof.
  unfold OperationStore.Operation_, OperationStore.loadOperationDetails, OperationStore.loadAlertContext.
  quietly ltac:(first [apply still_query|apply still_call; intros ? ? ? ?; repeat case_match; by simplify_eq]).
Qed.
Lemma RecoverExecution_ok e s db n u db' n' :
  AutoUpdateLaws.Inv db → OperationStore.RecoverExecution e s db n = (Ok u, (db', n')) →
  elsewhere db db' (XRunID e) ∧ over db' (XRunID e) ∧
  (∀ x, executions db !! XRunID e = Some x → mutating x → ∃ r, runs db' !! XRunID e = Some r ∧ interruptedRun r).
Proof.
  intros I H. unfold OperationStore.RecoverExecution in H. apply bind_ok in H as (phase & db1 & n1 & H1 & H). apply call_ok in H1 as [H1 ->].
  destruct (executions db !! XRunID e) as [x|] eqn:Hx; [|done]. injection H1 as <- <-.
  pose proof (AutoUpdateLaws.inv_slot _ I (XRunID e)) as Hs. unfold AutoUpdateLaws.slotOk in Hs. rewrite Hx in Hs.
  destruct (runs db !! XRunID e) as [r|] eqn:Hr; [|done]. destruct Hs as (_ & _ & _ & _ & Hph & _).
  destruct (String.eqb_spec (x_phase x) "terminal") as [Ht|Ht].
  { apply ret_ok in H as (_ & -> & _). split; [by split|]. split.
    - split; intros y Hy; simplify_eq; [|done]. destruct Hph; congruence.
    - intros y [= <-] [Hm|Hm]; rewrite Hm in Ht; discriminate Ht. }
  destruct (String.eqb_spec (x_phase x) "prepared") as [Hp|Hp].
  { unfold OperationStore.recoverPrepared in H. db_inv. split; [intros i Hi; cbn; by rewrite !lookup_alter_ne|]. split.
    - split; intros y; cbn; rewrite lookup_alter_eq, ?Hr, ?Hx; cbn; [by intros [= <-]|]. rewrite Hp. cbn. by intros [= <-].
    - intros y [= <-] [Hm|Hm]; rewrite Hm in Hp; discriminate Hp. }
  apply bind_ok in H as (? & ? & ? & H1 & H). apply guard_not_ok in H1 as (_ & -> & ->).
  apply bind_ok in H as (o & db1 & n1 & H1 & H). pose proof (still_run _ _ _ _ _ _ (Operation_still _) H1) as ->.
  apply bind_ok in H as (t & db2 & n2 & H2 & H). apply now_ok in H2 as (-> & -> & ->).
  destruct (OperationStore.interruptedCompletion e s o (clock n1)) as [o' res] eqn:Ec. unfold OperationStore.interruptedCompletion in Ec.
  injection Ec as <- <-. apply bind_ok in H as (al & db3 & n3 & H3 & H). apply ret_ok in H as (_ & <- & _).
  unfold OperationStore.CompleteOperation in H3. apply atomically_ok in H3 as (k & H3). unfold OperationStore.completeOperation in H3.
  cbn [Update OnDemand] in H3.
  apply bind_ok in H3 as (u1 & db4 & n4 & G1 & H3). apply bind_ok in H3 as (u2 & db5 & n5 & G2 & H3).
  apply ret_ok in G2 as (_ & -> & ->).
  apply bind_ok in H3 as (u3 & db6 & n6 & G3 & H3). apply bind_ok in H3 as (cs & db7 & n7 & G4 & H3).
  apply zoom_ok in H3 as (t1 & _ & ->). apply zoom_ok in G4 as (t2 & _ & ->).
  apply update1_ok in G3 as (q & _ & _ & -> & _).
  destruct (AutoUpdateLaws.completeUpdate_ok _ _ _ _ _ _ _ _ G1 Hx Ht) as (_ & _ & _ & _ & _ & _ & ->). cbn.
  split; [intros i Hi; cbn; by rewrite lookup_alter_ne, lookup_insert_ne|]. split.
  - split; intros y; cbn; [rewrite lookup_alter_eq, Hr|rewrite lookup_insert_eq]; by intros [= <-].
  - intros _ _ _. eexists. cbn. rewrite lookup_alter_eq, Hr. by split.
Qed.
Lemma FinishRun_elsewhere id outcome reason cs db n u db' n' :
  AutoUpdateStore.FinishRun id outcome reason cs db n = (Ok u, (db', n')) →
  elsewhere db db' id ∧ (∀ x, executions db !! id = Some x → x_phase x = "terminal"%string → executions db' !! id = Some x) ∧
  (executions db !! id = None → executions db' !! id = None).
Proof.
  unfold AutoUpdateStore.FinishRun, transact. destruct (fault n); [done|].
  set (body := _ ≫= _). destruct (body db (S n)) as [[[u0 b]|e] [db1 n1]] eqn:E; [|done]. subst body.
  apply bind_ok in E as (ch & db2 & n2 & H1 & E). apply call_ok in H1 as [H1 ->].
  destruct (runs db !! id) as [r|] eqn:Hr; [destruct (RunPhase r =? "terminal")%string|]; injection H1 as <- <-; cbn in E;
    [apply ret_ok in E as ([= <- <-] & _ & _); by intros [= <- <- <-]| |apply ret_ok in E as ([= <- <-] & _ & _); by intros [= <- <- <-]].
  apply bind_ok in E as (cs' & db3 & n3 & H1 & E). apply zoom_ok in H1 as (t1 & _ & ->).
  apply bind_ok in E as (al & db4 & n4 & H2 & E). apply zoom_ok in H2 as (t2 & _ & ->).
  apply bind_ok in E as (? & db5 & n5 & H3 & E). apply exec_ok in H3 as [-> ->].
  apply ret_ok in E as ([= <- <-] & -> & ->). destruct (fault _); [done|]. intros [= <- <- <-]. split.
  - intros i Hi. cbn. by rewrite lookup_insert_ne, lookup_alter_ne.
  - cbn. split; [intros y Hx Ht; rewrite lookup_alter_eq, Hx; cbn; by rewrite Ht|]. intros Hx. by rewrite lookup_alter_eq, Hx.
Qed.
End stores.

Section run.
Context `{W : World} `{C : Cron} `{R : UpdateRuntime} `{RL : !RuntimeLaws} `{H : FileHash} {G : Type} `{GR : !Repository.GitRepository G}.
Context (root : string) (git : G) (stateful reader notifier : bool).

(** ** The end of a check *)
Section finish.
Context {E : Type} {LD : Lens E DB} {LR : Lens E Rest} `{A1 : !Tracked.Apart E LD LR} `{A2 : !Tracked.Apart E LR LD}.
(** Only the alerts that were published may differ. *)
Definition alike (r r' : Rest) : Prop :=
  coordinator r' = coordinator r ∧ service r' = service r ∧ updatesBlocked r' = updatesBlocked r ∧ ups r' = ups r.
Lemma publish_account cs : ∀ (e : E) n, ∃ e' n', publishChanges cs e n = (Ok tt, (e', n')) ∧
  (view e' : DB) = view e ∧ alike (view e) (view e').
Proof.
  induction cs as [|c cs IH]; intros e n; [by exists e, n|]. cbn [publishChanges]. unfold mbind, M_bind, attempt.
  assert (still (zoom (zoom (AlertStore.Find (Alert.CKey c)) : M DB Alert.Alert) : M E Alert.Alert)) as Hf by (quietly idtac).
  specialize (Hf e n). destruct (zoom _ e n) as [r [e1 n1]]. cbn [fst snd] in Hf. subst e1. cbn beta iota.
  destruct r as [a|x]; [|apply IH].
  unfold notice, zoom. cbn beta iota. destruct (IH (put (mkRest (coordinator (view e)) (service (view e)) (updatesBlocked (view e)) (ups (view e)) (noticed (view e) ++ [a])) e) n1)
    as (e' & n' & -> & Hd & Hr). exists e', n'. split; [done|]. rewrite Hd, Tracked.apart. split; [done|].
  unfold alike in *. rewrite view_put in Hr. done.
Qed.
Lemma finish_account run outcome reason cs (e : E) n r e' n' :
  finishUpdateCheck reader notifier run outcome reason cs e n = (r, (e', n')) →
  coordinator (view e') = coordinator (view e) ∧ service (view e') = service (view e) ∧ ups (view e') = ups (view e) ∧
  match r with
  | Ok _ => updatesBlocked (view e') = updatesBlocked (view e) ∧
      ∀ row, runs (view e' : DB) !! RunID run = Some row → RunPhase row = "terminal"%string
  | Err _ => updatesBlocked (view e') = true
  end.
Proof.
  unfold finishUpdateCheck, mbind, M_bind, attempt, zoom at 1.
  destruct (AutoUpdateStore.FinishRun (RunID run) outcome reason cs (view e) n) as [[u|x] [db k]] eqn:Ef.
  - assert (∀ row, runs db !! RunID run = Some row → RunPhase row = "terminal"%string) as Ht by by eapply FinishRun_ok.
    destruct (notifier && reader).
    + destruct (publish_account cs (put db e) k) as (e1 & n1 & -> & Hd & Hc & Hs & Hb & Hu).
      intros [= <- <- <-]. rewrite Hd, Hc, Hs, Hb, Hu, Tracked.apart, view_put. done.
    + intros [= <- <- <-]. by rewrite Tracked.apart, view_put.
  - unfold setBlocked, zoom. cbn. intros [= <- <- <-]. rewrite view_put. cbn. by rewrite Tracked.apart.
Qed.
End finish.

(** ** Evidence *)

(** What the repository says: its head, and the digest of what is not committed. *)
Definition held_by_git (target : Stack) (k : nat) (head diff : string) : Prop :=
  Repository.gHead git k = Ok head ∧ ∃ status, Repository.gStatus git (S k) = Ok status ∧
  if Repository.Dirty status
  then ∃ d, Repository.gDiff git (DirectoryName target) (S (S k)) = Ok d ∧ diff = "sha256:" +:+ fileDigest d
  else diff = "".
(** What evidence about a run says about the database, the stack and the repository. *)
Record Evident (db : DB) (run : Run) (ev : updateEvidence) : Prop := {
  ev_policy : AutoUpdateStore.currentPolicy db (RunStackID run) (PolicyRevision run) = true;
  ev_stack : stacks db !! RunStackID run = Some (EStack ev);
  ev_active : ArchivedAt (EStack ev) = None;
  ev_guard : ∃ t k, is_ok (CheckProject (ComposeProjectName (EStack ev)) t k).1 = true;
  ev_baseline : head (merge_sort OperationStore.newest_first (OperationStore.deploymentsOf db (RunStackID run))) = Some (EBaseline ev);
  ev_deployed : DepStatus (EBaseline ev) = DeploymentSucceeded;
  ev_environment : EEnvironment ev = OperationStore.environmentOf db (RunStackID run);
  ev_seen : ∃ t k, (SnapshotUpdate (requestFor root (EStack ev) (EEnvironment ev)) t k).1 = Ok (ESnapshot ev, None);
  ev_source : Updates.SSourceDigest (ESnapshot ev) = ComposeDigest (EBaseline ev);
  ev_head : EHead ev = GitCommit (EBaseline ev);
  ev_diff : EDiff ev = DiffDigest (EBaseline ev);
  ev_git : ∃ k, held_by_git (EStack ev) k (EHead ev) (EDiff ev);
}.
Lemma policy_current db id run p n k :
  AutoUpdateStore.GetPolicy id db n = (Ok p, (db, k)) → suspended p run = false →
  AutoUpdateStore.currentPolicy db id (PolicyRevision run) = true.
Proof.
  unfold AutoUpdateStore.GetPolicy, AutoUpdateStore.currentPolicy. intros H0 Hs.
  apply bind_ok in H0 as (row & db1 & n1 & H1 & H0). apply query_ok in H1 as (-> & -> & ->).
  destruct (policies db !! id) as [row|]; cbn in H0.
  - apply ret_ok in H0 as (<- & _ & _). unfold suspended in Hs. cbn in Hs.
    apply orb_false_iff in Hs as [[H1 H2]%orb_false_iff H3]. apply negb_false_iff in H1, H2, H3. by rewrite H1, H2, H3.
  - apply bind_ok in H0 as (? & ? & ? & _ & H0). by apply ret_ok in H0 as (<- & _ & _).
Qed.
Section collect.
Context {E : Type} {LD : Lens E DB} {LR : Lens E Rest}.
Lemma ask_still {A} (f : nat → result A) : still (ask f : M E A).
Proof. by intros e n. Qed.
Hint Resolve ask_still : still.
Lemma snapshotOf_still target values : still (snapshotOf root target values : M E _).
Proof using RL. unfold snapshotOf, part. quietly idtac. Qed.
Lemma sources_still target : still (sources git target : M E _).
Proof. unfold sources. quietly idtac. Qed.
Hint Resolve snapshotOf_still sources_still : still.
Lemma sources_ok target (e : E) n h d e' n' : sources git target e n = (Ok (h, d), (e', n')) → held_by_git target n h d.
Proof.
  unfold sources, held_by_git, mbind, M_bind, ask. intros H0. destruct (Repository.gHead git n); [|done].
  destruct (Repository.gStatus git (S n)) as [status|]; [|done]. destruct (Repository.Dirty status) eqn:Hd.
  - destruct (Repository.gDiff git _ _) as [df|] eqn:Hf; [|done]. injection H0 as -> <- _ _. split; [done|]. exists status. split; [done|].
    rewrite Hd. by exists df.
  - injection H0 as -> <- _ _. split; [done|]. exists status. split; [done|]. by rewrite Hd.
Qed.
Lemma collect_still run : still (collect root git stateful run : M E _).
Proof using RL. unfold collect, part. quietly idtac. Qed.
Lemma collect_ok run (e : E) n ev e' n' : collect root git stateful run e n = (Ok ev, (e', n')) → Evident (view e) run ev.
Proof using RL.
  intros H0. unfold collect in H0.
  apply bind_ok in H0 as (policy & e1 & n1 & H1 & H0). apply zoomed_still in H1 as [H1 ->]; [|eauto with still].
  apply bind_ok in H0 as ([] & e1 & n2 & H2 & H0). apply guard_not_ok in H2 as (Hpol & -> & ->).
  apply bind_ok in H0 as (target & e1 & n3 & H3 & H0). apply zoomed_still in H3 as [H3 ->]; [|eauto with still].
  apply bind_ok in H0 as ([] & e1 & n4 & H4 & H0). apply guard_not_ok in H4 as (Harch & -> & ->).
  apply bind_ok in H0 as ([] & e1 & n5 & H5 & H0). unfold part in H5.
  apply zoomed_still in H5 as [H5 ->]; [|quietly idtac]. apply zoomed_still in H5 as [H5 _]; [|eauto with still].
  apply bind_ok in H0 as ([] & e1 & n6 & H6 & H0). apply guard_not_ok in H6 as (_ & -> & ->).
  apply bind_ok in H0 as (baseline & e1 & n7 & H7 & H0). apply zoomed_still in H7 as [H7 ->]; [|eauto with still].
  apply bind_ok in H0 as ([] & e1 & n8 & H8 & H0). apply guard_not_ok in H8 as (Hdep & -> & ->).
  apply bind_ok in H0 as (values & e1 & n9 & H9 & H0). apply zoomed_still in H9 as [H9 ->]; [|eauto with still].
  apply bind_ok in H0 as (snapshot & e1 & n10 & H10 & H0).
  pose proof (still_run _ _ _ _ _ _ (snapshotOf_still target values) H10) as ->.
  apply bind_ok in H0 as ([] & e1 & n11 & H11 & H0). apply guard_not_ok in H11 as (Hsrc & -> & ->).
  apply bind_ok in H0 as ([hd df] & e1 & n12 & H12 & H0). pose proof (still_run _ _ _ _ _ _ (sources_still target) H12) as ->.
  apply bind_ok in H0 as ([] & e1 & n13 & H13 & H0). apply guard_not_ok in H13 as (Hgit & -> & ->).
  apply ret_ok in H0 as (<- & -> & ->).
  apply negb_false_iff, String.eqb_eq in Hdep, Hsrc. apply orb_false_iff in Hgit as [Hh%negb_false_iff%String.eqb_eq Hd%negb_false_iff%String.eqb_eq].
  apply bool_decide_eq_false in Harch. split; cbn.
  - by eapply policy_current.
  - unfold OperationStore.ByID in H3. apply call_ok in H3 as [H3 _]. case_match; by simplify_eq.
  - destruct (ArchivedAt target); [by destruct Harch|done].
  - eexists _, _. by rewrite H5.
  - unfold OperationStore.LatestDeployment in H7. apply call_ok in H7 as [H7 _]. case_match; by simplify_eq.
  - done.
  - unfold OperationStore.Environment in H9. apply bind_ok in H9 as (? & ? & ? & Hq & H9).
    apply call_ok in Hq as [Hq _]. case_match; [|done]. injection Hq as _ <-.
    by apply query_ok in H9 as (-> & _ & _).
  - unfold snapshotOf in H10. apply bind_ok in H10 as ([s err] & e1 & k & H10 & H14). unfold part in H10.
    apply zoomed_still in H10 as [H10 ->]; [|quietly idtac]. apply zoomed_still in H10 as [H10 _]; [|eauto with still].
    apply lift_ok in H14 as (H14 & _ & _). unfold value in H14. cbn in H14. destruct err; [done|]. injection H14 as ->.
    eexists _, _. by rewrite H10.
  - done.
  - done.
  - done.
  - eexists. by eapply sources_ok.
Qed.
End collect.

(** ** The work of the operation *)
Definition settled (db : DB) (run : Run) : Prop := ∀ row, runs db !! RunID run = Some row → RunPhase row = "terminal"%string.
(** The execution of a run is still the one of the operation. *)
Definition executing (db : DB) (run : Run) (id : string) (changes : list ImageChange) : Prop :=
  is_Some (runs db !! RunID run) ∧ ∃ x, executions db !! RunID run = Some x ∧ x_operation x = id ∧ x_changes x = changes ∧ x_phase x ≠ "terminal"%string.
Lemma executing_moved db db' run id changes from to :
  executing db run id changes → to ≠ "terminal"%string → is_Some (runs db' !! RunID run) →
  executions db' = executions db ∨
  executions db' = alter (λ x, if (x_phase x =? from)%string then AutoUpdateStore.setExecutionPhase to x else x) (RunID run) (executions db) →
  executing db' run id changes.
Proof.
  intros (_ & x & Hx & Hop & Hch & Hph) Hto Hr [E|E]; unfold executing; rewrite E; (split; [done|]); [by exists x|].
  rewrite lookup_alter_eq, Hx. cbn. eexists. split; [done|]. by destruct (x_phase x =? from)%string.
Qed.
(** What the verification said. *)
Definition verified (prepared : Updates.PreparedUpdate) : Prop :=
  ∃ v t k, (VerifyUpdate prepared t k).1 = Ok (v, None) ∧ UpdateVerify.RecoveryRequired v = false.
Lemma apply_account run prepared id changes (s : DB * Rest) n :
  executing s.1 run id changes →
  ∃ err s' n' out k, apply run prepared s n = (Ok err, (s', n')) ∧
    ApplyUpdate prepared (ups s.2) n = (out, (ups s'.2, k)) ∧ (err = None → is_ok out = true) ∧
    coordinator s'.2 = coordinator s.2 ∧ service s'.2 = service s.2 ∧ executing s'.1 run id changes.
Proof.
  intros Hx. unfold apply, part, mbind, M_bind, attempt, zoom. cbn.
  destruct (ApplyUpdate prepared (ups s.2) n) as [[[]|x] [t k]] eqn:Ea; cbn.
  2:{ do 5 eexists. split_and!; try done. }
  pose proof (MarkVerifying_db (RunID run) s.1 k) as Hm. cbv zeta in Hm.
  destruct (AutoUpdateStore.MarkVerifying (RunID run) s.1 k) as [[u|x] [db1 k1]]; cbn in *;
    do 5 eexists; (split_and!; [done..|]); (apply (executing_moved s.1 _ _ _ _ "applying" "verifying"); [done|done|apply Hm, Hx|apply Hm]).
Qed.
Lemma observed_still {E} id name key revision err ok :
  still (OperationAlerts.observedChange id name key revision err ok : M E _).
Proof. unfold OperationAlerts.observedChange. quietly idtac. Qed.
Lemma observed_ok {E} id name key revision err ok (e : E) n :
  ∃ cs n', OperationAlerts.observedChange id name key revision err ok e n = (Ok cs, (e, n')).
Proof. unfold OperationAlerts.observedChange. destruct err; [|destruct (negb ok || _)]; by do 2 eexists. Qed.
Lemma mutate_account run id ev prepared revision recovery changes (s : DB * Rest) n :
  executing s.1 run id changes →
  ∃ res c s' n' out k, mutate run id ev prepared revision recovery s n = (Ok res, (s', n')) ∧
    ApplyUpdate prepared (ups s.2) (S n) = (out, (ups s'.2, k)) ∧
    coordinator s'.2 = coordinator s.2 ∧ service s'.2 = service s.2 ∧ executing s'.1 run id changes ∧
    OnDemand res = None ∧ Update res = Some c ∧ UCRunID c = RunID run ∧ DepStackID (UCDeployment c) = RunStackID run ∧
    ((RErr res = None ∧ UCPauseReason c = "" ∧ DepStatus (UCDeployment c) = DeploymentSucceeded ∧ is_ok out = true ∧ verified prepared) ∨
     (RErr res = Some Compose_ErrUpdateVerification ∧ UCPauseReason c = "recovery_required"%string)).
Proof using RL.
  intros Hx. destruct (apply_account run prepared id changes s (S n) Hx) as (err & s1 & n1 & out & k & Ea & Hout & Herr & Hc & Hs & Hx1).
  unfold mutate. unfold mbind at 1, M_bind at 1, now at 1. unfold mbind at 1, M_bind at 1. rewrite Ea.
  unfold mbind at 1, M_bind at 1, attempt, part, zoom. cbn [view put Tracked.pair_rest rest_ups fst snd].
  pose proof (verify_still prepared (ups s1.2) n1) as Hv. destruct (VerifyUpdate prepared (ups s1.2) n1) as [v [t1 n2]] eqn:Ev.
  cbn [fst snd] in Hv. subst t1.
  replace (s1.1, mkRest (coordinator s1.2) (service s1.2) (updatesBlocked s1.2) (ups s1.2) (noticed s1.2)) with s1 by (by destruct s1 as [? []]).
  destruct (match v with Ok x => x | Err x => (UpdateVerify.mkUpdateResult [] true, Some x) end) as [vres verr] eqn:Evr.
  set (merr := match join err verr with None => _ | Some x => _ end).
  unfold mbind at 1, M_bind at 1, now at 1. unfold mbind at 1, M_bind at 1.
  destruct (observed_ok id (RunStackName run) (deploymentKey run) revision merr (negb (bool_decide (is_Some merr))) s1 (S n2)) as (cs & n3 & ->).
  do 6 eexists. split; [reflexivity|]. split; [done|]. split; [done|]. split; [done|]. split; [done|].
  cbn. split; [done|]. split; [done|]. cbn. split; [done|]. split; [done|].
  destruct merr as [x|] eqn:Em; cbn; [by right|left]. split_and!; try done.
  - apply Herr. unfold join in Em. by destruct err, verr.
  - destruct v as [[v0 e0]|x]; injection Evr as <- <-; [|by destruct err].
    subst merr. destruct err, e0; cbn in Em; try done. destruct (UpdateVerify.RecoveryRequired v0) eqn:Er; [done|].
    exists v0, (ups s1.2), n1. by rewrite Ev.
Qed.

(** Recreation was begun: from a database that has the intent and still wants
    the update, with one call of the runtime. *)
Definition begun (run : Run) (id : string) (prepared : Updates.PreparedUpdate) (r r' : Rest) (out : result unit) : Prop :=
  ∃ db row k0 k, runs db !! RunID run = Some row ∧ RunPhase row = "applying"%string ∧
    AutoUpdateStore.currentPolicy db (RunStackID row) (PolicyRevision run) = true ∧ active db (RunStackID row) = true ∧
    executing db run id (Updates.Changes prepared) ∧
    ApplyUpdate prepared (ups r) k0 = (out, (ups r', k)).
Definition reported (run : Run) (prepared : Updates.PreparedUpdate) (out : result unit) (res : Result) : Prop :=
  ∃ c, Update res = Some c ∧ UCRunID c = RunID run ∧ DepStackID (UCDeployment c) = RunStackID run ∧
    ((RErr res = None ∧ UCPauseReason c = "" ∧ DepStatus (UCDeployment c) = DeploymentSucceeded ∧ is_ok out = true ∧ verified prepared) ∨
     (RErr res = Some Compose_ErrUpdateVerification ∧ UCPauseReason c = "recovery_required"%string)).
Lemma discarded_account (A : Type) (x : error) run reason (k : result unit → A) (s : DB * Rest) n :
  ∃ s' n' f, (_ ← blockUnlessConflict x; f ← attempt (finishUpdateCheck reader notifier run "skipped" reason []); mret (k f)) s n
      = (Ok (k f), (s', n')) ∧
    coordinator s'.2 = coordinator s.2 ∧ service s'.2 = service s.2 ∧ ups s'.2 = ups s.2 ∧
    (updatesBlocked s'.2 = true ∨ settled s'.1 run).
Proof.
  unfold blockUnlessConflict, mbind, M_bind, attempt.
  set (m := (if Is x AutoUpdate_ErrConflict then mret tt else setBlocked true : M (DB * Rest) unit)).
  assert (∃ s1, m s n = (Ok tt, (s1, n)) ∧ coordinator s1.2 = coordinator s.2 ∧ service s1.2 = service s.2 ∧ ups s1.2 = ups s.2) as (s1 & -> & H1 & H2 & H3).
  { subst m. destruct (Is x _); [by exists s|]. by eexists. }
  destruct (finishUpdateCheck reader notifier run "skipped" reason [] s1 n) as [f [s2 n2]] eqn:Ef.
  apply finish_account in Ef as (F1 & F2 & F3 & F4). cbn in F1, F2, F3. exists s2, n2, f. split; [done|]. split_and!; try congruence.
  destruct f; [right; exact (proj2 F4)|by left].
Qed.
Lemma update_account run id ev prepared revision recovery (s : DB * Rest) n :
  ∃ res s' n', update reader notifier run id ev prepared revision recovery s n = (Ok res, (s', n')) ∧
    coordinator s'.2 = coordinator s.2 ∧ service s'.2 = service s.2 ∧ OnDemand res = None ∧
    ((ups s'.2 = ups s.2 ∧ Update res = None ∧ (updatesBlocked s'.2 = true ∨ settled s'.1 run)) ∨
     (∃ out, begun run id prepared s.2 s'.2 out ∧ executing s'.1 run id (Updates.Changes prepared) ∧ reported run prepared out res)).
Proof using All.
  unfold update. unfold mbind at 1, M_bind at 1, attempt at 1, zoom at 1. cbn [view put Tracked.pair_store].
  destruct (AutoUpdateStore.SavePrepared run (intentOf run id) (Updates.SSourceDigest (Updates.Snapshot prepared)) (Updates.Changes prepared)
    (EBaseline ev) s.1 n) as [[u|x] [db1 n1]] eqn:Es; cbv beta iota.
  2:{ match goal with |- context [(_ ← blockUnlessConflict x; f ← attempt (finishUpdateCheck _ _ _ _ ?reason _); mret (@?k f)) ?s1 ?n1] =>
        destruct (discarded_account Result x run reason k s1 n1) as (s' & n' & f & -> & H1 & H2 & H3 & H4) end.
      do 3 eexists. split; [done|]. split; [done|]. split; [done|]. split; [done|]. by left. }
  apply SavePrepared_ok in Es as (Hx & _ & _). unfold mbind at 1, M_bind at 1, attempt at 1, zoom at 1. cbn [view put Tracked.pair_store fst snd].
  destruct (AutoUpdateStore.MarkApplying (RunID run) (PolicyRevision run) db1 n1) as [[u1|x] [db2 n2]] eqn:Em; cbv beta iota.
  2:{ match goal with |- context [(_ ← blockUnlessConflict x; f ← attempt (finishUpdateCheck _ _ _ _ ?reason _); mret (@?k f)) ?s1 ?n1] =>
        destruct (discarded_account Result x run reason k s1 n1) as (s' & n' & f & -> & H1 & H2 & H3 & H4) end.
      do 3 eexists. split; [done|]. split; [done|]. split; [done|]. split; [done|]. by left. }
  apply MarkApplying_ok in Em as (row & Hrow1 & Hrow & Hcur & Hact & Hex).
  assert (executing db2 run id (Updates.Changes prepared)) as Hexe.
  { apply (executing_moved db1 _ _ _ _ "prepared" "applying"); [|done|by rewrite Hrow|by right]. split; [by rewrite Hrow1|]. eexists. split; [exact Hx|]. done. }
  destruct (mutate_account run id ev prepared revision recovery (Updates.Changes prepared) (db2, s.2) n2 Hexe)
    as (res & c & s' & n' & out & k & -> & Ha & H1 & H2 & H3 & H4 & H5 & H6 & H7 & H8).
  exists res, s', n'. split; [done|]. split; [done|]. split; [done|]. split; [done|]. right. exists out. split; [|split; [done|by exists c]].
  exists db2, (AutoUpdateStore.setRunPhase "applying" row), (S n2), k. split_and!; done.
Qed.

(** ** A check from its admission to its end *)
Section check.
Context (Error : error → string) (publisher : option bool) (maxOutput : Z) (gaveUp : nat → option error).
Context (stored capable : bool).

(** The run is over, and its outcome says what happened: the images meant run
    and were verified, or the policy is paused. *)
Definition concluded (db : DB) (run : Run) (prepared : Updates.PreparedUpdate) (out : result unit) : Prop :=
  ∃ row, runs db !! RunID run = Some row ∧ RunPhase row = "terminal"%string ∧
    ((RunOutcome row = "updated"%string ∧ is_ok out = true ∧ verified prepared) ∨
     (RunOutcome row = "failed"%string ∧ ∀ q, policies db !! RunStackID run = Some q → p_paused q = "recovery_required"%string)).
Lemma completed_account run id prepared out o res db n alerts db' n' :
  executing db run id (Updates.Changes prepared) → reported run prepared out res → OpID o = id → OnDemand res = None →
  (RErr res = None → Status o = OperationSucceeded) →
  OperationStore.CompleteOperation o res db n = (Ok alerts, (db', n')) → concluded db' run prepared out.
Proof.
  intros ([row Hrow] & x & Hx & Hop & Hch & Hph) (c & Hc & Hid & Hstk & Hend) Ho Hod Hst Hcomp.
  apply CompleteOperation_runs in Hcomp as (u & db1 & n1 & k & Hu & Hr & Hp); [|done]. unfold concluded. rewrite Hr, Hp. clear Hr Hp.
  rewrite Hc in Hu. rewrite <-Hid in Hx. destruct (AutoUpdateLaws.completeUpdate_ok _ _ _ _ _ _ _ _ Hu Hx Hph) as (_ & _ & _ & _ & _ & _ & ->).
  cbv zeta. rewrite Hid. cbn [runs set_runs]. rewrite lookup_alter_eq, Hrow. eexists. split; [done|]. split; [done|].
  cbn [RunOutcome AutoUpdateStore.finishRun]. destruct Hend as [(He & Hpause & Hdep & Hout & Hver)|(He & Hpause)].
  - left. rewrite Hpause, Hdep, (Hst He). by split_and!.
  - right. rewrite Hpause. rewrite andb_false_r. split; [done|]. cbn. rewrite Hstk. intros q.
    rewrite lookup_alter_eq, fmap_Some. by intros (q0 & _ & ->).
Qed.
Definition ended (run : Run) (id : string) (prepared : Updates.PreparedUpdate) (r : Rest) (e' : Env) (res : result unit) : Prop :=
  (ups (Operations.rest e') = ups r ∧
   match res with
   | Err _ => updatesBlocked (Operations.rest e') = true
   | Ok _ => settled (Operations.store e') run ∨ updatesBlocked (Operations.rest e') = true
   end) ∨
  (∃ out, begun run id prepared r (Operations.rest e') out ∧
     match res with
     | Err _ => updatesBlocked (Operations.rest e') = true
     | Ok _ => concluded (Operations.store e') run prepared out
     end).
Lemma await_account run id ev prepared revision recovery timeout gr (e : Env) n r e' n' s0
    (request := updateRequest run id ev timeout) :
  id ∉ Operations.completed s0 → service (Operations.rest e) = Operations.addJob id s0 →
  await Error publisher maxOutput gaveUp request
    (Tracked.asWork (update reader notifier run id ev prepared revision recovery)) (Operations.newOperation id request) gr e n = (r, (e', n')) →
  coordinator (Operations.rest e') = Coordinator.release (coordinator (Operations.rest e)) gr ∧
  ended run id prepared (Operations.rest e) e' r.
Proof using All.
  intros Hnew Hs Ha. set (o := Operations.newOperation id request) in *.
  set (work := Tracked.asWork _) in Ha.
  assert (∀ db k, ∃ res s' n', work db (Operations.rest e) k = (res, (s'.1, s'.2, n')) ∧
    coordinator s'.2 = coordinator (Operations.rest e) ∧ service s'.2 = service (Operations.rest e) ∧ OnDemand res = None ∧
    ((ups s'.2 = ups (Operations.rest e) ∧ Update res = None ∧ (updatesBlocked s'.2 = true ∨ settled s'.1 run)) ∨
     (∃ out, begun run id prepared (Operations.rest e) s'.2 out ∧ executing s'.1 run id (Updates.Changes prepared) ∧ reported run prepared out res)))
    as Hwork.
  { intros db k. destruct (update_account run id ev prepared revision recovery (db, Operations.rest e) k) as (res & s' & k' & E & Hrest).
    exists res, s', k'. subst work. unfold Tracked.asWork. rewrite E. by split. }
  destruct (Tracked.carried_out Error publisher maxOutput request work o gr e n s0) as (answer & e1 & n1 & s1 & E & Hacc); [done|done| |].
  { intros db k. destruct (Hwork db k) as (res & s' & k' & -> & _ & Hsv & _). exact Hsv. }
  unfold await in Ha. unfold mbind at 1, M_bind at 1 in Ha. rewrite E in Ha. unfold mbind at 1, M_bind at 1 in Ha.
  assert (Operations.store e' = Operations.store e1 ∧ coordinator (Operations.rest e') = coordinator (Operations.rest e1) ∧
    ups (Operations.rest e') = ups (Operations.rest e1) ∧
    (updatesBlocked (Operations.rest e1) = true → updatesBlocked (Operations.rest e') = true) ∧
    match r with Ok _ => is_ok answer = true | Err _ => updatesBlocked (Operations.rest e') = true end) as (A1 & A2 & A3 & A4 & A5).
  { destruct (gaveUp n1) as [x|]; [injection Ha as <- <- _; done|]. destruct answer as [oc|x]; injection Ha as <- <- _; done. }
  clear Ha E. unfold ended. rewrite A1, A2, A3.
  destruct (OperationStore.UpdateOperation (Operations.setRunning o (clock n)) (Operations.store e) (S n)) as [[u|x] [db1 m1]].
  2:{ destruct Hacc as (-> & Hst & ->). cbn. split; [done|]. left. split; [done|]. by destruct r. }
  destruct (Hwork db1 m1) as (res & s' & k' & Ew & Hc & Hsv & Hod & Hcase). rewrite Ew in Hacc.
  destruct (Operations.conclude _ _ _ _ _ _ _) as [o2 x2] eqn:Ec.
  destruct (OperationLaws.conclude_spec _ _ _ _ _ _ _ _ _ Ec) as (Hid2 & _ & Hstat).
  assert (OnDemand x2 = OnDemand res ∧ Update x2 = Update res ∧ RErr x2 = RErr res) as (Q1 & Q2 & Q3).
  { unfold Operations.conclude in Ec. destruct (Operations.classify _ _) as [[? ?] ?]. by injection Ec as _ <-. }
  destruct Hacc as (_ & Hr & Hacc). rewrite Hr. cbn. rewrite Hc. split; [done|]. rewrite Hr in A3, A4. cbn in A3, A4.
  destruct (OperationStore.CompleteOperation o2 x2 s'.1 (S k')) as [[alerts|y] [db3 m3]] eqn:Eco.
  - destruct Hacc as (-> & Est). rewrite Est. destruct Hcase as [(U1 & U2 & U3)|(out & Hb & Hx & Hrep)].
    + left. split; [done|]. destruct r as [[]|]; [|done]. rewrite <-Est. destruct U3 as [Hb|Hset]; [right; by apply A4|left]. rewrite Est.
      apply CompleteOperation_runs in Eco as (u1 & db4 & n4 & k & Hu & Hruns & _); [|congruence]. rewrite Q2, U2 in Hu. cbn in Hu.
      apply ret_ok in Hu as (_ & -> & _). unfold settled. by rewrite Hruns.
    + right. exists out. split.
      { destruct Hb as (db0 & row & k0 & k & B1 & B2 & B3 & B4 & B5 & B6). exists db0, row, k0, k. rewrite A3. done. }
      destruct r as [[]|]; [|done]. eapply (completed_account run id prepared out o2 x2); [exact Hx| |by rewrite Hid2|congruence| |exact Eco].
      * destruct Hrep as (c & R1 & R2 & R3 & R4). exists c. rewrite Q2, Q3. done.
      * rewrite Q3. intros He. by rewrite Hstat, He.
  - destruct Hacc as (-> & Est). assert (updatesBlocked (Operations.rest e') = true) as Hb by by destruct r.
    rewrite Est. destruct Hcase as [(U1 & U2 & _)|(out & Hbg & _ & _)].
    + left. split; [done|]. by destruct r; [right|].
    + right. exists out. split; [|by destruct r].
      destruct Hbg as (db0 & row & k0 & k & B1 & B2 & B3 & B4 & B5 & B6). exists db0, row, k0, k. rewrite A3. done.
Qed.

(** What a check that applied its update had seen before. *)
Definition justified (run : Run) (e : Env) (evidence fresh : updateEvidence) (prepared : Updates.PreparedUpdate) : Prop :=
  Evident (Operations.store e) run evidence ∧ Evident (Operations.store e) run fresh ∧ sameUpdateEvidence evidence fresh = true ∧
  (∃ t k, (PrepareUpdate (ESnapshot evidence) t k).1 = Ok prepared) ∧ Updates.Changes prepared ≠ [].
Definition applied (run : Run) (e e' : Env) (res : result unit) : Prop :=
  ∃ evidence fresh prepared id r1 out, justified run e evidence fresh prepared ∧
    ups r1 = ups (Operations.rest e) ∧ RunStackID run ∈ Coordinator.stacks (coordinator r1) ∧
    begun run id prepared r1 (Operations.rest e') out ∧
    match res with
    | Err _ => updatesBlocked (Operations.rest e') = true
    | Ok _ => concluded (Operations.store e') run prepared out
    end.
Definition skipped (run : Run) (e e' : Env) (res : result unit) : Prop :=
  ups (Operations.rest e') = ups (Operations.rest e) ∧
  match res with Ok _ => settled (Operations.store e') run ∨ updatesBlocked (Operations.rest e') = true
               | Err _ => updatesBlocked (Operations.rest e') = true ∨ Operations.store e' = Operations.store e end.
Definition account (run : Run) (e e' : Env) (res : result unit) : Prop :=
  coordinator (Operations.rest e') = coordinator (Operations.rest e) ∧ (skipped run e e' res ∨ applied run e e' res).
Lemma finish_skips run outcome reason cs (e : Env) n r e' n' :
  finishUpdateCheck reader notifier run outcome reason cs e n = (r, (e', n')) →
  coordinator (Operations.rest e') = coordinator (Operations.rest e) ∧ skipped run e e' r.
Proof.
  intros (F1 & F2 & F3 & F4)%finish_account. split; [exact F1|]. split; [exact F3|].
  destruct r; [left; exact (proj2 F4)|by left].
Qed.
Lemma applyPrepared_account run id deadline evidence prepared revisions (e : Env) n r e' n' :
  RunStackID run ≠ ""%string → id ≠ ""%string →
  Forall (λ id, is_Some (operations (Operations.store e) !! id)) (Operations.completed (service (Operations.rest e))) →
  Evident (Operations.store e) run evidence → (∃ t k, (PrepareUpdate (ESnapshot evidence) t k).1 = Ok prepared) →
  applyPrepared root git stateful reader notifier Error publisher maxOutput gaveUp run id deadline evidence prepared revisions e n = (r, (e', n')) →
  account run e e' r.
Proof using All.
  intros Hstk Hid Hjobs Hev Hprep Ha. unfold applyPrepared in Ha. unfold mbind at 1, M_bind at 1, attempt at 1 in Ha.
  destruct (Tracked.admitted_cases false (RunStackID run) e n) as [(x & Et)|(c & gr & Et & Hrel & Hin)]; rewrite Et in Ha; clear Et.
  { apply finish_skips in Ha as [H1 H2]. split; [done|by left]. }
  specialize (Hrel (or_intror Hstk)). specialize (Hin Hstk).
  unfold mbind at 1, M_bind at 1, attempt at 1 in Ha.
  destruct (collect root git stateful run (put c e) n) as [fr [e1 n1]] eqn:Ec.
  pose proof (still_run _ _ _ _ _ _ (collect_still run) Ec) as ->. cbv beta iota zeta in Ha.
  destruct (match fr with Ok f => sameUpdateEvidence evidence f | Err _ => false end) eqn:Esame; cbn [negb] in Ha.
  2:{ unfold mbind at 1, M_bind at 1 in Ha. rewrite (Tracked.releases_undo _ _ _ _ Hrel) in Ha.
      apply finish_skips in Ha as [H1 H2]. split; [done|by left]. }
  destruct fr as [fresh|]; [|done]. apply collect_ok in Ec. change (view (A := DB) (put c e)) with (Operations.store e) in Ec.
  unfold mbind at 1, M_bind at 1 in Ha.
  match type of Ha with context [OperationAlerts.observedChange ?a ?b ?c0 ?d ?x ?y ?s ?k] =>
    destruct (observed_ok a b c0 d x y s k) as (recovery & n2 & Eo) end. rewrite Eo in Ha. clear Eo.
  case_bool_decide as Hch.
  { unfold mbind at 1, M_bind at 1, attempt at 1 in Ha.
    destruct (finishUpdateCheck reader notifier run "unchanged" "" recovery (put c e) n2) as [f [e1 n3]] eqn:Ef.
    apply finish_skips in Ef as [F1 [F2 F3]]. cbn in F1, F2. unfold mbind at 1, M_bind at 1 in Ha. cbn in Ha.
    injection Ha as <- <- <-. split; [cbn; rewrite F1; exact Hrel|]. left. split; [exact F2|exact F3]. }
  unfold mbind at 1, M_bind at 1, now at 1 in Ha. cbv zeta in Ha.
  set (request := updateRequest run id evidence (Sub deadline (clock n2))) in Ha.
  destruct (Operations.Timeout request <=? 0)%Z.
  { unfold mbind at 1, M_bind at 1 in Ha. rewrite (Tracked.releases_undo _ _ _ _ Hrel) in Ha.
    apply finish_skips in Ha as [H1 H2]. split; [done|by left]. }
  unfold mbind at 1, M_bind at 1, attempt at 1, Tracked.startTracked at 1 in Ha.
  destruct (Operations.StartTracked publisher request (view (Operations.rest (put c e))) (put c e) (S n2)) as [[[sv o]|x] [e3 n3]] eqn:Es.
  2:{ apply Tracked.StartTracked_refused in Es as [S1 S2]. unfold mbind at 1, M_bind at 1, Tracked.releases at 1, zoom at 1, Tracked.giveBack at 1 in Ha.
      cbn beta iota in Ha. apply finish_skips in Ha as [H1 [H2 H3]]. cbn in H1, H2. rewrite S2 in H1, H2. cbn in H1, H2.
      split; [rewrite H1; exact Hrel|]. left. split; [exact H2|]. destruct r; [exact H3|]. destruct H3 as [H3|H3]; [by left|right; rewrite H3; exact S1]. }
  destruct (OperationLaws.StartTracked_ok _ _ _ _ _ _ _ _ _ Es) as (_ & _ & Hfree & _).
  destruct (Tracked.StartTracked_quiet _ _ _ _ _ _ _ _ _ Es ltac:(done) ltac:(done) Hid) as (-> & -> & Hrest & _).
  change (Operations.RequestID request) with id in *. cbv beta iota in Ha.
  eapply (await_account run id evidence prepared (OperationAlerts.revisionOf revisions (deploymentKey run)) recovery
    (Sub deadline (clock n2)) gr _ n3 r e' n' (service (Operations.rest e))) in Ha.
  - destruct Ha as [Hc Hend]. cbn in Hc. rewrite Hrest in Hc. cbn in Hc. split; [rewrite Hc; exact Hrel|].
    destruct Hend as [[U1 U2]|(out & Hb & Hres)].
    + left. cbn in U1. rewrite Hrest in U1. split; [exact U1|]. destruct r; [exact U2|by left].
    + right. exists evidence, fresh, prepared, id. eexists. exists out. split; [done|]. split; [|split; [|split; [exact Hb|exact Hres]]].
      * cbn. by rewrite Hrest.
      * cbn. rewrite Hrest. exact Hin.
  - intros Hin'. rewrite Forall_forall in Hjobs. destruct (Hjobs _ Hin') as [q Hq]. cbn in Hfree. congruence.
  - done.
Qed.
Lemma check_account limit run (e : Env) n r e' n' :
  RunStackID run ≠ ""%string →
  Forall (λ id, is_Some (operations (Operations.store e) !! id)) (Operations.completed (service (Operations.rest e))) →
  CheckAndUpdate root git stateful reader notifier Error publisher maxOutput gaveUp stored capable limit run e n = (r, (e', n')) →
  account run e e' r.
Proof using All.
  intros Hstk Hjobs Ha. unfold CheckAndUpdate in Ha. unfold mbind at 1, M_bind at 1, isBlocked, zoom at 1 in Ha. cbn beta iota in Ha.
  rewrite put_view in Ha. unfold mbind at 1, M_bind at 1, guard_not at 1, lift at 1, reject_if at 1 in Ha.
  destruct (negb stored || _); [injection Ha as <- <- _; split; [done|left; split; [done|by right]]|]. cbv beta iota in Ha.
  unfold mbind at 1, M_bind at 1, guard_not at 1, lift at 1, reject_if at 1 in Ha.
  destruct (negb capable); [injection Ha as <- <- _; split; [done|left; split; [done|by right]]|]. cbv beta iota in Ha.
  unfold mbind at 1, M_bind at 1, now at 1 in Ha. cbv zeta in Ha. set (deadline := match limit with Some l => _ | None => _ end) in Ha.
  unfold mbind at 1, M_bind at 1, attempt at 1 in Ha.
  destruct (Tracked.admitted_cases false (RunStackID run) e (S n)) as [(x & Et)|(c & gr & Et & Hrel & _)]; rewrite Et in Ha; clear Et.
  { apply finish_skips in Ha as [H1 H2]. split; [done|by left]. }
  specialize (Hrel (or_intror Hstk)). unfold mbind at 1, M_bind at 1, attempt at 1 in Ha.
  destruct (collect root git stateful run (put c e) (S n)) as [ev [e1 n1]] eqn:Ec.
  pose proof (still_run _ _ _ _ _ _ (collect_still run) Ec) as ->. cbv beta iota zeta in Ha.
  unfold mbind at 1, M_bind at 1 in Ha. rewrite (Tracked.releases_undo _ _ _ _ Hrel) in Ha.
  destruct ev as [ev|x]; [|apply finish_skips in Ha as [H1 H2]; split; [done|by left]].
  apply collect_ok in Ec. change (view (A := DB) (put c e)) with (Operations.store e) in Ec.
  unfold mbind at 1, M_bind at 1 in Ha.
  destruct (zoom (OperationAlerts.previousAlerts reader [checkKey run; deploymentKey run] : M DB (gmap Alert.Key Z)) e n1)
    as [rev [e2 n2]] eqn:Er.
  assert (e2 = e) as ->.
  { eapply still_run; [|exact Er]. apply still_zoom, OperationAlerts.still_previousAlerts. }
  destruct rev as [revisions|x]; [|injection Ha as <- <- _; split; [done|left; split; [done|by right]]].
  unfold mbind at 1, M_bind at 1, rand_text at 1 in Ha. unfold mbind at 1, M_bind at 1, attempt at 1 in Ha.
  destruct (part (PrepareUpdate (ESnapshot ev)) e (S n2)) as [p [e3 n3]] eqn:Ep.
  assert (still (part (PrepareUpdate (ESnapshot ev)) : M Env Updates.PreparedUpdate)) as Hp by (unfold part; quietly idtac).
  pose proof (still_run _ _ _ _ _ _ Hp Ep) as ->. destruct p as [prepared|x].
  - eapply applyPrepared_account in Ha; [exact Ha|done|done|done|done|]. unfold part in Ep.
    apply zoomed_still in Ep as [Ep _]; [|quietly idtac]. apply zoomed_still in Ep as [Ep _]; [|eauto with still].
    eexists _, _. by rewrite Ep.
  - destruct (Is x Compose_ErrUpdateIneligible); [apply finish_skips in Ha as [H1 H2]; split; [done|by left]|].
    unfold mbind at 1, M_bind at 1 in Ha.
    match type of Ha with context [OperationAlerts.observedChange ?a ?b ?c0 ?d ?x ?y ?s ?k] =>
      destruct (observed_ok a b c0 d x y s k) as (cs & n4 & Eo) end. rewrite Eo in Ha.
    apply finish_skips in Ha as [H1 H2]. split; [done|by left].
Qed.


(** C4. A scheduled check never leaves its run in the middle: if it reports no
    error the run is over or all further updates are blocked; and if anything
    was recreated the run is over with the outcome "updated", then the runtime
    reported no error and verified the images, or with the outcome "failed",
    then the policy is paused until somebody has recovered the stack.  If it
    reports an error, then updates are blocked or nothing has happened. *)
Theorem checked_runs_are_settled limit run (e : Env) n r e' n' :
  RunStackID run ≠ ""%string →
  Forall (λ id, is_Some (operations (Operations.store e) !! id)) (Operations.completed (service (Operations.rest e))) →
  CheckAndUpdate root git stateful reader notifier Error publisher maxOutput gaveUp stored capable limit run e n = (r, (e', n')) →
  match r with
  | Ok _ => (ups (Operations.rest e') = ups (Operations.rest e) ∧
              (settled (Operations.store e') run ∨ updatesBlocked (Operations.rest e') = true))
            ∨ ∃ prepared out r1 id, begun run id prepared r1 (Operations.rest e') out ∧ concluded (Operations.store e') run prepared out
  | Err _ => updatesBlocked (Operations.rest e') = true ∨
      (ups (Operations.rest e') = ups (Operations.rest e) ∧ Operations.store e' = Operations.store e)
  end.
Proof using All.
  intros Hstk Hjobs Ha. apply check_account in Ha as [Hc Ha]; [|done..].
  destruct Ha as [[Hu Hs]|(ev & fr & p & id & r1 & out & H1 & H2 & H3 & H4 & H5)]; destruct r; [by left|tauto| |by left].
  right. exists p, out, r1, id. done.
Qed.
End check.

(** ** Recovery after a restart *)
Section recovery.
Context (stored capable : bool).
Hint Resolve snapshotOf_still : still.
Lemma observe_still run services : still (observe root run services : M Env _).
Proof using RL. unfold observe, part. quietly idtac. Qed.
Lemma Inv_run {A} (m : M DB A) db n : (∀ db0, maintains (DatabaseLaws.RU db0) m) → AutoUpdateLaws.Inv db → AutoUpdateLaws.Inv (m db n).2.1.
Proof.
  intros Hm I. apply (Hm db db n). split; [done|]. by apply AutoUpdateLaws.advances_same.
Qed.
Lemma recover_account xs : NoDup (XRunID <$> xs) → ∀ byID (e : Env) n byID' e' n',
  AutoUpdateLaws.Inv (Operations.store e) → recoverExecutions root capable byID xs e n = (Ok byID', (e', n')) →
  AutoUpdateLaws.Inv (Operations.store e') ∧
  (∀ i, byID' !! i = if bool_decide (i ∈ XRunID <$> xs) then None else byID !! i) ∧
  (∀ i, i ∉ XRunID <$> xs → runs (Operations.store e') !! i = runs (Operations.store e) !! i ∧
     executions (Operations.store e') !! i = executions (Operations.store e) !! i) ∧
  (∀ i, i ∈ XRunID <$> xs → over (Operations.store e') i) ∧
  (∀ i x, i ∈ XRunID <$> xs → executions (Operations.store e) !! i = Some x → mutating x →
     ∃ r, runs (Operations.store e') !! i = Some r ∧ interruptedRun r).
Proof using All.
  induction xs as [|x xs IH]; intros Hnd byID e n byID' e' n' I Hr.
  { apply ret_ok in Hr as (-> & -> & ->). split; [done|]. split; [done|]. split; [done|]. split; [by intros i []%elem_of_nil|by intros i y []%elem_of_nil]. }
  cbn [fmap list_fmap] in Hnd. apply NoDup_cons in Hnd as [Hx Hnd]. cbn [recoverExecutions] in Hr.
  apply bind_ok in Hr as (services & e1 & n1 & H1 & Hr).
  match type of H1 with ?m _ _ = _ => assert (still m) as Hm by (quietly ltac:(apply observe_still)) end.
  pose proof (still_run _ _ _ _ _ _ Hm H1) as ->. clear H1 Hm.
  apply bind_ok in Hr as (u & e2 & n2 & H2 & Hr). apply zoom_ok in H2 as (db2 & H2 & ->).
  pose proof (Inv_run _ _ n1 (λ db0, DatabaseLaws.ru_RecoverExecution db0 x services) I) as I2.
  change (view e) with (Operations.store e) in H2. rewrite H2 in I2. cbn in I2.
  apply RecoverExecution_ok in H2 as (He & Ho & Hm); [|done].
  match type of Hr with recoverExecutions _ _ _ _ ?e1 _ = _ => change (AutoUpdateLaws.Inv (Operations.store e1)) in I2 end.
  destruct (IH Hnd _ _ _ _ _ _ I2 Hr) as (I3 & Hby & Hels & Hov & Hmut). cbn in Hels, Hmut.
  split; [done|]. split; [|split; [|split]].
  - intros i. rewrite Hby. cbn [fmap list_fmap]. destruct (decide (i = XRunID x)) as [->|Hne].
    + rewrite bool_decide_false by done. rewrite (bool_decide_true (_ ∈ _ :: _)) by by left. apply lookup_delete_eq.
    + rewrite lookup_delete_ne by done. case_bool_decide as Hi; [by rewrite bool_decide_true by by right|].
      rewrite bool_decide_false; [done|]. by intros [?|?]%elem_of_cons.
  - intros i Hi. cbn [fmap list_fmap] in Hi. apply not_elem_of_cons in Hi as [Hne Hi].
    destruct (Hels i Hi) as [-> ->]. by apply He.
  - intros i [->|Hi]%elem_of_cons; [|by apply Hov]. destruct Ho as [O1 O2], (Hels _ Hx) as [E1 E2].
    split; intros y; rewrite ?E1, ?E2; auto.
  - intros i y [->|Hi]%elem_of_cons Hy Hmy.
    + destruct (Hm _ Hy Hmy) as (r & Hr1 & Hr2). exists r. by rewrite (proj1 (Hels _ Hx)).
    + apply (Hmut i y Hi); [|done]. rewrite (proj2 (He i ltac:(intros ->; done))). done.
Qed.
Lemma finishRuns_account rs : ∀ (e : Env) n u e' n',
  (∀ i x, executions (Operations.store e) !! i = Some x → x_phase x = "terminal"%string) → finishRuns rs e n = (Ok u, (e', n')) →
  executions (Operations.store e') = executions (Operations.store e) ∧
  (∀ i, i ∉ RunID <$> rs → runs (Operations.store e') !! i = runs (Operations.store e) !! i) ∧
  (∀ i r, i ∈ RunID <$> rs → runs (Operations.store e') !! i = Some r → RunPhase r = "terminal"%string).
Proof.
  induction rs as [|r rs IH]; intros e n u e' n' Hx Hr.
  { apply ret_ok in Hr as (_ & -> & _). split; [done|]. split; [done|]. by intros i r []%elem_of_nil. }
  cbn [finishRuns] in Hr. apply bind_ok in Hr as (u1 & e1 & n1 & H1 & Hr). apply zoom_ok in H1 as (db1 & H1 & ->).
  pose proof (FinishRun_ok _ _ _ _ _ _ _ _ _ H1) as Ht. destruct (FinishRun_elsewhere _ _ _ _ _ _ _ _ _ H1) as (He & Hk & Hnone).
  change (view e) with (Operations.store e) in *.
  assert (executions db1 = executions (Operations.store e)) as Hex.
  { apply map_eq. intros i. destruct (decide (i = RunID r)) as [->|Hne]; [|by apply He].
    destruct (executions (Operations.store e) !! RunID r) as [x|] eqn:Ex; [|by apply Hnone]. apply Hk; [done|]. by eapply Hx. }
  apply IH in Hr as (R1 & R2 & R3); [|cbn; by rewrite Hex]. cbn in R1, R2. split; [congruence|]. split.
  - intros i Hi. cbn [fmap list_fmap] in Hi. apply not_elem_of_cons in Hi as [Hne Hi]. rewrite R2 by done. by apply He.
  - intros i q Hi Hq. destruct (decide (i ∈ RunID <$> rs)) as [Hin|Hin]; [by eapply R3|].
    cbn [fmap list_fmap] in Hi. apply elem_of_cons in Hi as [->|Hi]; [|done]. rewrite R2 in Hq by done. by apply Ht.
Qed.
(** Whatever happens, nothing but the database and [updatesBlocked] changes. *)
Definition only_blocked (b : bool) (r r' : Rest) : Prop := r' = mkRest (coordinator r) (service r) b (ups r) (noticed r).
Lemma blocked_zoom b r0 {A} (m : M DB A) : maintains (λ (e : Env) _, only_blocked b r0 (Operations.rest e)) (zoom m).
Proof. intros e n He. unfold zoom. by destruct (m _ n) as [x [db k]]. Qed.
Lemma blocked_recover b r0 xs : ∀ byID, maintains (λ (e : Env) _, only_blocked b r0 (Operations.rest e)) (recoverExecutions root capable byID xs).
Proof using RL.
  induction xs as [|x xs IH]; intros byID; [apply maintains_ret|]. cbn [recoverExecutions].
  apply maintains_bind; [|intros s; apply maintains_bind; [apply blocked_zoom|intros _; apply IH]].
  intros e n He. match goal with |- context [?m e n] => assert (still m) as Hm by (quietly ltac:(apply observe_still)) end. by rewrite Hm.
Qed.
Lemma blocked_finish b r0 rs : maintains (λ (e : Env) _, only_blocked b r0 (Operations.rest e)) (finishRuns rs).
Proof. induction rs as [|r rs IH]; [apply maintains_ret|]. cbn [finishRuns]. apply maintains_bind; [apply blocked_zoom|done]. Qed.
(** What the two lists of pending work hold. *)
Lemma pending_executions (db : DB) n xs db' n' :
  AutoUpdateStore.PendingExecutions db n = (Ok xs, (db', n')) →
  NoDup (XRunID <$> xs) ∧ ∀ i x, executions db !! i = Some x → x_phase x ≠ "terminal"%string → i ∈ XRunID <$> xs.
Proof.
  intros (-> & _ & _)%query_ok. split.
  - rewrite merge_sort_Permutation, <-list_fmap_compose.
    eapply (sublist_NoDup _ ((map_to_list (executions db)).*1)); [apply NoDup_fst_map_to_list|].
    rewrite (list_fmap_ext _ fst); [apply fmap_sublist, sublist_filter|]. by intros ? [].
  - intros i x Hx Hp. rewrite merge_sort_Permutation, <-list_fmap_compose. apply list_elem_of_fmap. exists (i, x). split; [done|].
    apply list_elem_of_filter. split; [done|]. by apply elem_of_map_to_list.
Qed.
Lemma pending_runs (db : DB) n rs db' n' :
  AutoUpdateLaws.Inv db → AutoUpdateStore.PendingRuns db n = (Ok rs, (db', n')) →
  ∀ i r, runs db !! i = Some r → RunPhase r ≠ "terminal"%string →
    is_Some ((list_to_map ((λ r, (RunID r, r)) <$> rs) : gmap string Run) !! i).
Proof.
  intros I (-> & _ & _)%query_ok i r Hr Hp. pose proof (AutoUpdateLaws.inv_slot _ I i) as Hs. unfold AutoUpdateLaws.slotOk in Hs.
  rewrite Hr in Hs. destruct Hs as [Hid _].
  match goal with |- is_Some (?m !! i) => destruct (m !! i) eqn:E; [done|] end. exfalso.
  apply not_elem_of_list_to_map in E. apply E. rewrite <-list_fmap_compose. apply list_elem_of_fmap. exists r. split; [done|].
  rewrite merge_sort_Permutation. apply list_elem_of_filter. split; [done|]. apply list_elem_of_fmap. exists (i, r). split; [done|].
  by apply elem_of_map_to_list.
Qed.
Lemma delivered (rs : list Run) i q : (list_to_map ((λ r, (RunID r, r)) <$> rs) : gmap string Run) !! i = Some q → RunID q = i.
Proof. intros (r & [= -> ->] & _)%elem_of_list_to_map_2%list_elem_of_fmap. done. Qed.

(** What holds whenever a computation fails: each step but the last keeps it,
    and the last either keeps it or cannot fail. *)
Definition kept_at_error {S A} (P : S → Prop) (m : M S A) : Prop :=
  ∀ s n x s' n', P s → m s n = (Err x, (s', n')) → P s'.
Lemma kept_bind {S A B} (P : S → Prop) (m : M S A) (k : A → M S B) :
  maintains (λ s _, P s) m → (∀ a, kept_at_error P (k a)) → kept_at_error P (m ≫= k).
Proof.
  intros Hm Hk s n x s' n' Hs Hr. specialize (Hm s n Hs). unfold mbind, M_bind in Hr.
  destruct (m s n) as [[a|y] [s1 n1]]; [exact (Hk a s1 n1 x s' n' Hm Hr)|]. by injection Hr as _ <- <-.
Qed.
Lemma kept_by_error {S A} (P : S → Prop) (m : M S A) s n x s' n' :
  kept_at_error P m → P s → m s n = (Err x, (s', n')) → P s'.
Proof. intros Hm Hs. by apply Hm. Qed.

(** C5. After a restart nothing is left in the middle: a reconciliation that
    succeeds has ended every run and every execution, and allows updates again;
    a mutation that was interrupted ends as failed and never as updated; a
    reconciliation that fails blocks all updates.  In no case is a container
    recreated. *)
Theorem recovery_settles_updates (e : Env) n r e' n' :
  AutoUpdateLaws.Inv (Operations.store e) → ReconcileUpdates root stored capable e n = (r, (e', n')) →
  only_blocked (negb (is_ok r)) (Operations.rest e) (Operations.rest e') ∧
  (is_ok r = true →
    (∀ id, over (Operations.store e') id) ∧
    ∀ id x, executions (Operations.store e) !! id = Some x → mutating x →
      ∃ row, runs (Operations.store e') !! id = Some row ∧ interruptedRun row).
Proof using All.
  intros I Hr. unfold ReconcileUpdates in Hr. unfold mbind at 1, M_bind at 1, setBlocked at 1, zoom at 1 in Hr. cbn beta iota in Hr.
  set (e1 := put _ e) in Hr.
  assert (only_blocked true (Operations.rest e) (Operations.rest e1)) as He1 by done.
  destruct r as [u|x]; cbn [is_ok negb].
  - apply bind_ok in Hr as (? & ? & ? & H1 & Hr). apply guard_not_ok in H1 as (_ & -> & ->).
    apply bind_ok in Hr as (xs & e2 & n2 & H2 & Hr). apply zoomed_still in H2 as [H2 ->]; [|eauto with still].
    change (view e1) with (Operations.store e) in H2. apply pending_executions in H2 as [Hnd Hpx].
    apply bind_ok in Hr as (rs & e2 & n3 & H3 & Hr). apply zoomed_still in H3 as [H3 ->]; [|eauto with still].
    change (view e1) with (Operations.store e) in H3. pose proof (pending_runs _ _ _ _ _ I H3) as Hpr.
    apply bind_ok in Hr as (byID & e2 & n4 & H4 & Hr).
    pose proof (blocked_recover true (Operations.rest e) xs (list_to_map ((λ r, (RunID r, r)) <$> rs)) e1 n3 He1) as B2. rewrite H4 in B2. cbn [fst snd] in B2.
    change (AutoUpdateLaws.Inv (Operations.store e1)) in I.
    destruct (recover_account xs Hnd _ _ _ _ _ _ I H4) as (I2 & Hby & Hels & Hov & Hmut).
    change (Operations.store e1) with (Operations.store e) in Hels, Hmut.
    assert (∀ i y, executions (Operations.store e2) !! i = Some y → x_phase y = "terminal"%string) as Hx2.
    { intros i y Hy. destruct (decide (i ∈ XRunID <$> xs)) as [Hi|Hi]; [by apply (Hov i Hi)|].
      rewrite (proj2 (Hels i Hi)) in Hy. destruct (decide (x_phase y = "terminal"%string)); [done|]. by destruct Hi; eapply Hpx. }
    apply bind_ok in Hr as (u1 & e3 & n5 & H5 & Hr). pose proof (blocked_finish true (Operations.rest e) (map_to_list byID).*2 e2 n4 B2) as B3.
    rewrite H5 in B3. cbn [fst snd] in B3. destruct (finishRuns_account _ _ _ _ _ _ Hx2 H5) as (F1 & F2 & F3).
    unfold setBlocked, zoom in Hr. injection Hr as <- <- _. split; [unfold only_blocked in *; cbn; by rewrite B3|]. intros _. cbn.
    assert (∀ i, i ∈ RunID <$> (map_to_list byID).*2 ↔ is_Some (byID !! i)) as Hdom.
    { assert (∀ i q, byID !! i = Some q → RunID q = i) as Hname.
      { intros i q. rewrite Hby. case_bool_decide; [done|]. apply delivered. }
      intros i. rewrite <-list_fmap_compose, list_elem_of_fmap. split.
      - intros ([j q] & -> & Hq%elem_of_map_to_list). cbn. rewrite (Hname _ _ Hq). by eexists.
      - intros [q Hq]. exists (i, q). split; [cbn; by rewrite (Hname _ _ Hq)|]. by apply elem_of_map_to_list. }
    split.
    + intros i. split; [|intros y Hy; rewrite F1 in Hy; by eapply Hx2]. intros q Hq.
      destruct (decide (i ∈ RunID <$> (map_to_list byID).*2)) as [Hi|Hi]; [by eapply F3|]. rewrite F2 in Hq by done.
      destruct (decide (i ∈ XRunID <$> xs)) as [Hx|Hx]; [by apply (Hov i Hx)|]. rewrite (proj1 (Hels i Hx)) in Hq.
      destruct (decide (RunPhase q = "terminal"%string)); [done|]. destruct Hi. rewrite Hdom, Hby, bool_decide_false by done. by eapply Hpr.
    + intros i y Hy Hm. assert (i ∈ XRunID <$> xs) as Hi.
      { apply (Hpx i y Hy). intros Ht. destruct Hm as [Hm|Hm]; rewrite Hm in Ht; discriminate Ht. }
      destruct (Hmut i y Hi Hy Hm) as (q & Hq & Hq2). exists q. split; [|done]. rewrite F2; [done|]. rewrite Hdom, Hby, bool_decide_true by done.
      by intros [].
  - split; [|done].
    revert Hr. apply (kept_by_error (λ e', only_blocked true (Operations.rest e) (Operations.rest e'))); [|done].
    repeat (apply kept_bind; [first [apply blocked_zoom|apply blocked_recover|apply blocked_finish|apply maintains_lift]|intros ?]).
    intros s k y s' k' _. discriminate.
Qed.
End recovery.
End run.
(** ** A run of the stack of the examples *)
Section example.
#[local] Existing Instances AutoUpdateLaws.daily calm.
Definition ex_running : Updates.UpdateContainer := Updates.mkUpdateContainer "c1" "app" "img1" "running" "" "linux/amd64" 1 0 1%Z.
Definition ex_seen : Updates.UpdateSnapshot := Updates.mkUpdateSnapshot None "sha256:1" [ex_running] ∅.
#[local] Instance ex_runtime : UpdateRuntime := {|
  SnapshotUpdate _ := mret (ex_seen, None);
  PrepareUpdate s := mret (Updates.mkPreparedUpdate s [AutoUpdateLaws.ex_change]);
  ApplyUpdate _ := λ l n, (Ok tt, (l ++ [(Updates.mkUpCall (Updates.mkProject "web" ∅ ∅) ["app"%string], n)], Datatypes.S n));
  VerifyUpdate _ := mret (UpdateVerify.mkUpdateResult [mkServiceUpdateResult "app" "img1" "img2" "img2" "verified"] false, None);
  CheckProject _ := mret tt |}.
#[local] Instance ex_laws : RuntimeLaws.
Proof. split; intros; apply still_ret. Qed.
#[local] Instance ex_git : Repository.GitRepository unit := {|
  Repository.gStatus _ _ := Ok (Repository.mkGitStatus true "main" false 0 0 []);
  Repository.gHead _ _ := Ok "abc"%string;
  Repository.gDiff _ _ _ := Ok ""%string;
  Repository.gCommit _ _ _ _ := Ok ""%string;
  Repository.gHistory _ _ _ := Ok [];
  Repository.gHistoryPage _ := None;
  Repository.gFetch _ _ := Ok tt;
  Repository.gPullFastForward _ _ := Ok tt;
  Repository.gPush _ _ := Ok tt |}.
#[local] Instance ex_hash : FileHash := λ s, s.
Definition ex_baseline : Deployment := mkDeployment "dep_0" "stk_1" "" "abc" false "" "sha256:1" DeploymentSucceeded 1%Z 1%Z 0%Z "".
Definition ex_checking : Run := mkRun "upd_1" "stk_1" "web" 1 0%Z "checking" "" "" "".
Definition ex_due : DB :=
  set_deployments (set_runs AutoUpdateLaws.ex_db {["upd_1" := ex_checking]}) {["dep_0" := ex_baseline]}.
Definition ex_env (db : DB) : Env := Operations.mkEnv db [] [] 0 (mkRest Coordinator.NewCoordinator Operations.NewService false [] []).
Definition ex_check (e : Env) : result unit * (Env * nat) :=
  CheckAndUpdate "/srv" tt true true true (λ _, ""%string) (Some true) 0 (λ _, None) true true None ex_checking e 0.
(** The update is made, and verified. *)
Lemma ex_updates :
  is_ok (ex_check (ex_env ex_due)).1 = true ∧ length (ups (Operations.rest (ex_check (ex_env ex_due)).2.1)) = 1 ∧
  RunOutcome <$> runs (Operations.store (ex_check (ex_env ex_due)).2.1) !! "upd_1"%string = Some "updated"%string.
Proof. split_and!; vm_compute; reflexivity. Qed.
Lemma checked_runs_are_settled_witness :
  ∃ prepared out r1 id, begun ex_checking id prepared r1 (Operations.rest (ex_check (ex_env ex_due)).2.1) out ∧
    concluded (Operations.store (ex_check (ex_env ex_due)).2.1) ex_checking prepared out.
Proof.
  assert (ex_check (ex_env ex_due) = (Ok tt, ((ex_check (ex_env ex_due)).2.1, (ex_check (ex_env ex_due)).2.2))) as E
    by (vm_compute; reflexivity).
  destruct (checked_runs_are_settled "/srv" tt true true true (λ _, ""%string) (Some true) 0 (λ _, None) true true None ex_checking
    (ex_env ex_due) 0 _ _ _ ltac:(discriminate) ltac:(constructor) E) as [[Hu _]|H]; [|exact H].
  exfalso. assert (length (ups (Operations.rest (ex_check (ex_env ex_due)).2.1)) = 1) as Hl by (vm_compute; reflexivity).
  rewrite Hu in Hl. discriminate Hl.
Defined.
Definition ex_restart : result unit * (Env * nat) :=
  ReconcileUpdates "/srv" true true (ex_env AutoUpdateLaws.ex_verifying) 0.
Lemma recovery_settles_updates_witness :
  ∃ row, runs (Operations.store ex_restart.2.1) !! "upd_1"%string = Some row ∧ interruptedRun row.
Proof.
  assert (ex_restart = (Ok tt, (ex_restart.2.1, ex_restart.2.2))) as E by (vm_compute; reflexivity).
  destruct (recovery_settles_updates "/srv" tt true true true true true (ex_env AutoUpdateLaws.ex_verifying) 0 _ _ _ AutoUpdateLaws.ex_verifying_inv E) as [_ H].
  exact (proj2 (H eq_refl) "upd_1"%string AutoUpdateLaws.ex_execution ltac:(vm_compute; reflexivity) (or_intror eq_refl)).
Defined.
End example.
End UpdateRunLaws.
