(* ===== verification/ControlLaws.v ===== *)
(** * What the control plane guarantees

    A request is refused without a trace or accepted under the lock, which its
    operation gives back at its end; what the operation does is what was asked,
    on the stack that was asked, in a state that allows it. *)
From S2P Require Import Prelude GoStrings OnDemandPolicy Alerts Database OnDemandStore AutoUpdateStore OperationStore Coordinator Locking Operation Tracked Reading.
From S2P Require Import Redaction OperationLaws ContainerStates Filesystem Repository Controller OnDemandService OperationAlerts Compose Updates ControlPlane.

Module ControlLaws.
Import Data Database ContainerStates ControlPlane Reading.
#[local] Existing Instances Tracked.pair_apart Tracked.pair_apart' Tracked.env_apart Tracked.env_apart'.

Section laws.
Context `{W : World} `{R : RuntimeController} `{L : Loader} `{En : Encoding} `{Sg : Signing} `{H : FileHash} `{CA : Compose.ComposeApi}.
Context {G : Type} `{GR : !Repository.GitRepository G}.
Context (root : string) (stateful stored demand logging reader : bool).
Notation Env := (Operations.Env (Rest G)).
Notation WIO := (M (DB * Rest G)).

(** ** Looking at a stack changes nothing but the key of the reviews *)
Definition with_key (k : option (result string)) (e : Env) : Env :=
  Operations.mkEnv (Operations.store e) (Operations.publishedOps e) (Operations.publishedAlerts e) (Operations.released e)
    (put k (Operations.rest e)).
Definition looks {A} (m : M Env A) : Prop := ∀ e n, ∃ k, (m e n).2.1 = with_key k e.
Lemma with_own_key (e : Env) : with_key (reviewKey (Operations.rest e)) e = e.
Proof. by destruct e as [? ? ? ? []]. Qed.
Lemma looks_still {A} (m : M Env A) : still m → looks m.
Proof. intros Hm e n. rewrite Hm. eexists. symmetry. apply with_own_key. Qed.
Lemma looks_bind {A B} (m : M Env A) (k : A → M Env B) : looks m → (∀ a, looks (k a)) → looks (m ≫= k).
Proof.
  intros Hm Hk e n. destruct (Hm e n) as [k1 E]. unfold mbind, M_bind. destruct (m e n) as [[a|x] [e1 n1]]; cbn in E; subst e1; [|by eexists].
  destruct (Hk a (with_key k1 e) n1) as [k2 ->]. by exists k2.
Qed.
Lemma looks_run {A} (m : M Env A) e n r e' n' : looks m → m e n = (r, (e', n')) → ∃ k, e' = with_key k e.
Proof. intros Hm E. destruct (Hm e n) as [k Hk]. rewrite E in Hk. by exists k. Qed.

Section anywhere.
Context {E : Type} {LD : Lens E DB} {LR : Lens E (Rest G)}.
Lemma ctl_ask_still {A} (f : nat → result A) : still (ask f : M E A).
Proof. by intros s n. Qed.
Lemma ctl_part_still {A X} `{!Lens (Rest G) A} (m : M A X) : still m → still (part m : M E X).
Proof. intros Hm. unfold part. quietly idtac. Qed.
Lemma ctl_use_still {A} (f : G → nat → result A) : still (Repository.useGit f).
Proof. by intros s n. Qed.
Lemma ctl_remote_still {A} (f : G → nat → result A) : still (Repository.useRemote f).
Proof. intros s n. unfold Repository.useRemote. by destruct (Repository.remoteEnabled s). Qed.
Lemma ctl_pull_still : still Repository.Pull.
Proof. intros s n. unfold Repository.Pull. destruct (Repository.remoteEnabled s); [|done]. by destruct (Repository.gFetch _ _). Qed.
Hint Resolve ctl_ask_still ctl_part_still ctl_use_still ctl_remote_still ctl_pull_still : still.
Lemma ctl_describe_still id : still (describe root id : M E _).
Proof. unfold describe. quietly idtac. Qed.
Lemma ctl_verify_still q action : still (verifyStackAction q action : M E _).
Proof. unfold verifyStackAction. destruct (action =? "pull")%string; quietly idtac. Qed.
Lemma ctl_verifyContainer_still q id action : still (verifyContainerAction q id action : M E _).
Proof. unfold verifyContainerAction. quietly idtac. Qed.
Lemma ctl_overrides_still id q : still (manualImageOverrides stored id q : M E _).
Proof. unfold manualImageOverrides. destruct (negb stored); quietly idtac. Qed.
End anywhere.
#[local] Hint Resolve ctl_ask_still ctl_part_still ctl_use_still ctl_remote_still ctl_pull_still ctl_describe_still ctl_verify_still ctl_verifyContainer_still ctl_overrides_still : still.

(** ** A refusal leaves no trace, an acceptance leaves an operation

    [P] is what is known of the work, which depends on the database in which
    the request found the stack. *)
Section acceptance.
Context (publisher : option bool) (db : DB) (P : WIO Result → Prop).
Definition admissible (gr : Coordinator.Grant) (e1 e' : Env) (s : Started) : Prop :=
  (∃ w, SWork s = Tracked.asWork w ∧ P w) ∧ SGrant s = gr ∧
  SOperation s = Operations.newOperation (OpID (SOperation s)) (SRequest s) ∧
  operations (Operations.store e1) !! OpID (SOperation s) = None ∧
  is_Some (operations (Operations.store e') !! OpID (SOperation s)) ∧
  Operations.rest e' = put (Operations.addJob (OpID (SOperation s)) (service (Operations.rest e1))) (Operations.rest e1).
Definition starts (gr : Coordinator.Grant) (m : M Env Started) : Prop := ∀ e n, Operations.store e = db →
  match m e n with
  | (Err _, (e', _)) => ∃ k, Operations.store e' = db ∧ Operations.rest e' = Operations.rest (with_key k e)
  | (Ok s, (e', _)) => ∃ k, admissible gr (with_key k e) e' s
  end.
(** A value of which something is known in this database. *)
Definition yields {A} (m : M Env A) (Q : A → Prop) : Prop :=
  ∀ e n a e' n', Operations.store e = db → m e n = (Ok a, (e', n')) → Q a.
Lemma starts_knowing {A} (Q : A → Prop) gr (m : M Env A) (k : A → M Env Started) :
  looks m → yields m Q → (∀ a, Q a → starts gr (k a)) → starts gr (m ≫= k).
Proof.
  intros Hm HQ Hk e n Hdb. destruct (Hm e n) as [k1 E]. specialize (HQ e n). unfold mbind, M_bind.
  destruct (m e n) as [[a|x] [e1 n1]]; cbn in E; subst e1; [|by exists k1].
  specialize (Hk a (HQ a _ _ Hdb eq_refl) (with_key k1 e) n1 Hdb).
  destruct (k a (with_key k1 e) n1) as [[s|x] [e2 n2]]; destruct Hk as [k2 Hk]; by exists k2.
Qed.
Lemma starts_bind {A} gr (m : M Env A) (k : A → M Env Started) : looks m → (∀ a, starts gr (k a)) → starts gr (m ≫= k).
Proof. intros Hm Hk. apply (starts_knowing (λ _, True)); [done|done|auto]. Qed.
Lemma starts_fail gr x : starts gr (fail x).
Proof. intros e n Hdb. exists (reviewKey (Operations.rest e)). by rewrite with_own_key. Qed.
Lemma startTracked_starts request gr w : P w → starts gr (startTracked publisher request gr w).
Proof.
  intros Hw e n Hdb. unfold startTracked, Tracked.startTracked, mbind, M_bind.
  destruct (Operations.StartTracked publisher request (view (Operations.rest e)) e n) as [[[sv o]|x] [e1 n1]] eqn:Es; exists (reviewKey (Operations.rest e)).
  - destruct (OperationLaws.StartTracked_ok _ _ _ _ _ _ _ _ _ Es) as (_ & -> & Hfree & Hnew & _).
    destruct (Tracked.StartTracked_accepted _ _ _ _ _ _ _ _ _ Es) as [Hr Ho].
    rewrite with_own_key. unfold admissible. cbn [SWork SGrant SOperation SRequest Operations.store Tracked.with_service Operations.rest].
    split_and!; [by exists w|done..|]. by rewrite Hr.
  - apply Tracked.StartTracked_refused in Es as [-> ->]. by rewrite with_own_key.
Qed.
Lemma startObserved_starts request run verify gr :
  (∀ request revisions, P (observed demand request revisions run verify)) → starts gr (startObserved demand reader publisher request run verify gr).
Proof.
  intros Hw. unfold startObserved. apply starts_bind.
  { apply looks_still. unfold identified, NewOperationID. quietly idtac. }
  intros request'. apply starts_bind; [apply looks_still; unfold previousAlerts; apply still_zoom, OperationAlerts.still_previousAlerts|].
  intros revisions. by apply startTracked_starts.
Qed.

(** What becomes of a request. *)
Definition settles (id : string) (m : M Env Started) : Prop := ∀ e n, Operations.store e = db →
  ∃ k, match m e n with
  | (Err _, (e', _)) => Operations.store e' = db ∧ Operations.rest e' = Operations.rest (with_key k e)
  | (Ok s, (e', _)) => ∃ c gr, Coordinator.release c gr = view e ∧ (id ≠ ""%string → id ∈ Coordinator.stacks c) ∧
      admissible gr (with_key k (put c e)) e' s
  end.
Lemma settles_knowing {A} (Q : A → Prop) id (m : M Env A) (k : A → M Env Started) :
  still m → yields m Q → (∀ a, Q a → settles id (k a)) → settles id (m ≫= k).
Proof.
  intros Hm HQ Hk e n Hdb. specialize (HQ e n). unfold mbind, M_bind. specialize (Hm e n).
  destruct (m e n) as [[a|x] [e1 n1]]; cbn in Hm; subst e1.
  - exact (Hk a (HQ a _ _ Hdb eq_refl) e n1 Hdb).
  - exists (reviewKey (Operations.rest e)). by rewrite with_own_key.
Qed.
Lemma settles_guard id (b : bool) x (k : unit → M Env Started) : (∀ u, settles id (k u)) → settles id (guard_not b x ≫= k).
Proof. intros Hk. by apply (settles_knowing (λ _, True)); [apply still_lift|..]. Qed.
Lemma settles_fail id x : settles id (fail x).
Proof. intros e n Hdb. exists (reviewKey (Operations.rest e)). by rewrite with_own_key. Qed.
(** The lock is taken first and given back if the request is refused. *)
Lemma settles_admission repo id (m : Coordinator.Grant → M Env Started) :
  (repo = true ∨ id ≠ ""%string) → (∀ gr, starts gr (m gr)) → settles id (gr ← Tracked.admitted repo id; Tracked.held gr (m gr)).
Proof.
  intros Hid Hm e n Hdb. unfold mbind, M_bind.
  destruct (Tracked.admitted_cases repo id e n) as [[x Hadm]|(c & gr & Hadm & Hrel & Hin)]; rewrite Hadm; clear Hadm.
  { exists (reviewKey (Operations.rest e)). by rewrite with_own_key. }
  specialize (Hrel Hid). unfold Tracked.held, catch. specialize (Hm gr (put c e) n Hdb).
  destruct (m gr (put c e) n) as [[s|x] [e1 n1]]; destruct Hm as [k Hm]; exists k; [by exists c, gr|].
  unfold mbind, M_bind, Tracked.releases, zoom, Tracked.giveBack. cbn.
  destruct Hm as [Hs Hr]. cbn. split; [exact Hs|]. rewrite Hr. destruct e as [? ? ? ? [[] ? ? ? ? ? ?]]. cbn in *. by rewrite Hrel.
Qed.
End acceptance.

(** ** What the work of an operation does to the runtime

    [does Q m]: the calls of the runtime and of the deployments that [m] adds,
    and that it leaves the lock and the operation service alone. *)
Notation DeployCall := (Deployments.call_kind * ComposeRequest * option error)%type.
Definition untouched (s s' : DB * Rest G) : Prop :=
  Repository.coordinator (repository s'.2) = Repository.coordinator (repository s.2) ∧ service s'.2 = service s.2.
Definition does {A} (Q : list RuntimeCall → list DeployCall → Prop) (m : WIO A) : Prop := ∀ s n,
  let s' := (m s n).2.1 in untouched s s' ∧
  ∃ l d, (calls s'.2).*1 = (calls s.2).*1 ++ l ∧ deployed s'.2 = deployed s.2 ++ d ∧ Q l d.
Definition none : list RuntimeCall → list DeployCall → Prop := λ l d, l = [] ∧ d = [].
Notation quiet := (does none).
Lemma does_weaken {A} (Q Q' : _ → _ → Prop) (m : WIO A) : does Q m → (∀ l d, Q l d → Q' l d) → does Q' m.
Proof. intros Hm Hq s n. destruct (Hm s n) as (Hu & l & d & H1 & H2 & H3). split; [done|]. exists l, d. eauto. Qed.
Lemma quiet_still {A} (m : WIO A) : still m → quiet m.
Proof. intros Hm s n. rewrite Hm. split; [done|]. exists [], []. by rewrite !app_nil_r. Qed.
Lemma does_then {A B} (Q : _ → _ → Prop) (m : WIO A) (k : A → WIO B) :
  does Q m → (∀ a, quiet (k a)) → does Q (m ≫= k).
Proof.
  intros Hm Hk s n. specialize (Hm s n). unfold mbind, M_bind. destruct (m s n) as [[a|x] [s1 n1]]; [|exact Hm].
  destruct Hm as ([U1 U2] & l & d & H1 & H2 & H3). destruct (Hk a s1 n1) as ([V1 V2] & l' & d' & H4 & H5 & -> & ->). cbn in *.
  split; [split; congruence|]. exists l, d. rewrite H4, H5, !app_nil_r. done.
Qed.
Lemma quiet_then {A B} (Q : _ → _ → Prop) (m : WIO A) (k : A → WIO B) :
  quiet m → (∀ a, does Q (k a)) → Q [] [] → does Q (m ≫= k).
Proof.
  intros Hm Hk H0 s n. specialize (Hm s n). unfold mbind, M_bind. destruct (m s n) as [[a|x] [s1 n1]].
  2:{ destruct Hm as (U & l & d & H1 & H2 & -> & ->). split; [done|]. by exists [], []. }
  destruct Hm as ([U1 U2] & l & d & H1 & H2 & -> & ->). destruct (Hk a s1 n1) as ([V1 V2] & l' & d' & H4 & H5 & H6). cbn in *.
  split; [split; congruence|]. exists l', d'. rewrite H4, H5, H1, H2, !app_nil_r. done.
Qed.
Lemma does_attempt {A} Q (m : WIO A) : does Q m → does Q (attempt m).
Proof. intros Hm s n. specialize (Hm s n). unfold attempt. by destruct (m s n) as [r [s' n']]. Qed.
Lemma quiet_store {A} (m : M DB A) : quiet (zoom m : WIO A).
Proof. intros [db r] n. unfold zoom. cbn. destruct (m db n) as [x [db' k]]. cbn. split; [done|]. exists [], []. by rewrite !app_nil_r. Qed.
Lemma quiet_controller {A} (m : M Controller.Controller A) : quiet (zoom m : WIO A).
Proof. intros [db r] n. unfold zoom. cbn. destruct (m _ n) as [x [c k]]. cbn. split; [done|]. exists [], []. by rewrite !app_nil_r. Qed.
Lemma quiet_logs {A} (m : M (list (string * string)) A) : quiet (part m : WIO A).
Proof. intros [db r] n. unfold part, zoom. cbn. destruct (m _ n) as [x [c k]]. cbn. split; [done|]. exists [], []. by rewrite !app_nil_r. Qed.
Lemma does_act c : does (λ l d, l = [c] ∧ d = []) (act c : WIO unit).
Proof. intros [db r] n. unfold act, part, zoom. cbn. split; [done|]. exists [c], []. by rewrite app_nil_r, fmap_app. Qed.
Lemma quiet_if {A} (b : bool) (m1 m2 : WIO A) : quiet m1 → quiet m2 → quiet (if b then m1 else m2).
Proof. by destruct b. Qed.
Hint Resolve quiet_store quiet_controller quiet_logs : core.
(** [silently] splits the goal along the structure of the computation. *)
Ltac silently :=
  lazymatch goal with
  | |- quiet (mbind _ _) => apply quiet_then; [silently|intros; silently|done]
  | |- quiet (attempt _) => apply does_attempt; silently
  | |- quiet (mret _) => apply quiet_still, still_ret
  | |- quiet (lift _) => apply quiet_still, still_lift
  | |- quiet (fail _) => apply quiet_still, still_fail
  | |- quiet (match ?x with _ => _ end) => first [apply quiet_if|destruct x]; silently
  | |- _ => first [apply quiet_store|apply quiet_controller|apply quiet_logs|apply quiet_still; solve [eauto with still]|idtac]
  end.

(** *** The work of each kind of operation *)
Definition callOf (action : string) (q : ComposeRequest) : list RuntimeCall :=
  if (action =? "start")%string then [CallStart q] else if (action =? "stop")%string then [CallStop q]
  else if (action =? "restart")%string then [CallRestart q] else if (action =? "pull")%string then [CallPull q] else [].
(** Nothing, or these calls. *)
Definition unless_held (cs : list RuntimeCall) : list RuntimeCall → list DeployCall → Prop := λ l d, (l = [] ∨ l = cs) ∧ d = [].
Lemma quiet_unheld cs (m : WIO unit) : quiet m → does (unless_held cs) m.
Proof. intros Hm. eapply does_weaken; [exact Hm|]. intros l d [-> ->]. by split; [left|]. Qed.
Lemma does_act_once c : does (unless_held [c]) (act c : WIO unit).
Proof. eapply does_weaken; [apply does_act|]. intros l d [-> ->]. by split; [right|]. Qed.
Lemma does_silent Q (m : WIO unit) : does Q m → does Q (silent m).
Proof. intros Hm. unfold silent. apply does_then; [by apply does_attempt|]. intros a. silently. Qed.
Lemma does_spoken Q (m : WIO string) : does Q m → does Q (spoken m).
Proof. intros Hm. unfold spoken. apply does_then; [by apply does_attempt|]. intros a. silently. Qed.
Lemma quiet_any {A} (Q : _ → _ → Prop) (m : WIO A) : quiet m → Q [] [] → does Q m.
Proof. intros Hm H0. eapply does_weaken; [exact Hm|]. by intros l d [-> ->]. Qed.
Lemma does_perform id action q : does (unless_held (callOf action q)) (perform stored logging id action q).
Proof.
  assert (∀ cs, unless_held cs [] []) as H0 by (split; [by left|done]). unfold perform, callOf.
  destruct (String.eqb_spec action "validate") as [->|]; [apply quiet_any; [unfold silent; silently|done]|].
  destruct (String.eqb_spec action "status") as [->|]; [apply quiet_any; [unfold spoken; silently|done]|].
  destruct (action =? "start")%string; [apply does_silent, does_act_once|].
  destruct (action =? "stop")%string; [apply does_silent, does_act_once|].
  destruct (action =? "restart")%string; [apply does_silent, does_act_once|].
  destruct (action =? "pull")%string.
  - apply does_silent. apply does_then; [apply does_act_once|]. intros u. silently.
  - apply quiet_any; [|done]. silently.
Qed.
Lemma quiet_holds present scope id : quiet (OnDemandService.releaseOnDemandHolds present scope id : WIO unit).
Proof.
  unfold OnDemandService.releaseOnDemandHolds. silently. match goal with |- quiet (OnDemandService.suspendHeld ?l) => induction l as [|g l IH] end.
  - apply quiet_still, still_ret.
  - cbn [OnDemandService.suspendHeld]. apply quiet_then; [silently|done|done].
Qed.
Lemma quiet_change id name key revision err verified : quiet (OperationAlerts.observedChange id name key revision err verified : WIO _).
Proof. apply quiet_still. unfold OperationAlerts.observedChange. destruct err; [quietly idtac|]. destruct (_ || _); quietly idtac. Qed.
Lemma quiet_changes request revisions err verified keys : quiet (observedAll request revisions err verified keys : WIO _).
Proof.
  induction keys as [|key keys IH]; cbn [observedAll]; [silently|]. apply quiet_then; [apply quiet_change| |done].
  intros a. apply quiet_then; [done|intros; silently|done].
Qed.
Lemma does_unheld Q request (m : WIO Result) : does Q m → Q [] [] → does Q (unheld demand request m).
Proof.
  intros Hm H0. unfold unheld. apply quiet_then; [apply does_attempt, quiet_holds| |done].
  intros [u|x]; [done|]. apply quiet_any; [silently|done].
Qed.
Lemma does_observed Q request revisions run verify :
  does Q run → still verify → Q [] [] → does Q (observed demand request revisions run verify).
Proof.
  intros Hrun Hv H0. unfold observed. apply does_unheld; [|done]. apply does_then; [done|]. intros [output err].
  apply quiet_then; [|intros verified; apply quiet_then; [apply quiet_changes|intros; silently|done]|done].
  destruct err; [silently|]. destruct (0 <? size revisions)%nat; [by apply quiet_still|silently].
Qed.
(** A batch goes through all of its containers. *)
Definition unfailing {A} (m : WIO A) : Prop := ∀ s n, is_ok (m s n).1 = true.
Lemma unfailing_attempt {A} (m : WIO A) : unfailing (attempt m).
Proof. intros s n. unfold attempt. by destruct (m s n). Qed.
Lemma unfailing_bind {A B} (m : WIO A) (k : A → WIO B) : unfailing m → (∀ a, unfailing (k a)) → unfailing (m ≫= k).
Proof. intros Hm Hk s n. specialize (Hm s n). unfold mbind, M_bind. destruct (m s n) as [[a|x] [s1 n1]]; [apply Hk|done]. Qed.
Lemma unfailing_verify q id action : unfailing (verifyContainerAction q id action).
Proof. unfold verifyContainerAction. apply unfailing_bind; [apply unfailing_attempt|]. by intros a s n. Qed.
Lemma unfailing_change id name key revision err verified : unfailing (OperationAlerts.observedChange id name key revision err verified).
Proof. unfold OperationAlerts.observedChange. intros s n. destruct err; [done|]. by destruct (_ || _). Qed.
Lemma surely_then {A B} (Q1 Q2 Q : _ → _ → Prop) (m : WIO A) (k : A → WIO B) :
  does Q1 m → unfailing m → (∀ a, does Q2 (k a)) → (∀ l d l' d', Q1 l d → Q2 l' d' → Q (l ++ l') (d ++ d')) → does Q (m ≫= k).
Proof.
  intros Hm Hf Hk HQ s n. specialize (Hm s n). specialize (Hf s n). unfold mbind, M_bind. destruct (m s n) as [[a|x] [s1 n1]]; [|done].
  destruct Hm as ([U1 U2] & l & d & H1 & H2 & H3). destruct (Hk a s1 n1) as ([V1 V2] & l' & d' & H4 & H5 & H6). cbn in *.
  split; [split; congruence|]. exists (l ++ l'), (d ++ d'). rewrite H4, H5, H1, H2, !app_assoc. eauto.
Qed.
Definition one_by_one (q : ComposeRequest) (action : string) (rows : list ContainerSummary) : list RuntimeCall :=
  (λ row, CallContainer q (SumID row) action) <$> rows.
Lemma does_batch request q revisions action rows : ∀ acc,
  does (λ l d, l = one_by_one q action rows ∧ d = []) (batch request q revisions action rows acc).
Proof.
  induction rows as [|row rows IH]; intros acc; cbn [batch]; [apply quiet_any; [silently|done]|].
  eapply surely_then; [apply does_attempt, does_act|apply unfailing_attempt| |].
  2:{ intros l d l' d' [-> ->] Q. exact Q. }
  intros r. eapply (surely_then none); [apply quiet_if; [apply quiet_still, ctl_verifyContainer_still|silently]| | |].
  { match goal with |- unfailing (if ?b then _ else _) => destruct b end; [apply unfailing_verify|done]. }
  2:{ intros l d l' d' [-> ->] Q. exact Q. }
  intros verified. eapply (surely_then none); [apply quiet_change|apply unfailing_change|intros changes; apply IH|].
  intros l d l' d' [-> ->] [-> ->]. done.
Qed.
Lemma does_repository action : quiet (repositoryWork action).
Proof. unfold repositoryWork. silently. destruct (action =? "fetch")%string; [|destruct (action =? "pull")%string]; apply quiet_still, ctl_part_still; eauto with still. Qed.

(** A deployment validates, digests and deploys the stack that was asked, no
    further than the first failure. *)
Definition ofStack (q : ComposeRequest) (c : DeployCall) : Prop :=
  Deployments.CStackDir c.1.2 = Deployments.CStackDir q ∧ Deployments.CProjectName c.1.2 = Deployments.CProjectName q ∧
  Deployments.CEnvironment c.1.2 = Deployments.CEnvironment q.
Definition deployment_of (recreate : bool) (q : ComposeRequest) : list RuntimeCall → list DeployCall → Prop := λ l d,
  l = [] ∧ (d = [] ∨ Forall (ofStack q) d ∧ ∃ cs k, d.*1.*1 = cs ++ [k] ∧ (cs, k) ∈ DeploymentLaws.sequences recreate).
Lemma does_deploy id operationID action target q :
  does (deployment_of (action =? "recreate")%string q) (deploy stored id operationID action target q).
Proof.
  unfold deploy. apply quiet_then; [silently| |split; [done|by left]]. intros status.
  apply quiet_then; [silently| |split; [done|by left]]. intros head.
  apply quiet_then; [silently| |split; [done|by left]]. intros diff.
  apply quiet_then; [silently| |split; [done|by left]]. intros o.
  apply does_then.
  2:{ intros [d err]. silently. }
  intros [db r] n. unfold zoom. set (dr := deployRequest _ _ _ _ _ _ _ _).
  destruct (DeploymentLaws.DeployLocked_recorded dr (view (db, r)) n) as (d & err & e' & n' & E & (cs & k & x & Hc & Hseq & Hall & _) & Hco).
  rewrite E. cbn. split; [split; [exact Hco|done]|]. exists [], (cs ++ [(k, DeploymentLaws.requestOf dr, x)]). split; [by rewrite app_nil_r|].
  split; [exact Hc|]. split; [done|]. right. split.
  - apply Forall_app. split; [|by constructor]. eapply Forall_impl; [exact Hall|]. intros c [Hq _]. unfold ofStack. by rewrite Hq.
  - exists cs.*1.*1, k. by rewrite !fmap_app.
Qed.

(** ** Requests of users *)
Inductive UserRequest :=
| AskAction (id action : string) | AskReviewed (id expected : string)
| AskContainer (id containerID action : string) | AskBatch (id : string) (containerIDs : list string) (action : string)
| AskRepository (action : string).
Definition scopeOf (q : UserRequest) : string :=
  match q with AskAction id _ | AskReviewed id _ | AskContainer id _ _ | AskBatch id _ _ => id | AskRepository _ => "" end.
Definition onStack (q : UserRequest) : bool := match q with AskRepository _ => false | _ => true end.
Definition start (publisher : option bool) (q : UserRequest) : M Env Started :=
  match q with
  | AskAction id action => StartAction root stateful stored demand logging reader publisher id action
  | AskReviewed id expected => StartReviewedDeployment root stored demand reader publisher id expected
  | AskContainer id containerID action => StartContainerAction root demand reader publisher id containerID action
  | AskBatch id containerIDs action => StartContainerBatchAction root demand reader publisher id containerIDs action
  | AskRepository action => StartRepositoryAction publisher action
  end.
(** What the operation of a request may do, given the request that the runtime
    is sent. *)
Definition allowed (q : UserRequest) (cq : ComposeRequest) : list RuntimeCall → list DeployCall → Prop :=
  match q with
  | AskAction _ action =>
    if isOneOf action ["deploy"; "recreate"]%string then deployment_of (action =? "recreate")%string cq else unless_held (callOf action cq)
  | AskReviewed _ _ => deployment_of false cq
  | AskContainer _ containerID action => unless_held [CallContainer cq containerID action]
  | AskBatch _ containerIDs action => unless_held ((λ id, CallContainer cq id action) <$> containerIDs)
  | AskRepository _ => none
  end.
(** The runtime is asked about the stack of the request. *)
Definition describes (db : DB) (id : string) (cq : ComposeRequest) : Prop :=
  ∃ target, stacks db !! id = Some target ∧ Deployments.CProjectName cq = ComposeProjectName target ∧
    Deployments.CStackDir cq = stackDir root (DirectoryName target) ∧ Deployments.CEnvironment cq = OperationStore.environmentOf db id.
Definition asked (db : DB) (q : UserRequest) : list RuntimeCall → list DeployCall → Prop := λ l d,
  (l = [] ∧ d = []) ∨ ∃ cq, allowed q cq l d ∧ (onStack q = true → describes db (scopeOf q) cq).
Lemma environment_ok id (db : DB) n v db' n' :
  OperationStore.Environment id db n = (Ok v, (db', n')) → v = OperationStore.environmentOf db id.
Proof.
  unfold OperationStore.Environment. intros H0. apply bind_ok in H0 as (? & ? & ? & Hq & H0).
  apply call_ok in Hq as [Hq _]. case_match; [|done]. injection Hq as _ <-. by apply query_ok in H0 as (-> & _ & _).
Qed.
Lemma byID_ok id (db : DB) n t db' n' : OperationStore.ByID id db n = (Ok t, (db', n')) → stacks db !! id = Some t.
Proof. unfold OperationStore.ByID. intros H0. apply call_ok in H0 as [H0 _]. case_match; by simplify_eq. Qed.
(** What [describe] and [inspectable] answer. *)
Definition described (db : DB) (id : string) (a : Stack * ComposeRequest) : Prop :=
  stacks db !! id = Some a.1 ∧ a.2 = requestFor root a.1 (OperationStore.environmentOf db id).
Lemma described_describes db id a : described db id a → describes db id a.2.
Proof. intros [Hs ->]. by exists a.1. Qed.
Lemma describe_yields db id : yields db (describe root id) (described db id).
Proof.
  intros e n a e' n' Hdb H0. unfold describe in H0.
  apply bind_ok in H0 as (t & e1 & n1 & H1 & H0). apply zoomed_still in H1 as [H1 ->]; [|eauto with still].
  apply bind_ok in H0 as (v & e1 & n2 & H2 & H0). apply zoomed_still in H2 as [H2 ->]; [|eauto with still].
  apply ret_ok in H0 as (<- & _ & _). apply byID_ok in H1. apply environment_ok in H2 as ->. unfold described. cbn in *. by rewrite <-Hdb.
Qed.
Lemma inspectable_still id : still (inspectable root id : M Env _).
Proof. unfold inspectable. quietly idtac. Qed.
Lemma inspectable_yields db id : yields db (inspectable root id) (λ a, described db id a ∧ ArchivedAt a.1 = None).
Proof.
  intros e n a e' n' Hdb H0. unfold inspectable in H0.
  apply bind_ok in H0 as (t & e1 & n1 & H1 & H0). apply zoomed_still in H1 as [H1 ->]; [|eauto with still].
  apply bind_ok in H0 as (? & ? & ? & Hg & H0). apply guard_not_ok in Hg as (Hg & -> & ->).
  apply bind_ok in H0 as (v & e1 & n2 & H2 & H0). apply zoomed_still in H2 as [H2 ->]; [|eauto with still].
  apply ret_ok in H0 as (<- & _ & _). apply byID_ok in H1. apply environment_ok in H2 as ->. unfold described. cbn in *. rewrite <-Hdb.
  split; [done|]. by destruct (ArchivedAt t).
Qed.
Hint Resolve inspectable_still : still.
Lemma review_looks id target q : looks (reviewDeploymentLocked id target q : M Env _).
Proof.
  unfold reviewDeploymentLocked. apply looks_bind; [apply looks_still, still_lift|]. intros _.
  apply looks_bind; [apply looks_still; eauto with still|]. intros digest. apply looks_bind; [apply looks_still; apply ctl_part_still; unfold Repository.Head; eauto with still|].
  intros hd. apply looks_bind; [apply looks_still; apply ctl_part_still; unfold Repository.Diff; eauto with still|]. intros df.
  apply looks_bind; [|intros; apply looks_still, still_ret]. unfold sign. apply looks_bind.
  - intros e n. unfold reviewKeyOnce, part, zoom. cbn. destruct (reviewKey (Operations.rest e)) as [k|] eqn:Ek.
    + exists (Some k). cbn. destruct e as [? ? ? ? []]. cbn in Ek. by subst.
    + unfold rand_read. destruct (fault n); by eexists.
  - intros [k|x]; apply looks_still; quietly idtac.
Qed.
Lemma reviewed_looks id target q expected : looks (reviewed id target q expected : M Env _).
Proof. unfold reviewed. apply looks_bind; [apply review_looks|]. intros a. apply looks_still, still_lift. Qed.
Lemma running_still id target q : still (running stateful id target q : M Env _).
Proof. unfold running. quietly idtac. Qed.
Lemma operationID_still : still (NewOperationID : M Env _).
Proof. unfold NewOperationID. quietly idtac. Qed.
Lemma allowed_nothing q cq : allowed q cq [] [].
Proof.
  destruct q as [id action|id expected|id c action|id ids action|action]; cbn [allowed]; try (split; [by left|done]).
  - destruct (isOneOf action _); [split; [done|by left]|split; [by left|done]].
  - split; [done|by left].
  - done.
Qed.

Section requests.
Context (publisher : option bool) (db : DB).
Notation settled_by q := (settles db (does (asked db q)) (scopeOf q)).
Notation started_by q := (starts db (does (asked db q))).
Lemma observed_asked q cq request revisions run verify :
  describes db (scopeOf q) cq → does (allowed q cq) run → still verify → does (asked db q) (observed demand request revisions run verify).
Proof.
  intros Hd Hrun Hv. apply (does_weaken (allowed q cq)); [apply does_observed; [done|done|apply allowed_nothing]|]. intros l d Ha. right. by exists cq.
Qed.
Lemma deployment_starts q id action expected :
  scopeOf q = id → id ≠ ""%string → (∀ cq l d, deployment_of (action =? "recreate")%string cq l d → allowed q cq l d) →
  settled_by q (startDeployment root stored demand reader publisher id action expected).
Proof.
  intros Hs Hid Hq. rewrite Hs. apply settles_admission; [by right|]. intros gr.
  apply (starts_knowing _ _ (described db id)); [apply looks_still; eauto with still|apply describe_yields|]. intros [target cq] Hd.
  apply starts_bind; [destruct expected; [apply reviewed_looks|apply looks_still, still_ret]|]. intros _.
  apply starts_bind; [apply looks_still, operationID_still|]. intros operationID. apply startObserved_starts. intros request revisions.
  apply (observed_asked q cq); [rewrite Hs; exact (described_describes _ _ _ Hd)| |apply ctl_verify_still].
  apply does_spoken. eapply does_weaken; [apply does_deploy|apply Hq].
Qed.
Lemma action_starts id action : id ≠ ""%string → settled_by (AskAction id action) (start publisher (AskAction id action)).
Proof.
  intros Hid. cbn [start scopeOf]. unfold StartAction.
  destruct (isOneOf action ["deploy"; "recreate"]%string) eqn:Hdep.
  { apply deployment_starts; [done..|]. intros cq l d. cbn [allowed]. by rewrite Hdep. }
  apply (settles_knowing _ _ (described db id)); [eauto with still|apply describe_yields|]. intros [target cq] Hd. cbv beta iota.
  destruct (isOneOf action ["validate"; "status"; "start"; "stop"; "restart"; "pull"; "logs"]%string); [|apply settles_fail].
  apply settles_admission; [by right|]. intros gr. apply starts_bind; [apply looks_still|].
  { destruct (isOneOf action ["stop"; "restart"]%string); [apply running_still|apply still_ret]. }
  intros _. apply startObserved_starts. intros request revisions.
  apply (observed_asked (AskAction id action) cq); [exact (described_describes _ _ _ Hd)| |apply ctl_verify_still].
  cbn [allowed]. rewrite Hdep. apply does_perform.
Qed.
Lemma container_starts id c action : id ≠ ""%string → settled_by (AskContainer id c action) (start publisher (AskContainer id c action)).
Proof.
  intros Hid. cbn [start scopeOf]. unfold StartContainerAction. apply settles_guard. intros _.
  apply settles_admission; [by right|]. intros gr.
  apply (starts_knowing _ _ (λ a, described db id a ∧ ArchivedAt a.1 = None)); [apply looks_still, inspectable_still|apply inspectable_yields|].
  intros [target cq] [Hd _]. apply starts_bind; [apply looks_still; eauto with still|]. intros rows.
  destruct (ownedRow (ComposeProjectName target) c rows) as [row|]; [|apply starts_fail].
  apply starts_bind; [apply looks_still, still_lift|]. intros _. apply startObserved_starts. intros request revisions.
  apply (observed_asked (AskContainer id c action) cq); [exact (described_describes _ _ _ Hd)| |apply ctl_verifyContainer_still].
  apply does_silent, does_act_once.
Qed.
(** The rows of a selection are those of its containers. *)
Lemma owned_ids project rows id row : ownedRows project rows !! id = Some row → SumID row = id ∧ row ∈ rows ∧ Project row = project.
Proof.
  unfold ownedRows, ownedBy.
  assert (∀ (m : gmap string ContainerSummary) l, (∀ r, r ∈ l → r ∈ rows ∧ Project r = project) →
    (∀ i r, m !! i = Some r → SumID r = i ∧ r ∈ rows ∧ Project r = project) →
    ∀ i r, foldl (λ m r, <[SumID r := r]> m) m l !! i = Some r → SumID r = i ∧ r ∈ rows ∧ Project r = project) as Hf.
  { intros m l. revert m. induction l as [|r l IH]; intros m Hl Hm; [exact Hm|]. cbn [foldl]. apply IH; [intros; apply Hl; by right|].
    intros i r'. destruct (decide (SumID r = i)) as [<-|Hne].
    - rewrite lookup_insert_eq. intros [= <-]. split; [done|]. apply Hl. left.
    - rewrite lookup_insert_ne by done. apply Hm. }
  apply (Hf ∅ _); [|intros i r Hi; by rewrite lookup_empty in Hi]. intros r Hr. by apply list_elem_of_filter in Hr as [].
Qed.
Lemma selection_ids project rows action ids selection :
  selectRows (ownedRows project rows) action ids = Ok selection →
  SumID <$> selection = ids ∧ Forall (λ row, row ∈ rows ∧ Project row = project ∧ containerActionAllowed (ToLower (State row)) action = true) selection.
Proof.
  revert selection. induction ids as [|id ids IH]; intros selection; cbn [selectRows]; [intros [= <-]; by split|].
  destruct (ownedRows project rows !! id) as [row|] eqn:Ho; [|done]. intros H0. apply result_bind_ok in H0 as ([] & H1 & H0).
  apply reject_if_ok in H1 as H1. apply result_bind_ok in H0 as (rest & H2 & [= <-]). apply owned_ids in Ho as (Hi & Hr & Hp).
  destruct (IH _ H2) as [<- Hall]. cbn. rewrite Hi. split; [done|]. constructor; [|done]. by destruct (containerActionAllowed _ _).
Qed.
Lemma batch_starts id ids action : id ≠ ""%string → settled_by (AskBatch id ids action) (start publisher (AskBatch id ids action)).
Proof.
  intros Hid. cbn [start scopeOf]. unfold StartContainerBatchAction. do 3 (apply settles_guard; intros _).
  apply settles_admission; [by right|]. intros gr.
  apply (starts_knowing _ _ (λ a, described db id a ∧ ArchivedAt a.1 = None)); [apply looks_still, inspectable_still|apply inspectable_yields|].
  intros [target cq] [Hd _]. apply starts_bind; [apply looks_still; eauto with still|]. intros rows.
  apply (starts_knowing _ _ (λ l, SumID <$> l = ids)); [apply looks_still, still_lift| |].
  { intros e n a e' n' _ (Hl & _ & _)%lift_ok. by apply selection_ids in Hl as []. }
  intros selection <-. apply starts_bind; [apply looks_still, operationID_still|]. intros operationID. cbv zeta.
  apply starts_bind; [apply looks_still, still_zoom, OperationAlerts.still_previousAlerts|]. intros revisions. apply startTracked_starts.
  eapply does_weaken.
  - apply (does_unheld (unless_held (one_by_one cq action selection))); [|by split; [left|]]. eapply does_weaken; [apply does_batch|].
    intros l d [-> ->]. by split; [right|].
  - intros l d [Hl ->]. right. exists cq. split; [|intros _; exact (described_describes _ _ _ Hd)]. split; [|done].
    unfold one_by_one in Hl. by rewrite <-list_fmap_compose.
Qed.
Lemma repository_starts action : settled_by (AskRepository action) (start publisher (AskRepository action)).
Proof.
  cbn [start scopeOf]. unfold StartRepositoryAction. apply settles_guard. intros _. apply settles_admission; [by left|]. intros gr.
  apply startTracked_starts. eapply does_weaken; [apply does_repository|]. intros l d Hn. by left.
Qed.
Lemma requests_settle q : (onStack q = true → scopeOf q ≠ ""%string) → settled_by q (start publisher q).
Proof.
  intros Hid. destruct q as [id action|id expected|id c action|id ids action|action].
  - apply action_starts. by apply Hid.
  - apply (deployment_starts (AskReviewed id expected)); [done|by apply Hid|done].
  - apply container_starts. by apply Hid.
  - apply batch_starts. by apply Hid.
  - apply repository_starts.
Qed.
End requests.

(** ** From the request to the end of its operation *)
Section course.
Context (Error : error → string) (publisher : option bool) (maxOutput : Z).
Definition ended (o : Operation) : Prop := Data.Status o ∈ [OperationSucceeded; OperationFailed; OperationCancelled].
Definition carriedOut (s : Started) : M Env (option (result Operation)) :=
  Tracked.carryOut Error publisher maxOutput (SRequest s) (SWork s) (SOperation s) (SGrant s).
Lemma conclude_ends o secrets discard res t : ended (Operations.conclude Error maxOutput o secrets discard res t).1.
Proof.
  unfold Operations.conclude, Operations.classify, ended. destruct (RErr res) as [x|]; [destruct (_ || _)|]; cbn; set_solver.
Qed.
Lemma ended_course (P : list RuntimeCall → list DeployCall → Prop) w s gr (e0 e1 : Env) n :
  does P w → P [] [] → SWork s = Tracked.asWork w → SGrant s = gr →
  OpID (SOperation s) ∉ Operations.completed (service (Operations.rest e0)) →
  Operations.rest e1 = put (Operations.addJob (OpID (SOperation s)) (service (Operations.rest e0))) (Operations.rest e0) →
  ∃ answer e2 n2, carriedOut s e1 n = (Ok (Some answer), (e2, n2)) ∧
    view e2 = Coordinator.release (view e0) gr ∧ (∀ o, answer = Ok o → OpID o = OpID (SOperation s) ∧ ended o) ∧
    ∃ l d, (calls (Operations.rest e2)).*1 = (calls (Operations.rest e0)).*1 ++ l ∧
      deployed (Operations.rest e2) = deployed (Operations.rest e0) ++ d ∧ P l d.
Proof.
  intros Hw H0 HS Hgr Hnew Hr.
  destruct (Tracked.carried_out Error publisher maxOutput (SRequest s) (SWork s) (SOperation s) (SGrant s) e1 n (service (Operations.rest e0)) Hnew)
    as (answer & e2 & n2 & s' & E & Hacc).
  { by rewrite Hr. }
  { intros db k. rewrite HS. unfold Tracked.asWork. destruct (Hw (db, Operations.rest e1) k) as [[_ Hsv] _].
    destruct (w (db, Operations.rest e1) k) as [[x|x] [s2 n3]]; exact Hsv. }
  exists answer, e2, n2. split; [exact E|]. rewrite Hgr in Hacc.
  destruct (OperationStore.UpdateOperation _ _ _) as [[u|x] [db1 m1]].
  2:{ destruct Hacc as (-> & _ & Hrest). rewrite Hr in Hrest. split_and!; [|by intros ? [=]|].
      - cbn. by rewrite Hrest.
      - exists [], []. rewrite Hrest. cbn. by rewrite !app_nil_r. }
  rewrite HS in Hacc. unfold Tracked.asWork in Hacc. destruct (Hw (db1, Operations.rest e1) m1) as ([Hco _] & l & d & Hl & Hd & HP).
  rewrite Hr in Hco, Hl, Hd, Hacc. destruct (w _ m1) as [[res|x] [[db2 x2] n3]]; cbn [fst snd] in Hco, Hl, Hd, Hacc.
  all: match type of Hacc with context [Operations.conclude ?E ?m ?o ?sc ?di ?re ?t] =>
    pose proof (conclude_ends o sc di re t) as Hend; destruct (Operations.conclude E m o sc di re t) as [o2 result2] end.
  all: destruct Hacc as (Hid & Hrest & Hacc); (split; [cbn; rewrite Hrest; cbn; by rewrite Hco|]); split; [|exists l, d; rewrite Hrest; exact (conj Hl (conj Hd HP))].
  all: intros o Ho; destruct (OperationStore.CompleteOperation _ _ _ _) as [[?|?] [? ?]]; destruct Hacc as [-> _]; [|discriminate Ho]; by injection Ho as <-.
Qed.

(** C6. A request of a user is refused without a trace, but for the key of the
    deployment reviews, or accepted before anything is done: its stack is held
    until its operation has ended, which it does, with a final status if the
    store records it; the lock is then as it was before.  All that is asked of
    the runtime in between is what the user asked for: one call on the stack of
    the request, for a batch one call for each container in the order of the
    selection, for a deployment its validation, digest and recreation in this
    order; or nothing. *)
Theorem requests_do_what_was_asked q (e : Env) n r e1 n1 :
  (onStack q = true → scopeOf q ≠ ""%string) →
  Forall (λ id, is_Some (operations (Operations.store e) !! id)) (Operations.completed (service (Operations.rest e))) →
  start publisher q e n = (r, (e1, n1)) →
  match r with
  | Err _ => ∃ k, Operations.store e1 = Operations.store e ∧ Operations.rest e1 = Operations.rest (with_key k e)
  | Ok s =>
    calls (Operations.rest e1) = calls (Operations.rest e) ∧ deployed (Operations.rest e1) = deployed (Operations.rest e) ∧
    (onStack q = true → scopeOf q ∈ Coordinator.stacks (view e1)) ∧
    ∃ answer e2 n2, carriedOut s e1 n1 = (Ok (Some answer), (e2, n2)) ∧
      view (A := Coordinator.Coordinator) e2 = view e ∧ (∀ o, answer = Ok o → OpID o = OpID (SOperation s) ∧ ended o) ∧
      ∃ l d, (calls (Operations.rest e2)).*1 = (calls (Operations.rest e)).*1 ++ l ∧
        deployed (Operations.rest e2) = deployed (Operations.rest e) ++ d ∧ asked (Operations.store e) q l d
  end.
Proof using All.
  intros Hid Hjobs Hs. pose proof (requests_settle publisher (Operations.store e) q Hid e n eq_refl) as [k Ha]. rewrite Hs in Ha.
  destruct r as [s|x]; [|by exists k].
  destruct Ha as (c & gr & Hrel & Hin & (w & HS & Hw) & Hgr & _ & Hfree & _ & Hrest).
  split; [by rewrite Hrest|]. split; [by rewrite Hrest|]. split.
  { intros Ho. cbn. rewrite Hrest. cbn. by apply Hin, Hid. }
  destruct (ended_course _ w s gr (with_key k (put c e)) e1 n1 Hw) as (answer & e2 & n2 & E & Hco & Hend & l & d & Hl & Hd & HP); [|done..| |done|].
  - by left.
  - intros Hin'. rewrite Forall_forall in Hjobs. destruct (Hjobs _ Hin') as [o Ho]. cbn in Hfree. congruence.
  - exists answer, e2, n2. split; [done|]. split; [by rewrite Hco|]. split; [done|]. by exists l, d.
Qed.
End course.

(** ** What is accepted *)
Section conditions.
Context (publisher : option bool).
Definition requested (db : DB) (id : string) (target : Stack) : ComposeRequest := requestFor root target (OperationStore.environmentOf db id).
Definition active_ (db : DB) (id : string) (target : Stack) : Prop := stacks db !! id = Some target ∧ ArchivedAt target = None.
(** What Docker has reported of the stack at some moment. *)
Definition shown (db : DB) (id : string) (target : Stack) (rows : list ContainerSummary) : Prop :=
  ∃ t, Status (requested db id target) t = Ok rows.
Definition actionable (target : Stack) (action : string) (rows : list ContainerSummary) (row : ContainerSummary) : Prop :=
  row ∈ rows ∧ Project row = ComposeProjectName target ∧ containerActionAllowed (ToLower (State row)) action = true.
(** The source of a deployment, and its revision under a key. *)
Definition source (git : G) (db : DB) (id : string) (target : Stack) (digest head diff : string) : Prop :=
  ∃ t, Deployments.Digest (requested db id target) t = Ok digest ∧ Repository.gHead git (S t) = Ok head ∧
    Repository.gDiff git (DirectoryName target) (S (S t)) = Ok diff.
Definition revision (id : string) (target : Stack) (digest head diff key : string) : string :=
  mac key (encodePayload (payloadOf id target digest head diff)).
Definition fitting_request (git : G) (db : DB) (q : UserRequest) : Prop :=
  match q with
  | AskAction id action =>
    if isOneOf action ["stop"; "restart"]%string then
      ∃ target rows, active_ db id target ∧ shown db id target rows ∧
        existsb (λ d, (DepStatus d =? DeploymentSucceeded)%string) (OperationStore.deploymentsOf db id) = true ∧
        AggregateRuntime (parseContainerStates (ownedBy (ComposeProjectName target) rows)) = RuntimeRunning
    else True
  | AskReviewed id expected => ∃ target digest head diff key, active_ db id target ∧ source git db id target digest head diff ∧
      expected = revision id target digest head diff key
  | AskContainer id containerID action => ∃ target rows row, active_ db id target ∧ shown db id target rows ∧
      actionable target action rows row ∧ SumID row = containerID
  | AskBatch id containerIDs action => 0 < length containerIDs ≤ 20 ∧ NoDup containerIDs ∧ Forall (λ c, plainID c = true) containerIDs ∧
      ∃ target rows selection, active_ db id target ∧ shown db id target rows ∧ SumID <$> selection = containerIDs ∧
        Forall (actionable target action rows) selection
  | AskRepository action => action ∈ ["fetch"; "pull"; "push"]%string
  end.
Lemma admitted_ok repo id (e : Env) n gr e' n' :
  Tracked.admitted repo id e n = (Ok gr, (e', n')) → Operations.store e' = Operations.store e ∧
  Repository.git (repository (Operations.rest e')) = Repository.git (repository (Operations.rest e)) ∧ n' = n.
Proof. unfold Tracked.admitted. destruct (Coordinator.Try (view e) repo id) as [c [g|x]]; [|done]. by intros [= _ <- <-]. Qed.
Lemma held_ok {A} gr (m : M Env A) e n a e' n' : Tracked.held gr m e n = (Ok a, (e', n')) → m e n = (Ok a, (e', n')).
Proof.
  unfold Tracked.held, catch, mbind, M_bind. destruct (m e n) as [[b|x] [e1 n1]]; [done|].
  unfold Tracked.releases, zoom. done.
Qed.
(** A lookup of the stack that the acceptance went through. *)
Lemma asked_of f e n rows e' n' : (ask f : M Env (list ContainerSummary)) e n = (Ok rows, (e', n')) → f n = Ok rows ∧ e' = e ∧ n' = S n.
Proof. unfold ask. by intros [= -> <- <-]. Qed.
Lemma validSelection_spec ids : ∀ seen, validSelection seen ids = true →
  NoDup ids ∧ Forall (λ c, plainID c = true) ids ∧ ∀ id, id ∈ ids → id ∉ seen.
Proof.
  induction ids as [|id ids IH]; intros seen; cbn [validSelection].
  { intros _. split; [constructor|]. split; [constructor|]. by intros ? ?%elem_of_nil. }
  intros [[Hp Hs%negb_true_iff%bool_decide_eq_false]%andb_prop Hv]%andb_prop. apply IH in Hv as (H1 & H2 & H3).
  split_and!.
  - constructor; [|done]. intros Hin. apply H3 in Hin. set_solver.
  - by constructor.
  - intros i [->|Hin]%elem_of_cons; [done|]. apply H3 in Hin. set_solver.
Qed.
Lemma running_ok id target q e n u e' n' :
  (running stateful id target q : M Env unit) e n = (Ok u, (e', n')) → ArchivedAt target = None ∧ ∃ rows, Status q n = Ok rows ∧
    existsb (λ d, (DepStatus d =? DeploymentSucceeded)%string) (OperationStore.deploymentsOf (Operations.store e) id) = true ∧
    AggregateRuntime (parseContainerStates (ownedBy (ComposeProjectName target) rows)) = RuntimeRunning.
Proof.
  unfold running. intros H0. apply bind_ok in H0 as (? & ? & ? & H1 & H0). apply guard_not_ok in H1 as ([Ha _]%orb_false_iff & -> & ->).
  apply bind_ok in H0 as (rows & ? & ? & H1 & H0). apply asked_of in H1 as (H1 & -> & ->).
  apply bind_ok in H0 as (has & ? & ? & H2 & H0). apply zoomed_still in H2 as [H2 ->]; [|eauto with still].
  apply guard_not_ok in H0 as ([H3%negb_false_iff H4%negb_false_iff%bool_decide_eq_true]%orb_false_iff & -> & ->).
  apply query_ok in H2 as (-> & _ & _). split; [by destruct (ArchivedAt target)|]. by exists rows.
Qed.
Definition signed (e : Env) (n : nat) (id : string) (target : Stack) (q : ComposeRequest) (rev : string) (e' : Env) (digest head diff key : string) : Prop :=
  Deployments.Digest q n = Ok digest ∧
  Repository.gHead (Repository.git (repository (Operations.rest e))) (S n) = Ok head ∧
  Repository.gDiff (Repository.git (repository (Operations.rest e))) (DirectoryName target) (S (S n)) = Ok diff ∧
  rev = revision id target digest head diff key ∧ reviewKey (Operations.rest e') = Some (Ok key) ∧
  (∀ k, reviewKey (Operations.rest e) = Some k → k = Ok key).
Lemma review_ok id target q (e : Env) n review e' n' :
  reviewDeploymentLocked id target q e n = (Ok review, (e', n')) → ArchivedAt target = None ∧
  ∃ digest head diff key, signed e n id target q (SourceRevision review) e' digest head diff key ∧
    UncommittedChanges review = negb (diff =? "")%string.
Proof.
  intros H1. unfold reviewDeploymentLocked in H1.
  apply bind_ok in H1 as (? & ? & ? & Hg & H1). apply guard_not_ok in Hg as (Hg%bool_decide_eq_false & -> & ->).
  split; [by destruct (ArchivedAt target); [destruct Hg|]|].
  apply bind_ok in H1 as (digest & ? & ? & Hd & H1). unfold ask in Hd. injection Hd as Hd <- <-.
  apply bind_ok in H1 as (hd & ? & ? & Hh & H1). pose proof (still_run _ _ _ _ _ _ (ctl_part_still _ (ctl_use_still _)) Hh) as ->.
  unfold part, zoom, Repository.Head, Repository.useGit in Hh. cbn in Hh. injection Hh as Hh _ <-.
  apply bind_ok in H1 as (df & ? & ? & Hf & H1). pose proof (still_run _ _ _ _ _ _ (ctl_part_still _ (ctl_use_still _)) Hf) as ->.
  unfold part, zoom, Repository.Diff, Repository.useGit in Hf. cbn in Hf. injection Hf as Hf _ <-.
  apply bind_ok in H1 as (rev & ? & ? & Hs & H1). apply ret_ok in H1 as (<- & -> & ->).
  unfold sign in Hs. apply bind_ok in Hs as (k & e2 & n2 & Hk & Hs). destruct k as [key|]; [|done]. apply ret_ok in Hs as (<- & -> & ->).
  exists digest, hd, df, key. split; [|done]. unfold signed. split_and!; [done..| |].
  - unfold reviewKeyOnce, part, zoom in Hk. cbn in Hk. destruct (reviewKey (Operations.rest e)) as [k0|] eqn:Ek.
    + injection Hk as -> <- _. done.
    + unfold rand_read in Hk. destruct (fault _); [done|]. injection Hk as <- <- _. done.
  - intros k0 Ek. unfold reviewKeyOnce, part, zoom in Hk. cbn in Hk. rewrite Ek in Hk. by injection Hk as -> _ _.
Qed.
Lemma reviewed_ok id target q expected (e : Env) n u e' n' :
  reviewed id target q expected e n = (Ok u, (e', n')) → ArchivedAt target = None ∧
  ∃ digest head diff key, signed e n id target q expected e' digest head diff key.
Proof.
  unfold reviewed. intros H0. apply bind_ok in H0 as (review & e1 & n1 & H1 & H0).
  apply guard_not_ok in H0 as (Hsame%negb_false_iff%String.eqb_eq & -> & ->).
  apply review_ok in H1 as (Ha & digest & hd & df & key & Hsg & _). rewrite Hsame in Hsg. split; [done|]. by exists digest, hd, df, key.
Qed.


(** What the revision of a review stands for: texts that the JSON form keeps
    apart, and a code that does not collide. *)
Class ReviewLaws (text : string → Prop) : Prop := {
  mac_inj key a b : mac key a = mac key b → a = b;
  payload_inj a b : Forall text a → Forall text b → encodePayload a = encodePayload b → a = b;
  version_text : text "deployment-review-v1";
  digest_text q t d : Deployments.Digest q t = Ok d → text d;
  head_text git t h : Repository.gHead git t = Ok h → text h;
  hash_text d : text (fileDigest d);
}.
Lemma described_review db id (e : Env) n a e' n' :
  Operations.store e = db → (describe root id : M Env _) e n = (Ok a, (e', n')) → e' = e ∧ described db id a.
Proof. intros Hdb H1. split; [exact (still_run _ _ _ _ _ _ (ctl_describe_still id) H1)|by eapply describe_yields]. Qed.

End conditions.

(** ** What a batch reports *)
Section batch.
Context (request : Operations.OperationRequest) (q : ComposeRequest) (revisions : gmap Alert.Key Z) (action : string).
(** The calls of a batch with their moments, its lines, and its changes of
    alerts by container. *)
Definition called (row : ContainerSummary) (t : nat) : RuntimeCall * nat := (CallContainer q (SumID row) action, t).
Definition done_ (row : ContainerSummary) (t : nat) : bool := is_ok (Act (CallContainer q (SumID row) action) t).
Definition lineOf (row : ContainerSummary) (t : nat) : string := line (SumID row) (if done_ row t then "succeeded" else "failed").
Definition reports (row : ContainerSummary) (t : nat) (cs : list Alert.Change) : Prop :=
  let key := containerKey (Operations.RScopeID request) action row in
  Forall (λ c, Alert.CKey c = key ∧ Alert.COperationID c = Operations.RequestID request) cs ∧
  (if done_ row t
   then cs = [] ∨ (Alert.CKind <$> cs = ["recovery"%string] ∧ ∃ r, revisions !! key = Some r ∧ Alert.CExpectedRevision <$> cs = [r])
   else Alert.CKind <$> cs = ["failure"%string]).
Lemma batch_step row (s : DB * Rest G) n :
  ∃ cs n1 s1, act (CallContainer q (SumID row) action) s n = (Act (CallContainer q (SumID row) action) n, (s1, Datatypes.S n)) ∧
    calls s1.2 = calls s.2 ++ [called row n] ∧ reports row n cs ∧
    ∀ rows acc, batch request q revisions action (row :: rows) acc s n =
      batch request q revisions action rows (mkResult None None (ROutput acc +:+ lineOf row n)
        (if done_ row n then RErr acc else Some oneOrMore) (RAlerts acc ++ cs)) s1 n1.
Proof.
  eset (s1 := put (A := Rest G) (put (calls s.2 ++ [(CallContainer q (SumID row) action, n)]) s.2) s).
  assert (act (CallContainer q (SumID row) action) s n = (Act (CallContainer q (SumID row) action) n, (s1, Datatypes.S n))) as Hact by done.
  set (key := containerKey (Operations.RScopeID request) action row). unfold done_.
  assert (∃ v k, (if is_ok (Act (CallContainer q (SumID row) action) n) && (0 <? OperationAlerts.revisionOf revisions key)%Z
      then verifyContainerAction q (SumID row) action else mret false) s1 (Datatypes.S n) = (Ok v, (s1, k)) ∧
      (v = true → (0 < OperationAlerts.revisionOf revisions key)%Z)) as (v & k & Hv & Hvr).
  { destruct (is_ok _); cbn [andb]; [|by eexists false, _]. destruct (Z.ltb_spec 0 (OperationAlerts.revisionOf revisions key)); [|by eexists false, _].
    pose proof (unfailing_verify q (SumID row) action s1 (Datatypes.S n)) as Hu.
    pose proof (ctl_verifyContainer_still q (SumID row) action s1 (Datatypes.S n)) as Hst.
    destruct (verifyContainerAction q (SumID row) action s1 (Datatypes.S n)) as [[v|x] [s2 k]]; [|done]. cbn in Hst. subst s2. by exists v, k. }
  assert (∃ cs k', observedFor request revisions (errorOf (Act (CallContainer q (SumID row) action) n)) v key s1 k = (Ok cs, (s1, k')) ∧
    reports row n cs) as (cs & k' & Hc & Hrep).
  { unfold observedFor, OperationAlerts.observedChange, reports, done_. fold key.
    destruct (Act (CallContainer q (SumID row) action) n) as [u|x]; cbn [errorOf is_ok].
    - destruct v; cbn [negb orb]; [|exists [], k; split; [done|split; [constructor|by left]]].
      specialize (Hvr eq_refl). destruct (Z.eqb_spec (OperationAlerts.revisionOf revisions key) 0) as [|_]; [lia|].
      eexists _, _. split; [reflexivity|]. split; [by repeat constructor|]. right. split; [done|].
      unfold OperationAlerts.revisionOf in *. destruct (revisions !! key) as [r|]; [by exists r|cbn in Hvr; lia].
    - eexists _, _. split; [reflexivity|]. by split; [repeat constructor|]. }
  exists cs, k', s1. split; [done|]. split; [done|]. split; [done|]. intros rows acc. cbn [batch].
  unfold mbind at 1, M_bind at 1, attempt at 1. rewrite Hact. fold key.
  unfold mbind at 1, M_bind at 1. rewrite Hv. unfold mbind at 1, M_bind at 1. rewrite Hc. done.
Qed.

(** C9. A batch acts on every container of the selection once and in its order,
    whatever becomes of the others; it reports a line for each, succeeded or
    failed as Docker answered, fails exactly if one of them failed, and raises
    an alert for each container that failed and for no other: a container that
    succeeded resolves at most its own open alert. *)
Theorem batches_report_every_container rows (s : DB * Rest G) n :
  ∃ res (s' : DB * Rest G) n' ticks changes, batch request q revisions action rows (mkResult None None "" None []) s n = (Ok res, (s', n')) ∧
    length ticks = length rows ∧ calls s'.2 = calls s.2 ++ zip_with called rows ticks ∧
    ROutput res = foldr String.append ""%string (zip_with lineOf rows ticks) ∧
    (RErr res = None ↔ Forall (λ b, b = true) (zip_with done_ rows ticks)) ∧
    RAlerts res = concat changes ∧ Forall2 (λ rt, reports rt.1 rt.2) (zip rows ticks) changes.
Proof using All.
  assert (∀ rows acc s n, ∃ res (s' : DB * Rest G) n' ticks changes, batch request q revisions action rows acc s n = (Ok res, (s', n')) ∧
    length ticks = length rows ∧ calls s'.2 = calls s.2 ++ zip_with called rows ticks ∧
    ROutput res = (ROutput acc +:+ foldr String.append ""%string (zip_with lineOf rows ticks))%string ∧
    (RErr res = None ↔ RErr acc = None ∧ Forall (λ b, b = true) (zip_with done_ rows ticks)) ∧
    RAlerts res = RAlerts acc ++ concat changes ∧ Forall2 (λ rt, reports rt.1 rt.2) (zip rows ticks) changes) as Hgen.
  { clear. intros rows. induction rows as [|row rows IH]; intros acc s n.
    - exists acc, s, n, [], []. cbn. rewrite !app_nil_r. split_and!; try done; [by rewrite Redaction.append_nil|].
      split; [|by intros [? _]]. intros ->. by split; [|constructor].
    - destruct (batch_step row s n) as (cs & n1 & s1 & _ & Hcalls & Hrep & Hb). rewrite Hb.
      match goal with |- context [batch request q revisions action rows ?acc1 s1 n1] => destruct (IH acc1 s1 n1) as
        (res & s' & n' & ticks & changes & -> & Hlen & Hcs & Hout & Herr & Hal & Hall) end.
      exists res, s', n', (n :: ticks), (cs :: changes). cbn [zip_with foldr concat length]. split; [done|]. split; [by rewrite Hlen|].
      split; [by rewrite Hcs, Hcalls, <-app_assoc|]. split; [rewrite Hout; cbn; by rewrite Redaction.append_assoc|].
      split; [|split; [rewrite Hal; cbn; by rewrite app_assoc|by constructor]].
      rewrite Herr, Forall_cons. cbn. destruct (done_ row n); naive_solver. }
  destruct (Hgen rows (mkResult None None "" None []) s n) as (res & s' & n' & ticks & changes & E & H1 & H2 & H3 & H4 & H5 & H6).
  exists res, s', n', ticks, changes. split_and!; try done. rewrite H4. by split; [intros []|].
Qed.
End batch.
End laws.

(** ** A stack with one container that runs *)
Section example.
#[local] Existing Instance calm.
#[local] Instance ex_api : Compose.ComposeApi := {|
  Compose.ProjectLabel := "project"; Compose.ServiceLabel := "service"; Compose.ContainerNumberLabel := "number"; Compose.OneoffLabel := "oneoff";
  Compose.Port := Z * string; Compose.PortFrom n p := Some (n, p); Compose.Num := fst; Compose.Proto := snd |}.
Definition ex_row : ContainerSummary := mkSummary "c1" "web-app-1" "porty-web" "app" "running" "" "app:1" ∅ [] [].
#[local] Instance ex_runtime : RuntimeController := {|
  compose := {| Deployments.Validate _ _ := None; Deployments.Digest _ _ := Ok "sha256:1"%string; Deployments.Deploy_ _ _ _ := None |};
  Status _ _ := Ok [ex_row]; Logs _ _ _ := (""%string, None);
  ContainerLogs_ _ _ _ := Ok ""%string; ContainerInspect_ _ _ _ := Ok ""%string; Act _ _ := Ok tt |}.
#[local] Instance ex_loader : Loader := λ _ _, Ok (Updates.mkProject "porty-web" {["app"%string := Updates.zeroService]} ∅).
(** Texts of any kind, kept apart by their codes. *)
#[local] Instance ex_encoding : Encoding := {| encodeStatus _ := Ok "[]"%string; encodePayload l := pretty (Npos (encode l)) |}.
#[local] Instance ex_signing : Signing := λ key p, key +:+ p.
#[local] Instance ex_digest : FileHash := λ s, s.
#[local] Instance ex_git : Repository.GitRepository unit := {|
  Repository.gStatus _ _ := Ok (Repository.mkGitStatus true "main" false 0 0 []);
  Repository.gHead _ _ := Ok "abc"%string; Repository.gDiff _ _ _ := Ok ""%string; Repository.gCommit _ _ _ _ := Ok ""%string;
  Repository.gHistory _ _ _ := Ok []; Repository.gHistoryPage _ := None;
  Repository.gFetch _ _ := Ok tt; Repository.gPullFastForward _ _ := Ok tt; Repository.gPush _ _ := Ok tt |}.
#[local] Instance ex_review : ReviewLaws (G := unit) (λ _, True).
Proof.
  split; try done; [intros key a b; apply (inj (String.append key))|].
  intros a b _ _ E. cbn in E. apply (inj pretty) in E. injection E as E. by apply encode_inj in E.
Qed.
Definition ex_stack : Stack := mkStack "stk_1" "web" "porty-web" None 1%Z 1%Z.
Definition ex_deployment : Deployment := mkDeployment "dep_0" "stk_1" "" "abc" false "" "sha256:1" DeploymentSucceeded 1%Z 1%Z 0%Z "".
Definition ex_db : DB := set_deployments (set_stacks emptyDB {["stk_1" := ex_stack]}) {["dep_0" := ex_deployment]}.
Definition ex_rest : Rest unit :=
  mkRest (Repository.mkEnv (Repository.mkRepositoryDB (Repository.mkAppState "ready" None None None None None None) None)
    Coordinator.NewCoordinator tt true []) Operations.NewService Controller.NewController [] [] [] None.
Definition ex_env : Operations.Env (Rest unit) := Operations.mkEnv ex_db [] [] 0 ex_rest.
Definition ex_start (q : UserRequest) (e : Operations.Env (Rest unit)) : result Started * (Operations.Env (Rest unit) * nat) :=
  start "/srv" true true false true true (Some true) q e 0.
Definition ex_stop : UserRequest := AskBatch "stk_1" ["c1"%string] "stop".
Definition ex_course : result (option (result Operation)) * (Operations.Env (Rest unit) * nat) :=
  match ex_start ex_stop ex_env with
  | (Ok s, (e1, n1)) => carriedOut (λ _, ""%string) (Some true) 0 s e1 n1
  | (Err x, en) => (Err x, en)
  end.
Lemma ex_starts {A S} (x : result A * (S * nat)) : is_ok x.1 = true → ∃ s e1 n1, x = (Ok s, (e1, n1)).
Proof. destruct x as [[s|x] [e1 n1]]; [|done]. by exists s, e1, n1. Qed.
Lemma requests_do_what_was_asked_witness :
  ∃ s e1 n1 answer e2 n2, ex_start ex_stop ex_env = (Ok s, (e1, n1)) ∧
    carriedOut (λ _, ""%string) (Some true) 0 s e1 n1 = (Ok (Some answer), (e2, n2)) ∧ view (A := Coordinator.Coordinator) e2 = view ex_env ∧
    (calls (Operations.rest e2)).*1 = [CallContainer (requested "/srv" ex_db "stk_1" ex_stack) "c1" "stop"].
Proof.
  destruct (ex_starts (ex_start ex_stop ex_env)) as (s & e1 & n1 & E); [vm_compute; reflexivity|].
  assert (Forall (λ id, is_Some (operations (Operations.store ex_env) !! id)) (Operations.completed (service (Operations.rest ex_env)))) as Hj
    by constructor.
  destruct (requests_do_what_was_asked "/srv" true true false true true (λ _, ""%string) (Some true) 0 ex_stop ex_env 0 _ _ _
    (λ _, ltac:(discriminate)) Hj E) as (_ & _ & _ & answer & e2 & n2 & E2 & Hc & _).
  exists s, e1, n1, answer, e2, n2. split; [exact E|]. split; [exact E2|]. split; [exact Hc|].
  assert (e2 = ex_course.2.1) as -> by (unfold ex_course; rewrite E, E2; reflexivity). vm_compute. reflexivity.
Defined.
Definition ex_reviewed : result DeploymentReview * (Operations.Env (Rest unit) * nat) := ReviewDeployment "/srv" "stk_1" ex_env 0.
Definition ex_review_of : DeploymentReview := match ex_reviewed.1 with Ok r => r | Err _ => mkReview "" "" false end.
End example.
End ControlLaws.
