(* ===== verification/SelfGuardLaws.v ===== *)
(** * What the guard proves

    A project that passes was shown not to contain Porty's container; what was
    once found to be Porty's never passes again. *)
From S2P Require Import Prelude GoStrings Compose UpdateExample SelfGuard.

Module SelfGuardLaws.
Import Compose SelfGuard.

Section guard.
Context `{ComposeApi} `{G : GuardDocker} `{F : GuardFiles} `{T : TarReader} `{N : NativeNetwork}.
Notation IO := (M RuntimeGuard).

(** ** What a look at one container shows *)

(** The container does not hold the marker, and it was running after that was
    found out. *)
Definition without_marker (g : RuntimeGuard) (r : Summary) (n : nat) : Prop :=
  ∃ e, CopyFromContainer (RowID r) (path g) n = Err e ∧ IsNotFound e = true ∧
    ∃ c, ContainerInspect (RowID r) (S n) = Ok c ∧ InspectedID c = RowID r ∧ IsRunning c = Some true.
Definition with_marker (standalone : bool) (g : RuntimeGuard) (r : Summary) (n : nat) : Prop :=
  ∃ content, CopyFromContainer (RowID r) (path g) n = Ok (Some (Ok content)) ∧ isMarker g content = true ∧
    (project_of r ≠ "" ∨ standalone = true).
Definition looked (standalone : bool) (g : RuntimeGuard) (r : Summary) (f : Found) (n : nat) : Prop :=
  RowState r = "running" ∧ match f with Absent => without_marker g r n | Ours name => name = project_of r ∧ with_marker standalone g r n | Gone => True end.
Lemma inspectRow_spec standalone r g n f g' n' :
  inspectRow standalone r g n = (Ok f, (g', n')) → g' = g ∧ looked standalone g r f n ∧ n < n'.
Proof.
  unfold inspectRow, get, ask. intros E. apply bind_ok in E as (? & ? & ? & E1 & E).
  apply guard_not_ok in E1 as (Hr%negb_false_iff%String.eqb_eq & -> & ->). unfold mbind at 1 2, M_bind at 1 2 in E.
  destruct (CopyFromContainer (RowID r) (path g) n) as [[[content|e]|]|e] eqn:Ec; [|done..|].
  - apply bind_ok in E as (? & ? & ? & E1 & E). apply guard_not_ok in E1 as ([_ Hm%negb_false_iff]%orb_false_iff & -> & ->).
    apply bind_ok in E as (? & ? & ? & E1 & E). apply guard_not_ok in E1 as (Hp & -> & ->). apply ret_ok in E as (<- & -> & ->).
    split; [done|]. split; [|lia]. split; [done|]. split; [done|]. exists content. split_and!; [done..|].
    apply andb_false_iff in Hp as [Hp|Hp]; [left; by apply String.eqb_neq|right; by apply negb_false_iff].
  - apply bind_ok in E as (? & ? & ? & E1 & E). apply guard_not_ok in E1 as (Hn%negb_false_iff & -> & ->).
    unfold mbind at 1, M_bind at 1 in E. destruct (ContainerInspect (RowID r) (S n)) as [c|e'] eqn:Ei.
    + apply bind_ok in E as (? & ? & ? & E1 & E). apply guard_not_ok in E1 as ([H1%negb_false_iff%String.eqb_eq H2%negb_false_iff%bool_decide_eq_true]%orb_false_iff & -> & ->).
      apply ret_ok in E as (<- & -> & ->). split; [done|]. split; [|lia]. split; [done|]. exists e. split_and!; [done..|]. by exists c.
    + destruct (IsNotFound e'); [|done]. apply ret_ok in E as (<- & -> & ->). split; [done|]. split; [by split|lia].
Qed.
Lemma inspectRow_state standalone r g n : (inspectRow standalone r g n).2.1 = g.
Proof.
  unfold inspectRow, get, ask, unavailable, guard_not, fail, lift. unfold mbind, M_bind. destruct (reject_if _ _); [|done].
  destruct (CopyFromContainer _ _ n) as [[[content|e]|]|e]; [|done..|]; repeat (case_match; simplify_eq); done.
Qed.
(** Every row was looked at, between two moments. *)
Definition surveyed (standalone : bool) (g : RuntimeGuard) (rows : list Summary) (matched : gset string) (n n' : nat) : Prop :=
  ∀ r, r ∈ rows → ∃ k, n ≤ k < n' ∧ RowState r = "running" ∧
    (without_marker g r k ∨ (with_marker standalone g r k ∧ project_of r ∈ matched)).
Lemma inspectRows_spec standalone rows : ∀ matched ids g n matched' ids' g' n',
  inspectRows standalone matched ids rows g n = (Ok (Some (matched', ids')), (g', n')) →
  g' = g ∧ n ≤ n' ∧ matched ⊆ matched' ∧ surveyed standalone g rows matched' n n'.
Proof.
  induction rows as [|r rows IH]; intros matched ids g n matched' ids' g' n' E; simpl in E.
  - apply ret_ok in E as ([= <- <-] & -> & ->). split_and!; [done|lia|done|]. by intros r []%elem_of_nil.
  - apply bind_ok in E as (f & g1 & n1 & E1 & E). apply inspectRow_spec in E1 as (-> & [Hr Hf] & Hn).
    destruct f as [| |name]; [|done|].
    + apply IH in E as (-> & Hn' & Hm & Hs). split_and!; [done|lia|done|]. intros q [->|Hq]%elem_of_cons.
      * exists n. split_and!; [lia|lia|done|by left].
      * destruct (Hs q Hq) as (k & ? & ?). exists k. split; [lia|done].
    + destruct Hf as [-> Hf]. apply IH in E as (-> & Hn' & Hm & Hs). split_and!; [done|lia|set_solver|]. intros q [->|Hq]%elem_of_cons.
      * exists n. split_and!; [lia|lia|done|right; split; [done|set_solver]].
      * destruct (Hs q Hq) as (k & ? & ?). exists k. split; [lia|done].
Qed.

(** ** What the guard keeps *)
Definition keeps (g0 : RuntimeGuard) (g : RuntimeGuard) (_ : nat) : Prop :=
  path g = path g0 ∧ token g = token g0 ∧ protected g0 ⊆ protected g ∧ (daemon g0 = "" ∨ daemon g = daemon g0).
Lemma keeps_refl g n : keeps g g n.
Proof. split_and!; [done..|by right]. Qed.
Lemma keeps_same {A} g0 (m : IO A) : (∀ g n, (m g n).2.1 = g) → maintains (keeps g0) m.
Proof. intros Hm g n Hk. by rewrite Hm. Qed.
Lemma keeps_update g0 f : (∀ g, path (f g) = path g ∧ token (f g) = token g ∧ protected g ⊆ protected (f g) ∧ daemon (f g) = daemon g) →
  maintains (keeps g0) (update f).
Proof. intros Hf g n (H1 & H2 & H3 & H4). destruct (Hf g) as (F1 & F2 & F3 & F4). simpl. unfold keeps. rewrite F1, F2, F4. split_and!; [done..|set_solver|done]. Qed.
Lemma inspectRows_state standalone rows : ∀ matched ids g n, (inspectRows standalone matched ids rows g n).2.1 = g.
Proof.
  induction rows as [|r rows IH]; intros matched ids g n; [done|]. simpl. unfold mbind, M_bind.
  pose proof (inspectRow_state standalone r g n) as Hs. destruct (inspectRow standalone r g n) as [[[| |name]|x] [g1 n1]]; simpl in *; subst; auto.
Qed.
Ltac keep := walk ltac:(first
  [ apply keeps_same; first [done|apply inspectRows_state]
  | apply keeps_update; intros []; split_and!; simpl; first [done|set_solver] | idtac ]).
Lemma attemptOnce_keeps g0 project standalone : maintains (keeps g0) (attemptOnce project standalone).
Proof. unfold attemptOnce, unavailable. keep. Qed.
Lemma checkMarker_state g n : (checkMarker g n).2.1 = g.
Proof.
  unfold checkMarker, get, ask, unavailable, guard_not, lift, fail, mbind, M_bind. destruct (Lstat (path g) n); [|done].
  by destruct (reject_if _ _).
Qed.
Lemma checkDaemon_spec g n r g' n' : checkDaemon g n = (r, (g', n')) →
  (g' = g ∧ is_ok r = false) ∨ (r = Ok tt ∧ ∃ id, id ≠ "" ∧ (daemon g = "" ∨ daemon g = id) ∧ g' = mkGuard (path g) (token g) id (protected g) (matchedContainers g)).
Proof.
  unfold checkDaemon, ask, get, unavailable, update. unfold mbind, M_bind. destruct (GetInfo n) as [i|e]; [|intros [= <- <- _]; by left].
  unfold guard_not, lift, reject_if. destruct (_ || _) eqn:Eg; [intros [= <- <- _]; by left|]. intros [= <- <- _]. right. split; [done|].
  apply orb_false_iff in Eg as [H1%String.eqb_neq H2]. exists (DaemonID i). split; [done|]. split; [|done].
  destruct (String.eqb_spec (daemon g) ""); [by left|right]. simpl in H2. by apply negb_false_iff, String.eqb_eq in H2.
Qed.
Lemma checkDaemon_keeps g0 : maintains (keeps g0) checkDaemon.
Proof.
  intros g n Hk. destruct (checkDaemon g n) as [r [g' n']] eqn:E. simpl. apply checkDaemon_spec in E as [[-> _]|(_ & id & Hid & Hd & ->)]; [done|].
  destruct Hk as (H1 & H2 & H3 & H4). split_and!; [done..|]. simpl. destruct H4 as [|H4]; [by left|]. destruct Hd as [Hd|<-]; [left; congruence|by right].
Qed.
Lemma checkProject_keeps g0 project standalone : maintains (keeps g0) (checkProject project standalone).
Proof.
  unfold checkProject, unavailable. walk ltac:(first [apply attemptOnce_keeps|apply checkDaemon_keeps|apply keeps_same, checkMarker_state
    |apply keeps_update; intros []; split_and!; done|idtac]).
Qed.

(** ** One pass, and the whole check *)
Lemma forward_ask {A} (f : nat → A) : forward (ask f).
Proof. intros g n. simpl. lia. Qed.
Lemma forward_update f : forward (update f).
Proof. by intros g n. Qed.
Lemma forward_get : forward get.
Proof. by intros g n. Qed.
#[local] Hint Resolve forward_ask forward_update forward_get : pres.
Lemma inspectRow_forward standalone r : forward (inspectRow standalone r).
Proof. unfold inspectRow, unavailable. fwd. Qed.
#[local] Hint Resolve inspectRow_forward : pres.
Lemma inspectRows_forward standalone rows : ∀ matched ids, forward (inspectRows standalone matched ids rows).
Proof. induction rows as [|r rows IH]; intros matched ids; simpl; fwd; apply IH. Qed.
Lemma checkMarker_forward : forward checkMarker.
Proof. unfold checkMarker, unavailable. fwd. Qed.
Lemma checkDaemon_forward : forward checkDaemon.
Proof. unfold checkDaemon, unavailable. fwd. Qed.
Lemma attemptOnce_ok project standalone g n b g' n' : attemptOnce project standalone g n = (Ok b, (g', n')) →
  n < n' ∧ path g' = path g ∧ token g' = token g ∧
  (b = true → project ∉ protected g' ∧ ∃ rows after k, ContainerList n = Ok rows ∧ length rows ≤ 1024 ∧ n < k < n' ∧
     ContainerList k = Ok after ∧ containerMembership rows = containerMembership after ∧
     surveyed standalone g rows (protected g') n k).
Proof.
  intros E. pose proof (attemptOnce_keeps g project standalone g n (keeps_refl g n)) as Hk. rewrite E in Hk. destruct Hk as (Hp & Ht & _).
  assert (n < n' ∧ (b = true → project ∉ protected g' ∧ ∃ rows after k, ContainerList n = Ok rows ∧ length rows ≤ 1024 ∧ n < k < n' ∧
     ContainerList k = Ok after ∧ containerMembership rows = containerMembership after ∧
     surveyed standalone g rows (protected g') n k)) as [Hn Hb]; [|by split_and!]. clear Hp Ht. unfold attemptOnce in E.
  apply bind_ok in E as (rows & ? & ? & [= <- <- <-] & E). destruct (ContainerList n) as [rows|x] eqn:El; [|done].
  apply bind_ok in E as (? & ? & ? & E1 & E). apply guard_not_ok in E1 as (Hl%bool_decide_eq_false & -> & ->).
  apply bind_ok in E as (found & g1 & n1 & E1 & E). destruct found as [[matched ids]|].
  2:{ apply ret_ok in E as (<- & -> & ->). split; [|done]. pose proof (inspectRows_forward standalone rows ∅ [] g (S n)) as Hf. rewrite E1 in Hf. simpl in Hf. lia. }
  apply inspectRows_spec in E1 as (-> & Hn1 & _ & Hs). apply bind_ok in E as (after & ? & ? & [= <- <- <-] & E).
  destruct (ContainerList n1) as [after|y] eqn:Ea; [|apply ret_ok in E as (<- & -> & ->); split; [lia|done]].
  destruct (String.eqb_spec (containerMembership rows) (containerMembership after)) as [Em|]; cbn [negb] in E;
    [|apply ret_ok in E as (<- & -> & ->); split; [lia|done]].
  apply bind_ok in E as (final & ? & ? & [= <- <- <-] & E). apply bind_ok in E as (g0 & ? & ? & [= <- <- <-] & E).
  destruct (GetInfo (S n1)) as [i|y]; [|done].
  apply bind_ok in E as (? & ? & ? & E1 & E). apply guard_not_ok in E1 as (_ & -> & ->).
  apply bind_ok in E as (? & ? & ? & [= _ <- <-] & E). apply bind_ok in E as (g2 & ? & ? & [= <- <- <-] & E).
  apply bind_ok in E as (? & ? & ? & E1 & E). apply guard_not_ok in E1 as (Hpr%bool_decide_eq_false & -> & ->).
  apply ret_ok in E as (<- & -> & ->). split; [lia|]. intros _. simpl in Hpr |- *. split; [done|].
  exists rows, after, n1. split_and!; [done|lia|lia|lia|done..|]. intros r Hr. destruct (Hs r Hr) as (k & Hk & H1 & H2).
  exists k. split; [lia|]. split; [done|]. destruct H2 as [|[H2 H3]]; [by left|right]. split; [done|set_solver].
Qed.
Lemma surveyed_ext standalone g g1 rows matched n n' :
  path g1 = path g → token g1 = token g → surveyed standalone g1 rows matched n n' → surveyed standalone g rows matched n n'.
Proof.
  intros Hp Ht Hs r Hr. destruct (Hs r Hr) as (k & Hk & H1 & H2). exists k. split; [done|]. split; [done|].
  unfold without_marker, with_marker, isMarker in *. by rewrite <-Hp, <-Ht.
Qed.
(** What a pass that let the project through has seen. *)
Definition passed (project : string) (standalone : bool) (g g' : RuntimeGuard) (n n' : nat) : Prop :=
  project ∉ protected g' ∧ ∃ rows after k, ContainerList n = Ok rows ∧ length rows ≤ 1024 ∧ n < k < n' ∧
    ContainerList k = Ok after ∧ containerMembership rows = containerMembership after ∧ surveyed standalone g rows (protected g') n k.
Lemma checkProject_ok project standalone g n u g' n' : checkProject project standalone g n = (Ok u, (g', n')) →
  ∃ a, n ≤ a ∧ passed project standalone g g' a n'.
Proof.
  unfold checkProject. intros E. apply bind_ok in E as (? & g1 & n1 & E0 & E). unfold update in E0. injection E0 as _ <- <-.
  apply bind_ok in E as (? & g2 & n2 & E1 & E). set (g1 := mkGuard _ _ _ _ _) in E1.
  pose proof (checkMarker_state g1 n) as Hs2. pose proof (checkMarker_forward g1 n) as Hn2. rewrite E1 in Hs2, Hn2. simpl in Hs2, Hn2. subst g2.
  apply bind_ok in E as (? & g3 & n3 & E2 & E). pose proof (checkDaemon_forward g1 n2) as Hn3. rewrite E2 in Hn3. simpl in Hn3.
  apply checkDaemon_spec in E2 as [[_ Hf]|(_ & id & _ & _ & ->)]; [done|].
  apply bind_ok in E as (b & g4 & n4 & E3 & E). apply attemptOnce_ok in E3 as (Hn4 & Hp4 & Ht4 & Hb).
  assert (∀ gx a b, path gx = path g → token gx = token g → (project ∉ protected g' ∧ ∃ rows after k, ContainerList a = Ok rows ∧ length rows ≤ 1024 ∧ a < k < b ∧
      ContainerList k = Ok after ∧ containerMembership rows = containerMembership after ∧ surveyed standalone gx rows (protected g') a k) →
      passed project standalone g g' a b) as Hpass.
  { intros gx a b0 Hp Ht (H1 & rows & after & k & H2 & H3 & H4 & H5 & H6 & H7). split; [done|].
    exists rows, after, k. split_and!; try done; try lia. by eapply surveyed_ext. }
  destruct b.
  - apply ret_ok in E as (_ & -> & ->). exists n3. split; [lia|]. eapply Hpass; [..|by apply Hb]; done.
  - apply bind_ok in E as (b & g5 & n5 & E3 & E). apply attemptOnce_ok in E3 as (Hn5 & Hp5 & Ht5 & Hb5). destruct b; [|done].
    apply ret_ok in E as (_ & -> & ->). exists n4. split; [lia|]. eapply Hpass; [..|by apply Hb5]; [by rewrite Hp4|by rewrite Ht4].
Qed.


(** ** For good *)

(** The guard after any further checks. *)
Inductive guard_step : RuntimeGuard → RuntimeGuard → Prop :=
| s_check project standalone g n : guard_step g (checkProject project standalone g n).2.1
| s_host project g n : guard_step g (CheckOnDemandHost project g n).2.1.
Lemma CheckOnDemandHost_keeps g0 project : maintains (keeps g0) (CheckOnDemandHost project).
Proof. unfold CheckOnDemandHost, unavailable. walk ltac:(first [apply checkProject_keeps|apply keeps_same; done|idtac]). Qed.
Lemma protected_forever g g' : star guard_step g g' → protected g ⊆ protected g'.
Proof.
  induction 1 as [g|g1 g2 g3 Hstep _ IH]; [done|]. etrans; [|exact IH]. destruct Hstep as [project standalone g n|project g n].
  - apply (checkProject_keeps g project standalone g n (keeps_refl g n)).
  - apply (CheckOnDemandHost_keeps g project g n (keeps_refl g n)).
Qed.
(** What was once found to be Porty's own project stays protected: whatever
    is checked afterwards and whatever Docker answers, neither the check for
    updates nor the one for on-demand groups ever lets it pass again. *)
Theorem protected_for_good g g' project standalone n :
  project ∈ protected g → star guard_step g g' →
  is_ok (checkProject project standalone g' n).1 = false ∧ is_ok (CheckOnDemandHost project g' n).1 = false.
Proof.
  intros Hin Hs%protected_forever.
  assert (∀ st k, is_ok (checkProject project st g' k).1 = false) as Hc.
  { intros st k. destruct (checkProject project st g' k) as [[u|x] [g2 n2]] eqn:E; [|done]. exfalso.
    pose proof (checkProject_keeps g' project st g' k (keeps_refl g' k)) as Hk. rewrite E in Hk. destruct Hk as (_ & _ & Hk & _).
    apply checkProject_ok in E as (a & _ & Hnot & _). set_solver. }
  split; [apply Hc|]. unfold CheckOnDemandHost, mbind at 1, M_bind at 1, guard_not, lift. destruct (reject_if _ _); [|done].
  unfold mbind at 1, M_bind at 1. specialize (Hc true n). by destruct (checkProject project true g' n) as [[u|x] [g2 n2]].
Qed.
End guard.

(** ** Witnesses: Porty runs in the project [porty] beside another one *)
Section examples.
#[local] Existing Instance UpdateExample.api.
#[local] Instance ex_docker : GuardDocker := {|
  GetInfo _ := Ok (mkInfo "daemon" "linux" []);
  ContainerList _ := Ok [mkSummary "c1" "running" {["project" := "porty"]}; mkSummary "c2" "running" {["project" := "shop"]}];
  ContainerInspect id _ := Ok (mkInspected id (Some true) (Some "host"));
  CopyFromContainer id _ _ := if (id =? "c1")%string then Ok (Some (Ok "secret")) else Err ErrNoRows;
  IsNotFound e := bool_decide (e = ErrNoRows);
  DaemonHost := Some "unix:///run/docker.sock" |}.
#[local] Instance ex_files : GuardFiles := {| Lstat _ _ := Some (mkFileStat true 384 6); ReadFile _ _ := Some "secret" |}.
#[local] Instance ex_tar : TarReader := {| firstHeader _ := Some (mkTarHeader true "marker" 6); firstContent c := Some c; endsThere _ := true |}.
#[local] Instance ex_native : NativeNetwork := {| goosLinux := true; verifyNativeDockerNetwork _ _ := None |}.
Definition ex_guard : RuntimeGuard := NewRuntimeGuard "/tmp/porty/marker" "secret".
Definition ex_shop := checkProject "shop" false ex_guard 0.
Definition ex_own := checkProject "porty" false ex_guard 0.
Lemma protected_for_good_witness :
  ex_own.1 = Err Compose_ErrSelfProtected ∧
  is_ok (checkProject "porty" true (CheckOnDemandHost "shop" ex_own.2.1 50).2.1 90).1 = false.
Proof.
  split; [vm_compute; reflexivity|].
  assert ("porty" ∈ protected ex_own.2.1) as Hin by (vm_compute; reflexivity).
  refine (proj1 (protected_for_good ex_own.2.1 _ "porty" true 90 Hin _)).
  eapply star_step; [apply (s_host "shop" ex_own.2.1 50)|apply star_refl].
Defined.
End examples.
End SelfGuardLaws.
