(* ===== verification/UpdateLaws.v ===== *)
(** * What an automatic update relies on and changes

    A snapshot for an update describes a stack that runs completely, healthily
    and uniformly; what is recreated is the selection and nothing else. *)
From S2P Require Import Prelude GoStrings Netip Environment TimeParse Compose Updates UpdateExample.

Module UpdateLaws.
Import Environment Compose Updates.

(** What the code relies on of the packages for images. *)
Class ImagesLaws (I : Images) : Prop := {
  empty_digest : validDigest "" = false;
  with_digest d r r' : WithDigest r d = Some r' → ∃ q, ParseNormalizedNamed (NamedString r') = Some q ∧ Digested q = true;
}.

(** ** A snapshot *)
Section snapshot.
Context `{ComposeApi} `{W : World} `{I : Images} `{IL : !ImagesLaws I} `{D : !UpdateDocker} `{Dg : !Digests Project} {S : Type}.
Context (updates : bool) (p : Project) (allow : bool).

Lemma or_reject_ask_ok {A} (f : nat → result A) reason (s : S) n a s' n' :
  or_reject (ask f) reason s n = (Ok a, (s', n')) → f n = Ok a ∧ s' = s ∧ n' = Datatypes.S n.
Proof. unfold or_reject, catch, ask. destruct (f n); [naive_solver|done]. Qed.
Lemma or_reject_lift_ok {A} (r : result A) reason (s : S) n a s' n' :
  or_reject (lift r) reason s n = (Ok a, (s', n')) → r = Ok a ∧ s' = s ∧ n' = n.
Proof. unfold or_reject, catch, lift. destruct r; [naive_solver|done]. Qed.
Lemma reject_when_ok c reason (s : S) n u s' n' : reject_when c reason s n = (Ok u, (s', n')) → c = false ∧ s' = s ∧ n' = n.
Proof. apply guard_not_ok. Qed.

(** A container that was accepted. *)
Definition accepted (c : UpdateContainer) : Prop :=
  ∃ s, Services p !! UService c = Some s ∧ (UHealth c ≠ "" ∨ hasHealthcheck s = true → fit allow (UHealth c) = true) ∧
    validDigest (UImageID c) = true ∧ IsZero (UStartedAt c) = false ∧ (1 ≤ UReplica c)%Z.
Definition of_service (name : string) (l : list UpdateContainer) : list UpdateContainer := filter (λ c, UService c = name) l.
Record FoundOk (f : Found) : Prop := {
  found_each : Forall accepted (containers f);
  found_image c : c ∈ containers f → identities f !! UService c = Some (UImageID c);
  found_count name : default 0%Z (counts f !! name) = Z.of_nat (length (of_service name (containers f)));
  found_replica c : c ∈ containers f → replicaKey (UService c) (UReplica c) ∈ replicas f;
  found_distinct : NoDup ((λ c, (UService c, UReplica c)) <$> containers f);
  found_built c s : c ∈ containers f → Services p !! UService c = Some s → Build s = true → default "" (excluded f !! UService c) ≠ "";
}.
Lemma no_rows_ok : FoundOk no_rows.
Proof. split; simpl; try (intros; by match goal with H : _ ∈ [] |- _ => apply elem_of_nil in H end); [constructor|done|constructor]. Qed.

Lemma fit_spec s health : bool_decide (is_Some (StHealth s)) && negb (fit allow (default "" (StHealth s))) = false →
  health = default "" (StHealth s) → health ≠ "" → fit allow health = true.
Proof. intros Hh -> Hne. destruct (StHealth s) as [h|]; [|done]. simpl in *. by destruct (fit allow h). Qed.
Lemma reasonFor_built s i : Build s = true → reasonFor s i ≠ "".
Proof. intros E. unfold reasonFor. by rewrite E. Qed.

Lemma same_ask {A} (f : nat → result A) reason s0 : maintains (λ s _, s = s0) (or_reject (ask f) reason : M S A).
Proof. intros s n ->. unfold or_reject, catch, ask. by destruct (f n). Qed.
Lemma same_lift {A} (r : result A) reason s0 : maintains (λ s _, s = s0) (or_reject (lift r) reason : M S A).
Proof. intros s n ->. unfold or_reject, catch, lift. by destruct r. Qed.
Ltac same := repeat first
  [ apply same_ask | apply same_lift | apply maintains_lift | apply maintains_ret | apply maintains_fail
  | apply maintains_bind; [|intros ?] | case_match ].
Lemma inspectContainer_state f row (s : S) n : (inspectContainer p allow f row s n).2.1 = s.
Proof.
  assert (maintains (λ s' _, s' = s) (inspectContainer (S := S) p allow f row)) as Hm; [|by apply (Hm s)].
  unfold inspectContainer, reject_when, guard_not. same.
Qed.
Lemma inspectContainer_ok f row (s : S) n f' s' n' :
  inspectContainer p allow f row s n = (Ok f', (s', n')) → s' = s ∧ (FoundOk f → FoundOk f').
Proof.
  intros E. unfold inspectContainer in E.
  apply bind_ok in E as (? & s1 & n1 & E1 & E). apply reject_when_ok in E1 as (_ & -> & ->).
  apply bind_ok in E as (a & s1 & n1 & E1 & E). apply or_reject_ask_ok in E1 as (_ & -> & ->).
  destruct (Config a) as [labels|]; [|done]. destruct (CState a) as [st|]; [|done].
  apply bind_ok in E as (? & s1 & n1 & E1 & E). apply reject_when_ok in E1 as (_ & -> & ->).
  set (name := label labels ServiceLabel) in *. destruct (Services p !! name) as [sv|] eqn:Hs; [|done].
  apply bind_ok in E as (? & s1 & n1 & E1 & E). apply reject_when_ok in E1 as (_ & -> & ->).
  destruct (Atoi _) as [replica|]; [|done].
  apply bind_ok in E as (? & s1 & n1 & E1 & E). apply reject_when_ok in E1 as ([Hr1%Z.ltb_ge Hr2%bool_decide_eq_false]%orb_false_iff & -> & ->).
  apply bind_ok in E as (? & s1 & n1 & E1 & E). apply reject_when_ok in E1 as (_ & -> & ->).
  apply bind_ok in E as (? & s1 & n1 & E1 & E). apply reject_when_ok in E1 as (Hh1 & -> & ->).
  apply bind_ok in E as (? & s1 & n1 & E1 & E). apply reject_when_ok in E1 as (Hh2 & -> & ->).
  apply bind_ok in E as (started & s1 & n1 & E1 & E). apply or_reject_lift_ok in E1 as (Ht & -> & ->).
  apply bind_ok in E as (? & s1 & n1 & E1 & E). apply reject_when_ok in E1 as (Hd%negb_false_iff & -> & ->).
  apply bind_ok in E as (i & s1 & n1 & E1 & E). apply or_reject_ask_ok in E1 as (_ & -> & ->).
  apply bind_ok in E as (? & s1 & n1 & E1 & E). apply reject_when_ok in E1 as (_ & -> & ->).
  apply bind_ok in E as (? & s1 & n1 & E1 & E). apply reject_when_ok in E1 as (_ & -> & ->).
  apply bind_ok in E as (? & s1 & n1 & E1 & E). apply reject_when_ok in E1 as (Hprior & -> & ->).
  apply ret_ok in E as (<- & -> & _). split; [done|]. intros [H1 H2 H3 H4 H5 H6].
  assert (IsZero started = false) as Hz.
  { destruct (TimeParse.Parse _) as [t|]; [|done]. unfold reject_if in Ht. destruct (IsZero t) eqn:Ez; simpl in Ht; [done|]. by injection Ht as <-. }
  assert (Image a ≠ "") as Hne by (intros Eq; rewrite Eq, empty_digest in Hd; done).
  set (c := mkUpdateContainer _ _ _ _ _ _ _ _ _). split; simpl.
  - apply Forall_app. split; [done|]. apply Forall_singleton. exists sv. simpl. split_and!; [done| |done|done|lia].
    intros [Hhe|Hc]; [by eapply fit_spec|]. rewrite Hc in Hh2. by apply negb_false_iff in Hh2.
  - intros y [Hx| ->%list_elem_of_singleton]%elem_of_app; [|by rewrite lookup_insert_eq].
    destruct (decide (UService y = name)) as [En|Hne2]; [|rewrite lookup_insert_ne by done; by apply H2].
    rewrite En, lookup_insert_eq. specialize (H2 _ Hx). rewrite En in H2. rewrite H2 in Hprior. simpl in Hprior.
    apply andb_false_iff in Hprior as [E0|E0]; apply negb_false_iff, String.eqb_eq in E0; [|congruence].
    exfalso. rewrite Forall_forall in H1. destruct (H1 _ Hx) as (? & _ & _ & Hv & _). rewrite E0, empty_digest in Hv. done.
  - intros m. unfold of_service. rewrite filter_app, length_app, filter_cons, filter_nil. cbn [UService].
    specialize (H3 m). unfold of_service in H3. destruct (decide (name = m)) as [->|Hm].
    + rewrite lookup_insert_eq. cbn [of_service]. rewrite decide_True by done. cbn [length]. rewrite H3. cbn [default from_option]. rewrite Nat2Z.inj_add. done.
    + rewrite lookup_insert_ne by done. rewrite H3, decide_False by done. cbn [length]. lia.
  - intros y [Hx| ->%list_elem_of_singleton]%elem_of_app; [apply elem_of_union_r; by apply H4|]. simpl. set_solver.
  - rewrite fmap_app, NoDup_app. split; [done|]. split; [|apply NoDup_singleton].
    intros k (y & -> & Hx)%list_elem_of_fmap Hin. apply list_elem_of_singleton in Hin. injection Hin as E1 E2.
    apply Hr2. rewrite <-E1, <-E2. by apply H4.
  - intros y sv' [Hx| ->%list_elem_of_singleton]%elem_of_app Hsv Hb.
    + destruct (String.eqb_spec (reasonFor sv i) ""); [by eapply H6|].
      destruct (decide (UService y = name)) as [->|Hm]; [by rewrite lookup_insert_eq|]. rewrite lookup_insert_ne by done. by eapply H6.
    + change (UService c) with name in Hsv |- *. rewrite Hs in Hsv. injection Hsv as ->.
      destruct (String.eqb_spec (reasonFor sv' i) "") as [Er|Er]; [by apply reasonFor_built in Er|]. by rewrite lookup_insert_eq.
Qed.
Lemma inspectContainers_ok rows : ∀ f (s : S) n f' err s' n',
  inspectContainers p allow f rows s n = (Ok (f', err), (s', n')) → s' = s ∧ (FoundOk f → FoundOk f').
Proof.
  induction rows as [|row rows IH]; intros f s n f' err s' n' E.
  - apply ret_ok in E as ([= <- <-] & -> & _). done.
  - cbn [inspectContainers] in E. unfold mbind, M_bind, attempt in E.
    destruct (inspectContainer p allow f row s n) as [[f1|x] [s1 n1]] eqn:Er.
    + apply inspectContainer_ok in Er as [-> Hf]. apply IH in E as [-> Hf']. auto.
    + injection E as <- <- <- _. pose proof (inspectContainer_state f row s n) as Hs. rewrite Er in Hs. by split.
Qed.
Lemma checkScale_ok f l : ∀ excl excl',
  checkScale f excl l = (excl', None) →
  (∀ name s, (name, s) ∈ l → default 0%Z (counts f !! name) = Scale s ∧ (Scale s = 0%Z → default "" (excl' !! name) ≠ "")) ∧
  ∀ name, default "" (excl !! name) ≠ "" → default "" (excl' !! name) ≠ "".
Proof.
  induction l as [|[name s] l IH]; intros excl excl'; simpl.
  { intros [= <-]. split; [by intros ? ? []%elem_of_nil|done]. }
  destruct (Z.eqb_spec (default 0%Z (counts f !! name)) (Scale s)) as [Hc|]; simpl; [|done]. intros E.
  destruct (IH _ _ E) as [H1 H2]. split.
  - intros m t [[= -> ->]|Hin]%elem_of_cons; [|by apply H1]. split; [done|]. intros Hz. apply H2. rewrite Hz. simpl. by rewrite lookup_insert_eq.
  - intros m Hm. apply H2. destruct (Scale s =? 0)%Z; [|done].
    destruct (decide (m = name)) as [->|]; [by rewrite lookup_insert_eq|by rewrite lookup_insert_ne].
Qed.
(** A stack that runs completely, healthily and uniformly. *)
Record Uniform (s : UpdateSnapshot) : Prop := {
  uni_project : SProject s = Some p;
  uni_some : SContainers s ≠ [];
  uni_each : Forall accepted (SContainers s);
  uni_image c c' : c ∈ SContainers s → c' ∈ SContainers s → UService c = UService c' → UImageID c = UImageID c';
  uni_replica : NoDup ((λ c, (UService c, UReplica c)) <$> SContainers s);
  uni_scale name sv : Services p !! name = Some sv → Scale sv = Z.of_nat (length (of_service name (SContainers s)));
  uni_excluded name sv : Services p !! name = Some sv → Build sv = true ∨ Scale sv = 0%Z → default "" (Excluded s !! name) ≠ "";
}.
Lemma of_service_elem c name l : c ∈ of_service name l ↔ UService c = name ∧ c ∈ l.
Proof. unfold of_service. by rewrite list_elem_of_filter. Qed.
Lemma uniform_from_found f excl digest :
  FoundOk f → checkScale f (excluded f) (map_to_list (Services p)) = (excl, None) → containers f ≠ [] →
  Uniform (mkUpdateSnapshot (Some p) digest (merge_sort container_le (containers f)) excl).
Proof.
  intros [H1 H2 H3 H4 H5 H6] [Hs He]%checkScale_ok Hne.
  pose proof (merge_sort_Permutation container_le (containers f)) as Hp.
  assert (∀ name sv, Services p !! name = Some sv → Scale sv = Z.of_nat (length (of_service name (containers f)))) as Hscale.
  { intros name sv Hsv. rewrite <-H3. symmetry. apply (Hs name sv). by apply elem_of_map_to_list. }
  split; simpl.
  - done.
  - intros E. rewrite E in Hp. by apply Permutation_nil_l in Hp.
  - by rewrite Hp.
  - intros c c' Hc Hc' Eq. rewrite Hp in Hc, Hc'. apply H2 in Hc, Hc'. rewrite Eq in Hc. congruence.
  - by rewrite Hp.
  - intros name sv Hsv. unfold of_service. rewrite Hp. by apply Hscale.
  - intros name sv Hsv [Hb|Hz].
    + destruct (decide (Scale sv = 0%Z)) as [Hz|Hz]; [apply (Hs name sv); [by apply elem_of_map_to_list|done]|].
      rewrite (Hscale _ _ Hsv) in Hz. destruct (of_service name (containers f)) as [|c l] eqn:El; [done|].
      assert (c ∈ of_service name (containers f)) as [<- Hc]%of_service_elem by (rewrite El; by left). apply He. by eapply H6.
    + apply (Hs name sv); [by apply elem_of_map_to_list|done].
Qed.
Lemma inspect_uniform env (s : S) n snap s' n' :
  inspectUpdateProject updates p env allow s n = (Ok (snap, None), (s', n')) → s' = s ∧ Uniform snap.
Proof.
  unfold inspectUpdateProject. destruct (negb updates); [done|]. destruct (negb _); [done|]. destruct (existsb _ _); [done|].
  destruct (Digest p env) as [digest|]; [|done]. unfold attempt. unfold mbind at 1, M_bind at 1.
  destruct (or_reject (S := S) _ _ s n) as [[rows|x] [s1 n1]] eqn:E1; [|done]. apply or_reject_ask_ok in E1 as (_ & -> & ->).
  unfold mbind, M_bind. destruct (inspectContainers p allow no_rows rows s _) as [[[f err]|x] [s2 n2]] eqn:E2; [|done].
  apply inspectContainers_ok in E2 as [-> Hf]. specialize (Hf no_rows_ok). destruct err as [x|]; [done|].
  destruct (checkScale f (excluded f) _) as [excl [x|]] eqn:E3; [done|]. simpl. case_bool_decide as Hn; [done|].
  intros [= <- <- _]. split; [done|]. by eapply uniform_from_found.
Qed.
End snapshot.

(** ** The selection *)
Notation changed := Database.Data.Service.
Notation target := Database.Data.TargetReference.

(** Recreating the selected services leaves the service [name] alone. *)
Record Independent (selected : gset string) (name : string) (s : Service) : Prop := {
  ind_hooks : name ∈ selected →
    PostStart s = 0 ∧ PreStop s = 0 ∧ SLinks s = [] ∧ ExternalLinks s = [] ∧ VolumesFrom s = [];
  ind_restart dep d : DependsOn s !! dep = Some d → Restart d = true → name ∉ selected ∧ dep ∉ selected;
  ind_links link : link ∈ SLinks s ++ VolumesFrom s → serviceOf link ∉ selected;
  ind_modes mode : mode ∈ [SNetworkMode s; Ipc s; Pid s] → HasPrefix mode "container:" = false ∧
    (HasPrefix mode "service:" = true → name ∉ selected ∧ TrimPrefix mode "service:" ∉ selected);
}.
Lemma blocks_spec selected name s : blocks selected (name, s) = false → Independent selected name s.
Proof.
  unfold blocks. intros [[[Hh Hr]%orb_false_iff Hl]%orb_false_iff Hm]%orb_false_iff.
  rewrite existsb_false in Hr. rewrite existsb_false in Hl. rewrite existsb_false in Hm. split.
  - intros Hin. rewrite bool_decide_true in Hh by done. cbn [andb] in Hh. rewrite !orb_false_iff, !bool_decide_eq_false in Hh.
    destruct Hh as ((((H1 & H2) & H3) & H4) & H5). split_and!; try lia; apply nil_length_inv; lia.
  - intros dep d Hd Hre. specialize (Hr (dep, d) ltac:(by apply elem_of_map_to_list)). simpl in Hr. rewrite Hre in Hr. cbn [andb] in Hr.
    by rewrite orb_false_iff, !bool_decide_eq_false in Hr.
  - intros link Hin. by apply Hl, bool_decide_eq_false in Hin.
  - intros mode Hin. specialize (Hm _ Hin). unfold attached in Hm. apply orb_false_iff in Hm as [Hm Hc]. split; [done|].
    intros Hs. rewrite Hs in Hm. cbn [andb] in Hm. by rewrite orb_false_iff, !bool_decide_eq_false in Hm.
Qed.
Lemma validateUpdateSelection_ok p selected u name s :
  validateUpdateSelection p selected = Ok u → Services p !! name = Some s → Independent selected name s.
Proof.
  intros Hv%reject_if_ok Hs. rewrite existsb_false in Hv. apply blocks_spec, Hv. by apply elem_of_map_to_list.
Qed.

Section apply.
Context `{I : Images} `{U : UpdateEngine}.
Definition recreatable (p : Project) (c : ImageChange) : Prop :=
  ∃ s r, Services p !! changed c = Some s ∧ Scale s ≠ 0%Z ∧ Build s = false ∧ ParseNormalizedNamed (target c) = Some r ∧ Digested r = true.
Lemma selectChanges_ok p l : ∀ selected selected',
  selectChanges p selected l = Ok selected' →
  Forall (recreatable p) l ∧ NoDup (changed <$> l) ∧ (∀ c, c ∈ l → changed c ∉ selected) ∧
  selected' = list_to_set (changed <$> l) ∪ selected.
Proof.
  induction l as [|c l IH]; intros selected selected'; simpl.
  { intros [= <-]. split_and!; [constructor|constructor|by intros ? []%elem_of_nil|set_solver]. }
  intros (u & He%reject_if_ok%negb_false_iff & Hr)%result_bind_ok. destruct (IH _ _ Hr) as (H1 & H2 & H3 & ->).
  unfold eligible in He. destruct (Services p !! changed c) as [s|] eqn:Hs; [|done].
  apply andb_prop in He as [[[Ha%negb_true_iff Hb%negb_true_iff]%andb_prop Hc%negb_true_iff%bool_decide_eq_false]%andb_prop Hd].
  destruct (ParseNormalizedNamed (target c)) as [r|] eqn:Ep; [|done]. split_and!.
  - constructor; [|done]. exists s, r. split_and!; [done|by apply Z.eqb_neq|done..].
  - apply NoDup_cons. split; [|done]. intros (c' & Eq & Hin)%list_elem_of_fmap. apply (H3 _ Hin). rewrite <-Eq. set_solver.
  - intros c' [->|Hin]%elem_of_cons; [done|]. specialize (H3 _ Hin). set_solver.
  - set_solver.
Qed.
Lemma retarget_spec c m name :
  retarget m c !! name = if bool_decide (name = changed c) then retarget m c !! changed c else m !! name.
Proof. case_bool_decide as E; [by rewrite E|]. unfold retarget. by rewrite lookup_insert_ne. Qed.
Definition retargeted (c : ImageChange) (s : Service) : Prop := SImage s = target c ∧ PullPolicy s = PullPolicyNever ∧ Build s = false.
Lemma retargets_spec l : ∀ m, NoDup (changed <$> l) →
  (∀ c, c ∈ l → ∃ s, foldl retarget m l !! changed c = Some s ∧ retargeted c s) ∧
  (∀ name, name ∉ changed <$> l → foldl retarget m l !! name = m !! name).
Proof.
  induction l as [|c l IH]; intros m Hnd; simpl; [split; [by intros ? []%elem_of_nil|done]|].
  apply NoDup_cons in Hnd as [Hc Hnd]. destruct (IH (retarget m c) Hnd) as [H1 H2]. split.
  - intros c' [->|Hin]%elem_of_cons; [|by apply H1]. rewrite (H2 _ Hc). unfold retarget. rewrite lookup_insert_eq. by eexists.
  - intros name [Hne Hn]%not_elem_of_cons. rewrite (H2 _ Hn), retarget_spec. by rewrite bool_decide_false.
Qed.

(** C17. Applying an update either recreates nothing and reports an error, or
    asks Compose once, right after the guard has let the project pass, to
    recreate the services that change, each once, and gives each of them its
    image by digest, never to be pulled or built; no other service is attached
    to one of them in a way that would recreate or restart it as well, and the
    others are passed on as they were. *)
Theorem only_the_selection_is_recreated prepared t n r t' n' :
  ApplyUpdate prepared t n = (r, (t', n')) →
  (t' = t ∧ is_ok r = false) ∨
  ∃ p p0 q k, let names := changed <$> Changes prepared in
    SProject (Snapshot prepared) = Some p ∧ WithSelectedServices p names = Some p0 ∧
    t' = t ++ [(mkUpCall q names, S k)] ∧ CheckProject (PName q) k = None ∧ names ≠ [] ∧ NoDup names ∧
    Forall (recreatable p) (Changes prepared) ∧
    (∀ name s, Services p !! name = Some s → Independent (list_to_set names) name s) ∧
    (∀ c, c ∈ Changes prepared → ∃ s, Services q !! changed c = Some s ∧ retargeted c s) ∧
    (∀ name, name ∉ names → Services q !! name = Services p0 !! name) ∧
    r = (if is_ok (Up (mkUpCall q names) (S k)) then Ok tt else Err Compose_ErrUpdateApplyFailed).
Proof.
  unfold ApplyUpdate. destruct (SProject (Snapshot prepared)) as [p|]; [|intros [= <- <- _]; by left].
  unfold guard_not. rewrite bind_lift. unfold reject_if. case_bool_decide as Hn; [intros [= <- <- _]; by left|].
  rewrite bind_lift. destruct (selectChanges p ∅ (Changes prepared)) as [selected|x] eqn:Es; [|intros [= <- <- _]; by left].
  apply selectChanges_ok in Es as (H1 & H2 & _ & ->). rewrite bind_lift.
  destruct (validateUpdateSelection p _) as [u|x] eqn:Ev; [|intros [= <- <- _]; by left].
  destruct (WithSelectedServices p _) as [p0|] eqn:Ew; [|intros [= <- <- _]; by left].
  unfold mbind, M_bind. set (q := mkProject _ _ _). cbn beta iota zeta.
  destruct (CheckProject (PName q) n) as [x|] eqn:Ec; [intros [= <- <- _]; by left|]. unfold catch.
  destruct (retargets_spec (Changes prepared) (Services p0) H2) as [H3 H4].
  intros E. right. exists p, p0, q, n. cbv zeta.
  assert (t' = t ++ [(mkUpCall q (changed <$> Changes prepared), S n)] ∧
    r = (if is_ok (Up (mkUpCall q (changed <$> Changes prepared)) (S n)) then Ok tt else Err Compose_ErrUpdateApplyFailed)) as [-> ->].
  { destruct (Up _ (S n)) as [[]|x]; injection E as <- <- _; done. }
  split_and!; try done.
  - by destruct (Changes prepared).
  - intros name s Hs. eapply validateUpdateSelection_ok in Ev; [|exact Hs]. by rewrite (right_id_L ∅ (∪)) in Ev.
Qed.
End apply.

(** ** Witnesses *)
Section examples.
Import UpdateExample.
Lemma images_laws : ImagesLaws UpdateExample.images.
Proof. split; [done|]. intros d r r' [= <-]. by eexists. Qed.
Lemma snapshot_taken : UpdateExample.inspection = (Ok (UpdateExample.snapshot, None), (tt, 5)).
Proof. vm_compute. reflexivity. Qed.
Definition ex_apply := ApplyUpdate prepared [] 50.
Lemma only_the_selection_is_recreated_witness :
  is_ok ex_apply.1 = true ∧ ∃ q, ex_apply.2.1 = [(mkUpCall q ["web"%string], 51)] ∧
    ∃ s, Services q !! "web"%string = Some s ∧ SImage s = "@nginx:sha256:9"%string.
Proof.
  assert (is_ok ex_apply.1 = true) as Hr by (vm_compute; reflexivity).
  assert (Changes prepared = [Database.Data.mkImageChange "web" "nginx" "@nginx:sha256:9" "linux/amd64" "sha256:1" "sha256:2" "sha256:9"]) as Hc
    by (vm_compute; reflexivity).
  assert (length ex_apply.2.1 = 1 ∧ snd <$> ex_apply.2.1 = [51]) as [Hl H51] by (vm_compute; split; reflexivity).
  split; [exact Hr|]. destruct (only_the_selection_is_recreated prepared [] 50 ex_apply.1 ex_apply.2.1 ex_apply.2.2)
    as [[_ Hf]|(p & p0 & q & k & _ & _ & Ht & _ & _ & _ & _ & _ & Hi & _)].
  - unfold ex_apply. by destruct (ApplyUpdate prepared [] 50) as [? []].
  - rewrite Hr in Hf. discriminate Hf.
  - exists q. rewrite Ht in H51 |- *. rewrite Hc in Hi |- *. simpl in H51. injection H51 as ->. split; [reflexivity|].
    destruct (Hi _ (list_elem_of_here _ _)) as (s & Hs & Hi1 & _). exists s. split; [exact Hs|exact Hi1].
Defined.
End examples.
End UpdateLaws.
