(* ===== verification/UpdateVerifyLaws.v ===== *)
(** * What a verified update has shown

    A verification that reports no error has seen the whole stack run, with the
    new images where they were to be put and everything else untouched; and the
    verification ends. *)
From S2P Require Import Prelude GoStrings Environment TimeText Compose Lifecycle LifecycleLaws Updates UpdateExample UpdateLaws UpdateVerify.

Module UpdateVerifyLaws.
Import Database.Data.
Import Environment Compose Updates UpdateLaws UpdateVerify.
Notation changed := Database.Data.Service.

(** ** One inspection *)
Definition quietRow (selected : gmap string ImageChange) (c : UpdateContainer) : Prop :=
  is_Some (selected !! UService c) ∧ UHealth c = "".
#[export] Instance quietRow_dec selected c : Decision (quietRow selected c).
Proof. apply _. Defined.
Definition printOf (selected : gmap string ImageChange) (rows : list UpdateContainer) : string :=
  String.concat "|" (SortStrings (identityOf <$> filter (quietRow selected) rows)).
(** What is asked of a container. *)
Definition asWanted (selected : gmap string ImageChange) (unchanged : gset string) (c : UpdateContainer) : Prop :=
  match selected !! UService c with Some change => UImageID c = AfterImageID change | None => UID c ∈ unchanged end.
Lemma judge_spec selected unchanged rows : ∀ r r',
  judge selected unchanged r rows = Some r' →
  Forall (asWanted selected unchanged) rows ∧
  identity r' = identity r ++ (identityOf <$> filter (quietRow selected) rows) ∧
  (healthPending r' = false → healthPending r = false ∧ ∀ c, c ∈ rows → is_Some (selected !! UService c) → UHealth c ≠ "starting") ∧
  (needsStability r' = false → needsStability r = false ∧ filter (quietRow selected) rows = []) ∧
  (∀ id, id ∈ seen r' ↔ id ∈ seen r ∨ ∃ c, c ∈ rows ∧ selected !! UService c = None ∧ UID c = id).
Proof.
  induction rows as [|c rows IH]; intros r r' E; simpl in E.
  { injection E as <-. rewrite app_nil_r. split_and!; try done; [intros ?; split; [done|by intros ? []%elem_of_nil]|].
    intros id. split; [by left|]. intros [|(? & []%elem_of_nil & _)]; done. }
  destruct (selected !! UService c) as [ch|] eqn:Ec.
  - destruct (String.eqb_spec (UImageID c) (AfterImageID ch)) as [Ei|]; simpl in E; [|done].
    destruct (IH _ _ E) as (H1 & H2 & H3 & H4 & H5). clear IH E. simpl in *. split_and!.
    + constructor; [by unfold asWanted; rewrite Ec|done].
    + rewrite H2, filter_cons. destruct (String.eqb_spec (UHealth c) "") as [Eq|Eq].
      * rewrite decide_True by (split; [by rewrite Ec|done]). simpl. by rewrite <-(assoc_L (++)).
      * by rewrite decide_False by (intros [_ ?]; done).
    + intros Hp. destruct (H3 Hp) as [[Hp1 Hp2%String.eqb_neq]%orb_false_iff Hr]. split; [done|].
      intros c' [->|Hin]%elem_of_cons; [done|by apply Hr].
    + intros Hn. destruct (H4 Hn) as [[Hn1 Hn2%String.eqb_neq]%orb_false_iff Hr]. split; [done|].
      rewrite filter_cons, decide_False by (intros [_ ?]; done). done.
    + intros id. rewrite H5. split; (intros [|(c' & Hin & ? & ?)]; [by left|right]); [exists c'; split_and!; [by right|done..]|].
      apply elem_of_cons in Hin as [->|Hin]; [congruence|by exists c'].
  - case_bool_decide as Hu; [|done]. destruct (IH _ _ E) as (H1 & H2 & H3 & H4 & H5). clear IH E. simpl in *.
    assert (¬ quietRow selected c) as Hq by (intros [Hs _]; rewrite Ec in Hs; by destruct Hs).
    rewrite filter_cons, decide_False by done. split_and!; [|done| |done|].
    + constructor; [by unfold asWanted; rewrite Ec|done].
    + intros Hp. destruct (H3 Hp) as [Hp1 Hr]. split; [done|]. intros c' [->|Hin]%elem_of_cons Hs; [rewrite Ec in Hs; by destruct Hs|by apply Hr].
    + intros id. rewrite H5, elem_of_union, elem_of_singleton. split.
      * intros [[->|]|(c' & Hin & ? & ?)]; [right; exists c; split_and!; [by left|done..]|by left|right; exists c'; split_and!; [by right|done..]].
      * intros [|(c' & [->|Hin]%elem_of_cons & ? & <-)]; [by left; right|by left; left|right; by exists c'].
Qed.
Lemma judged_spec selected unchanged rows r :
  judged selected unchanged rows = Some r →
  Forall (asWanted selected unchanged) rows ∧ fingerprint r = printOf selected rows ∧
  (healthPending r = false → ∀ c, c ∈ rows → is_Some (selected !! UService c) → UHealth c ≠ "starting") ∧
  (needsStability r = false → filter (quietRow selected) rows = []) ∧
  ∀ id, id ∈ unchanged → ∃ c, c ∈ rows ∧ selected !! UService c = None ∧ UID c = id.
Proof.
  unfold judged. destruct (judge selected unchanged emptyRound rows) as [r0|] eqn:E; [|done]. cbn [mbind option_bind].
  case_bool_decide as Hs; [|done]. intros [= <-]. apply judge_spec in E as (H1 & H2 & H3 & H4 & H5). split_and!; [done| | | |].
  - unfold fingerprint, printOf. by rewrite H2.
  - intros Hp. by apply H3.
  - intros Hn. by apply H4.
  - assert (seen r0 ⊆ unchanged) as Hsub.
    { intros id Hid. apply H5 in Hid as [[]%elem_of_empty|(c & Hin & Hc & <-)]. rewrite Forall_forall in H1.
      specialize (H1 _ Hin). unfold asWanted in H1. by rewrite Hc in H1. }
    assert (seen r0 = unchanged) as <- by (apply set_subseteq_size_eq; [done|lia]).
    intros id Hid. apply H5 in Hid as [[]%elem_of_empty|]. done.
Qed.
Lemma concat_empty l : (∀ x, x ∈ l → x ≠ "") → String.concat "|" l = "" → l = [].
Proof.
  intros Hne. destruct l as [|x [|y l]]; [done|..]; simpl.
  - intros ->. by destruct (Hne "" (list_elem_of_here _ _)).
  - destruct x as [|a x]; [by destruct (Hne "" (list_elem_of_here _ _))|done].
Qed.
Lemma printOf_empty selected rows : printOf selected rows = "" → filter (quietRow selected) rows = [].
Proof.
  unfold printOf. intros H. apply concat_empty in H.
  - pose proof (merge_sort_Permutation string_le (identityOf <$> filter (quietRow selected) rows)) as Hp.
    unfold SortStrings in H. rewrite H in Hp. apply Permutation_nil_l in Hp. symmetry in Hp. by apply fmap_nil_inv in Hp.
  - intros x Hx. unfold SortStrings in Hx. rewrite merge_sort_Permutation in Hx. apply list_elem_of_fmap in Hx as (c & -> & _).
    unfold identityOf. by destruct (UID c).
Qed.

(** ** The loop *)
Section verify.
Context `{ComposeApi} `{W : World} `{I : Images} `{IL : !ImagesLaws I} `{D : !UpdateDocker} `{Dg : !Digests Project} `{Wt : Waiting} {S : Type}.
Context (updates : bool).

Lemma forward_or_reject_ask {A} (f : nat → result A) reason : forward (or_reject (ask f) reason : M S A).
Proof. intros s n. unfold or_reject, catch, ask. destruct (f n); simpl; lia. Qed.
Lemma forward_or_reject_lift {A} (r : result A) reason : forward (or_reject (lift r) reason : M S A).
Proof. intros s n. unfold or_reject, catch, lift. destruct r; simpl; lia. Qed.
#[local] Hint Resolve forward_or_reject_ask forward_or_reject_lift : pres.
Lemma forward_inspectContainer p allow f row : forward (inspectContainer p allow f row : M S _).
Proof. unfold inspectContainer, reject_when. fwd. Qed.
Lemma inspectContainers_run p allow rows : ∀ f (s : S) n,
  ∃ f' err n', inspectContainers p allow f rows s n = (Ok (f', err), (s, n')) ∧ n ≤ n'.
Proof.
  induction rows as [|row rows IH]; intros f s n; [by exists f, None, n|]. cbn [inspectContainers]. unfold mbind, M_bind, attempt.
  pose proof (inspectContainer_state p allow f row s n) as Hs. pose proof (forward_inspectContainer p allow f row s n) as Hn.
  destruct (inspectContainer p allow f row s n) as [[f1|x] [s1 n1]]; simpl in Hs, Hn; subst s1; [|by exists f, (Some x), n1].
  destruct (IH f1 s n1) as (f' & err & n' & -> & Hn'). exists f', err, n'. split; [done|lia].
Qed.
(** An inspection always answers, and only looks. *)
Lemma inspect_run p env allow (s : S) n :
  ∃ snap err n', inspectUpdateProject updates p env allow s n = (Ok (snap, err), (s, n')) ∧ n ≤ n'.
Proof.
  unfold inspectUpdateProject. destruct (negb updates); [do 3 eexists; split; [done|lia]|].
  destruct (negb _); [do 3 eexists; split; [done|lia]|]. destruct (existsb _ _); [do 3 eexists; split; [done|lia]|].
  destruct (Digest p env) as [digest|x]; [|do 3 eexists; split; [done|lia]]. unfold mbind at 1, M_bind at 1, attempt, or_reject, catch, ask.
  destruct (ContainerList (PName p) n) as [rows|x]; [|do 3 eexists; split; [done|lia]].
  unfold mbind, M_bind. destruct (inspectContainers_run p allow rows no_rows s (Datatypes.S n)) as (f & err & n1 & -> & Hn).
  destruct err as [x|]; [do 3 eexists; split; [done|lia]|].
  destruct (checkScale f (excluded f) _) as [excl [x|]]; [do 3 eexists; split; [done|lia]|].
  case_bool_decide; do 3 eexists; (split; [done|lia]).
Qed.

(** At the tick [k] the project was inspected, and it was as it should be. *)
Definition inspected (p : Project) (s : S) (k k' : nat) (snap : UpdateSnapshot) : Prop :=
  inspectUpdateProject updates p ∅ true s k = (Ok (snap, None), (s, k')).
(** Since when the containers without a health check have had this print. *)
Definition since (p : Project) (selected : gmap string ImageChange) (s : S) (print : string) (stable : time) (n : nat) : Prop :=
  print = "" ∨ ∃ snap k k' a, inspected p s k k' snap ∧ k' ≤ a < n ∧ stable = clock a ∧ print = printOf selected (SContainers snap).
(** What has been seen when the verification reports success. *)
Definition shown (p : Project) (selected : gmap string ImageChange) (unchanged : gset string) (s : S) (n' : nat) (snap : UpdateSnapshot) : Prop :=
  ∃ k k', inspected p s k k' snap ∧ k' ≤ n' ∧
    (∀ c, c ∈ SContainers snap → asWanted selected unchanged c ∧ (is_Some (selected !! UService c) → UHealth c ≠ "starting")) ∧
    (∀ id, id ∈ unchanged → ∃ c, c ∈ SContainers snap ∧ selected !! UService c = None ∧ UID c = id) ∧
    (filter (quietRow selected) (SContainers snap) = [] ∨
     ∃ snap0 k0 k0' a b, inspected p s k0 k0' snap0 ∧ k0' ≤ a < b ∧ k0 ≤ k ∧ k' ≤ b < n' ∧ (30 * Second ≤ Sub (clock b) (clock a))%Z ∧
       printOf selected (SContainers snap0) = printOf selected (SContainers snap)).
Lemma noteActual_service rows r : RService (noteActual rows r) = RService r.
Proof. unfold noteActual. revert r. induction rows as [|c rows IH]; intros r; simpl; [done|]. rewrite IH. by destruct (_ =? _)%string. Qed.
Lemma noteActual_other rows r : Forall (λ c, UService c ≠ RService r) rows → noteActual rows r = r.
Proof.
  unfold noteActual. induction 1 as [|c rows Hc _ IH]; simpl; [done|]. apply String.eqb_neq in Hc. by rewrite Hc.
Qed.
Lemma noteActual_same image rows r : (∀ c, c ∈ rows → UService c = RService r → UImageID c = image) →
  (∃ c, c ∈ rows ∧ UService c = RService r) → ActualImageID (noteActual rows r) = image.
Proof.
  revert r. induction rows as [|c rows IH] using rev_ind; intros r Hall (c0 & Hin & Hc0); [by apply elem_of_nil in Hin|].
  unfold noteActual. rewrite foldl_app. fold (noteActual rows r). cbn [foldl].
  destruct (String.eqb_spec (UService c) (RService (noteActual rows r))) as [Eq|Ne].
  - simpl. apply Hall; [apply elem_of_app; right; by left|]. by rewrite noteActual_service in Eq.
  - rewrite noteActual_service in Ne. apply elem_of_app in Hin as [Hin|Hin%list_elem_of_singleton]; [|congruence].
    apply IH; [|by exists c0]. intros c' Hc'. apply Hall. apply elem_of_app. by left.
Qed.
Lemma inspected_le p (s : S) k k' snap : inspected p s k k' snap → k ≤ k'.
Proof. unfold inspected. destruct (inspect_run p ∅ true s k) as (? & ? & ? & -> & ?). by intros [= _ _ <-]. Qed.
Lemma settle_spec p selected (s : S) print stable n k n1 snap r :
  since p selected s print stable n → inspected p s k n1 snap → n ≤ k → fingerprint r = printOf selected (SContainers snap) →
  ∃ stable' n2, (if (fingerprint r =? print)%string then mret stable else now) s n1 = (Ok stable', (s, n2)) ∧ n1 ≤ n2 ∧
    since p selected s (fingerprint r) stable' n2 ∧
    (fingerprint r = "" ∨ ∃ snap0 k0 k0' a, inspected p s k0 k0' snap0 ∧ k0' ≤ a < n2 ∧ k0 ≤ k ∧ stable' = clock a ∧
       printOf selected (SContainers snap0) = printOf selected (SContainers snap)).
Proof.
  intros Hs Hi Hk Hr. pose proof (inspected_le _ _ _ _ _ Hi) as Hkn. destruct (String.eqb_spec (fingerprint r) print) as [Ep|Ep].
  - exists stable, n1. split; [done|]. split; [lia|]. destruct Hs as [He|(snap0 & k0 & k0' & a & H0 & Ha & Hst & Hp)].
    + split; left; congruence.
    + pose proof (inspected_le _ _ _ _ _ H0).
      split; right; exists snap0, k0, k0', a; (split; [done|]); (split; [lia|]); [split; [done|congruence]|split; [lia|split; [done|congruence]]].
  - exists (clock n1), (Datatypes.S n1). split; [done|]. split; [lia|].
    split; right; exists snap, k, n1, n1; (split; [done|]); (split; [lia|]); [done|split; [lia|done]].
Qed.
Lemma since_le p selected (s : S) print stable n n' : n ≤ n' → since p selected s print stable n → since p selected s print stable n'.
Proof. intros Hn [He|(snap & k & k' & a & H1 & H2 & H3)]; [by left|right; exists snap, k, k', a; split; [done|]; split; [lia|done]]. Qed.
Definition base (r : ServiceUpdateResult) : string * string * string := (RService r, RBeforeImageID r, RTargetImageID r).
Lemma base_note rows (l : list ServiceUpdateResult) : base <$> (noteActual rows <$> l) = base <$> l.
Proof.
  rewrite <-list_fmap_compose. apply list_fmap_ext. intros _ r _. simpl. unfold noteActual. revert r.
  induction rows as [|c rows IH]; intros r; simpl; [done|]. rewrite IH. by destruct (_ =? _)%string.
Qed.
Lemma poll_spec fuel ctx deadline p selected unchanged (s : S) : ∀ services print stable n res s' n',
  since p selected s print stable n →
  poll updates fuel ctx deadline p selected unchanged services print stable s n = (Ok (Some (res, None)), (s', n')) →
  s' = s ∧ n ≤ n' ∧ RecoveryRequired res = false ∧ ∃ snap l, shown p selected unchanged s n' snap ∧
    UServices res = setVerified <$> (noteActual (SContainers snap) <$> l) ∧ base <$> l = base <$> services.
Proof.
  induction fuel as [|fuel IH]; intros services print stable n res s' n' Hsince E; [done|]. cbn [poll] in E.
  unfold mbind at 1, M_bind at 1, expired in E. destruct (ctx n) as [x|]; [done|].
  destruct (negb (Before _ _)); [done|]. unfold mbind at 1, M_bind at 1 in E.
  destruct (inspect_run p ∅ true s (Datatypes.S (Datatypes.S n))) as (snap & err & n1 & Ei & Hn1). rewrite Ei in E.
  destruct err as [x|]; [done|]. destruct (judged selected unchanged (SContainers snap)) as [r|] eqn:Ej; [|done].
  apply judged_spec in Ej as (H1 & H2 & H3 & H4 & H5). unfold mbind at 1, M_bind at 1 in E.
  destruct (settle_spec p selected s print stable n _ n1 snap r Hsince Ei ltac:(lia) H2) as (stable' & n2 & E2 & Hn2 & Hs2 & Hq).
  rewrite E2 in E. unfold mbind at 1, M_bind at 1 in E.
  assert (∀ n3, n2 ≤ n3 → (ok ← Wait ctx; (if ok : bool then poll updates fuel ctx deadline p selected unchanged
        (noteActual (SContainers snap) <$> services) (fingerprint r) stable' else mret (Some (failed (noteActual (SContainers snap) <$> services))))) s n3
        = (Ok (Some (res, None)), (s', n')) →
      s' = s ∧ n ≤ n' ∧ RecoveryRequired res = false ∧ ∃ snap l, shown p selected unchanged s n' snap ∧
        UServices res = setVerified <$> (noteActual (SContainers snap) <$> l) ∧ base <$> l = base <$> services) as Hnext.
  { intros n3 Hn3 E3. unfold mbind, M_bind, Wait in E3. destruct (fired n3); [|done].
    apply IH in E3 as (-> & Hn & Hrec & snap' & l & Hsh & Hl & Hb); [|by apply (since_le _ _ _ _ _ n2); [lia|]].
    split; [done|]. split; [lia|]. split; [done|]. exists snap', l. split; [done|]. split; [done|]. by rewrite Hb, base_note. }
  assert (∀ n3, n2 ≤ n3 → healthPending r = false → (needsStability r = false ∨ (n2 < n3 ∧ (30 * Second ≤ Sub (clock n2) stable')%Z)) →
      shown p selected unchanged s n3 snap) as Hshown.
  { intros n3 Hn3 Hp Hst. exists (Datatypes.S (Datatypes.S n)), n1. split; [exact Ei|]. split; [lia|].
    split; [intros c Hc; split; [by rewrite Forall_forall in H1; apply H1|by apply H3]|]. split; [exact H5|].
    destruct Hst as [Hst|[Hlt Hst]]; [left; by apply H4|]. destruct Hq as [Hq|(snap0 & k0 & k0' & a & G1 & G2 & G3 & G4 & G5)].
    - left. apply printOf_empty. by rewrite <-H2.
    - right. exists snap0, k0, k0', a, n2. split; [done|]. split; [lia|]. split; [lia|]. split; [lia|]. split; [by rewrite <-G4|done]. }
  assert (∀ n3, n2 ≤ n3 → shown p selected unchanged s n3 snap →
      (mret (Some (mkUpdateResult (setVerified <$> (noteActual (SContainers snap) <$> services)) false, @None error)) : M S _) s n3
        = (Ok (Some (res, None)), (s', n')) →
      s' = s ∧ n ≤ n' ∧ RecoveryRequired res = false ∧ ∃ snap l, shown p selected unchanged s n' snap ∧
        UServices res = setVerified <$> (noteActual (SContainers snap) <$> l) ∧ base <$> l = base <$> services) as Hdone.
  { intros n3 Hn3 Hsh E3. injection E3 as <- <- <-. split; [done|]. split; [lia|]. split; [done|]. by exists snap, services. }
  destruct (healthPending r) eqn:Ehp; [by apply (Hnext n2)|].
  destruct (needsStability r) eqn:Ens; cbn [negb] in E; [|apply (Hdone n2); [done|by apply Hshown; [|done|left]|done]].
  unfold mbind at 1, M_bind at 1, now in E. cbn beta iota in E.
  destruct (Z.leb_spec (30 * Second) (Sub (clock n2) stable')).
  - apply (Hdone (Datatypes.S n2)); [lia|apply Hshown; [lia|done|right; lia]|done].
  - apply (Hnext (Datatypes.S n2)); [lia|done].
Qed.
Lemma shown_uniform p selected unchanged (s : S) n' snap : shown p selected unchanged s n' snap → Uniform p true snap.
Proof. intros (k & k' & Hi & _). by eapply inspect_uniform in Hi as [_ ?]. Qed.

(** C16. A verification that reports no error has seen, in one inspection, the
    whole stack run as its configuration says: every container of an updated
    service with the image the update was to bring, and healthy if it has a
    health check; exactly the containers of the other services that were there
    before; and the containers without a health check the same, not restarted,
    as in an inspection thirty seconds earlier.  Then every service is reported
    as verified, with the image that runs, and no recovery is asked for. *)
Theorem a_verified_update_runs prepared (s : S) n res s' n' :
  VerifyUpdate updates prepared s n = (Ok (Some (res, None)), (s', n')) →
  let selected := selection (Changes prepared) in
  RecoveryRequired res = false ∧ base <$> UServices res = base <$> initialResults (Changes prepared) ∧
  ∃ p snap, SProject (Snapshot prepared) = Some p ∧ Uniform p true snap ∧
    shown p selected (untouched selected (Snapshot prepared)) s n' snap ∧
    (∀ c, c ∈ SContainers snap → is_Some (selected !! UService c) → UHealth c = "healthy" ∨ UHealth c = "") ∧
    ∀ r, r ∈ UServices res → ROutcome r = "verified" ∧
      ∀ change c, selected !! RService r = Some change → c ∈ SContainers snap → UService c = RService r →
        ActualImageID r = AfterImageID change.
Proof.
  unfold VerifyUpdate. destruct (SProject (Snapshot prepared)) as [p|]; [|done]. case_bool_decide as Hs; [done|].
  unfold mbind, M_bind, now. cbn beta iota. intros E. cbv zeta.
  apply poll_spec in E as (-> & _ & Hrec & snap & l & Hsh & Hl & Hb); [|by left]. pose proof (shown_uniform _ _ _ _ _ _ Hsh) as Hu.
  split; [done|]. split.
  { rewrite Hl, <-Hb, <-(base_note (SContainers snap) l), <-list_fmap_compose. done. }
  exists p, snap. split; [done|]. split; [done|]. split; [done|]. pose proof Hsh as (k & k' & _ & _ & Hrows & _). split.
  - intros c Hc Hsel. destruct (Hrows c Hc) as [_ Hst]. specialize (Hst Hsel).
    pose proof (uni_each _ _ _ Hu) as He. rewrite Forall_forall in He. destruct (He c Hc) as (sv & _ & Hf & _).
    destruct (String.eqb_spec (UHealth c) "") as [|Hne]; [by right|]. specialize (Hf (or_introl Hne)). unfold fit in Hf.
    destruct (String.eqb_spec (UHealth c) "healthy"); [by left|]. by destruct (String.eqb_spec (UHealth c) "starting").
  - intros r Hr. rewrite Hl in Hr. apply list_elem_of_fmap in Hr as (r1 & -> & (r0 & -> & Hr0)%list_elem_of_fmap). split; [done|].
    intros change c Hch Hc Hcs. simpl in Hch, Hcs |- *. rewrite noteActual_service in Hch, Hcs.
    apply noteActual_same; [|by exists c]. intros c' Hc' Hcs'. destruct (Hrows c' Hc') as [Hw _]. unfold asWanted in Hw.
    by rewrite Hcs', Hch in Hw.
Qed.

(** ** The verification ends *)

(** A clock that moves: time does not go back, a timer that fires has waited
    its second, and a context that is done ends a wait before its timer fires. *)
Class Ticking (deadline : time) : Prop := {
  clock_forward k : (clock k ≤ clock (Datatypes.S k))%Z;
  fired_waited k : fired k = true → (clock k + Second ≤ clock (Datatypes.S k))%Z;
  done_first k : is_Some (Lifecycle.withTimeout parent deadline k) → fired k = false;
}.
Lemma ticks_le deadline `{!Ticking deadline} n n' : n ≤ n' → (clock n ≤ clock n')%Z.
Proof. induction 1 as [|k _ IH]; [lia|]. pose proof (clock_forward (deadline := deadline) k). lia. Qed.
Lemma poll_ends fuel deadline `{!Ticking deadline} limit p selected unchanged : ∀ services print stable (s : S) n,
  (deadline - clock n < Z.of_nat fuel * Second)%Z →
  ∃ x s' n', poll updates (Datatypes.S fuel) (Lifecycle.withTimeout parent deadline) limit p selected unchanged services print stable s n = (Ok (Some x), (s', n')).
Proof.
  induction fuel as [|fuel IH]; intros services print stable s n Hf.
  { cbn [poll]. unfold mbind at 1, M_bind at 1, expired.
    assert (is_Some (Lifecycle.withTimeout parent deadline n)) as [x ->]; [|do 3 eexists; done].
    unfold Lifecycle.withTimeout. destruct (parent n); [done|]. by rewrite (proj2 (Z.leb_le _ _)) by lia. }
  remember (Datatypes.S fuel) as f1 eqn:Ef1. cbn [poll]. unfold mbind at 1, M_bind at 1, expired.
  destruct (Lifecycle.withTimeout parent deadline n) as [x|]; [do 3 eexists; done|].
  destruct (negb (Before _ _)); [do 3 eexists; done|]. unfold mbind at 1, M_bind at 1.
  destruct (inspect_run p ∅ true s (Datatypes.S (Datatypes.S n))) as (snap & err & n1 & -> & Hn1).
  destruct err as [x|]; [do 3 eexists; done|]. destruct (judged selected unchanged (SContainers snap)) as [r|]; [|do 3 eexists; done].
  assert (∀ stable' n3, n ≤ n3 → ∃ x s' n', (ok ← Wait (Lifecycle.withTimeout parent deadline); (if ok : bool then poll updates f1 (Lifecycle.withTimeout parent deadline) limit p selected unchanged
        (noteActual (SContainers snap) <$> services) (fingerprint r) stable' else mret (Some (failed (noteActual (SContainers snap) <$> services))))) s n3
        = (Ok (Some x), (s', n'))) as Hnext.
  { intros stable' n3 Hn3. unfold mbind, M_bind, Wait. destruct (fired n3) eqn:Ef; [|do 3 eexists; done]. subst f1. apply IH.
    pose proof (fired_waited (deadline := deadline) _ Ef). pose proof (ticks_le deadline n n3 Hn3). lia. }
  unfold mbind at 1, M_bind at 1.
  assert (∃ st n2, (if (fingerprint r =? print)%string then mret stable else now) s n1 = (Ok st, (s, n2)) ∧ n1 ≤ n2) as (st & n2 & -> & Hn2)
    by (destruct (_ =? _)%string; do 2 eexists; (split; [done|lia])).
  unfold mbind at 1, M_bind at 1.
  assert (∃ q n3, (if healthPending r then mret false else if negb (needsStability r) then mret true
      else t ← now; mret (30 * Second <=? Sub t st)%Z) s n2 = (Ok q, (s, n3)) ∧ n2 ≤ n3) as (q & n3 & -> & Hn3)
    by (destruct (healthPending r), (negb (needsStability r)); do 2 eexists; (split; [done|lia])).
  destruct q; [do 3 eexists; done|apply Hnext; lia].
Qed.
(** A verification ends: when time passes and waits take their second, the
    timeout cuts off a stack that never settles, so that the rounds of the
    model, one a second for five minutes and two more, are never used up. *)
Theorem verification_ends prepared (s : S) n :
  Ticking (Add (clock n) (5 * Minute)%Z) → (VerifyUpdate updates prepared s n).1 ≠ Ok None.
Proof.
  intros Ht. unfold VerifyUpdate. destruct (SProject _) as [p|]; [|done]. case_bool_decide; [done|].
  unfold mbind, M_bind, now. cbn beta iota.
  match goal with |- (poll _ rounds _ ?limit _ ?sel ?unch ?sv ?pr ?st s ?k).1 ≠ _ =>
    destruct (poll_ends 301 (Add (clock n) (5 * Minute)%Z) limit p sel unch sv pr st s k) as (x & s' & n' & E) end.
  - pose proof (ticks_le (Add (clock n) (5 * Minute)%Z) n (Datatypes.S (Datatypes.S (Datatypes.S n))) ltac:(lia)).
    unfold Add, Minute, Second in *. lia.
  - unfold rounds. by rewrite E.
Qed.
End verify.

(** ** Witnesses *)
Section examples.
Import UpdateExample.
Definition ex_verified := VerifyUpdate true prepared tt 100.
Definition ex_report : UpdateResult := match ex_verified.1 with Ok (Some (r, _)) => r | _ => mkUpdateResult [] true end.
Lemma a_verified_update_runs_witness :
  ex_verified.1 = Ok (Some (ex_report, None)) ∧ RecoveryRequired ex_report = false ∧
  ∃ p snap, SProject (Snapshot prepared) = Some p ∧ Uniform p true snap ∧
    ∀ c, c ∈ SContainers snap → UService c = "web"%string → UImageID c = "sha256:2"%string.
Proof.
  assert (ex_verified = (Ok (Some (ex_report, None)), (tt, 148))) as E by (vm_compute; reflexivity).
  assert (selection (Changes prepared) !! "web"%string
    = Some (mkImageChange "web" "nginx" "@nginx:sha256:9" "linux/amd64" "sha256:1" "sha256:2" "sha256:9")) as Hc by (vm_compute; reflexivity).
  split; [by rewrite E|].
  destruct (a_verified_update_runs (IL := images_laws) true prepared tt 100 ex_report tt 148 E) as (H1 & _ & p & snap & H2 & H3 & (k & k' & _ & _ & Hr & _) & _).
  split; [exact H1|]. exists p, snap. split; [exact H2|]. split; [exact H3|]. intros c Hin Hs. destruct (Hr c Hin) as [Hw _].
  unfold asWanted in Hw. rewrite Hs, Hc in Hw. exact Hw.
Defined.
Lemma verification_ends_witness : (VerifyUpdate true prepared tt 100).1 ≠ Ok None.
Proof.
  apply (verification_ends true prepared tt 100). split.
  - intros k. simpl. unfold Second. lia.
  - intros k _. simpl. unfold Second. lia.
  - intros k [e He]. unfold Lifecycle.withTimeout in He. cbn [parent UpdateExample.waiting] in He.
    destruct (_ <=? clock k)%Z eqn:El; [|discriminate He]. apply Z.leb_le in El.
    simpl in El. unfold Add, Minute, Second in El. apply bool_decide_eq_false. lia.
Defined.
End examples.
End UpdateVerifyLaws.
