(* ===== verification/UpdateImagesLaws.v ===== *)
(** * What a prepared update is

    A prepared update names images by digest that differ from what runs, for
    services that may be recreated on their own, so that it can be applied. *)
From S2P Require Import Prelude GoStrings Environment Compose Lifecycle Updates UpdateExample UpdateLaws UpdateImages.

Module UpdateImagesLaws.
Import Database.Data.
Import Updates UpdateLaws UpdateImages.
Notation changed := Database.Data.Service.

Section prepare.
Context `{W : World} `{I : Images} `{IL : !ImagesLaws I} `{D : !ImageDocker} `{E : Errdefs} `{Wt : Waiting} {S : Type}.

Lemma must_ok c (s : S) n u s' n' : must c s n = (Ok u, (s', n')) → c = true.
Proof. intros (H & _ & _)%guard_not_ok. by apply negb_false_iff. Qed.
Lemma present_ok {A} (x : option A) (s : S) n a s' n' : present x s n = (Ok a, (s', n')) → x = Some a.
Proof. destruct x; [by intros [= -> _ _]|done]. Qed.
Lemma resolve_ok named ref platform digest sel (s : S) n sel' manifest s' n' :
  validDigest (SelID sel) = true → resolve named ref platform digest sel s n = (Ok (sel', manifest), (s', n')) → validDigest (SelID sel') = true.
Proof.
  intros Hv H. unfold resolve in H. case_bool_decide; [|by injection H as <- _ _ _].
  apply bind_ok in H as (all & ? & ? & _ & H). destruct (filter _ all) as [|m [|]]; [done| |done].
  apply bind_ok in H as (? & ? & ? & _ & H). apply bind_ok in H as (ref' & ? & ? & _ & H).
  apply bind_ok in H as (sel1 & ? & ? & _ & H). apply bind_ok in H as (? & ? & ? & Hm & H).
  apply must_ok in Hm. apply andb_prop in Hm as [Hm _]. by injection H as <- _ _ _.
Qed.
(** A change that is worth making, from what runs to what the tag stands for. *)
Record Worthwhile (p : Project) (snap : UpdateSnapshot) (c : ImageChange) : Prop := {
  ww_included : default "" (Excluded snap !! changed c) = "";
  ww_running : ∃ run, run ∈ SContainers snap ∧ UService run = changed c ∧ UImageID run = BeforeImageID c ∧ UPlatform run = Database.Data.Platform c;
  ww_source : SourceReference c = SImage (default zeroService (Services p !! changed c));
  ww_different : AfterImageID c ≠ BeforeImageID c;
  ww_valid : validDigest (AfterImageID c) = true;
  ww_target : ∃ q, ParseNormalizedNamed (TargetReference c) = Some q ∧ Digested q = true;
}.
Lemma checkName_ok ctx deadline snap p name (s : S) n c s' n' :
  checkName ctx deadline snap p name s n = (Ok (Some c), (s', n')) → changed c = name ∧ Worthwhile p snap c.
Proof.
  unfold checkName. destruct (String.eqb_spec (default "" (Excluded snap !! name)) "") as [Hx|]; [|done]. cbn [negb].
  destruct (runningOf snap name) as [run|] eqn:Hr; [|done]. intros H. unfold checkService in H.
  assert (run ∈ SContainers snap ∧ UService run = name) as [Hin Hname].
  { unfold runningOf in Hr. assert (run ∈ filter (λ c, UService c = name) (SContainers snap)) as Hf
      by (destruct (filter _ _) as [|x l]; [done|]; injection Hr as ->; by left).
    apply list_elem_of_filter in Hf as [? ?]. done. }
  apply bind_ok in H as (named & ? & ? & _ & H). destruct (Digested named); [done|].
  apply bind_ok in H as (platform & ? & ? & _ & H). apply bind_ok in H as (digest & ? & ? & _ & H).
  apply bind_ok in H as (? & ? & ? & _ & H). apply bind_ok in H as (ref & ? & ? & Href & H). apply present_ok in Href.
  apply bind_ok in H as (? & ? & ? & _ & H). apply bind_ok in H as (sel & ? & ? & _ & H).
  apply bind_ok in H as (? & ? & ? & Hm & H). apply must_ok, andb_prop in Hm as [_ Hv].
  apply bind_ok in H as ([sel' manifest] & ? & ? & Hres & H). apply resolve_ok in Hres; [|done].
  destruct (String.eqb_spec (SelID sel') (UImageID run)); [done|]. injection H as <- _ _. split; [done|].
  split; try done; simpl; [by exists run|by eapply with_digest].
Qed.
Lemma checkNames_ok ctx deadline snap p names : ∀ (s : S) n cs s' n',
  checkNames ctx deadline snap p names s n = (Ok cs, (s', n')) →
  Forall (Worthwhile p snap) cs ∧ sublist (changed <$> cs) names.
Proof.
  induction names as [|name names IH]; intros s n cs s' n' H; simpl in H.
  - apply ret_ok in H as (<- & _ & _). split; constructor.
  - apply bind_ok in H as (c & s1 & n1 & Hc & H). apply bind_ok in H as (cs1 & s2 & n2 & Hcs & H). apply ret_ok in H as (<- & _ & _).
    apply IH in Hcs as [H1 H2]. destruct c as [c|]; [|by split; [|constructor]].
    apply checkName_ok in Hc as [Hn Hw]. split; [by constructor|]. simpl. rewrite Hn. by constructor.
Qed.
Lemma recreatable_selects p l : ∀ selected,
  Forall (recreatable p) l → NoDup (changed <$> l) → (∀ c, c ∈ l → changed c ∉ selected) → is_ok (selectChanges p selected l) = true.
Proof.
  induction l as [|c l IH]; intros selected Hl Hnd Hsel; simpl; [done|].
  apply Forall_cons in Hl as [(sv & r & H1 & H2 & H3 & H4 & H5) Hl]. apply NoDup_cons in Hnd as [Hc Hnd].
  unfold eligible. rewrite H1, H3, H4, H5. rewrite (proj2 (Z.eqb_neq _ _) H2), bool_decide_false by (apply Hsel; by left). simpl.
  apply IH; [done..|]. intros c' Hin [Heq%elem_of_singleton|Hs]%elem_of_union; [|by apply (Hsel c'); [by right|]].
  apply Hc. apply list_elem_of_fmap. by exists c'.
Qed.
Context `{U : UpdateEngine}.

(** C29. What was prepared from a snapshot can be applied: every change leads
    from an image that runs to a different one, known by its digest, of a
    service that updates are not to leave out, and changes each service at most
    once; and none of the checks of [ApplyUpdate] refuses the update, unless
    Compose cannot select the services or the guard does not let them pass. *)
Theorem prepared_updates_can_be_applied images limit snap p (s : S) n prepared s' n' :
  SProject snap = Some p → Uniform p false snap → PrepareUpdate images limit snap s n = (Ok prepared, (s', n')) →
  Snapshot prepared = snap ∧ Forall (Worthwhile p snap) (Changes prepared) ∧ NoDup (changed <$> Changes prepared) ∧
  (Changes prepared ≠ [] → ∀ t k, (ApplyUpdate prepared t k).1 = Err Compose_ErrUpdateIneligible →
     match WithSelectedServices p (changed <$> Changes prepared) with
     | None => True
     | Some p0 => CheckProject (PName p0) k = Some Compose_ErrUpdateIneligible
     end).
Proof.
  intros Hp Hu H. unfold PrepareUpdate in H. rewrite Hp in H. apply bind_ok in H as (? & ? & ? & _ & H).
  apply bind_ok in H as (t0 & ? & ? & _ & H). apply bind_ok in H as (cs & ? & ? & Hcs & H). apply bind_ok in H as (? & s2 & n2 & Hv & H).
  apply ret_ok in H as (<- & _ & _). apply checkNames_ok in Hcs as [Hw Hsub]. simpl. split; [done|]. split; [done|].
  assert (NoDup (changed <$> cs)) as Hnd.
  { eapply sublist_NoDup; [|exact Hsub]. unfold SortStrings. rewrite merge_sort_Permutation. apply NoDup_elements. }
  split; [done|]. intros Hne t k. unfold ApplyUpdate. simpl. rewrite Hp. unfold guard_not. rewrite bind_lift.
  unfold reject_if. rewrite bool_decide_false by by destruct cs. rewrite bind_lift.
  assert (Forall (recreatable p) cs) as Hrec.
  { apply Forall_forall. intros c Hc. rewrite Forall_forall in Hw. destruct (Hw c Hc) as [W1 (run & Hrun & Hsv & _) _ _ _ (q & Hq1 & Hq2)].
    pose proof (uni_each _ _ _ Hu) as He. rewrite Forall_forall in He. destruct (He run Hrun) as (sv & Hsv2 & _). rewrite Hsv in Hsv2.
    exists sv, q. pose proof (uni_excluded _ _ _ Hu _ _ Hsv2) as Hex. split_and!; [done|intros Hz; by apply Hex; [right|]| |done|done].
    destruct (Build sv); [|done]. exfalso. by apply Hex; [left|]. }
  pose proof (recreatable_selects p cs ∅ Hrec Hnd ltac:(set_solver)) as Hsel.
  destruct (selectChanges p ∅ cs) as [selected|y] eqn:Es; [|done]. apply selectChanges_ok in Es as (_ & _ & _ & ->). rewrite bind_lift.
  rewrite bool_decide_false in Hv by done. apply lift_ok in Hv as (Hv & _ & _). rewrite (right_id_L ∅ (∪)), Hv.
  destruct (WithSelectedServices p _) as [p0|]; [|done]. unfold mbind, M_bind. cbn beta iota zeta. cbn [PName].
  destruct (CheckProject (PName p0) k) as [y|]; [by intros [= ->]|]. unfold catch. by destruct (Up _ _).
Qed.
End prepare.

(** ** Witness *)
Section examples.
Import UpdateExample.
Lemma prepared_updates_can_be_applied_witness :
  NoDup (changed <$> Changes prepared) ∧ changed <$> Changes prepared = ["web"%string] ∧
  ∃ c, Changes prepared = [c] ∧ Worthwhile project snapshot c.
Proof.
  assert (preparation = (Ok prepared, (tt, 31))) as E by (vm_compute; reflexivity).
  assert (SProject snapshot = Some project) as Hp by (vm_compute; reflexivity).
  assert (changed <$> Changes prepared = ["web"%string]) as Hc by (vm_compute; reflexivity).
  destruct (prepared_updates_can_be_applied (IL := images_laws) true None snapshot project tt 20 prepared tt 31 Hp
    (proj2 (inspect_uniform (IL := images_laws) true project false ∅ tt 0 snapshot tt 5 snapshot_taken)) E) as (_ & Hw & Hn & _).
  split; [exact Hn|]. split; [exact Hc|]. destruct (Changes prepared) as [|c [|]]; [discriminate Hc| |discriminate Hc].
  exists c. split; [reflexivity|]. by apply Forall_inv in Hw.
Defined.
End examples.
End UpdateImagesLaws.
