(* ===== verification/OnDemandRuntime.v ===== *)
(** * The runtime of on-demand groups (src/internal/compose/client.go,
    on_demand.go, on_demand_host.go)

    The Docker client implements the interface of the on-demand service: a
    snapshot loads the project and inspects its containers, the counters are
    read from the engine, groups are started and stopped in order.  Loading a
    project is compose-go's work on the files of the stack, and the proof that
    Porty runs on the host's network is the guard's, an interface. *)
From S2P Require Import Prelude GoStrings Environment Compose Lifecycle Stacks OnDemandService OnDemandServiceLaws.

Module OnDemandRuntime.
Import Compose.

Class Loader := Load : Stacks.Request → nat → result Project.
Class HostGuard := checkHost : string → nat → option error.

Section runtime.
Context `{ComposeApi} `{W : World} `{D : !OnDemandDocker} `{Wt : Waiting} `{Dg : !Environment.Digests Project} `{St : StatsDocker}.
Context `{L : Loader}.
(** The guard, if it can prove the host, and whether there is an engine that
    can be asked about containers. *)
Context (guard : option HostGuard) (demand : bool).
Notation Trace := (list (Action * nat)).

Definition CheckOnDemandHost (project : string) : M Trace unit :=
  match guard with
  | None => fail Compose_ErrProtectionUnavailable
  | Some g => λ t n, (match checkHost (HostGuard := g) project n with None => Ok tt | Some e => Err e end, (t, S n))
  end.
Definition SnapshotOnDemand (request : Stacks.Request) (members : list string) : M Trace OnDemandSnapshot :=
  p ← engine (Load request);
  inspectOnDemandProject demand p (Stacks.Environment_ request) members.
(** The fuel of the polling loop suffices ([LifecycleLaws.starting_ends]). *)
Definition StartOnDemand (s : OnDemandSnapshot) (timeout : duration) : M Trace unit :=
  _ ← Lifecycle.StartOnDemand demand s timeout; mret tt.
#[export] Instance client : OnDemandService.OnDemandRuntime := {|
  OnDemandService.CheckOnDemandHost := CheckOnDemandHost;
  OnDemandService.SnapshotOnDemand := SnapshotOnDemand;
  OnDemandService.OnDemandCounters := readCounters demand;
  OnDemandService.StartOnDemand := StartOnDemand;
  OnDemandService.StopOnDemand := Lifecycle.StopOnDemand demand;
|}.

(** ** The client keeps what the service relies on *)
Lemma still_engine {A} (f : nat → result A) : still (engine f : M Trace A).
Proof. by intros t n. Qed.
Hint Resolve still_engine : still.
Lemma still_rows p selected external rows : ∀ seen, still (inspectRows p selected external seen rows : M Trace _).
Proof.
  induction rows as [|row rows IH]; intros seen; [apply still_ret|]. simpl. apply still_bind; [|intros a; apply IH].
  unfold inspectRow, or_reject. quietly idtac.
Qed.
Lemma still_networks l : still (checkNetworks l : M Trace _).
Proof. induction l as [|name l IH]; [apply still_ret|]. simpl. unfold or_reject. quietly idtac. Qed.
Hint Resolve still_rows still_networks : still.
Lemma still_members p seen order : ∀ acc, still (inspectMembers p seen acc order : M Trace _).
Proof.
  induction order as [|name order IH]; intros acc; [apply still_ret|]. simpl. apply still_bind; [|intros a; apply IH].
  unfold inspectMember, or_reject. quietly idtac.
Qed.
Hint Resolve still_members : still.
Lemma still_inspect p env members : still (inspectOnDemandProject demand p env members : M Trace _).
Proof. unfold inspectOnDemandProject, or_reject. quietly idtac. Qed.
Lemma still_counters ids : ∀ acc, still (countersOf ids acc : M Trace _).
Proof. induction ids as [|id ids IH]; intros acc; [apply still_ret|]. simpl. quietly idtac. Qed.
#[export] Instance client_laws : OnDemandServiceLaws.RuntimeLaws (R := client).
Proof.
  split; simpl.
  - intros p t n. unfold CheckOnDemandHost. by destruct guard.
  - intros q l. apply still_bind; [apply still_engine|intros p; apply still_inspect].
  - intros l. unfold readCounters. quietly ltac:(apply still_counters).
Qed.
End runtime.
End OnDemandRuntime.
